(** * Varcoin: transaction builder and unspent selector

    A shallow embedding of [src/Core/TransactionBuilder.cpp] and the
    properties its specification states about it.

    Conventions of the embedding.
    - Unsigned machine integers ([uint32_t], [uint64_t], [Amount]) are
      integers of [Z]; every arithmetic operation of the source is followed by
      the wrap-around of its type ([u32], [u64]).
    - [std::vector] is [list]; [back] and [pop_back] act on the last element.
    - [std::map] is an association list kept in ascending key order
      ([omap]), because the source depends on the iteration order
      ([lower_bound], [--end()], first maximum in a scan).
    - Sizes that are only counted down or used as positions ([size_t]
      loop counters, vector positions) are [nat].
    - A function of the source that can throw or run into undefined
      behaviour returns a [Res]. *)

From Stdlib Require Import String DecimalString.
From Stdlib.Strings Require Import Byte.
From Stdlib Require Import ZArith List Lia Bool Permutation Sorted.
Import ListNotations.
Local Open Scope string_scope.
Local Open Scope list_scope.
Local Open Scope Z_scope.

Set Implicit Arguments.

(* ================================================================== *)
(** * Machine integers *)

Definition u32 (x : Z) : Z := x mod 2 ^ 32.
Definition u64 (x : Z) : Z := x mod 2 ^ 64.

Arguments u32 : simpl never.
Arguments u64 : simpl never.

(* ================================================================== *)
(** * Outcomes of a call *)

(** The ways a run of the source leaves the defined behaviour of C++. *)
Inductive Fault : Type :=
| BackOfEmptyVector   (* back() or pop_back() on an empty vector *)
| EndOfEmptyMap       (* --end() on an empty map *)
| ErasedIterator      (* use of a map iterator after erase() of its entry *)
| IndexOutOfRange     (* operator[] of a vector past its size *)
| DivisionByZero.     (* / or % by zero *)

(** The error codes of [json_rpc.hpp]; the source uses one of them. *)
Module json_rpc.
Inductive ErrorCode : Type := INVALID_PARAMS.
End json_rpc.

(** What the source throws: [std::runtime_error(what)],
    [json_rpc::Error(code, message)], and the [boost::bad_get] of a
    [boost::get] on a variant that holds another type. *)
Inductive Exception : Type :=
| runtime_error (what : string)
| json_rpc_Error (code : json_rpc.ErrorCode) (message : string)
| bad_get.

(** [throw std::runtime_error("...")] is written [Throw "..."]. *)
Coercion runtime_error : string >-> Exception.

Inductive Res (A : Type) : Type :=
| Ok (a : A)
| Throw (msg : Exception)
| Undefined (f : Fault)
| OutOfFuel.

Arguments Ok {A} a.
Arguments Throw {A} msg.
Arguments Undefined {A} f.
Arguments OutOfFuel {A}.

Definition bind {A B : Type} (m : Res A) (k : A -> Res B) : Res B :=
  match m with
  | Ok a => k a
  | Throw msg => Throw msg
  | Undefined f => Undefined f
  | OutOfFuel => OutOfFuel
  end.

Notation "x <- m ;; k" := (bind m (fun x => k))
  (at level 61, m at next level, right associativity).
Notation "' pat <- m ;; k" := (bind m (fun x => match x with pat => k end))
  (at level 61, pat pattern, m at next level, right associativity).

(* ================================================================== *)
(** * Vectors *)

Fixpoint back {A : Type} (l : list A) : option A :=
  match l with
  | [] => None
  | [x] => Some x
  | _ :: t => back t
  end.

Definition pop_back {A : Type} (l : list A) : list A := removelast l.

Definition push_back {A : Type} (l : list A) (x : A) : list A := l ++ [x].

Definition is_empty {A : Type} (l : list A) : bool :=
  match l with [] => true | _ => false end.

(** [v[i] = x] on a vector: defined only inside the vector. *)
Definition set_nth {A : Type} (i : nat) (x : A) (l : list A) : option (list A) :=
  if (i <? length l)%nat then Some (firstn i l ++ x :: skipn (S i) l) else None.

(** [v.insert(v.begin() + i, x)]. *)
Definition insert_at {A : Type} (i : nat) (x : A) (l : list A) : list A :=
  firstn i l ++ x :: skipn i l.

(* ================================================================== *)
(** * Data model *)

Definition BinaryArray := list byte.
Definition Hash := BinaryArray.
Definition PublicKey := BinaryArray.
Definition SecretKey := BinaryArray.
Definition KeyImage := BinaryArray.
Definition KeyDerivation := BinaryArray.
Definition Signature := BinaryArray.

Definition bytes_eqb (a b : BinaryArray) : bool :=
  if list_eq_dec byte_eq_dec a b then true else false.

Module api.
(** [api::Output]: one output of the chain as the wallet sees it. *)
Record Output : Type := mkOutput {
  amount : Z;
  global_index : Z;
  key_image : KeyImage;
  public_key : PublicKey;
  transaction_public_key : PublicKey;
  index_in_transaction : Z;
  height : Z;
  unlock_time : Z;
  address : string;
  dust : bool
}.
End api.

Record AccountPublicAddress : Type := mkAddress {
  spend_public_key : PublicKey;
  view_public_key : PublicKey
}.

Record AccountKeys : Type := mkAccountKeys {
  address : AccountPublicAddress;
  spend_secret_key : SecretKey;
  view_secret_key : SecretKey
}.

Record KeyPair : Type := mkKeyPair {
  public_key : PublicKey;
  secret_key : SecretKey
}.

Record KeyInput : Type := mkKeyInput {
  amount : Z;
  key_image : KeyImage;
  output_indexes : list Z
}.

Record KeyOutput : Type := mkKeyOutput { key : PublicKey }.

Module TransactionOutput.
Record t : Type := make { amount : Z; target : KeyOutput }.
End TransactionOutput.

(** The inputs of a transaction are a tagged union; the builder only ever
    stores key inputs. *)
Inductive TransactionInput : Type :=
| CoinbaseInput (block_index : Z)
| InputKey (k : KeyInput).

(** [TransactionExtra]: the fields the builder sets; its serialisation is
    outside this file (see [VarNoteTools]). *)
Record TransactionExtra : Type := mkExtra {
  extra_public_key : option PublicKey;
  extra_nonce : option BinaryArray
}.

(** [Transaction]: the prefix and the signatures. *)
Record Transaction : Type := mkTransaction {
  version : Z;
  tx_unlock_time : Z;
  inputs : list TransactionInput;
  outputs : list TransactionOutput.t;
  extra : BinaryArray;
  signatures : list (list Signature)
}.

Record InputDesc : Type := mkInputDesc {
  input : KeyInput;
  desc_outputs : list api.Output;
  real_output_index : nat;
  eph_keys : KeyPair
}.

Module OutputDesc.
Record t : Type := make { amount : Z; addr : AccountPublicAddress }.
End OutputDesc.

Record TransactionBuilder : Type := mkBuilder {
  m_transaction : Transaction;
  m_input_descs : list InputDesc;
  m_output_descs : list OutputDesc.t;
  m_extra : TransactionExtra;
  m_outputs_amount : Z;
  m_inputs_amount : Z
}.

(** [Currency]: the members and functions of the class that the two
    components read.  [Currency::is_dust] is a static function of the class;
    it is a field here so that it can be instantiated. *)
Record Currency : Type := mkCurrency {
  current_transaction_version : Z;
  minimum_fee : Z;
  default_dust_threshold : Z;
  is_dust : Z -> bool;
  is_transaction_spend_time_unlocked : Z -> Z -> Z -> bool;
  parse_account_address_string : string -> option AccountPublicAddress
}.

(* ================================================================== *)
(** * Interfaces of the code outside this file *)

(** [crypto/crypto.hpp].  A function of the source that returns [bool] and
    writes its result through a reference returns an [option] here. *)
Class Crypto : Type := {
  generate_key_derivation : PublicKey -> SecretKey -> option KeyDerivation;
  derive_public_key : KeyDerivation -> Z -> PublicKey -> option PublicKey;
  derive_secret_key : KeyDerivation -> Z -> SecretKey -> SecretKey;
  generate_key_image : PublicKey -> SecretKey -> KeyImage;
  hash_to_scalar : BinaryArray -> SecretKey;
  secret_key_to_public_key : SecretKey -> PublicKey;
  generate_ring_signature :
    Hash -> KeyImage -> list PublicKey -> SecretKey -> nat -> option (list Signature)
}.

(** [VarNoteTools.hpp] and the serialisation of the extra field. *)
Class VarNoteTools : Type := {
  (** Modelled from the spec: [get_transaction_inputs_hash] is not under
      [src/]; the specification says that the inputs hash is a cryptographic
      hash of the finalized input list, so it is a function of that list. *)
  inputs_hash : list TransactionInput -> Hash;
  get_transaction_prefix_hash : Transaction -> Hash;
  get_maximum_tx_size : Z -> Z -> Z -> Z;
  serialize_extra : TransactionExtra -> BinaryArray;
  set_payment_id_to_transaction_extra_nonce : Hash -> BinaryArray
}.

(** [common::to_string], the decimal text of a number. *)
Class StringTools : Type := {
  to_string : Z -> string
}.

Definition get_transaction_inputs_hash `{VarNoteTools} (tx : Transaction) : Hash :=
  inputs_hash (inputs tx).

(* ================================================================== *)
(** * TransactionBuilder *)

Definition set_m_transaction (t : Transaction) (b : TransactionBuilder) :=
  mkBuilder t (m_input_descs b) (m_output_descs b) (m_extra b)
            (m_outputs_amount b) (m_inputs_amount b).
Definition set_m_input_descs (l : list InputDesc) (b : TransactionBuilder) :=
  mkBuilder (m_transaction b) l (m_output_descs b) (m_extra b)
            (m_outputs_amount b) (m_inputs_amount b).
Definition set_m_output_descs (l : list OutputDesc.t) (b : TransactionBuilder) :=
  mkBuilder (m_transaction b) (m_input_descs b) l (m_extra b)
            (m_outputs_amount b) (m_inputs_amount b).
Definition set_m_extra (e : TransactionExtra) (b : TransactionBuilder) :=
  mkBuilder (m_transaction b) (m_input_descs b) (m_output_descs b) e
            (m_outputs_amount b) (m_inputs_amount b).
Definition set_m_outputs_amount (a : Z) (b : TransactionBuilder) :=
  mkBuilder (m_transaction b) (m_input_descs b) (m_output_descs b) (m_extra b)
            a (m_inputs_amount b).
Definition set_m_inputs_amount (a : Z) (b : TransactionBuilder) :=
  mkBuilder (m_transaction b) (m_input_descs b) (m_output_descs b) (m_extra b)
            (m_outputs_amount b) a.

Definition set_tx_inputs (l : list TransactionInput) (t : Transaction) :=
  mkTransaction (version t) (tx_unlock_time t) l (outputs t) (extra t) (signatures t).
Definition set_tx_outputs (l : list TransactionOutput.t) (t : Transaction) :=
  mkTransaction (version t) (tx_unlock_time t) (inputs t) l (extra t) (signatures t).
Definition set_tx_extra (e : BinaryArray) (t : Transaction) :=
  mkTransaction (version t) (tx_unlock_time t) (inputs t) (outputs t) e (signatures t).
Definition set_tx_signatures (l : list (list Signature)) (t : Transaction) :=
  mkTransaction (version t) (tx_unlock_time t) (inputs t) (outputs t) (extra t) l.

(** The constructor. *)
Definition TransactionBuilder_new (currency : Currency) (unlock_time : Z)
  : TransactionBuilder :=
  mkBuilder (mkTransaction (current_transaction_version currency) unlock_time
                           [] [] [] [])
            [] [] (mkExtra None None) 0 0.

Section Builder.
Context {crypto : Crypto} {tools : VarNoteTools}.

Definition TransactionBuilder_derive_public_key
    (to : AccountPublicAddress) (tx_key : SecretKey) (output_index : Z)
  : option PublicKey :=
  match generate_key_derivation (view_public_key to) tx_key with
  | None => None
  | Some derivation =>
      derive_public_key derivation output_index (spend_public_key to)
  end.

Definition set_extra_nonce (nonce : BinaryArray) (b : TransactionBuilder)
  : TransactionBuilder :=
  let e := mkExtra (extra_public_key (m_extra b)) (Some nonce) in
  let b := set_m_extra e b in
  set_m_transaction (set_tx_extra (serialize_extra e) (m_transaction b)) b.

Definition set_payment_id (hash : Hash) (b : TransactionBuilder)
  : TransactionBuilder :=
  set_extra_nonce (set_payment_id_to_transaction_extra_nonce hash) b.

Definition add_output (amount : Z) (to : AccountPublicAddress)
    (b : TransactionBuilder) : TransactionBuilder * nat :=
  let b := set_m_outputs_amount (u64 (m_outputs_amount b + amount)) b in
  let b := set_m_output_descs
             (push_back (m_output_descs b) (OutputDesc.make amount to)) b in
  (b, (length (m_output_descs b) - 1)%nat).

Definition APIOutputLessGlobalIndex (a b : api.Output) : bool :=
  api.global_index a <? api.global_index b.

Definition generate_key_image_helper (ack : AccountKeys)
    (tx_public_key : PublicKey) (real_output_index : Z)
  : option (KeyPair * KeyImage) :=
  match generate_key_derivation tx_public_key (view_secret_key ack) with
  | None => None
  | Some recv_derivation =>
      match derive_public_key recv_derivation real_output_index
                              (spend_public_key (address ack)) with
      | None => None
      | Some eph_public =>
          let eph_secret :=
            derive_secret_key recv_derivation real_output_index
                              (spend_secret_key ack) in
          Some (mkKeyPair eph_public eph_secret,
                generate_key_image eph_public eph_secret)
      end
  end.

(** The loop [for (i = 1; i < copy.size(); ++i) copy[i] = off[i] - off[i-1]],
    with the accesses to the two vectors checked. *)
Definition offsets_step (off : list Z) (copy : option (list Z)) (i : nat)
  : option (list Z) :=
  match copy, nth_error off i, nth_error off (i - 1) with
  | Some c, Some a, Some b => set_nth i (u32 (a - b)) c
  | _, _, _ => None
  end.

Definition absolute_output_offsets_to_relative (off : list Z)
  : option (list Z) :=
  fold_left (offsets_step off) (seq 1 (length off - 1)) (Some off).

(** [std::sort] with [APIOutputLessGlobalIndex].  The order [std::sort]
    leaves between outputs of equal [global_index] is unspecified; the
    insertion sort below is one of the orders it may produce, and the
    sequence of [global_index] values is the same for all of them. *)
Fixpoint sort_insert (x : api.Output) (l : list api.Output) : list api.Output :=
  match l with
  | [] => [x]
  | y :: t =>
      if APIOutputLessGlobalIndex x y then x :: l else y :: sort_insert x t
  end.

Fixpoint sort_outputs (l : list api.Output) : list api.Output :=
  match l with
  | [] => []
  | x :: t => sort_insert x (sort_outputs t)
  end.

(** [std::lower_bound(...) - begin()]: the position of the first element
    that is not less than [x]. *)
Fixpoint lower_bound (l : list api.Output) (x : api.Output) : nat :=
  match l with
  | [] => 0%nat
  | y :: t => if APIOutputLessGlobalIndex y x then S (lower_bound t x) else 0%nat
  end.

(** The loop that fills [desc.input.output_indexes]; [None] is the throw. *)
Fixpoint fill_output_indexes (real_amount : Z) (outs : list api.Output)
    (acc : list Z) : option (list Z) :=
  match outs with
  | [] => Some acc
  | out :: t =>
      if negb (api.amount out =? real_amount) then None
      else fill_output_indexes real_amount t (push_back acc (api.global_index out))
  end.

(** [add_input]: the builder after the call (also when it throws) and the
    outcome. *)
Definition add_input (sender_keys : AccountKeys) (real_output : api.Output)
    (mix_outputs : list api.Output) (b : TransactionBuilder)
  : TransactionBuilder * Res nat :=
  let b := set_m_inputs_amount
             (u64 (m_inputs_amount b + api.amount real_output)) b in
  let sorted := sort_outputs mix_outputs in
  let idx := lower_bound sorted real_output in
  let outs := insert_at idx real_output sorted in
  match generate_key_image_helper sender_keys
          (api.transaction_public_key real_output)
          (api.index_in_transaction real_output) with
  | None => (b, Throw "generating keyimage failed")
  | Some (eph, ki) =>
      if negb (bytes_eqb ki (api.key_image real_output))
      then (b, Throw "generated keyimage does not match input")
      else
        match fill_output_indexes (api.amount real_output) outs [] with
        | None => (b, Throw "Mixin outputs with different amounts is not allowed")
        | Some absolute =>
            match absolute_output_offsets_to_relative absolute with
            | None => (b, Undefined IndexOutOfRange)
            | Some relative =>
                let desc :=
                  mkInputDesc
                    (mkKeyInput (api.amount real_output) ki relative)
                    outs idx eph in
                let b' := set_m_input_descs (push_back (m_input_descs b) desc) b in
                (b', Ok (length (m_input_descs b') - 1)%nat)
            end
        end
  end.

Definition deterministic_keys_from_seed (tx_inputs_hash tx_derivation_seed : Hash)
  : KeyPair :=
  let ba := tx_inputs_hash ++ tx_derivation_seed in
  let sk := hash_to_scalar ba in
  mkKeyPair (secret_key_to_public_key sk) sk.

Definition deterministic_keys_from_seed_tx (tx : Transaction)
    (tx_derivation_seed : Hash) : KeyPair :=
  deterministic_keys_from_seed (get_transaction_inputs_hash tx) tx_derivation_seed.

(** [std::shuffle] with a random engine.  The draws of the engine are the
    argument [rnd]: [rnd i] is the number drawn at position [i].  The
    algorithm is the one of the C++ standard libraries: position [i] is
    swapped with a position drawn from [0..i]. *)
Definition swap_nth {A : Type} (i j : nat) (l : list A) : list A :=
  match nth_error l i, nth_error l j with
  | Some a, Some b =>
      match set_nth i b l with
      | Some l1 => match set_nth j a l1 with Some l2 => l2 | None => l end
      | None => l
      end
  | _, _ => l
  end.

Definition shuffle {A : Type} (rnd : nat -> nat) (l : list A) : list A :=
  fold_left (fun l i => swap_nth i (rnd i mod S i) l) (seq 1 (length l - 1)) l.

(** The first part of [sign]: both shuffles, the inputs moved into the
    transaction, and the transaction keys. *)
Definition sign_prepare (rnd_out rnd_in : nat -> nat) (tx_derivation_seed : Hash)
    (b : TransactionBuilder) : TransactionBuilder * KeyPair :=
  let b := set_m_output_descs (shuffle rnd_out (m_output_descs b)) b in
  let b := set_m_input_descs (shuffle rnd_in (m_input_descs b)) b in
  let b := set_m_transaction
             (set_tx_inputs (map (fun d => InputKey (input d)) (m_input_descs b))
                            (m_transaction b)) b in
  (b, deterministic_keys_from_seed_tx (m_transaction b) tx_derivation_seed).

Fixpoint sign_outputs (tx_secret : SecretKey) (i : Z) (descs : list OutputDesc.t)
  : Res (list TransactionOutput.t) :=
  match descs with
  | [] => Ok []
  | d :: t =>
      match TransactionBuilder_derive_public_key (OutputDesc.addr d) tx_secret i with
      | None => Throw "output keys detected as corrupted during output key derivation"
      | Some k =>
          rest <- sign_outputs tx_secret (i + 1) t ;;
          Ok (TransactionOutput.make (OutputDesc.amount d) (mkKeyOutput k) :: rest)
      end
  end.

Fixpoint sign_inputs (hash : Hash) (ins : list TransactionInput)
    (descs : list InputDesc) : Res (list (list Signature)) :=
  match ins, descs with
  | InputKey k :: ins', desc :: descs' =>
      match generate_ring_signature hash (key_image k)
              (map api.public_key (desc_outputs desc))
              (secret_key (eph_keys desc)) (real_output_index desc) with
      | None => Throw "output keys detected as corrupted during ring signing"
      | Some sigs =>
          rest <- sign_inputs hash ins' descs' ;;
          Ok (sigs :: rest)
      end
  | CoinbaseInput _ :: _, _ :: _ => Throw bad_get
  | _, [] => Ok []
  | [], _ :: _ => Undefined IndexOutOfRange
  end.

Definition sign (rnd_out rnd_in : nat -> nat) (tx_derivation_seed : Hash)
    (b : TransactionBuilder) : Res Transaction :=
  let '(b, tx_keys) := sign_prepare rnd_out rnd_in tx_derivation_seed b in
  let e := mkExtra (Some (public_key tx_keys)) (extra_nonce (m_extra b)) in
  let tx := set_tx_extra (serialize_extra e) (m_transaction b) in
  outs <- sign_outputs (secret_key tx_keys) 0 (m_output_descs b) ;;
  let tx := set_tx_outputs outs tx in
  let hash := get_transaction_prefix_hash tx in
  sigs <- sign_inputs hash (inputs tx) (m_input_descs b) ;;
  Ok (set_tx_signatures sigs tx).

(** Modelled from the spec: the conversion of relative offsets back to
    absolute indexes is not under [src/]; the specification describes the
    relative form as "first absolute, rest are deltas", so the absolute
    form is the running sum, in the same 32-bit arithmetic. *)
Fixpoint relative_to_absolute_from (acc : Z) (rel : list Z) : list Z :=
  match rel with
  | [] => []
  | d :: t => let a := u32 (acc + d) in a :: relative_to_absolute_from a t
  end.

Definition relative_output_offsets_to_absolute (rel : list Z) : list Z :=
  relative_to_absolute_from 0 rel.

End Builder.

(* ================================================================== *)
(** * Ordered maps ([std::map]) *)

(** The entries in ascending key order, each key once. *)
Definition omap (V : Type) : Type := list (Z * V).

Fixpoint om_find {V : Type} (k : Z) (m : omap V) : option V :=
  match m with
  | [] => None
  | (k', v) :: t => if k =? k' then Some v else om_find k t
  end.

(** [m[k] = v]: replaces the entry of [k] or inserts it at its place. *)
Fixpoint om_set {V : Type} (k : Z) (v : V) (m : omap V) : omap V :=
  match m with
  | [] => [(k, v)]
  | (k', v') :: t =>
      if k <? k' then (k, v) :: m
      else if k =? k' then (k, v) :: t
      else (k', v') :: om_set k v t
  end.

Fixpoint om_erase {V : Type} (k : Z) (m : omap V) : omap V :=
  match m with
  | [] => []
  | (k', v') :: t => if k =? k' then t else (k', v') :: om_erase k t
  end.

(** [--m.end()]: the entry of the largest key. *)
Definition om_last {V : Type} (m : omap V) : option (Z * V) := back m.

(** [m.lower_bound(k)]: the first entry whose key is not less than [k]. *)
Fixpoint om_lower_bound {V : Type} (k : Z) (m : omap V) : option (Z * V) :=
  match m with
  | [] => None
  | (k', v) :: t => if k <=? k' then Some (k', v) else om_lower_bound k t
  end.

(** [m[k]] read: the entry, created empty when absent. *)
Definition om_at {A : Type} (k : Z) (m : omap (list A)) : list A :=
  match om_find k m with Some v => v | None => [] end.

(* ================================================================== *)
(** * UnspentSelector *)

Definition HaveCoins : Type := omap (omap (list api.Output)).
Definition DustCoins : Type := omap (list api.Output).

Record UnspentSelector : Type := mkSelector {
  m_currency : Currency;
  m_unspents : list api.Output;
  m_used_unspents : list api.Output;
  m_optimization_unspents : list api.Output;
  m_used_total : Z;
  m_inputs_count : Z;
  m_ra_amounts : list Z
}.

(** The constructor and [reset]. *)
Definition UnspentSelector_new (currency : Currency) (unspents : list api.Output)
  : UnspentSelector :=
  mkSelector currency unspents [] [] 0 0 [].

Definition reset (unspents : list api.Output) (u : UnspentSelector)
  : UnspentSelector :=
  mkSelector (m_currency u) unspents [] [] 0 0 [].

(** The state the selection works on: the object and the two maps that
    [select_optimal_outputs] creates and passes by pointer. *)
Record Sel : Type := mkSel {
  this : UnspentSelector;
  have_coins : HaveCoins;
  dust_coins : DustCoins
}.

Definition used_total (s : Sel) : Z := m_used_total (this s).
Definition inputs_count (s : Sel) : Z := m_inputs_count (this s).
Definition optimization_unspents (s : Sel) : list api.Output :=
  m_optimization_unspents (this s).

Definition fake_large : Z := 1000000000000000000.
Definition OPTIMIZATIONS_PER_TX : nat := 50.
Definition OPTIMIZATIONS_PER_TX_AGGRESSIVE : nat := 200.
Definition MEDIAN_PERCENT : Z := 5.
Definition MEDIAN_PERCENT_AGGRESSIVE : Z := 10.
Definition STACK_OPTIMIZATION_THRESHOLD : nat := 20.
Definition TWO_THRESHOLD : nat := 10.

(** The three statements that follow every choice of a coin:
    [m_optimization_unspents.push_back(un); m_used_total += un.amount;
     m_inputs_count += 1]. *)
Definition use_unspent (un : api.Output) (u : UnspentSelector) : UnspentSelector :=
  mkSelector (m_currency u) (m_unspents u) (m_used_unspents u)
             (push_back (m_optimization_unspents u) un)
             (u64 (m_used_total u + api.amount un))
             (u64 (m_inputs_count u + 1))
             (m_ra_amounts u).

(** [uns.pop_back(); if (uns.empty()) stacks.erase(k)] on the stack
    [uns = stacks[k]]. *)
Definition stacks_pop (k : Z) (stacks : omap (list api.Output))
  : omap (list api.Output) :=
  let uns' := pop_back (om_at k stacks) in
  if is_empty uns' then om_erase k stacks else om_set k uns' stacks.

(** The same followed by [if (dit->second.empty()) have_coins->erase(dit)],
    where [dit] is the entry of [digit] and [stacks] its stacks. *)
Definition have_pop (digit k : Z) (stacks : omap (list api.Output))
    (have : HaveCoins) : HaveCoins :=
  let stacks' := stacks_pop k stacks in
  if is_empty stacks' then om_erase digit have else om_set digit stacks' have.

(** [uns = dit->second[k]; un = uns.back(); (use un); uns.pop_back();
     if (uns.empty()) dit->second.erase(k);
     if (dit->second.empty()) have_coins->erase(dit)],
    where [dit] is the iterator of the entry of [digit].  An entry of
    [digit] that is no longer in the map means that [dit] was erased. *)
Definition take_have (digit k : Z) (s : Sel) : Res Sel :=
  match om_find digit (have_coins s) with
  | None => Undefined ErasedIterator
  | Some stacks =>
      match back (om_at k stacks) with
      | None => Undefined BackOfEmptyVector
      | Some un =>
          Ok (mkSel (use_unspent un (this s))
                    (have_pop digit k stacks (have_coins s))
                    (dust_coins s))
      end
  end.

(** The same without the two [erase]: the body of the loop that takes ten
    coins from [best_stack], a pointer to the stack of [digit] and [k]. *)
Definition take_stack (digit k : Z) (s : Sel) : Res Sel :=
  match om_find digit (have_coins s) with
  | None => Undefined ErasedIterator
  | Some stacks =>
      match back (om_at k stacks) with
      | None => Undefined BackOfEmptyVector
      | Some un =>
          Ok (mkSel (use_unspent un (this s))
                    (om_set digit (om_set k (pop_back (om_at k stacks)) stacks)
                            (have_coins s))
                    (dust_coins s))
      end
  end.

(** [duit->second.pop_back(); if (duit->second.empty()) dust_coins->erase(duit)]
    for the entry [duit] of the dust map. *)
Definition dust_pop (duit : Z * list api.Output) (dust : DustCoins) : DustCoins :=
  let uns' := pop_back (snd duit) in
  if is_empty uns' then om_erase (fst duit) dust else om_set (fst duit) uns' dust.

(** [un = duit->second.back(); (use un); duit->second.pop_back(); ...]. *)
Definition take_dust (duit : Z * list api.Output) (s : Sel) : Res Sel :=
  match back (snd duit) with
  | None => Undefined BackOfEmptyVector
  | Some un =>
      Ok (mkSel (use_unspent un (this s)) (have_coins s)
                (dust_pop duit (dust_coins s)))
  end.

(** [while (am > 9) { digit += 1; am /= 10; }].  Every turn at least halves
    [am], so the fuel given by [digit_of] is never used up. *)
Fixpoint split_digit (fuel : nat) (digit : nat) (am : Z) : nat * Z :=
  match fuel with
  | O => (digit, am)
  | S fuel' =>
      if 9 <? am then split_digit fuel' (S digit) (am / 10) else (digit, am)
  end.

Definition digit_of (amount : Z) : nat * Z :=
  split_digit (S (Z.to_nat (Z.log2 amount))) 0 amount.

(** [have_coins[digit][am].push_back(un)] on the map behind the pointer. *)
Definition have_push (digit k : Z) (un : api.Output) (have : HaveCoins) : HaveCoins :=
  let inner := match om_find digit have with Some i => i | None => [] end in
  om_set digit (om_set k (push_back (om_at k inner) un) inner) have.

(** [dust_coins[un.amount].push_back(un)] on the map behind the pointer. *)
Definition dust_push (un : api.Output) (dust : DustCoins) : DustCoins :=
  om_set (api.amount un) (push_back (om_at (api.amount un) dust) un) dust.

Definition create_have_coins_step (currency : Currency)
    (block_height block_time confirmed_height : Z)
    (acc : HaveCoins * DustCoins * nat) (un : api.Output)
  : HaveCoins * DustCoins * nat :=
  let '(have, dust, max_digit) := acc in
  if confirmed_height <=? api.height un then acc
  else if negb (is_transaction_spend_time_unlocked currency
                  (api.unlock_time un) block_height block_time) then acc
  else if negb (is_dust currency (api.amount un)) then
    let '(digit, am) := digit_of (api.amount un) in
    (have_push (Z.of_nat digit) am un have, dust, Nat.max max_digit digit)
  else (have, dust_push un dust, max_digit).

Definition create_have_coins (block_height block_time confirmed_height : Z)
    (u : UnspentSelector) : HaveCoins * DustCoins * nat :=
  fold_left
    (create_have_coins_step (m_currency u) block_height block_time confirmed_height)
    (rev (m_unspents u)) ([], [], 0%nat).

Definition combine_optimized_unspents (u : UnspentSelector) : UnspentSelector :=
  mkSelector (m_currency u) (m_unspents u)
             (m_used_unspents u ++ m_optimization_unspents u)
             []
             (m_used_total u) (m_inputs_count u)
             (m_ra_amounts u ++ map api.amount (m_optimization_unspents u)).

(** The body of the loop of [unoptimize_amounts]. *)
Definition unoptimize_step (s : Sel) (un : api.Output) : Sel :=
  let u := this s in
  let u' := mkSelector (m_currency u) (m_unspents u) (m_used_unspents u)
                       (m_optimization_unspents u)
                       (u64 (m_used_total u - api.amount un))
                       (u64 (m_inputs_count u - 1))
                       (m_ra_amounts u) in
  if negb (api.dust un) then
    let '(digit, am) := digit_of (api.amount un) in
    mkSel u' (have_push (Z.of_nat digit) am un (have_coins s)) (dust_coins s)
  else mkSel u' (have_coins s) (dust_push un (dust_coins s)).

Definition clear_optimization_unspents (s : Sel) : Sel :=
  let u := this s in
  mkSel (mkSelector (m_currency u) (m_unspents u) (m_used_unspents u) []
                    (m_used_total u) (m_inputs_count u) (m_ra_amounts u))
        (have_coins s) (dust_coins s).

Definition unoptimize_amounts (s : Sel) : Sel :=
  clear_optimization_unspents
    (fold_left unoptimize_step (optimization_unspents s) s).

(** [am] of [optimize_amounts], line by line in 64-bit arithmetic. *)
Definition needed_count (total_amount digit_amount used : Z) : Z :=
  u64 (10 - (u64 (fake_large + total_amount + digit_amount - 1 - used)
             / digit_amount) mod 10).

(** The two nested loops over the stacks of one digit: the accumulator is
    [(best_weight, best_two_counts[0], best_two_counts[1])]. *)
Definition pair_qualifies (am : Z) (a : Z * list api.Output)
    (b : Z * list api.Output) : bool :=
  (u64 (fst a + fst b + am) mod 10 =? 0)
  && ((TWO_THRESHOLD <=? length (snd a))%nat
      || (TWO_THRESHOLD <=? length (snd b))%nat).

Definition best_pair_step (am : Z) (a : Z * list api.Output)
    (acc : nat * Z * Z) (b : Z * list api.Output) : nat * Z * Z :=
  let '(best_weight, _, _) := acc in
  if pair_qualifies am a b
     && (best_weight <? length (snd a) + length (snd b))%nat
  then ((length (snd a) + length (snd b))%nat, fst a, fst b)
  else acc.

Definition best_pair (am : Z) (stacks : omap (list api.Output)) : nat * Z * Z :=
  fold_left (fun acc a => fold_left (best_pair_step am a) stacks acc)
            stacks (0%nat, 0, 0).

(** The loop that looks for one stack: [(best_single, best_weight)]; the
    first branch is the [break]. *)
Fixpoint best_single_loop (am : Z) (stacks : omap (list api.Output))
    (best_single : Z) (best_weight : nat) : Z * nat :=
  match stacks with
  | [] => (best_single, best_weight)
  | (a, sa) :: t =>
      if u64 (a + am) mod 10 =? 0 then (a, best_weight)
      else if (u64 (10 - am) <? a) && (best_weight <? length sa)%nat
           then best_single_loop am t a (length sa)
           else best_single_loop am t best_single best_weight
  end.

(** The body of the loop of [optimize_amounts] for one digit, after the
    test of the [break]. *)
Definition optimize_digit (digit digit_amount total_amount : Z) (s : Sel)
  : Res Sel :=
  let am := needed_count total_amount digit_amount (used_total s) in
  match om_find digit (have_coins s) with
  | None => Ok s
  | Some stacks =>
      let '(best_weight, c0, c1) := best_pair am stacks in
      if negb (best_weight =? 0)%nat then
        s1 <- take_have digit c0 s ;;
        take_have digit c1 s1
      else if am =? 10 then Ok s
      else
        let '(best_single, _) := best_single_loop am stacks 0 0%nat in
        if negb (best_single =? 0) then take_have digit best_single s
        else Ok s
  end.

(** [for (digit = 0; digit != max_digit + 1; ++digit, digit_amount *= 10)]:
    [n] turns are left. *)
Fixpoint optimize_amounts_loop (n : nat) (digit digit_amount total_amount : Z)
    (s : Sel) : Res Sel :=
  match n with
  | O => Ok s
  | S n' =>
      if (total_amount <=? used_total s) && (used_total s <? digit_amount)
      then Ok s
      else
        s' <- optimize_digit digit digit_amount total_amount s ;;
        optimize_amounts_loop n' (digit + 1) (u64 (digit_amount * 10))
                              total_amount s'
  end.

Definition optimize_amounts (max_digit : nat) (total_amount : Z) (s : Sel)
  : Res Sel :=
  optimize_amounts_loop (S max_digit) 0 1 total_amount s.

(** [while (m_used_total < total_amount && !dust_coins->empty()
            && optimization_count >= 1)]. *)
Fixpoint dust_fill_loop (optimization_count : nat) (total_amount : Z) (s : Sel)
  : Res (nat * Sel) :=
  match optimization_count with
  | O => Ok (optimization_count, s)
  | S count' =>
      if used_total s <? total_amount then
        match om_last (dust_coins s) with
        | None => Ok (optimization_count, s)
        | Some duit =>
            s' <- take_dust duit s ;;
            dust_fill_loop count' total_amount s'
        end
      else Ok (optimization_count, s)
  end.

(** The scan for [best_stack]: [(best_weight, best_stack)], the stack named
    by its two keys. *)
Definition best_stack_step (digit : Z) (acc : nat * option (Z * Z))
    (ait : Z * list api.Output) : nat * option (Z * Z) :=
  if (fst acc <? length (snd ait))%nat
  then (length (snd ait), Some (digit, fst ait))
  else acc.

Definition find_best_stack (have : HaveCoins) : nat * option (Z * Z) :=
  fold_left (fun acc hit => fold_left (best_stack_step (fst hit)) (snd hit) acc)
            have (STACK_OPTIMIZATION_THRESHOLD, None).

Fixpoint take_stack_times (n : nat) (digit k : Z) (s : Sel) : Res Sel :=
  match n with
  | O => Ok s
  | S n' => s' <- take_stack digit k s ;; take_stack_times n' digit k s'
  end.

(** [while (optimization_count >= 10)].  Every turn takes ten from the
    count, so [fuel = optimization_count] turns are enough. *)
Fixpoint stack_loop (fuel : nat) (optimization_count : nat) (s : Sel)
  : Res (nat * Sel) :=
  if (optimization_count <? 10)%nat then Ok (optimization_count, s)
  else
    match fuel with
    | O => OutOfFuel
    | S fuel' =>
        match snd (find_best_stack (have_coins s)) with
        | None => Ok (optimization_count, s)
        | Some (digit, k) =>
            s' <- take_stack_times 10 digit k s ;;
            stack_loop fuel' (optimization_count - 10)%nat s'
        end
    end.

(** The inner loop of the search for the smallest coin that covers the
    rest: the key of the first stack that does. *)
Fixpoint large_coin_scan (digit_amount need : Z) (stacks : omap (list api.Output))
  : option Z :=
  match stacks with
  | [] => None
  | (k, st) :: t =>
      if negb (is_empty st) && (need <=? u64 (k * digit_amount)) then Some k
      else large_coin_scan digit_amount need t
  end.

Fixpoint large_coin_loop (n : nat) (digit digit_amount total_amount : Z) (s : Sel)
  : Res Sel :=
  match n with
  | O => Ok s
  | S n' =>
      match om_find digit (have_coins s) with
      | None =>
          large_coin_loop n' (digit + 1) (u64 (digit_amount * 10)) total_amount s
      | Some stacks =>
          match large_coin_scan digit_amount
                  (u64 (total_amount - used_total s)) stacks with
          | Some k => take_have digit k s
          | None =>
              large_coin_loop n' (digit + 1) (u64 (digit_amount * 10))
                              total_amount s
          end
      end
  end.

(** [ha_amount] and [du_amount] of the last loop. *)
Definition top_have_amount (have : HaveCoins) : Res Z :=
  match om_last have with
  | None => Ok 0
  | Some dit =>
      match om_last (snd dit) with
      | None => Undefined EndOfEmptyMap
      | Some ait =>
          match back (snd ait) with
          | None => Undefined BackOfEmptyVector
          | Some un => Ok (api.amount un)
          end
      end
  end.

Definition top_dust_amount (anonymity : Z) (dust : DustCoins) : Res Z :=
  if (anonymity =? 0) && negb (is_empty dust) then
    match om_last dust with
    | None => Undefined EndOfEmptyMap
    | Some duit =>
        match back (snd duit) with
        | None => Undefined BackOfEmptyVector
        | Some un => Ok (api.amount un)
        end
    end
  else Ok 0.

(** [while (m_used_total < total_amount)]: the result is the value that
    [select_optimal_outputs] returns when it leaves from inside the loop
    ([false]) or that the loop was left ([true]).  Every turn takes a coin. *)
Fixpoint filler_loop (fuel : nat) (total_amount anonymity : Z) (s : Sel)
  : Res (bool * Sel) :=
  if total_amount <=? used_total s then Ok (true, s)
  else
    match fuel with
    | O => OutOfFuel
    | S fuel' =>
        if is_empty (have_coins s)
           && (negb (anonymity =? 0) || is_empty (dust_coins s))
        then Ok (false, s)
        else
          ha_amount <- top_have_amount (have_coins s) ;;
          du_amount <- top_dust_amount anonymity (dust_coins s) ;;
          s' <- (if du_amount <? ha_amount then
                   match om_last (have_coins s) with
                   | None => Undefined EndOfEmptyMap
                   | Some dit =>
                       match om_last (snd dit) with
                       | None => Undefined EndOfEmptyMap
                       | Some ait => take_have (fst dit) (fst ait) s
                       end
                   end
                 else
                   match om_last (dust_coins s) with
                   | None => Undefined EndOfEmptyMap
                   | Some duit => take_dust duit s
                   end) ;;
          filler_loop fuel' total_amount anonymity s'
    end.

(** The coins in the two maps: their number bounds the turns of the last
    loop, which takes one coin in every turn but its last. *)
Definition have_list (have : HaveCoins) : list api.Output :=
  concat (map (fun dit => concat (map snd (snd dit))) have).

Definition dust_list (dust : DustCoins) : list api.Output :=
  concat (map snd dust).

(** The private overload of [select_optimal_outputs]. *)
Definition select_optimal_outputs_inner (max_digit : nat)
    (total_amount anonymity : Z) (optimization_count : nat) (s : Sel)
  : Res (bool * Sel) :=
  '(optimization_count, s) <-
    (if anonymity =? 0 then
       s1 <- (if used_total s <? total_amount then
                match om_lower_bound (u64 (total_amount - used_total s))
                                     (dust_coins s) with
                | Some duit => take_dust duit s
                | None => Ok s
                end
              else Ok s) ;;
       dust_fill_loop optimization_count total_amount s1
     else Ok (optimization_count, s)) ;;
  '(_, s) <- stack_loop optimization_count optimization_count s ;;
  s <- optimize_amounts max_digit total_amount s ;;
  if total_amount <=? used_total s then Ok (true, s)
  else
    s <- large_coin_loop (S max_digit) 0 1 total_amount s ;;
    if total_amount <=? used_total s then Ok (true, s)
    else
      let s := unoptimize_amounts s in
      let fuel := S (length (have_list (have_coins s) ++ dust_list (dust_coins s))) in
      '(covered, s) <- filler_loop fuel total_amount anonymity s ;;
      if covered then
        s <- optimize_amounts max_digit total_amount s ;;
        Ok (true, s)
      else Ok (false, s).

(** What one turn of the loop of the public [select_optimal_outputs] does:
    it returns, or goes round again with a new fee and a new number of
    optimizations. *)
Inductive Turn : Type :=
| Return (status : string) (change : option Z)
| Continue (fee : Z) (optimizations : nat).

Section Select.
Context {tools : VarNoteTools}.
Variables (block_height block_time confirmed_height : Z).
Variables (effective_median_size anonymity total_amount total_outputs : Z).
Variables (fee_per_byte : Z) (optimization_level : string).

Definition initial_optimizations : nat :=
  if String.eqb optimization_level "aggressive"
  then OPTIMIZATIONS_PER_TX_AGGRESSIVE
  else if String.eqb optimization_level "minimal" then 9%nat
       else OPTIMIZATIONS_PER_TX.

Definition optimization_median_percent : Z :=
  if String.eqb optimization_level "aggressive"
  then MEDIAN_PERCENT_AGGRESSIVE else MEDIAN_PERCENT.

Definition optimization_median : Z :=
  u64 (effective_median_size * optimization_median_percent) / 100.

Definition halve_optimizations (optimizations : nat) : nat :=
  let o := (optimizations / 2)%nat in
  if (o <? 10)%nat then 0%nat else o.

(** The body of [while (true)]. *)
Definition select_turn (max_digits : nat) (fee : Z) (optimizations : nat)
    (s : Sel) : Res (Turn * Sel) :=
  let currency := m_currency (this s) in
  '(ok, s) <- select_optimal_outputs_inner max_digits (u64 (total_amount + fee))
                                           anonymity optimizations s ;;
  if negb ok then Ok (Return "NOT_ENOUGH_FUNDS" None, s)
  else if default_dust_threshold currency =? 0 then Undefined DivisionByZero
  else
    let change_dust_fee :=
      u64 (used_total s - total_amount - fee) mod default_dust_threshold currency in
    let tx_size :=
      get_maximum_tx_size (inputs_count s) (u64 (total_outputs + 8)) anonymity in
    if (optimization_median <? tx_size) && (0 <? optimizations)%nat then
      Ok (Continue fee (halve_optimizations optimizations), unoptimize_amounts s)
    else if effective_median_size <? tx_size then
      Ok (Return "TRANSACTION_DOES_NOT_FIT_IN_BLOCK" None, s)
    else
      let size_fee := u64 (fee_per_byte * tx_size) in
      if size_fee <=? u64 (fee + change_dust_fee) then
        Ok (Return ""
              (Some (u64 (used_total s - total_amount - fee - change_dust_fee))),
            mkSel (combine_optimized_unspents (this s))
                  (have_coins s) (dust_coins s))
      else
        let fee' :=
          u64 (u64 (size_fee - change_dust_fee
                    + default_dust_threshold currency - 1)
               / default_dust_threshold currency
               * default_dust_threshold currency) in
        Ok (Continue fee' optimizations, unoptimize_amounts s).

(** [while (true)], for at most [fuel] turns. *)
Fixpoint select_loop (fuel : nat) (max_digits : nat) (fee : Z)
    (optimizations : nat) (s : Sel) : Res (string * option Z * Sel) :=
  match fuel with
  | O => OutOfFuel
  | S fuel' =>
      '(turn, s') <- select_turn max_digits fee optimizations s ;;
      match turn with
      | Return status change => Ok (status, change, s')
      | Continue fee' optimizations' =>
          select_loop fuel' max_digits fee' optimizations' s'
      end
  end.

(** The public [select_optimal_outputs]: the status, the value written
    through [change] if any, and the selector after the call. *)
Definition select_optimal_outputs (fuel : nat) (u : UnspentSelector)
  : Res (string * option Z * UnspentSelector) :=
  let '(have, dust, max_digits) :=
    create_have_coins block_height block_time confirmed_height u in
  '(status, change, s) <-
    select_loop fuel max_digits (minimum_fee (m_currency u))
                initial_optimizations (mkSel u have dust) ;;
  Ok (status, change, this s).

End Select.

(** [add_mixed_inputs]. *)
Record WalletRecord : Type := mkWalletRecord {
  wr_spend_public_key : PublicKey;
  wr_spend_secret_key : SecretKey
}.

(** The loop [while (mix_outputs.size() < anonymity)] for the used unspent
    [uu], over the vector of random outputs of its amount, given last
    element first. *)
Fixpoint collect_mix_outputs `{StringTools} (anonymity : nat) (uu : api.Output)
    (our_ra_outputs_rev : list api.Output) (mix_outputs : list api.Output)
    {struct our_ra_outputs_rev} : Res (list api.Output * list api.Output) :=
  if (length mix_outputs <? anonymity)%nat then
    match our_ra_outputs_rev with
    | [] =>
        Throw (runtime_error ("Not enough anonymity for amount "
                              ++ to_string (api.amount uu))%string)
    | out :: rest =>
        collect_mix_outputs anonymity uu rest
          (if negb (api.global_index out =? api.global_index uu)
           then push_back mix_outputs out else mix_outputs)
    end
  else Ok (mix_outputs, our_ra_outputs_rev).

Fixpoint find_wallet_record (k : PublicKey) (records : list (PublicKey * WalletRecord))
  : option WalletRecord :=
  match records with
  | [] => None
  | (k', r) :: t => if bytes_eqb k k' then Some r else find_wallet_record k t
  end.

Section AddMixedInputs.
Context {crypto : Crypto} {tools : VarNoteTools} {strings : StringTools}.

Fixpoint add_mixed_inputs_loop (currency : Currency) (view_secret : SecretKey)
    (wallet_records : list (PublicKey * WalletRecord)) (anonymity : nat)
    (used : list api.Output) (ra_outputs : omap (list api.Output))
    (builder : TransactionBuilder) : TransactionBuilder * Res unit :=
  match used with
  | [] => (builder, Ok tt)
  | uu :: rest =>
      match collect_mix_outputs anonymity uu
              (rev (om_at (api.amount uu) ra_outputs)) [] with
      | Ok (mix_outputs, left_rev) =>
          let ra_outputs := om_set (api.amount uu) (rev left_rev) ra_outputs in
          match parse_account_address_string currency (api.address uu) with
          | None =>
              (builder,
               Throw (json_rpc_Error json_rpc.INVALID_PARAMS
                        ("Could not parse address " ++ api.address uu)%string))
          | Some addr =>
              match find_wallet_record (spend_public_key addr) wallet_records with
              | None =>
                  (builder,
                   Throw (json_rpc_Error json_rpc.INVALID_PARAMS
                            ("No keys in wallet for address "
                             ++ api.address uu)%string))
              | Some rec =>
                  if negb (bytes_eqb (wr_spend_public_key rec) (spend_public_key addr))
                  then
                    (builder,
                     Throw (json_rpc_Error json_rpc.INVALID_PARAMS
                              ("No keys in wallet for address "
                               ++ api.address uu)%string))
                  else
                    let sender_keys :=
                      mkAccountKeys addr (wr_spend_secret_key rec) view_secret in
                    match add_input sender_keys uu mix_outputs builder with
                    | (builder', Ok _) =>
                        add_mixed_inputs_loop currency view_secret wallet_records
                          anonymity rest ra_outputs builder'
                    | (builder', Throw msg) => (builder', Throw msg)
                    | (builder', Undefined f) => (builder', Undefined f)
                    | (builder', OutOfFuel) => (builder', OutOfFuel)
                    end
              end
          end
      | Throw msg => (builder, Throw msg)
      | Undefined f => (builder, Undefined f)
      | OutOfFuel => (builder, OutOfFuel)
      end
  end.

Definition add_mixed_inputs (view_secret_key : SecretKey)
    (wallet_records : list (PublicKey * WalletRecord))
    (builder : TransactionBuilder) (anonymity : nat)
    (ra_response : omap (list api.Output)) (u : UnspentSelector)
  : TransactionBuilder * Res unit :=
  add_mixed_inputs_loop (m_currency u) view_secret_key wallet_records anonymity
                        (m_used_unspents u) ra_response builder.
End AddMixedInputs.

(* ================================================================== *)
(** * Instances used by the examples *)

(** A crypto interface on which every step can be followed by hand: a
    derivation is the concatenation of its arguments, and it fails on an
    empty public key. *)
Definition toy_generate_key_derivation (pk : PublicKey) (sk : SecretKey)
  : option KeyDerivation :=
  match pk with
  | [] => None
  | _ => Some (pk ++ sk)
  end.

#[local] Instance toy_crypto : Crypto := {
  generate_key_derivation := toy_generate_key_derivation;
  derive_public_key := fun d _ spend => Some (d ++ spend);
  derive_secret_key := fun d _ spend => d ++ spend;
  generate_key_image := fun pub sec => pub ++ sec;
  hash_to_scalar := fun ba => ba;
  secret_key_to_public_key := fun sk => sk;
  generate_ring_signature := fun _ _ keys _ _ => Some keys
}.

(** The inputs hash of the examples is the sequence of the key images of the
    inputs, which two input lists share only when they list the same key
    images in the same order. *)
Definition toy_inputs_hash (ins : list TransactionInput) : Hash :=
  concat (map (fun i => match i with
                        | InputKey k => key_image k
                        | CoinbaseInput _ => []
                        end) ins).

#[local] Instance toy_tools : VarNoteTools := {
  inputs_hash := toy_inputs_hash;
  get_transaction_prefix_hash := fun tx => extra tx;
  get_maximum_tx_size := fun inputs_count outputs_count anonymity =>
    100 + inputs_count * (50 + 40 * (anonymity + 1)) + 40 * outputs_count;
  serialize_extra := fun e =>
    match extra_public_key e, extra_nonce e with
    | Some k, Some n => k ++ n
    | Some k, None => k
    | None, Some n => n
    | None, None => []
    end;
  set_payment_id_to_transaction_extra_nonce := fun h => h
}.

(** The decimal digits of a number. *)
#[local] Instance toy_strings : StringTools := {
  to_string := fun n => NilZero.string_of_uint (N.to_uint (Z.to_N n))
}.

(** A currency whose dust is what the specification calls dust: an amount
    that is not a single digit followed by zeros. *)
Definition toy_is_dust (a : Z) : bool :=
  let '(digit, lead) := digit_of a in
  negb ((1 <=? lead) && (lead * 10 ^ Z.of_nat digit =? a)).

Definition toy_currency : Currency :=
  mkCurrency 1 10 10 toy_is_dust (fun _ _ _ => true)
             (fun s => Some (mkAddress ["001"%byte] ["002"%byte])).

Definition coin (amount global_index : Z) : api.Output :=
  api.mkOutput amount global_index [] [] [] 0 0 0 "" (toy_is_dust amount).

(* ================================================================== *)
(** * Vocabulary of the statements *)

(** What [absolute_output_offsets_to_relative] stores at position [i]. *)
Definition rel_at (off : list Z) (i : nat) : Z :=
  match i with
  | O => nth 0 off 0
  | S j => u32 (nth i off 0 - nth j off 0)
  end.

(** Any arrangement that [std::sort] may leave: the [global_index] values
    ascend. *)
Definition gi_sorted (l : list api.Output) : Prop :=
  Sorted Z.le (map api.global_index l).

(** The three failure modes of [add_input]. *)
Definition key_image_derivation_fails `{Crypto} (sender_keys : AccountKeys)
    (real_output : api.Output) : Prop :=
  generate_key_image_helper sender_keys
    (api.transaction_public_key real_output)
    (api.index_in_transaction real_output) = None.

Definition key_image_mismatch `{Crypto} (sender_keys : AccountKeys)
    (real_output : api.Output) : Prop :=
  exists eph ki,
    generate_key_image_helper sender_keys
      (api.transaction_public_key real_output)
      (api.index_in_transaction real_output) = Some (eph, ki)
    /\ ki <> api.key_image real_output.

Definition ring_amount_mismatch (real_output : api.Output)
    (mix_outputs : list api.Output) : Prop :=
  Exists (fun o => api.amount o <> api.amount real_output) mix_outputs.

(** The builder after the first statement of [add_input]. *)
Definition inputs_amount_added (real_output : api.Output) (b : TransactionBuilder)
  : TransactionBuilder :=
  set_m_inputs_amount (u64 (m_inputs_amount b + api.amount real_output)) b.

(** The data of the examples of the builder. *)
Definition toy_view_secret : SecretKey := ["004"%byte].
Definition toy_records : list (PublicKey * WalletRecord) :=
  [(["001"%byte], mkWalletRecord ["001"%byte] ["003"%byte])].
Definition toy_keys : AccountKeys :=
  mkAccountKeys (mkAddress ["001"%byte] ["002"%byte]) ["003"%byte] toy_view_secret.

(** An output of [toy_keys]: its key image is the one that [toy_crypto]
    derives from the transaction public key [t]. *)
Definition owned (amount global_index : Z) (t : byte) : api.Output :=
  api.mkOutput amount global_index
    ([t; "004"; "001"; t; "004"; "003"]%byte) [] [t] 0 0 0 "address" false.

Definition decoy (amount global_index : Z) : api.Output :=
  api.mkOutput amount global_index [] [] [] 0 0 0 "" false.

Definition toy_builder : TransactionBuilder := TransactionBuilder_new toy_currency 0.

(** A builder that holds two inputs. *)
Definition toy_builder2 : TransactionBuilder :=
  fst (add_input toy_keys (owned 200 9 "006")
         [] (fst (add_input toy_keys (owned 100 7 "005") [] toy_builder))).

(* ------------------------------------------------------------------ *)
(** ** The shape of the maps *)

(** The keys of a [std::map] ascend strictly. *)
Fixpoint om_sorted {V : Type} (m : omap V) : Prop :=
  match m with
  | [] => True
  | e :: t => Forall (fun e' => fst e < fst e') t /\ om_sorted t
  end.

(** The stacks of one digit (or the dust stacks): no stack is empty. *)
Definition stacks_sorted (stacks : omap (list api.Output)) : Prop :=
  om_sorted stacks.

Definition stacks_nonempty (stacks : omap (list api.Output)) : Prop :=
  Forall (fun ait => snd ait <> []) stacks.

Definition have_sorted (have : HaveCoins) : Prop :=
  om_sorted have /\ Forall (fun dit => om_sorted (snd dit)) have.

Definition have_nonempty (have : HaveCoins) : Prop :=
  Forall (fun dit => snd dit <> [] /\ stacks_nonempty (snd dit)) have.

(** Both maps in key order. *)
Definition sorted_ok (s : Sel) : Prop :=
  have_sorted (have_coins s) /\ om_sorted (dust_coins s).

(** No empty stack and no digit without stacks: what the source maintains
    with its [erase] after every [pop_back]. *)
Definition nonempty_ok (s : Sel) : Prop :=
  have_nonempty (have_coins s) /\ stacks_nonempty (dust_coins s).

Definition sum_amounts (l : list api.Output) : Z :=
  fold_right (fun un acc => api.amount un + acc) 0 l.

(** The combined height of two stacks. *)
Definition pair_weight (a b : Z * list api.Output) : nat :=
  (length (snd a) + length (snd b))%nat.

(** The elements held in a map of containers. *)
Definition om_all {V X : Type} (content : V -> list X) (m : omap V) : list X :=
  concat (map (fun e => content (snd e)) m).

Definition stacks_list (stacks : omap (list api.Output)) : list api.Output :=
  om_all (fun st => st) stacks.

(** A property of every coin of every stack, given the key of the stack. *)
Definition stacks_all (Q : Z -> api.Output -> Prop)
    (stacks : omap (list api.Output)) : Prop :=
  Forall (fun ait => Forall (Q (fst ait)) (snd ait)) stacks.

Definition have_all (Q : Z -> Z -> api.Output -> Prop) (have : HaveCoins) : Prop :=
  Forall (fun dit => stacks_all (Q (fst dit)) (snd dit)) have.

(** The keys under which [create_have_coins] and [unoptimize_amounts] store
    a coin that is not dust. *)
Definition coin_key (un : api.Output) : Z * Z :=
  let '(digit, am) := digit_of (api.amount un) in (Z.of_nat digit, am).

(* ------------------------------------------------------------------ *)
(** ** Outcomes *)

(** A run that ends well: it returns a value that satisfies [Q], or it
    stops at [--end()] of an empty map or at a division by zero in a
    situation described by [bad]; it does nothing else. *)
Definition res_ok {A : Type} (bad : Prop) (Q : A -> Prop) (r : Res A) : Prop :=
  match r with
  | Ok a => Q a
  | Undefined EndOfEmptyMap | Undefined DivisionByZero => bad
  | _ => False
  end.

(** The same for the loop that is given fuel: it may also use it up. *)
Definition res_ok_fuel {A : Type} (bad : Prop) (Q : A -> Prop) (r : Res A)
  : Prop :=
  match r with
  | Ok a => Q a
  | Undefined EndOfEmptyMap | Undefined DivisionByZero => bad
  | OutOfFuel => True
  | _ => False
  end.

(** The number of coins in the two maps. *)
Definition coins_count (s : Sel) : nat :=
  length (have_list (have_coins s) ++ dust_list (dust_coins s)).

(** What the accumulator of the scan for [best_stack] holds: a weight that
    is at least the threshold and, when a stack was found, a stack of the
    map of that weight, above the threshold. *)
Definition best_stack_acc (have : HaveCoins) (acc : nat * option (Z * Z)) : Prop :=
  (STACK_OPTIMIZATION_THRESHOLD <= fst acc)%nat
  /\ forall d k, snd acc = Some (d, k) ->
      exists stacks st,
        In (d, stacks) have /\ In (k, st) stacks
        /\ fst acc = length st
        /\ (STACK_OPTIMIZATION_THRESHOLD < length st)%nat.

(** The invariant of the selection: the shape of the two maps and a
    property [K] of the state that the steps of the selection keep. *)
Definition inv (K : Sel -> Prop) (s : Sel) : Prop :=
  sorted_ok s /\ nonempty_ok s /\ K s.

(** What the private [select_optimal_outputs] leaves when it returns
    [covered]. *)
Definition inner_post (K : Sel -> Prop) (max_digit : nat)
    (total_amount anonymity : Z) (r : bool * Sel) : Prop :=
  inv K (snd r)
  /\ (fst r = true ->
      exists s_mid,
        inv K s_mid /\ total_amount <= used_total s_mid
        /\ (snd r = s_mid
            \/ optimize_amounts max_digit total_amount s_mid = Ok (snd r)))
  /\ (fst r = false ->
      have_coins (snd r) = []
      /\ (anonymity <> 0 \/ dust_coins (snd r) = [])
      /\ used_total (snd r) < total_amount).

(* ------------------------------------------------------------------ *)
(** ** What the selection keeps *)

Definition nonneg (un : api.Output) : Prop := 0 <= api.amount un.

(** Every amount in the maps and in the provisional picks is an amount. *)
Definition amounts_ok (s : Sel) : Prop :=
  Forall nonneg (have_list (have_coins s))
  /\ Forall nonneg (dust_list (dust_coins s))
  /\ Forall nonneg (optimization_unspents s).

(** A coin of the map of the coins is under the keys of its amount and
    is not flagged as dust; a coin of the dust map is under its amount and
    is flagged as dust. *)
Definition placed_have (d k : Z) (un : api.Output) : Prop :=
  coin_key un = (d, k) /\ api.dust un = false.

Definition placed_dust (a : Z) (un : api.Output) : Prop :=
  api.amount un = a /\ api.dust un = true.

Definition not_dust (un : api.Output) : bool := negb (api.dust un).

(** The books of the selection, for the provisional picks [l]: the coins
    are where they belong, the coins of [H0] are in the map of the coins or
    among the picks, the coins of [D0] are in the dust map or among the
    picks, and the two counters are those of before the picks ([U0], [C0])
    plus the picks. *)
Definition acct (H0 D0 : list api.Output) (U0 C0 : Z) (l : list api.Output)
    (s : Sel) : Prop :=
  have_all placed_have (have_coins s)
  /\ stacks_all placed_dust (dust_coins s)
  /\ Permutation (have_list (have_coins s) ++ filter not_dust l) H0
  /\ Permutation (dust_list (dust_coins s) ++ filter api.dust l) D0
  /\ used_total s = u64 (U0 + sum_amounts l)
  /\ inputs_count s = u64 (C0 + Z.of_nat (length l)).

Definition accounted (H0 D0 : list api.Output) (U0 C0 : Z) (s : Sel) : Prop :=
  acct H0 D0 U0 C0 (optimization_unspents s) s.

(** No coin that is not dust has the amount zero, and with a ring
    ([anonymity <> 0]) no dust is picked. *)
Definition positive_ok (anonymity : Z) (s : Sel) : Prop :=
  have_all (fun _ _ un => 0 < api.amount un) (have_coins s)
  /\ Forall (fun un => api.dust un = false -> 0 < api.amount un)
            (optimization_unspents s)
  /\ (anonymity <> 0 ->
      Forall (fun un => api.dust un = false) (optimization_unspents s)).

(* ------------------------------------------------------------------ *)
(** ** Provisional picks *)

(** One provisional pick: a coin goes from one of the maps to
    [m_optimization_unspents], by one of the three ways of the source. *)
Inductive pick (s s' : Sel) : Prop :=
| pick_have (d k : Z) : take_have d k s = Ok s' -> pick s s'
| pick_stack (d k : Z) : take_stack d k s = Ok s' -> pick s s'
| pick_dust (duit : Z * list api.Output) :
    In duit (dust_coins s) -> take_dust duit s = Ok s' -> pick s s'.

(** Any sequence of provisional picks. *)
Inductive picks : Sel -> Sel -> Prop :=
| picks_none (s : Sel) : picks s s
| picks_more (s s1 s2 : Sel) : picks s s1 -> pick s1 s2 -> picks s s2.

(** A pair that rounds the digit: the leading digits sum to [10 - am] modulo 10
    and one of the two stacks holds at least [TWO_THRESHOLD] coins. *)
Definition rounding_pair (am : Z) (a b : Z * list api.Output) : Prop :=
  (fst a + fst b) mod 10 = (10 - am) mod 10
  /\ ((10 <= length (snd a))%nat \/ (10 <= length (snd b))%nat).

(** The state of the fourth scenario of the specification: a coin of 3 and
    twenty coins of 7. *)
Definition rounding_pool : list api.Output :=
  coin 3 0 :: map (fun i => coin 7 (Z.of_nat i)) (seq 1 20).

Definition rounding_example : Sel :=
  let u := UnspentSelector_new toy_currency rounding_pool in
  let '(have, dust, _) := create_have_coins 0 0 1 u in
  mkSel u have dust.

(** The loop of [optimize_amounts], started on [s0], comes to the head of
    the turn of [digit] with the state [s] and with [digit_amount]: it
    starts at the digit 0 with [digit_amount = 1], and it goes from a digit
    to the next, with ten times the [digit_amount], when the test of the
    [break] fails and the body of the loop returns. *)
Inductive optimize_comes_to (total_amount : Z) (s0 : Sel)
  : nat -> Z -> Sel -> Prop :=
| comes_to_first : optimize_comes_to total_amount s0 0 1 s0
| comes_to_next (digit : nat) (digit_amount : Z) (s s' : Sel) :
    optimize_comes_to total_amount s0 digit digit_amount s ->
    (total_amount <=? used_total s) && (used_total s <? digit_amount) = false ->
    optimize_digit (Z.of_nat digit) digit_amount total_amount s = Ok s' ->
    optimize_comes_to total_amount s0 (S digit) (u64 (digit_amount * 10)) s'.

(** A state whose only stack holds ten coins of 5. *)
Definition fives_pool : list api.Output :=
  map (fun i => coin 5 (Z.of_nat i)) (seq 1 10).

Definition fives_example : Sel :=
  let u := UnspentSelector_new toy_currency fives_pool in
  let '(have, dust, _) := create_have_coins 0 0 1 u in
  mkSel u have dust.

(** The stacks of [have_coins] by digit and leading digit, with their
    heights. *)
Definition heights (s : Sel) : list (Z * list (Z * nat)) :=
  map (fun ds => (fst ds, map (fun st => (fst st, length (snd st))) (snd ds)))
      (have_coins s).

(* ------------------------------------------------------------------ *)
(** ** The pool *)

(** An output that [create_have_coins] does not skip: confirmed and
    unlocked. *)
Definition spendable (currency : Currency) (block_height block_time confirmed_height : Z)
    (un : api.Output) : bool :=
  negb (confirmed_height <=? api.height un)
  && is_transaction_spend_time_unlocked currency (api.unlock_time un)
       block_height block_time.

(** The coins that enter [have_coins] and those that enter [dust_coins]. *)
Definition have_pool (currency : Currency) (block_height block_time confirmed_height : Z)
    (pool : list api.Output) : list api.Output :=
  filter (fun un => spendable currency block_height block_time confirmed_height un
                    && negb (is_dust currency (api.amount un))) pool.

Definition dust_pool (currency : Currency) (block_height block_time confirmed_height : Z)
    (pool : list api.Output) : list api.Output :=
  filter (fun un => spendable currency block_height block_time confirmed_height un
                    && is_dust currency (api.amount un)) pool.


(** An output of the pool as the wallet hands it over: the amount is a
    64-bit value, the flag [dust] is what [Currency::is_dust] says of the
    amount, and an amount that is not dust is not zero. *)
Definition pool_ok (currency : Currency) (un : api.Output) : Prop :=
  0 <= api.amount un < 2 ^ 64
  /\ api.dust un = is_dust currency (api.amount un)
  /\ (api.dust un = false -> 0 < api.amount un).

(** A selector as the constructor or [reset] leaves it. *)
Definition fresh (u : UnspentSelector) : Prop :=
  m_used_unspents u = [] /\ m_optimization_unspents u = []
  /\ m_used_total u = 0 /\ m_inputs_count u = 0.

(** The members that the selection only reads. *)
Definition frame (u0 : UnspentSelector) (s : Sel) : Prop :=
  m_currency (this s) = m_currency u0
  /\ m_unspents (this s) = m_unspents u0
  /\ m_used_unspents (this s) = m_used_unspents u0
  /\ m_ra_amounts (this s) = m_ra_amounts u0.

(** All that the selection keeps when the pool is as [pool_ok] says. *)
Definition books (anonymity : Z) (u0 : UnspentSelector) (H0 D0 : list api.Output)
    (s : Sel) : Prop :=
  amounts_ok s
  /\ accounted H0 D0 (m_used_total u0) (m_inputs_count u0) s
  /\ positive_ok anonymity s
  /\ frame u0 s.

(** The turns of the loop of [select_optimal_outputs]: from a fee, a number
    of optimizations and a state, the loop reaches another such triple by
    turns that end in [continue]. *)
Inductive turns `{VarNoteTools}
    (effective_median_size anonymity total_amount total_outputs fee_per_byte : Z)
    (optimization_level : string) (max_digits : nat)
  : Z * nat * Sel -> Z * nat * Sel -> Prop :=
| turns_none (x : Z * nat * Sel) :
    turns effective_median_size anonymity total_amount total_outputs
          fee_per_byte optimization_level max_digits x x
| turns_more (fee : Z) (optimizations : nat) (s : Sel)
             (fee' : Z) (optimizations' : nat) (s' : Sel) (y : Z * nat * Sel) :
    select_turn effective_median_size anonymity total_amount total_outputs
                fee_per_byte optimization_level max_digits fee optimizations s
    = Ok (Continue fee' optimizations', s') ->
    turns effective_median_size anonymity total_amount total_outputs
          fee_per_byte optimization_level max_digits
          (fee', optimizations', s') y ->
    turns effective_median_size anonymity total_amount total_outputs
          fee_per_byte optimization_level max_digits
          (fee, optimizations, s) y.

(** What a turn of the loop leaves when it goes on. *)
Definition turn_post (K : Sel -> Prop) (r : Turn * Sel) : Prop :=
  match fst r with
  | Continue _ _ => inv K (snd r) /\ optimization_unspents (snd r) = []
  | Return _ _ => True
  end.

(** The run of [select_optimal_outputs] on [u] reaches a turn of its loop
    that starts with [fee], [optimizations] and the state [s_k] and that
    returns [status] and [change], leaving the state [s_fin]. *)
Definition returns_at `{VarNoteTools}
    (block_height block_time confirmed_height : Z)
    (effective_median_size anonymity total_amount total_outputs fee_per_byte : Z)
    (optimization_level : string) (u : UnspentSelector)
    (fee : Z) (optimizations : nat) (s_k : Sel)
    (status : string) (change : option Z) (s_fin : Sel) : Prop :=
  let '(have, dust, max_digits) :=
    create_have_coins block_height block_time confirmed_height u in
  turns effective_median_size anonymity total_amount total_outputs
        fee_per_byte optimization_level max_digits
        (minimum_fee (m_currency u), initial_optimizations optimization_level,
         mkSel u have dust)
        (fee, optimizations, s_k)
  /\ select_turn effective_median_size anonymity total_amount total_outputs
                 fee_per_byte optimization_level max_digits fee optimizations s_k
     = Ok (Return status change, s_fin).


(** The values that a turn of the loop computes from the state [s_in] that
    the selection leaves. *)
Definition change_dust_fee_of (currency : Currency) (total_amount fee : Z)
    (s_in : Sel) : Z :=
  u64 (used_total s_in - total_amount - fee) mod default_dust_threshold currency.

Definition tx_size_of `{VarNoteTools} (anonymity total_outputs : Z) (s_in : Sel) : Z :=
  get_maximum_tx_size (inputs_count s_in) (u64 (total_outputs + 8)) anonymity.

Definition next_fee (size_fee change_dust_fee dust_threshold : Z) : Z :=
  u64 (u64 (size_fee - change_dust_fee + dust_threshold - 1)
       / dust_threshold * dust_threshold).

(* ------------------------------------------------------------------ *)
(** ** The selections of the examples *)

(** A wallet of a coin of 1000, a coin of 500 and a dust coin of 7, all
    confirmed below the height 100. *)
Definition selection_pool : list api.Output :=
  [coin 1000 1; coin 500 2; coin 7 3].

Definition selection_example : UnspentSelector :=
  UnspentSelector_new toy_currency selection_pool.

(** The payment of 700 to one output, without a ring, at one unit of fee
    per byte, in a block of the median size [effective_median_size]. *)
Definition selection_example_run (effective_median_size : Z) (fuel : nat)
  : Res (string * option Z * UnspentSelector) :=
  @select_optimal_outputs toy_tools 0 0 100 effective_median_size 0 700 1 1 ""
                          fuel selection_example.

Definition selection_example_result : UnspentSelector :=
  match selection_example_run 100000 5 with
  | Ok (_, _, u') => u'
  | _ => selection_example
  end.


(* ------------------------------------------------------------------ *)
(** ** Sequences of calls on the builder *)

(** The calls [add_output(amount, to)] for the pairs of [outs], in order,
    with the indexes they return. *)
Definition add_outputs (outs : list (Z * AccountPublicAddress))
    (b : TransactionBuilder) : TransactionBuilder * list nat :=
  fold_left (fun acc out =>
               let '(b', i) := add_output (fst out) (snd out) (fst acc) in
               (b', snd acc ++ [i]))
            outs (b, []).

(** The sum of the amounts, as the integers have it. *)
Definition sum_Z (l : list Z) : Z := fold_right Z.add 0 l.

(** The builder of the examples with its two inputs and two outputs, the
    transaction that [sign] makes of it when the engine draws zeros, and a
    builder whose only output goes to an address without a view key. *)
Definition toy_builder3 : TransactionBuilder :=
  fst (add_outputs [(250, mkAddress ["001"%byte] ["002"%byte]);
                    (40, mkAddress ["007"%byte] ["008"%byte])] toy_builder2).

Definition toy_signed : Transaction :=
  match @sign toy_crypto toy_tools (fun _ => 0%nat) (fun _ => 0%nat)
          ["009"%byte] toy_builder3 with
  | Ok tx => tx
  | _ => m_transaction toy_builder3
  end.

Definition toy_builder_bad : TransactionBuilder :=
  fst (add_output 250 (mkAddress ["001"%byte] []) toy_builder2).

(* ------------------------------------------------------------------ *)
(** ** The rings of [add_mixed_inputs] *)

(** The input that [add_mixed_inputs] makes of the used unspent [uu]: a
    ring of [anonymity + 1] outputs of the amount of [uu], with [uu] at
    [real_output_index] and no other member of its [global_index]. *)
Definition ring_of (anonymity : nat) (uu : api.Output) (desc : InputDesc) : Prop :=
  length (desc_outputs desc) = S anonymity
  /\ nth_error (desc_outputs desc) (real_output_index desc) = Some uu
  /\ filter (fun o => api.global_index o =? api.global_index uu)
            (desc_outputs desc) = [uu]
  /\ Forall (fun o => api.amount o = api.amount uu) (desc_outputs desc)
  /\ amount (input desc) = api.amount uu
  /\ key_image (input desc) = api.key_image uu
  /\ length (output_indexes (input desc)) = S anonymity.

(** The exceptions that [add_mixed_inputs] can raise while it handles the
    used unspent [uu]: its own three, which name the amount or the address
    of [uu], and the three of [add_input]. *)
Definition add_mixed_inputs_error `{StringTools} (uu : api.Output)
    (e : Exception) : Prop :=
  e = runtime_error ("Not enough anonymity for amount "
                     ++ to_string (api.amount uu))%string
  \/ e = json_rpc_Error json_rpc.INVALID_PARAMS
                        ("Could not parse address " ++ api.address uu)%string
  \/ e = json_rpc_Error json_rpc.INVALID_PARAMS
                        ("No keys in wallet for address "
                         ++ api.address uu)%string
  \/ e = runtime_error "generating keyimage failed"
  \/ e = runtime_error "generated keyimage does not match input"
  \/ e = runtime_error "Mixin outputs with different amounts is not allowed".

(** A selector that has selected the two outputs of [toy_keys], and the
    random outputs of a node that knows the amount 100 only. *)
Definition toy_selected : UnspentSelector :=
  mkSelector toy_currency [] [owned 100 7 "005"; owned 200 9 "006"] [] 300 2
             [100; 200].

Definition toy_ra_outputs : omap (list api.Output) :=
  [(100, [decoy 100 5; decoy 100 7; decoy 100 3])].

Definition toy_selected1 : UnspentSelector :=
  mkSelector toy_currency [] [owned 100 7 "005"] [] 100 1 [100].

(* ------------------------------------------------------------------ *)
(** ** One coin taken from the map of the coins *)

(** The state [s'] is [s] after the last coin [un] of a stack of
    [have_coins] became a provisional pick. *)
Definition picked_from_have (un : api.Output) (s s' : Sel) : Prop :=
  optimization_unspents s' = optimization_unspents s ++ [un]
  /\ used_total s' = u64 (used_total s + api.amount un)
  /\ inputs_count s' = u64 (inputs_count s + 1)
  /\ Permutation (have_list (have_coins s)) (un :: have_list (have_coins s'))
  /\ dust_coins s' = dust_coins s.



(** A coin of [have_coins] is filed under the keys of its amount, which is
    a 64-bit value. *)
Definition filed_have (d k : Z) (un : api.Output) : Prop :=
  coin_key un = (d, k) /\ 0 <= api.amount un < 2 ^ 64.

(** No stack of the digits from [i] on that comes before the stack [k] of
    the digit [d] covers [need] with its round amount. *)
Definition none_covers_before (have : HaveCoins) (i : nat) (need : Z)
    (before : nat -> Z -> Prop) : Prop :=
  forall (d' : nat) (stacks' : omap (list api.Output)) (k' : Z)
         (st' : list api.Output),
    (i <= d')%nat -> before d' k' ->
    om_find (Z.of_nat d') have = Some stacks' -> In (k', st') stacks' ->
    k' * 10 ^ Z.of_nat d' < need.

(** No stack of the map holds more than [n] coins. *)
Definition stacks_at_most (n : nat) (have : HaveCoins) : Prop :=
  Forall (fun dit => Forall (fun ait => (length (snd ait) <= n)%nat) (snd dit))
         have.

(** A state whose only stack holds twenty-five coins of 5. *)
Definition tall_pool : list api.Output :=
  map (fun i => coin 5 (Z.of_nat i)) (seq 1 25).

Definition tall_example : Sel :=
  let u := UnspentSelector_new toy_currency tall_pool in
  let '(have, dust, _) := create_have_coins 0 0 1 u in
  mkSel u have dust.

(** A state with three dust coins, of 11, 12 and 13. *)
Definition dusty_pool : list api.Output :=
  [coin 12 1; coin 13 2; coin 11 3].

Definition dusty_example : Sel :=
  let u := UnspentSelector_new toy_currency dusty_pool in
  let '(have, dust, _) := create_have_coins 0 0 1 u in
  mkSel u have dust.

(** A coin of [have_coins] has the round amount of its keys: the leading
    digit [k], from 1 to 9, times [10^d]. *)
Definition round_have (d k : Z) (un : api.Output) : Prop :=
  0 <= d /\ 1 <= k <= 9 /\ api.amount un = k * 10 ^ d.

(** A dust coin is stored under its amount, an unsigned value. *)
Definition keyed_dust (a : Z) (un : api.Output) : Prop :=
  api.amount un = a /\ 0 <= a.

(** The coins that the last loop may take: those of [have_coins], and the
    dust coins when no ring is asked for. *)
Definition eligible (anonymity : Z) (s : Sel) : list api.Output :=
  have_list (have_coins s)
  ++ (if anonymity =? 0 then dust_list (dust_coins s) else []).

(** The state in which the last loop is entered: the two maps in key order
    and without empty stacks, round coins in [have_coins], dust coins under
    their amounts, and a 64-bit [m_used_total]. *)
Definition filler_ready (s : Sel) : Prop :=
  sorted_ok s /\ nonempty_ok s
  /\ have_all round_have (have_coins s)
  /\ stacks_all keyed_dust (dust_coins s)
  /\ 0 <= used_total s < 2 ^ 64.

(** A state with round coins of 300, 70 and 500 and a dust coin of 11. *)
Definition filler_pool : list api.Output :=
  [coin 300 1; coin 70 2; coin 11 3; coin 500 4].

Definition filler_example : Sel :=
  let u := UnspentSelector_new toy_currency filler_pool in
  let '(have, dust, _) := create_have_coins 0 0 1 u in
  mkSel u have dust.

(** The first statements of the private [select_optimal_outputs] when no
    ring is asked for: [if (m_used_total < total_amount) { auto duit =
    dust_coins->lower_bound(total_amount - m_used_total);
    if (duit != dust_coins->end()) { ... } }]. *)
Definition large_dust_step (total_amount : Z) (s : Sel) : Res Sel :=
  if used_total s <? total_amount then
    match om_lower_bound (u64 (total_amount - used_total s)) (dust_coins s) with
    | Some duit => take_dust duit s
    | None => Ok s
    end
  else Ok s.

Unset Implicit Arguments.

(* ================================================================== *)
(** * Machine integers: lemmas *)

Lemma u32_range (x : Z) : 0 <= u32 x < 2 ^ 32.
Proof. unfold u32. apply Z.mod_pos_bound. lia. Qed.

Lemma u32_small (x : Z) : 0 <= x < 2 ^ 32 -> u32 x = x.
Proof. intros H. unfold u32. now apply Z.mod_small. Qed.

Lemma u32_add_sub (a b : Z) : 0 <= b < 2 ^ 32 -> u32 (a + u32 (b - a)) = b.
Proof.
  intros H. unfold u32.
  rewrite Zplus_mod_idemp_r.
  replace (a + (b - a)) with b by lia.
  now apply Z.mod_small.
Qed.

Lemma u64_range (x : Z) : 0 <= u64 x < 2 ^ 64.
Proof. unfold u64. apply Z.mod_pos_bound. lia. Qed.

Lemma u64_small (x : Z) : 0 <= x < 2 ^ 64 -> u64 x = x.
Proof. intros H. unfold u64. now apply Z.mod_small. Qed.

Lemma u64_add_sub (a b : Z) : 0 <= a < 2 ^ 64 -> u64 (u64 (a + b) - b) = a.
Proof.
  intros H. unfold u64.
  rewrite Zminus_mod_idemp_l.
  replace (a + b - b) with a by lia.
  now apply Z.mod_small.
Qed.

(* ================================================================== *)
(** * Vectors: lemmas *)

Lemma back_app {A : Type} (l : list A) (x : A) : back (l ++ [x]) = Some x.
Proof.
  induction l as [|y l IH]; [reflexivity|].
  simpl. destruct (l ++ [x]) eqn:E; [now destruct l|]. exact IH.
Qed.

Lemma pop_back_app {A : Type} (l : list A) (x : A) : pop_back (l ++ [x]) = l.
Proof. unfold pop_back. apply removelast_last. Qed.

Lemma back_Some {A : Type} (l : list A) (x : A) :
  back l = Some x -> l = pop_back l ++ [x].
Proof.
  intros H. destruct l as [|y l] using rev_ind; [discriminate|].
  rewrite back_app in H. injection H as ->. now rewrite pop_back_app.
Qed.

Lemma back_None {A : Type} (l : list A) : back l = None -> l = [].
Proof.
  destruct l as [|y l] using rev_ind; [reflexivity|].
  now rewrite back_app.
Qed.

Lemma back_nonempty {A : Type} (l : list A) :
  l <> [] -> exists x, back l = Some x.
Proof.
  intros H. destruct (back l) eqn:E; [eauto|]. now apply back_None in E.
Qed.

Lemma set_nth_length {A : Type} (i : nat) (x : A) (l l' : list A) :
  set_nth i x l = Some l' -> length l' = length l.
Proof.
  unfold set_nth. destruct (Nat.ltb_spec i (length l)) as [Hi|Hi]; [|discriminate].
  intros H.
  assert (E : l' = firstn i l ++ x :: skipn (S i) l) by congruence.
  rewrite E, length_app, length_firstn. cbn [length].
  rewrite length_skipn. lia.
Qed.

(* ================================================================== *)
(** * Offsets *)

Local Open Scope nat_scope.

Lemma skipn_nth_cons {A : Type} (d : A) (l : list A) (k : nat) :
  k < length l -> skipn k l = nth k l d :: skipn (S k) l.
Proof.
  revert k. induction l as [|x l IH]; intros k Hk; simpl in Hk; [lia|].
  destruct k as [|k]; [reflexivity|].
  simpl. apply IH. lia.
Qed.

Lemma offsets_step_at (off : list Z) (m : nat) :
  S (S m) <= length off ->
  offsets_step off (Some (map (rel_at off) (seq 0 (S m)) ++ skipn (S m) off)) (S m)
  = Some (map (rel_at off) (seq 0 (S (S m))) ++ skipn (S (S m)) off).
Proof.
  intros Hm. unfold offsets_step.
  replace (S m - 1) with m by lia.
  rewrite (nth_error_nth' off 0%Z (n := S m)) by lia.
  rewrite (nth_error_nth' off 0%Z (n := m)) by lia.
  unfold set_nth.
  assert (Hlen : length (map (rel_at off) (seq 0 (S m))) = S m)
    by now rewrite length_map, length_seq.
  rewrite length_app, Hlen, length_skipn.
  destruct (Nat.ltb_spec (S m) (S m + (length off - S m))) as [_|Hc]; [|lia].
  f_equal.
  rewrite firstn_app, Hlen, Nat.sub_diag, firstn_O, app_nil_r.
  rewrite firstn_all2 by lia.
  rewrite skipn_app, Hlen.
  rewrite (skipn_all2 (n := S (S m))) by lia.
  replace (S (S m) - S m) with 1 by lia.
  rewrite skipn_skipn.
  rewrite (seq_S (S m) 0), map_app, <- app_assoc.
  reflexivity.
Qed.

Lemma offsets_fold (off : list Z) (m : nat) :
  S m <= length off ->
  fold_left (offsets_step off) (seq 1 m) (Some off)
  = Some (map (rel_at off) (seq 0 (S m)) ++ skipn (S m) off).
Proof.
  induction m as [|m IH]; intros Hm.
  - destruct off as [|x off]; [simpl in Hm; lia|]. reflexivity.
  - rewrite seq_S, fold_left_app, IH by lia.
    cbn [fold_left]. change (1 + m) with (S m).
    now apply offsets_step_at.
Qed.

(** [absolute_output_offsets_to_relative] never leaves its vectors, and the
    vector it returns is given by [rel_at]. *)
Lemma absolute_output_offsets_to_relative_eq (off : list Z) :
  absolute_output_offsets_to_relative off
  = Some (map (rel_at off) (seq 0 (length off))).
Proof.
  unfold absolute_output_offsets_to_relative.
  destruct off as [|x off]; [reflexivity|].
  simpl length. replace (S (length off) - 1) with (length off) by lia.
  rewrite offsets_fold by (simpl; lia).
  rewrite skipn_all2 by (simpl; lia).
  now rewrite app_nil_r.
Qed.

Lemma relative_to_absolute_from_rel (off : list Z) :
  Forall (fun x => 0 <= x < 2 ^ 32)%Z off ->
  forall m k acc,
    k + m <= length off ->
    acc = match k with O => 0%Z | S j => nth j off 0%Z end ->
    relative_to_absolute_from acc (map (rel_at off) (seq k m))
    = firstn m (skipn k off).
Proof.
  intros Hoff. induction m as [|m IH]; intros k acc Hk Hacc; [reflexivity|].
  simpl seq. simpl map. simpl relative_to_absolute_from.
  assert (Hnth : (0 <= nth k off 0 < 2 ^ 32)%Z).
  { rewrite Forall_forall in Hoff. apply Hoff, nth_In. lia. }
  assert (Ha : u32 (acc + rel_at off k) = nth k off 0%Z).
  { subst acc. destruct k as [|j]; simpl rel_at.
    - now apply u32_small.
    - now apply u32_add_sub. }
  rewrite Ha.
  rewrite (skipn_nth_cons 0%Z) by lia. simpl firstn.
  f_equal. apply IH; [lia | reflexivity].
Qed.

Local Close Scope nat_scope.

Lemma sort_insert_perm (x : api.Output) (l : list api.Output) :
  Permutation (sort_insert x l) (x :: l).
Proof.
  induction l as [|y l IH]; simpl; [reflexivity|].
  destruct (APIOutputLessGlobalIndex x y); [reflexivity|].
  rewrite IH. apply perm_swap.
Qed.

Lemma sort_outputs_perm (l : list api.Output) : Permutation (sort_outputs l) l.
Proof.
  induction l as [|x l IH]; simpl; [reflexivity|].
  rewrite sort_insert_perm. now constructor.
Qed.

Lemma HdRel_map_le (x : Z) (l : list Z) :
  Forall (fun y => x <= y) l -> HdRel Z.le x l.
Proof. intros H. destruct H; constructor; assumption. Qed.

Lemma sorted_le_Forall (x : Z) (l : list Z) :
  Sorted Z.le (x :: l) -> Forall (fun y => x <= y) l.
Proof.
  intros H. apply Sorted_StronglySorted in H; [|intros a b c; lia].
  now inversion H.
Qed.

Lemma sort_insert_sorted (x : api.Output) (l : list api.Output) :
  gi_sorted l -> gi_sorted (sort_insert x l).
Proof.
  unfold gi_sorted.
  induction l as [|y l IH]; intros Hs; simpl.
  - repeat constructor.
  - unfold APIOutputLessGlobalIndex.
    destruct (Z.ltb_spec (api.global_index x) (api.global_index y)) as [Hlt|Hge].
    + simpl. constructor; [exact Hs|]. constructor. lia.
    + simpl. inversion Hs as [|? ? Hs' Hhd]; subst.
      constructor; [now apply IH|].
      apply HdRel_map_le.
      assert (Hall : Forall (fun z => api.global_index y <= z)
                            (map api.global_index (x :: l))).
      { constructor; [lia|]. now apply sorted_le_Forall. }
      eapply Permutation_Forall; [|exact Hall].
      apply Permutation_map, Permutation_sym, sort_insert_perm.
Qed.

Lemma sort_outputs_sorted (l : list api.Output) : gi_sorted (sort_outputs l).
Proof.
  induction l as [|x l IH]; simpl; [constructor|].
  now apply sort_insert_sorted.
Qed.

(** Inserting at the position that [lower_bound] returns keeps the order. *)
Lemma insert_lower_bound_sorted (x : api.Output) (l : list api.Output) :
  gi_sorted l -> gi_sorted (insert_at (lower_bound l x) x l).
Proof.
  unfold gi_sorted, insert_at.
  induction l as [|y l IH]; intros Hs; simpl.
  - repeat constructor.
  - unfold APIOutputLessGlobalIndex.
    destruct (Z.ltb_spec (api.global_index y) (api.global_index x)) as [Hlt|Hge].
    + simpl. inversion Hs as [|? ? Hs' Hhd]; subst.
      constructor; [now apply IH|].
      apply HdRel_map_le.
      assert (Hall : Forall (fun z => api.global_index y <= z)
                            (map api.global_index (x :: l))).
      { constructor; [lia|]. now apply sorted_le_Forall. }
      eapply Permutation_Forall; [|exact Hall].
      apply Permutation_map.
      rewrite <- (firstn_skipn (lower_bound l x) l) at 1.
      apply Permutation_middle.
    + simpl. constructor; [exact Hs|]. constructor. lia.
Qed.

Lemma insert_at_perm {A : Type} (i : nat) (x : A) (l : list A) :
  Permutation (insert_at i x l) (x :: l).
Proof.
  unfold insert_at.
  rewrite <- (firstn_skipn i l) at 3.
  apply Permutation_sym, Permutation_middle.
Qed.

Lemma fill_output_indexes_Some (a : Z) (outs : list api.Output) (acc r : list Z) :
  fill_output_indexes a outs acc = Some r ->
  r = acc ++ map api.global_index outs
  /\ Forall (fun o => api.amount o = a) outs.
Proof.
  revert acc. induction outs as [|o outs IH]; intros acc H; simpl in H.
  - injection H as <-. now rewrite app_nil_r.
  - destruct (Z.eqb_spec (api.amount o) a) as [Ha|Ha]; simpl in H; [|discriminate].
    apply IH in H as [-> Hall]. unfold push_back.
    rewrite <- app_assoc. split; [reflexivity | now constructor].
Qed.

Lemma fill_output_indexes_None (a : Z) (outs : list api.Output) (acc : list Z) :
  fill_output_indexes a outs acc = None <->
  Exists (fun o => api.amount o <> a) outs.
Proof.
  revert acc. induction outs as [|o outs IH]; intros acc; simpl.
  - split; [discriminate | intros H; inversion H].
  - destruct (Z.eqb_spec (api.amount o) a) as [Ha|Ha]; simpl.
    + rewrite IH. split; intros H; [now right|].
      inversion H; subst; [contradiction | assumption].
    + split; [intros _; now left | reflexivity].
Qed.

(** Ascending without repetition is strictly ascending. *)
Lemma sorted_le_NoDup_lt (l : list Z) :
  Sorted Z.le l -> (StronglySorted Z.lt l <-> NoDup l).
Proof.
  induction l as [|x l IH]; intros Hs.
  - split; constructor.
  - pose proof (sorted_le_Forall _ _ Hs) as Hall.
    inversion Hs as [|? ? Hs' _]; subst.
    specialize (IH Hs'). split; intros H.
    + inversion H as [|? ? Hss Hlt]; subst. constructor; [|now apply IH].
      intros Hin. rewrite Forall_forall in Hlt. specialize (Hlt _ Hin). lia.
    + inversion H as [|? ? Hnin Hnd]; subst. constructor; [now apply IH|].
      rewrite Forall_forall in *. intros y Hy. specialize (Hall _ Hy).
      assert (x <> y) by (intros ->; contradiction). lia.
Qed.

Lemma bytes_eqb_eq (a b : BinaryArray) : bytes_eqb a b = true <-> a = b.
Proof.
  unfold bytes_eqb. destruct (list_eq_dec byte_eq_dec a b); split; congruence.
Qed.

(* ================================================================== *)
(** * The builder: offsets *)

(** Summing up the offsets that the conversion computes gives the absolute
    indexes back. *)
Lemma relative_output_offsets_to_absolute_rel (absolute : list Z) :
  Forall (fun x => 0 <= x < 2 ^ 32) absolute ->
  relative_output_offsets_to_absolute
    (map (rel_at absolute) (seq 0 (length absolute))) = absolute.
Proof.
  intros Hoff. unfold relative_output_offsets_to_absolute.
  rewrite (@relative_to_absolute_from_rel absolute Hoff
             (length absolute) 0%nat 0)
    by (simpl; lia || reflexivity).
  simpl skipn. apply firstn_all.
Qed.

(** C5.  For every vector of absolute global indexes (32-bit values),
    [absolute_output_offsets_to_relative] returns a vector of the same
    length whose first element is the first absolute index and whose element
    [k > 0] is the difference of the absolute indexes [k] and [k - 1] (in
    32-bit arithmetic), and summing the offsets up again gives the vector
    back: the round trip is the identity. *)
Theorem offsets_round_trip (absolute : list Z) :
  Forall (fun x => 0 <= x < 2 ^ 32) absolute ->
  exists relative,
    absolute_output_offsets_to_relative absolute = Some relative
    /\ length relative = length absolute
    /\ (forall k, (k < length absolute)%nat ->
                  nth k relative 0 = rel_at absolute k)
    /\ relative_output_offsets_to_absolute relative = absolute.
Proof.
  intros Hoff.
  exists (map (rel_at absolute) (seq 0 (length absolute))).
  split; [apply absolute_output_offsets_to_relative_eq|].
  split; [now rewrite length_map, length_seq|].
  split.
  - intros k Hk.
    rewrite (nth_indep _ 0 (rel_at absolute 0%nat))
      by now rewrite length_map, length_seq.
    rewrite map_nth, seq_nth by assumption. reflexivity.
  - now apply relative_output_offsets_to_absolute_rel.
Qed.

Lemma offsets_round_trip_witness :
  exists relative,
    absolute_output_offsets_to_relative [5; 7; 12] = Some relative
    /\ length relative = 3%nat
    /\ (forall k, (k < 3)%nat -> nth k relative 0 = rel_at [5; 7; 12] k)
    /\ relative_output_offsets_to_absolute relative = [5; 7; 12].
Proof.
  apply (@offsets_round_trip [5; 7; 12]).
  repeat constructor; lia.
Defined.

(** On ascending indexes the stored offsets are the plain differences. *)
Lemma rel_at_ascending (off : list Z) (k : nat) :
  Forall (fun x => 0 <= x < 2 ^ 32) off ->
  Sorted Z.le off ->
  (S k < length off)%nat ->
  rel_at off (S k) = nth (S k) off 0 - nth k off 0.
Proof.
  intros Hoff Hs Hk. simpl rel_at. apply u32_small.
  apply Sorted_StronglySorted in Hs; [|intros a b c; lia].
  assert (Hle : nth k off 0 <= nth (S k) off 0).
  { clear Hoff. revert k Hk. induction Hs as [|x l Hs IH Hall]; intros k Hk.
    - simpl in Hk. lia.
    - destruct k as [|k].
      + destruct l as [|y l]; [simpl in Hk; lia|]. simpl.
        now inversion Hall.
      + apply (IH k). simpl in Hk. lia. }
  rewrite Forall_forall in Hoff.
  assert (H1 : In (nth k off 0) off) by (apply nth_In; lia).
  assert (H2 : In (nth (S k) off 0) off) by (apply nth_In; lia).
  apply Hoff in H1, H2. lia.
Qed.

(* ================================================================== *)
(** * The builder: [add_input] *)

Section AddInput.
Context {crypto : Crypto} {tools : VarNoteTools}.

(** The outcome of [add_input] in the three cases of its tests. *)
Lemma add_input_cases (sender_keys : AccountKeys) (real_output : api.Output)
    (mix_outputs : list api.Output) (b : TransactionBuilder) :
  let outs := insert_at (lower_bound (sort_outputs mix_outputs) real_output)
                        real_output (sort_outputs mix_outputs) in
  (key_image_derivation_fails sender_keys real_output
   /\ add_input sender_keys real_output mix_outputs b
      = (inputs_amount_added real_output b, Throw "generating keyimage failed"))
  \/ (key_image_mismatch sender_keys real_output
      /\ add_input sender_keys real_output mix_outputs b
         = (inputs_amount_added real_output b,
            Throw "generated keyimage does not match input"))
  \/ (ring_amount_mismatch real_output mix_outputs
      /\ ~ key_image_derivation_fails sender_keys real_output
      /\ ~ key_image_mismatch sender_keys real_output
      /\ add_input sender_keys real_output mix_outputs b
         = (inputs_amount_added real_output b,
            Throw "Mixin outputs with different amounts is not allowed"))
  \/ (~ key_image_derivation_fails sender_keys real_output
      /\ ~ key_image_mismatch sender_keys real_output
      /\ ~ ring_amount_mismatch real_output mix_outputs
      /\ exists eph,
          generate_key_image_helper sender_keys
            (api.transaction_public_key real_output)
            (api.index_in_transaction real_output)
          = Some (eph, api.key_image real_output)
          /\ add_input sender_keys real_output mix_outputs b
          = (set_m_input_descs
               (m_input_descs b
                ++ [mkInputDesc
                      (mkKeyInput (api.amount real_output)
                         (api.key_image real_output)
                         (map (rel_at (map api.global_index outs))
                              (seq 0 (length outs))))
                      outs
                      (lower_bound (sort_outputs mix_outputs) real_output)
                      eph])
               (inputs_amount_added real_output b),
             Ok (length (m_input_descs b)))).
Proof.
  intros outs.
  unfold add_input, key_image_derivation_fails, key_image_mismatch,
    inputs_amount_added.
  destruct (generate_key_image_helper sender_keys
              (api.transaction_public_key real_output)
              (api.index_in_transaction real_output)) as [[eph ki]|] eqn:Eh.
  2: { left. split; reflexivity. }
  right.
  destruct (bytes_eqb ki (api.key_image real_output)) eqn:Eki; simpl negb; cbv iota.
  2: { left. split; [|reflexivity]. exists eph, ki. split; [reflexivity|].
       intros Heq. apply bytes_eqb_eq in Heq. congruence. }
  right. apply bytes_eqb_eq in Eki. subst ki.
  assert (Hnm : ~ exists eph0 ki0,
                   Some (eph, api.key_image real_output) = Some (eph0, ki0)
                   /\ ki0 <> api.key_image real_output).
  { intros (e0 & k0 & [= <- <-] & Hne). now apply Hne. }
  fold outs.
  destruct (fill_output_indexes (api.amount real_output) outs []) as [absolute|] eqn:Ef.
  - right. apply fill_output_indexes_Some in Ef as [-> Hall]. simpl app.
    split; [discriminate|]. split; [exact Hnm|]. split.
    + unfold ring_amount_mismatch. rewrite Exists_exists.
      intros (o & Ho & Hne). rewrite Forall_forall in Hall.
      apply Hne, Hall.
      eapply Permutation_in; [apply Permutation_sym, insert_at_perm|].
      right. eapply Permutation_in; [apply Permutation_sym, sort_outputs_perm|].
      exact Ho.
    + exists eph. split; [reflexivity|].
      rewrite absolute_output_offsets_to_relative_eq, length_map.
      unfold push_back. cbn [m_input_descs set_m_input_descs].
      rewrite length_app. cbn [length].
      replace (length (m_input_descs (set_m_inputs_amount
                 (u64 (m_inputs_amount b + api.amount real_output)) b)) + 1 - 1)%nat
        with (length (m_input_descs b)) by (simpl; lia).
      reflexivity.
  - left. split; [|split; [discriminate | split; [exact Hnm | reflexivity]]].
    apply fill_output_indexes_None in Ef.
    unfold ring_amount_mismatch. rewrite Exists_exists in *.
    destruct Ef as (o & Ho & Hne). exists o. split; [|exact Hne].
    apply (Permutation_in _ (insert_at_perm _ _ _)) in Ho.
    destruct Ho as [<-|Ho]; [contradiction|].
    eapply Permutation_in; [apply sort_outputs_perm | exact Ho].
Qed.

(** The ring of an input that [add_input] appended. *)
Lemma add_input_ring (sender_keys : AccountKeys) (real_output : api.Output)
    (mix_outputs : list api.Output) (b b' : TransactionBuilder) (idx : nat) :
  add_input sender_keys real_output mix_outputs b = (b', Ok idx) ->
  exists desc,
    m_input_descs b' = m_input_descs b ++ [desc]
    /\ idx = length (m_input_descs b)
    /\ Permutation (desc_outputs desc) (real_output :: mix_outputs)
    /\ gi_sorted (desc_outputs desc)
    /\ output_indexes (input desc)
       = map (rel_at (map api.global_index (desc_outputs desc)))
             (seq 0 (length (desc_outputs desc)))
    /\ nth_error (desc_outputs desc) (real_output_index desc) = Some real_output.
Proof.
  intros Hadd.
  pose proof (add_input_cases sender_keys real_output mix_outputs b) as H.
  cbv zeta in H.
  destruct H as [[_ E]|[[_ E]|[(_ & _ & _ & E)|(_ & _ & _ & eph & _ & E)]]];
    rewrite E in Hadd; try discriminate.
  injection Hadd as <- <-.
  eexists. split; [reflexivity|]. split; [reflexivity|]. cbn [desc_outputs input
    output_indexes real_output_index].
  split; [|split; [|split; [reflexivity|]]].
  - rewrite insert_at_perm. constructor. apply sort_outputs_perm.
  - apply insert_lower_bound_sorted, sort_outputs_sorted.
  - unfold insert_at.
    assert (Hle : (lower_bound (sort_outputs mix_outputs) real_output
                   <= length (sort_outputs mix_outputs))%nat).
    { generalize (sort_outputs mix_outputs) as l.
      induction l as [|y l IH]; simpl; [lia|].
      destruct (APIOutputLessGlobalIndex y real_output); simpl; lia. }
    rewrite nth_error_app2 by (rewrite length_firstn; lia).
    rewrite length_firstn, Nat.min_l, Nat.sub_diag by exact Hle.
    reflexivity.
Qed.

(** C4.  [add_input] throws exactly when the key image cannot be derived,
    or the derived key image is not the one recorded in the real output,
    or some ring member has another amount than the real output; in every
    other case it appends the prepared input to [m_input_descs] and
    returns its index.  The prepared input has the amount and the key image
    of the real output; its ring is the mix outputs sorted by
    [global_index] with the real output inserted at its lower bound, which
    is [real_output_index]; its [output_indexes] are the relative offsets
    of the [global_index] values of the ring; and its ephemeral keys are
    those that [generate_key_image_helper] derived with the key image. *)
Theorem add_input_throws_iff (sender_keys : AccountKeys)
    (real_output : api.Output) (mix_outputs : list api.Output)
    (b : TransactionBuilder) :
  let failure :=
    key_image_derivation_fails sender_keys real_output
    \/ key_image_mismatch sender_keys real_output
    \/ ring_amount_mismatch real_output mix_outputs in
  ((exists msg, snd (add_input sender_keys real_output mix_outputs b) = Throw msg)
   <-> failure)
  /\ (~ failure ->
      let sorted := sort_outputs mix_outputs in
      let idx := lower_bound sorted real_output in
      let outs := insert_at idx real_output sorted in
      exists eph,
        generate_key_image_helper sender_keys
          (api.transaction_public_key real_output)
          (api.index_in_transaction real_output)
        = Some (eph, api.key_image real_output)
        /\ add_input sender_keys real_output mix_outputs b
           = (set_m_input_descs
                (m_input_descs b
                 ++ [mkInputDesc
                       (mkKeyInput (api.amount real_output)
                          (api.key_image real_output)
                          (map (rel_at (map api.global_index outs))
                               (seq 0 (length outs))))
                       outs idx eph])
                (inputs_amount_added real_output b),
              Ok (length (m_input_descs b)))
        /\ Permutation outs (real_output :: mix_outputs)
        /\ gi_sorted outs
        /\ nth_error outs idx = Some real_output).
Proof.
  intros failure. subst failure.
  pose proof (add_input_cases sender_keys real_output mix_outputs b) as H.
  cbv zeta in H.
  destruct H as [[H1 E]|[[H2 E]|[(H3 & N1 & N2 & E)|(N1 & N2 & N3 & eph & Hgen & E)]]].
  - rewrite E; simpl snd. split; [split; [tauto | eauto]|tauto].
  - rewrite E; simpl snd. split; [split; [tauto | eauto]|tauto].
  - rewrite E; simpl snd. split; [split; [tauto | eauto]|tauto].
  - split.
    + rewrite E; simpl snd.
      split; [intros [msg Hm]; discriminate | tauto].
    + intros _. exists eph. split; [exact Hgen|]. split; [exact E|].
      destruct (add_input_ring sender_keys real_output mix_outputs b _ _ E)
        as (desc & Hd & _ & Hperm & Hsorted & _ & Hnth).
      cbn [m_input_descs set_m_input_descs inputs_amount_added] in Hd.
      apply app_inv_head in Hd. injection Hd as <-.
      cbn [desc_outputs real_output_index] in Hperm, Hsorted, Hnth.
      split; [exact Hperm|]. split; [exact Hsorted | exact Hnth].
Qed.

(** C9.  When [add_input] throws, the pending inputs, the transaction and
    the other members of the builder are as before the call, but
    [m_inputs_amount] has been increased by the amount of the real
    output: for an amount that is not zero the builder is not the builder
    of before the call. *)
Theorem add_input_throw_keeps_amount (sender_keys : AccountKeys)
    (real_output : api.Output) (mix_outputs : list api.Output)
    (b : TransactionBuilder) (msg : string) :
  snd (add_input sender_keys real_output mix_outputs b) = Throw msg ->
  let b' := fst (add_input sender_keys real_output mix_outputs b) in
  m_input_descs b' = m_input_descs b
  /\ m_transaction b' = m_transaction b
  /\ m_output_descs b' = m_output_descs b
  /\ m_extra b' = m_extra b
  /\ m_outputs_amount b' = m_outputs_amount b
  /\ m_inputs_amount b' = u64 (m_inputs_amount b + api.amount real_output)
  /\ (0 <= m_inputs_amount b < 2 ^ 64 ->
      0 < api.amount real_output < 2 ^ 64 ->
      b' <> b).
Proof.
  intros Hthrow b'. subst b'.
  pose proof (add_input_cases sender_keys real_output mix_outputs b) as H.
  cbv zeta in H.
  assert (E : fst (add_input sender_keys real_output mix_outputs b)
              = inputs_amount_added real_output b).
  { destruct H as [[_ E]|[[_ E]|[(_ & _ & _ & E)|(_ & _ & _ & eph & _ & E)]]];
      rewrite E in *; try reflexivity.
    simpl in Hthrow. discriminate. }
  rewrite E. unfold inputs_amount_added. simpl.
  repeat (split; [reflexivity|]).
  intros Hm Ha Heq.
  apply (f_equal m_inputs_amount) in Heq. simpl in Heq.
  unfold u64 in Heq.
  destruct (Z_lt_ge_dec (m_inputs_amount b + api.amount real_output) (2 ^ 64))
    as [Hlt|Hge].
  - rewrite Z.mod_small in Heq by lia. lia.
  - assert (Hmod : (m_inputs_amount b + api.amount real_output) mod 2 ^ 64
                   = m_inputs_amount b + api.amount real_output - 2 ^ 64).
    { symmetry. apply (Z.mod_unique _ _ 1); lia. }
    lia.
Qed.

(** C3, as the code has it.  For every input that [add_input] appends (so
    also for those that [add_mixed_inputs] forwards), the absolute form of
    [output_indexes] is the sequence of the ring members' [global_index]
    values in ascending order, and it is strictly increasing exactly when
    no two ring members (the real output included) share a
    [global_index]. *)
Theorem add_input_output_indexes_ascending (sender_keys : AccountKeys)
    (real_output : api.Output) (mix_outputs : list api.Output)
    (b b' : TransactionBuilder) (idx : nat) :
  Forall (fun o => 0 <= api.global_index o < 2 ^ 32) (real_output :: mix_outputs) ->
  add_input sender_keys real_output mix_outputs b = (b', Ok idx) ->
  exists desc,
    nth_error (m_input_descs b') idx = Some desc
    /\ Permutation (desc_outputs desc) (real_output :: mix_outputs)
    /\ let absolute :=
         relative_output_offsets_to_absolute (output_indexes (input desc)) in
       absolute = map api.global_index (desc_outputs desc)
       /\ Sorted Z.le absolute
       /\ (StronglySorted Z.lt absolute
           <-> NoDup (map api.global_index (real_output :: mix_outputs))).
Proof.
  intros Hgi Hadd.
  destruct (add_input_ring _ _ _ _ _ _ Hadd)
    as (desc & Hdescs & -> & Hperm & Hsorted & Hidx & _).
  exists desc. split.
  { rewrite Hdescs, nth_error_app2, Nat.sub_diag by lia. reflexivity. }
  split; [exact Hperm|]. cbv zeta.
  assert (Hrange : Forall (fun x => 0 <= x < 2 ^ 32)
                          (map api.global_index (desc_outputs desc))).
  { apply Forall_map.
    eapply Permutation_Forall; [apply Permutation_sym, Hperm | exact Hgi]. }
  pose proof (relative_output_offsets_to_absolute_rel _ Hrange) as Hback.
  rewrite length_map in Hback.
  rewrite Hidx, Hback.
  split; [reflexivity|]. split; [exact Hsorted|].
  rewrite (sorted_le_NoDup_lt _ Hsorted).
  split; intros Hnd.
  - eapply Permutation_NoDup; [apply Permutation_map, Hperm | exact Hnd].
  - eapply Permutation_NoDup; [apply Permutation_map, Permutation_sym, Hperm
                              | exact Hnd].
Qed.

(** The transaction secret that [sign] uses is a function of the sequence
    of inputs after the shuffle and of the seed. *)
Lemma sign_prepare_secret (rnd_out rnd_in : nat -> nat) (seed : Hash)
    (b : TransactionBuilder) :
  secret_key (snd (sign_prepare rnd_out rnd_in seed b))
  = hash_to_scalar
      (inputs_hash (map InputKey (map input (shuffle rnd_in (m_input_descs b))))
       ++ seed).
Proof.
  unfold sign_prepare, deterministic_keys_from_seed_tx,
    deterministic_keys_from_seed, get_transaction_inputs_hash.
  simpl. now rewrite map_map.
Qed.

(** C2, as the code has it.  For two runs of [sign] with the same
    [tx_derivation_seed] in which the inputs are in the same order after
    the shuffle, the transaction secret, the hash-to-scalar of the inputs
    hash followed by the seed, is the same, whatever the outputs, their
    shuffle and the other members of the two builders are. *)
Theorem sign_secret_deterministic (rnd_out1 rnd_in1 rnd_out2 rnd_in2 : nat -> nat)
    (seed : Hash) (b1 b2 : TransactionBuilder) :
  map input (shuffle rnd_in1 (m_input_descs b1))
  = map input (shuffle rnd_in2 (m_input_descs b2)) ->
  secret_key (snd (sign_prepare rnd_out1 rnd_in1 seed b1))
  = secret_key (snd (sign_prepare rnd_out2 rnd_in2 seed b2))
  /\ secret_key (snd (sign_prepare rnd_out1 rnd_in1 seed b1))
     = hash_to_scalar
         (inputs_hash (map InputKey
                         (map input (shuffle rnd_in1 (m_input_descs b1))))
          ++ seed).
Proof.
  intros Hsame. rewrite !sign_prepare_secret, Hsame. split; reflexivity.
Qed.

End AddInput.

(* ================================================================== *)
(** * The builder: examples *)

(** Two random outputs of the node with the same [global_index] pass the
    collision test of [add_mixed_inputs], which only compares with the real
    output, and reach the ring: the absolute indexes 5, 5, 7 are not
    strictly increasing. *)
Lemma add_mixed_inputs_repeated_index :
  exists b' desc,
    add_mixed_inputs toy_view_secret toy_records toy_builder 2
      [(100, [decoy 100 5; decoy 100 5])]
      (mkSelector toy_currency [] [owned 100 7 "005"] [] 100 1 [100])
    = (b', Ok tt)
    /\ m_input_descs b' = [desc]
    /\ relative_output_offsets_to_absolute (output_indexes (input desc)) = [5; 5; 7]
    /\ ~ StronglySorted Z.lt
         (relative_output_offsets_to_absolute (output_indexes (input desc))).
Proof.
  eexists. eexists.
  split; [vm_compute; reflexivity|].
  split; [reflexivity|].
  split; [vm_compute; reflexivity|].
  vm_compute relative_output_offsets_to_absolute.
  intros H. inversion H as [|? ? _ Hall]; subst.
  inversion Hall as [|? ? Hlt _]; subst. lia.
Qed.

Lemma add_input_output_indexes_ascending_witness :
  exists desc,
    nth_error
      (m_input_descs
         (fst (add_input toy_keys (owned 100 7 "005")
                 [decoy 100 9; decoy 100 5] toy_builder))) 0
    = Some desc
    /\ Permutation (desc_outputs desc)
                   [owned 100 7 "005"; decoy 100 9; decoy 100 5]
    /\ let absolute :=
         relative_output_offsets_to_absolute (output_indexes (input desc)) in
       absolute = map api.global_index (desc_outputs desc)
       /\ Sorted Z.le absolute
       /\ (StronglySorted Z.lt absolute
           <-> NoDup (map api.global_index
                          [owned 100 7 "005"; decoy 100 9; decoy 100 5])).
Proof.
  apply (@add_input_output_indexes_ascending toy_crypto toy_keys
           (owned 100 7 "005") [decoy 100 9; decoy 100 5] toy_builder
           (fst (add_input toy_keys (owned 100 7 "005")
                   [decoy 100 9; decoy 100 5] toy_builder)) 0%nat).
  - repeat constructor; simpl; lia.
  - vm_compute. reflexivity.
Defined.

(** The real output 7 is inserted between the mix outputs 5 and 9. *)
Lemma add_input_throws_iff_witness :
  let real_output := owned 100 7 "005" in
  let mix_outputs := [decoy 100 9; decoy 100 5] in
  let outs := [decoy 100 5; real_output; decoy 100 9] in
  exists eph,
    generate_key_image_helper toy_keys
      (api.transaction_public_key real_output)
      (api.index_in_transaction real_output)
    = Some (eph, api.key_image real_output)
    /\ add_input toy_keys real_output mix_outputs toy_builder
       = (set_m_input_descs
            (m_input_descs toy_builder
             ++ [mkInputDesc
                   (mkKeyInput 100 (api.key_image real_output) [5; 2; 2])
                   outs 1 eph])
            (inputs_amount_added real_output toy_builder),
          Ok 0%nat)
    /\ Permutation outs (real_output :: mix_outputs)
    /\ gi_sorted outs
    /\ nth_error outs 1 = Some real_output.
Proof.
  cbv zeta.
  apply (proj2 (@add_input_throws_iff toy_crypto toy_keys (owned 100 7 "005")
                  [decoy 100 9; decoy 100 5] toy_builder)).
  intros [H|[H|H]].
  - vm_compute in H. discriminate.
  - destruct H as (eph & ki & Hk & Hne). vm_compute in Hk.
    injection Hk as <- <-. apply Hne. reflexivity.
  - unfold ring_amount_mismatch in H. rewrite Exists_exists in H.
    destruct H as (o & [<-|[<-|[]]] & Hne); apply Hne; reflexivity.
Defined.

(** A call that throws: the real output has no transaction public key. *)
Lemma add_input_throw_keeps_amount_witness :
  let b' := fst (add_input toy_keys (decoy 100 7) [] toy_builder) in
  m_input_descs b' = m_input_descs toy_builder
  /\ m_transaction b' = m_transaction toy_builder
  /\ m_output_descs b' = m_output_descs toy_builder
  /\ m_extra b' = m_extra toy_builder
  /\ m_outputs_amount b' = m_outputs_amount toy_builder
  /\ m_inputs_amount b' = u64 (m_inputs_amount toy_builder + 100)
  /\ (0 <= m_inputs_amount toy_builder < 2 ^ 64 ->
      0 < 100 < 2 ^ 64 ->
      b' <> toy_builder).
Proof.
  apply (@add_input_throw_keeps_amount toy_crypto toy_keys (decoy 100 7) []
           toy_builder "generating keyimage failed").
  reflexivity.
Defined.

(** The same builder and the same seed, two shuffles of the inputs: the
    transaction secrets differ. *)
Lemma sign_secret_depends_on_shuffle :
  secret_key (snd (sign_prepare (fun _ => 0%nat) (fun _ => 0%nat)
                     ["009"%byte] toy_builder2))
  <> secret_key (snd (sign_prepare (fun _ => 0%nat) (fun i => i)
                        ["009"%byte] toy_builder2)).
Proof. vm_compute. discriminate. Qed.

Lemma sign_secret_deterministic_witness :
  let b2 := fst (add_output 5 (mkAddress ["001"%byte] ["002"%byte]) toy_builder2) in
  secret_key (snd (sign_prepare (fun _ => 0%nat) (fun _ => 0%nat)
                     ["009"%byte] toy_builder2))
  = secret_key (snd (sign_prepare (fun i => i) (fun _ => 0%nat) ["009"%byte] b2))
  /\ secret_key (snd (sign_prepare (fun _ => 0%nat) (fun _ => 0%nat)
                        ["009"%byte] toy_builder2))
     = hash_to_scalar
         (inputs_hash
            (map InputKey
               (map input (shuffle (fun _ => 0%nat) (m_input_descs toy_builder2))))
          ++ ["009"%byte]).
Proof.
  apply (@sign_secret_deterministic toy_crypto toy_tools).
  reflexivity.
Defined.

(* ================================================================== *)
(** * Ordered maps: lemmas *)

Section OMap.
Variable V : Type.
Implicit Types (m : omap V) (k : Z) (v : V).

Lemma om_find_In m k v : om_find k m = Some v -> In (k, v) m.
Proof.
  induction m as [|[k' v'] t IH]; simpl; [discriminate|].
  destruct (Z.eqb_spec k k') as [->|Hne].
  - intros [= ->]. now left.
  - intros H. right. now apply IH.
Qed.

Lemma om_In_find m k v : om_sorted m -> In (k, v) m -> om_find k m = Some v.
Proof.
  induction m as [|[k' v'] t IH]; simpl; [contradiction|].
  intros [Hall Hs] [[= -> ->]|Hin].
  - now rewrite Z.eqb_refl.
  - destruct (Z.eqb_spec k k') as [->|Hne]; [|now apply IH].
    rewrite Forall_forall in Hall. specialize (Hall _ Hin). simpl in Hall. lia.
Qed.

Lemma om_find_set_eq m k v : om_find k (om_set k v m) = Some v.
Proof.
  induction m as [|[k' v'] t IH]; simpl.
  - now rewrite Z.eqb_refl.
  - destruct (Z.ltb_spec k k') as [Hlt|Hge]; simpl.
    + now rewrite Z.eqb_refl.
    + destruct (Z.eqb_spec k k') as [->|Hne]; simpl.
      * now rewrite Z.eqb_refl.
      * destruct (Z.eqb_spec k k'); [contradiction | exact IH].
Qed.

Lemma om_find_set_neq m k k2 v : k <> k2 -> om_find k2 (om_set k v m) = om_find k2 m.
Proof.
  intros Hne.
  induction m as [|[k' v'] t IH]; simpl.
  - destruct (Z.eqb_spec k2 k); [congruence | reflexivity].
  - destruct (Z.ltb_spec k k') as [Hlt|Hge]; simpl.
    + destruct (Z.eqb_spec k2 k); [congruence | reflexivity].
    + destruct (Z.eqb_spec k k') as [->|Hne']; simpl.
      * destruct (Z.eqb_spec k2 k'); [congruence | reflexivity].
      * destruct (Z.eqb_spec k2 k'); [reflexivity | exact IH].
Qed.

Lemma om_find_erase_neq m k k2 : k <> k2 -> om_find k2 (om_erase k m) = om_find k2 m.
Proof.
  intros Hne.
  induction m as [|[k' v'] t IH]; simpl; [reflexivity|].
  destruct (Z.eqb_spec k k') as [->|Hne']; simpl.
  - destruct (Z.eqb_spec k2 k'); [congruence | reflexivity].
  - destruct (Z.eqb_spec k2 k'); [reflexivity | exact IH].
Qed.

Lemma om_find_None_notin m k : om_find k m = None -> forall v, ~ In (k, v) m.
Proof.
  induction m as [|[k' v'] t IH]; simpl; [tauto|].
  destruct (Z.eqb_spec k k') as [->|Hne]; [discriminate|].
  intros H v [[= -> ->]|Hin]; [congruence|]. now apply (IH H v).
Qed.

(** A key that is in the map splits it; [om_set] and [om_erase] act at
    the split. *)
Lemma om_split_found m k v :
  om_sorted m -> om_find k m = Some v ->
  exists l1 l2,
    m = l1 ++ (k, v) :: l2
    /\ (forall v', om_set k v' m = l1 ++ (k, v') :: l2)
    /\ om_erase k m = l1 ++ l2.
Proof.
  induction m as [|[k' v0] t IH]; simpl; [discriminate|].
  intros [Hall Hs].
  destruct (Z.eqb_spec k k') as [->|Hne].
  - intros [= ->]. exists [], t. simpl.
    split; [reflexivity|]. split; [|reflexivity].
    intros v'. now rewrite Z.ltb_irrefl.
  - intros Hf. destruct (IH Hs Hf) as (l1 & l2 & -> & Hset & Her).
    exists ((k', v0) :: l1), l2. simpl.
    split; [reflexivity|]. split; [|now rewrite Her].
    intros v'. rewrite Hset.
    destruct (Z.ltb_spec k k') as [Hlt|Hge]; [|reflexivity].
    rewrite Forall_forall in Hall.
    specialize (Hall (k, v) ltac:(apply in_or_app; right; now left)).
    simpl in Hall. lia.
Qed.

(** A key that is not in the map is inserted at a split. *)
Lemma om_split_absent m k v :
  om_find k m = None ->
  exists l1 l2, m = l1 ++ l2 /\ om_set k v m = l1 ++ (k, v) :: l2.
Proof.
  induction m as [|[k' v0] t IH]; simpl.
  - intros _. now exists [], [].
  - destruct (Z.eqb_spec k k') as [->|Hne]; [discriminate|].
    intros Hf. destruct (Z.ltb_spec k k') as [Hlt|Hge].
    + now exists [], ((k', v0) :: t).
    + destruct (IH Hf) as (l1 & l2 & -> & Hset).
      exists ((k', v0) :: l1), l2. simpl. now rewrite Hset.
Qed.

Lemma om_sorted_app_inv (l1 l2 : omap V) :
  om_sorted (l1 ++ l2) -> om_sorted l1 /\ om_sorted l2.
Proof.
  induction l1 as [|e l1 IH]; simpl; [tauto|].
  intros [Hall Hs]. apply IH in Hs as [H1 H2].
  apply Forall_app in Hall as [Ha _]. tauto.
Qed.

Lemma om_sorted_replace (l1 l2 : omap V) k v v' :
  om_sorted (l1 ++ (k, v) :: l2) -> om_sorted (l1 ++ (k, v') :: l2).
Proof.
  induction l1 as [|e l1 IH]; simpl.
  - tauto.
  - intros [Hall Hs]. split; [|now apply IH].
    apply Forall_app in Hall as [Ha Hb]. apply Forall_app. split; [exact Ha|].
    inversion Hb; subst. now constructor.
Qed.

Lemma om_sorted_remove (l1 l2 : omap V) e :
  om_sorted (l1 ++ e :: l2) -> om_sorted (l1 ++ l2).
Proof.
  induction l1 as [|e1 l1 IH]; simpl.
  - tauto.
  - intros [Hall Hs]. split; [|now apply IH].
    apply Forall_app in Hall as [Ha Hb]. apply Forall_app. split; [exact Ha|].
    now inversion Hb.
Qed.

Lemma om_set_sorted m k v : om_sorted m -> om_sorted (om_set k v m).
Proof.
  induction m as [|[k' v0] t IH]; simpl.
  - intros _. split; [constructor | exact I].
  - intros [Hall Hs].
    destruct (Z.ltb_spec k k') as [Hlt|Hge]; simpl.
    + split; [|tauto]. constructor; [exact Hlt|].
      eapply Forall_impl; [|exact Hall]. simpl. intros; lia.
    + destruct (Z.eqb_spec k k') as [->|Hne]; simpl; [tauto|].
      split; [|now apply IH].
      clear IH Hs. induction t as [|[k2 v2] t IHt]; simpl.
      * constructor; [simpl; lia | constructor].
      * inversion Hall; subst.
        destruct (Z.ltb_spec k k2); [constructor; [simpl; lia | now constructor]|].
        destruct (Z.eqb_spec k k2); [constructor; [simpl; lia | assumption]|].
        constructor; [assumption | now apply IHt].
Qed.

Lemma om_erase_sorted m k : om_sorted m -> om_sorted (om_erase k m).
Proof.
  induction m as [|[k' v0] t IH]; simpl; [tauto|].
  intros [Hall Hs].
  destruct (Z.eqb_spec k k') as [->|Hne]; simpl; [exact Hs|].
  split; [|now apply IH].
  clear IH Hs. induction t as [|[k2 v2] t IHt]; simpl; [constructor|].
  inversion Hall; subst.
  destruct (Z.eqb_spec k k2); [assumption|].
  constructor; [assumption | now apply IHt].
Qed.

Lemma om_set_Forall (P : Z * V -> Prop) m k v :
  Forall P m -> P (k, v) -> Forall P (om_set k v m).
Proof.
  intros Hm Hp.
  induction m as [|[k' v0] t IH]; simpl; [now constructor|].
  inversion Hm; subst.
  destruct (Z.ltb_spec k k'); [now constructor|].
  destruct (Z.eqb_spec k k'); constructor; auto.
Qed.

Lemma om_erase_Forall (P : Z * V -> Prop) m k :
  Forall P m -> Forall P (om_erase k m).
Proof.
  intros Hm.
  induction m as [|[k' v0] t IH]; simpl; [constructor|].
  inversion Hm; subst.
  destruct (Z.eqb_spec k k'); [assumption|]. constructor; auto.
Qed.

Lemma om_last_In m e : om_last m = Some e -> In e m.
Proof.
  unfold om_last. intros H. apply back_Some in H. rewrite H.
  apply in_or_app. right. now left.
Qed.

Lemma om_last_None m : om_last m = None -> m = [].
Proof. apply back_None. Qed.

Lemma om_lower_bound_In m k e : om_lower_bound k m = Some e -> In e m.
Proof.
  induction m as [|[k' v0] t IH]; simpl; [discriminate|].
  destruct (k <=? k'); [intros [= <-]; now left | intros H; right; auto].
Qed.

End OMap.

(* ================================================================== *)
(** * Digit rounding: the needed count *)

Lemma pow10_pos (n : nat) : 0 < 10 ^ Z.of_nat n.
Proof. apply Z.pow_pos_nonneg; lia. Qed.

(** Below the eighteenth digit [fake_large] is a multiple of ten times the
    digit amount, and adding it does not change the digit that is read. *)
Lemma needed_count_eq (digit : nat) (total_amount used : Z) :
  (digit <= 17)%nat ->
  0 <= fake_large + total_amount + 10 ^ Z.of_nat digit - 1 - used < 2 ^ 64 ->
  needed_count total_amount (10 ^ Z.of_nat digit) used
  = 10 - ((total_amount + 10 ^ Z.of_nat digit - 1 - used) / 10 ^ Z.of_nat digit)
         mod 10.
Proof.
  intros Hd Hr. unfold needed_count.
  pose proof (pow10_pos digit) as Hpos.
  set (d := 10 ^ Z.of_nat digit) in *.
  rewrite (u64_small _ Hr).
  assert (Hf : fake_large = 10 * 10 ^ Z.of_nat (17 - digit) * d).
  { unfold d. rewrite <- Z.mul_assoc, <- Z.pow_add_r by lia.
    replace (Z.of_nat (17 - digit) + Z.of_nat digit) with 17 by lia.
    reflexivity. }
  replace (fake_large + total_amount + d - 1 - used)
    with (10 * 10 ^ Z.of_nat (17 - digit) * d + (total_amount + d - 1 - used))
    by lia.
  rewrite Z.div_add_l by lia.
  rewrite (Z.mul_comm 10), Z.add_comm, Z.mod_add by lia.
  apply u64_small.
  pose proof (Z.mod_pos_bound ((total_amount + d - 1 - used) / d) 10 ltac:(lia)).
  lia.
Qed.

Lemma needed_count_range (total_amount digit_amount used : Z) :
  1 <= needed_count total_amount digit_amount used <= 10.
Proof.
  unfold needed_count.
  pose proof (Z.mod_pos_bound
                (u64 (fake_large + total_amount + digit_amount - 1 - used)
                 / digit_amount) 10 ltac:(lia)).
  rewrite u64_small; lia.
Qed.

(** The digit amount of the loop is the power of ten of the digit. *)
Lemma digit_amount_next (digit : nat) :
  (digit < 19)%nat ->
  u64 (10 ^ Z.of_nat digit * 10) = 10 ^ Z.of_nat (S digit).
Proof.
  intros Hd.
  replace (Z.of_nat (S digit)) with (Z.of_nat digit + 1) by lia.
  rewrite Z.pow_add_r by lia. change (10 ^ 1) with 10.
  apply u64_small. split; [pose proof (pow10_pos digit); lia|].
  assert (10 ^ Z.of_nat digit <= 10 ^ 18) by (apply Z.pow_le_mono_r; lia).
  change (2 ^ 64) with 18446744073709551616.
  change (10 ^ 18) with 1000000000000000000 in *. lia.
Qed.

(* ================================================================== *)
(** * Digit rounding: the search for a pair *)

Section BestPair.
Variable am : Z.
Local Abbreviation entry := (Z * list api.Output)%type.

Lemma best_pair_inner_fold (a : entry) (bs : list entry) (acc : nat * Z * Z) :
  let r := fold_left (best_pair_step am a) bs acc in
  (fst (fst acc) <= fst (fst r))%nat
  /\ (forall b, In b bs -> pair_qualifies am a b = true ->
                (pair_weight a b <= fst (fst r))%nat)
  /\ (r = acc
      \/ exists b, In b bs /\ pair_qualifies am a b = true
                   /\ r = (pair_weight a b, fst a, fst b)).
Proof.
  revert acc. induction bs as [|b bs IH]; intros acc; simpl.
  - split; [lia|]. split; [contradiction | now left].
  - specialize (IH (best_pair_step am a acc b)).
    destruct IH as (Hmono & Hmax & Hsrc).
    assert (Hstep : (fst (fst acc) <= fst (fst (best_pair_step am a acc b)))%nat
                    /\ (pair_qualifies am a b = true ->
                        (pair_weight a b
                         <= fst (fst (best_pair_step am a acc b)))%nat)
                    /\ (best_pair_step am a acc b = acc
                        \/ (pair_qualifies am a b = true
                            /\ best_pair_step am a acc b
                               = (pair_weight a b, fst a, fst b)))).
    { unfold best_pair_step, pair_weight. destruct acc as [[w x] y]. simpl.
      destruct (pair_qualifies am a b); simpl.
      - destruct (Nat.ltb_spec w (length (snd a) + length (snd b))); simpl.
        + split; [lia|]. split; [lia|]. right. now split.
        + split; [lia|]. split; [lia|]. now left.
      - split; [lia|]. split; [discriminate|]. now left. }
    destruct Hstep as (Hs1 & Hs2 & Hs3).
    split; [lia|]. split.
    + intros b' [<-|Hin] Hq; [specialize (Hs2 Hq); lia | now apply Hmax].
    + destruct Hsrc as [->|(b' & Hin & Hq & ->)].
      * destruct Hs3 as [->|[Hq ->]]; [now left|].
        right. exists b. split; [now left | now split].
      * right. exists b'. split; [now right | now split].
Qed.

Lemma best_pair_outer_fold (as_ bs : list entry) (acc : nat * Z * Z) :
  let r := fold_left (fun acc a => fold_left (best_pair_step am a) bs acc) as_ acc in
  (fst (fst acc) <= fst (fst r))%nat
  /\ (forall a b, In a as_ -> In b bs -> pair_qualifies am a b = true ->
                  (pair_weight a b <= fst (fst r))%nat)
  /\ (r = acc
      \/ exists a b, In a as_ /\ In b bs /\ pair_qualifies am a b = true
                     /\ r = (pair_weight a b, fst a, fst b)).
Proof.
  revert acc. induction as_ as [|a as_ IH]; intros acc; simpl.
  - split; [lia|]. split; [contradiction | now left].
  - specialize (IH (fold_left (best_pair_step am a) bs acc)).
    destruct IH as (Hmono & Hmax & Hsrc).
    destruct (best_pair_inner_fold a bs acc) as (Hi1 & Hi2 & Hi3).
    cbv zeta in *.
    split; [lia|]. split.
    + intros a' b [<-|Hin] Hb Hq.
      * specialize (Hi2 _ Hb Hq). lia.
      * now apply Hmax.
    + destruct Hsrc as [->|(a' & b & Ha & Hb & Hq & ->)].
      * destruct Hi3 as [->|(b & Hb & Hq & ->)]; [now left|].
        right. exists a, b. split; [now left | now split].
      * right. exists a', b. split; [now right | now split].
Qed.

(** The pair that the two loops leave in [best_two_counts]: when
    [best_weight] is not zero it qualifies, and no pair that qualifies is
    heavier. *)
Lemma best_pair_spec (stacks : omap (list api.Output)) :
  let '(best_weight, c0, c1) := best_pair am stacks in
  (forall a b, In a stacks -> In b stacks -> pair_qualifies am a b = true ->
               (pair_weight a b <= best_weight)%nat)
  /\ (best_weight <> 0%nat ->
      exists sa sb, In (c0, sa) stacks /\ In (c1, sb) stacks
                    /\ pair_qualifies am (c0, sa) (c1, sb) = true
                    /\ best_weight = pair_weight (c0, sa) (c1, sb)).
Proof.
  unfold best_pair.
  destruct (best_pair_outer_fold stacks stacks (0%nat, 0, 0)) as (_ & Hmax & Hsrc).
  cbv zeta in *.
  destruct (fold_left _ stacks (0%nat, 0, 0)) as [[w c0] c1] eqn:E.
  simpl in Hmax. split; [exact Hmax|].
  intros Hw. destruct Hsrc as [[= -> _ _]|([a sa] & [b sb] & Ha & Hb & Hq & Hr)];
    [contradiction|].
  injection Hr as -> -> ->. simpl. now exists sa, sb.
Qed.

End BestPair.

Lemma pair_qualifies_weight (am : Z) (a b : Z * list api.Output) :
  pair_qualifies am a b = true -> (10 <= pair_weight a b)%nat.
Proof.
  unfold pair_qualifies, pair_weight, TWO_THRESHOLD.
  intros H. apply andb_prop in H as [_ H]. apply orb_prop in H.
  destruct H as [H|H]; apply Nat.leb_le in H; lia.
Qed.

(* ================================================================== *)
(** * Taking a coin from a stack *)

Lemma om_find_erase_eq {V : Type} (m : omap V) (k : Z) :
  om_sorted m -> om_find k (om_erase k m) = None.
Proof.
  induction m as [|[k' v'] t IH]; simpl; [reflexivity|].
  intros [Hall Hs].
  destruct (Z.eqb_spec k k') as [->|Hne]; simpl.
  - destruct (om_find k' t) eqn:E; [|reflexivity].
    apply om_find_In in E. rewrite Forall_forall in Hall.
    specialize (Hall _ E). simpl in Hall. lia.
  - destruct (Z.eqb_spec k k'); [contradiction|]. now apply IH.
Qed.

Lemma om_set_set {V : Type} (m : omap V) (k : Z) (v1 v2 : V) :
  om_set k v2 (om_set k v1 m) = om_set k v2 m.
Proof.
  induction m as [|[k' v'] t IH]; simpl.
  - now rewrite Z.ltb_irrefl, Z.eqb_refl.
  - destruct (Z.ltb_spec k k') as [Hlt|Hge]; simpl.
    + now rewrite Z.ltb_irrefl, Z.eqb_refl.
    + destruct (Z.eqb_spec k k') as [->|Hne]; simpl.
      * now rewrite Z.ltb_irrefl, Z.eqb_refl.
      * destruct (Z.ltb_spec k k'); [lia|].
        destruct (Z.eqb_spec k k'); [contradiction|]. now rewrite IH.
Qed.

Lemma om_set_same {V : Type} (m : omap V) (k : Z) (v : V) :
  om_sorted m -> om_find k m = Some v -> om_set k v m = m.
Proof.
  intros Hs Hf. destruct (om_split_found _ _ _ _ Hs Hf) as (l1 & l2 & Hm & Hset & _).
  now rewrite Hset, <- Hm.
Qed.

Section Content.
Variables (V X : Type) (content : V -> list X).

Lemma om_all_app (l1 l2 : omap V) :
  om_all content (l1 ++ l2) = om_all content l1 ++ om_all content l2.
Proof. unfold om_all. now rewrite map_app, concat_app. Qed.

Lemma om_all_cons (e : Z * V) (l : omap V) :
  om_all content (e :: l) = content (snd e) ++ om_all content l.
Proof. reflexivity. Qed.

(** The content of a map, with the content of one key set apart. *)
Lemma om_all_found (m : omap V) (k : Z) (v : V) :
  om_sorted m -> om_find k m = Some v ->
  exists rest,
    Permutation (om_all content m) (content v ++ rest)
    /\ (forall v', Permutation (om_all content (om_set k v' m)) (content v' ++ rest))
    /\ Permutation (om_all content (om_erase k m)) rest.
Proof.
  intros Hs Hf.
  destruct (om_split_found _ _ _ _ Hs Hf) as (l1 & l2 & -> & Hset & Her).
  exists (om_all content l1 ++ om_all content l2).
  split; [|split].
  - rewrite om_all_app, om_all_cons. simpl.
    rewrite !app_assoc. apply Permutation_app_tail, Permutation_app_comm.
  - intros v'. rewrite Hset, om_all_app, om_all_cons. simpl.
    rewrite !app_assoc. apply Permutation_app_tail, Permutation_app_comm.
  - now rewrite Her, om_all_app.
Qed.

Lemma om_all_absent (m : omap V) (k : Z) (v' : V) :
  om_find k m = None ->
  Permutation (om_all content (om_set k v' m)) (content v' ++ om_all content m).
Proof.
  intros Hf. destruct (om_split_absent _ _ _ v' Hf) as (l1 & l2 & -> & ->).
  rewrite !om_all_app, om_all_cons. simpl.
  rewrite !app_assoc. apply Permutation_app_tail, Permutation_app_comm.
Qed.

End Content.

Lemma have_list_all (have : HaveCoins) : have_list have = om_all stacks_list have.
Proof. reflexivity. Qed.

Lemma dust_list_all (dust : DustCoins) : dust_list dust = stacks_list dust.
Proof.
  reflexivity.
Qed.

Lemma Forall_pop_back {A : Type} (P : A -> Prop) (l : list A) :
  Forall P l -> Forall P (pop_back l).
Proof.
  intros H. destruct (back l) as [x|] eqn:E.
  - apply back_Some in E. rewrite E in H. now apply Forall_app in H.
  - apply back_None in E. now subst.
Qed.

Lemma Forall_back {A : Type} (P : A -> Prop) (l : list A) (x : A) :
  Forall P l -> back l = Some x -> P x.
Proof.
  intros H E. apply back_Some in E. rewrite E in H.
  apply Forall_app in H as [_ H]. now inversion H.
Qed.

Lemma is_empty_true {A : Type} (l : list A) : is_empty l = true <-> l = [].
Proof. destruct l; simpl; split; congruence. Qed.

Lemma is_empty_false {A : Type} (l : list A) : is_empty l = false <-> l <> [].
Proof. destruct l; simpl; split; congruence. Qed.

Lemma om_at_find (stacks : omap (list api.Output)) (k : Z) (un : api.Output) :
  back (om_at k stacks) = Some un -> om_find k stacks = Some (om_at k stacks).
Proof.
  unfold om_at. destruct (om_find k stacks); [reflexivity | discriminate].
Qed.

Lemma om_at_found (stacks : omap (list api.Output)) (k : Z) (st : list api.Output) :
  om_find k stacks = Some st -> om_at k stacks = st.
Proof. unfold om_at. now intros ->. Qed.

Lemma stacks_all_find (Q : Z -> api.Output -> Prop) stacks k st :
  stacks_all Q stacks -> om_find k stacks = Some st -> Forall (Q k) st.
Proof.
  intros Hall Hf. apply om_find_In in Hf.
  unfold stacks_all in Hall. rewrite Forall_forall in Hall.
  exact (Hall _ Hf).
Qed.

Lemma have_all_find (Q : Z -> Z -> api.Output -> Prop) have d stacks :
  have_all Q have -> om_find d have = Some stacks -> stacks_all (Q d) stacks.
Proof.
  intros Hall Hf. apply om_find_In in Hf.
  unfold have_all in Hall. rewrite Forall_forall in Hall.
  exact (Hall _ Hf).
Qed.

(** The stacks of one digit after a coin was taken from the stack of [k]. *)
Lemma stacks_pop_spec (stacks : omap (list api.Output)) (k : Z) (un : api.Output) :
  om_sorted stacks ->
  back (om_at k stacks) = Some un ->
  om_sorted (stacks_pop k stacks)
  /\ (stacks_nonempty stacks -> stacks_nonempty (stacks_pop k stacks))
  /\ Permutation (stacks_list stacks) (un :: stacks_list (stacks_pop k stacks))
  /\ (forall Q, stacks_all Q stacks -> stacks_all Q (stacks_pop k stacks) /\ Q k un).
Proof.
  intros Hs Hb. pose proof (om_at_find _ _ _ Hb) as Hf.
  pose proof (back_Some _ _ Hb) as Hst.
  unfold stacks_pop.
  destruct (om_all_found _ _ (fun st => st) _ _ _ Hs Hf) as (rest & Hp & Hpset & Hper).
  destruct (is_empty (pop_back (om_at k stacks))) eqn:Ee.
  - apply is_empty_true in Ee. rewrite Ee in Hst. simpl in Hst.
    split; [now apply om_erase_sorted|].
    split; [intros Hne; now apply om_erase_Forall|].
    split.
    + unfold stacks_list. rewrite Hp, Hper, Hst. reflexivity.
    + intros Q HQ. split; [now apply om_erase_Forall|].
      eapply Forall_back; [|exact Hb]. eapply stacks_all_find; eassumption.
  - apply is_empty_false in Ee.
    split; [now apply om_set_sorted|].
    split; [intros Hne; now apply om_set_Forall|].
    split.
    + unfold stacks_list. rewrite Hp, (Hpset (pop_back (om_at k stacks))).
      rewrite Hst at 1. rewrite <- app_assoc. simpl.
      apply Permutation_sym, Permutation_middle.
    + intros Q HQ. pose proof (stacks_all_find _ _ _ _ HQ Hf) as Hall.
      split; [|eapply Forall_back; eassumption].
      apply om_set_Forall; [exact HQ|]. simpl. now apply Forall_pop_back.
Qed.

(** The map of the coins after [take_have]. *)
Lemma have_pop_spec (have : HaveCoins) (d k : Z) stacks (un : api.Output) :
  have_sorted have ->
  om_find d have = Some stacks ->
  back (om_at k stacks) = Some un ->
  have_sorted (have_pop d k stacks have)
  /\ (have_nonempty have -> have_nonempty (have_pop d k stacks have))
  /\ Permutation (have_list have) (un :: have_list (have_pop d k stacks have))
  /\ (forall Q, have_all Q have -> have_all Q (have_pop d k stacks have) /\ Q d k un).
Proof.
  intros [Hs Hin] Hf Hb.
  assert (Hss : om_sorted stacks).
  { apply om_find_In in Hf. rewrite Forall_forall in Hin. exact (Hin _ Hf). }
  destruct (stacks_pop_spec _ _ _ Hss Hb) as (Hps & Hpne & Hpp & HpQ).
  destruct (om_all_found _ _ stacks_list _ _ _ Hs Hf) as (rest & Hp & Hpset & Hper).
  unfold have_pop.
  destruct (is_empty (stacks_pop k stacks)) eqn:Ee.
  - apply is_empty_true in Ee.
    split; [split; [now apply om_erase_sorted | now apply om_erase_Forall]|].
    split; [intros Hne; now apply om_erase_Forall|].
    split.
    + rewrite !have_list_all, Hp, Hper, Hpp, Ee. reflexivity.
    + intros Q HQ. split; [now apply om_erase_Forall|].
      apply (HpQ (Q d)). eapply have_all_find; eassumption.
  - apply is_empty_false in Ee.
    split; [split; [now apply om_set_sorted | now apply om_set_Forall]|].
    split.
    { intros Hne. apply om_set_Forall; [exact Hne|]. simpl. split; [exact Ee|].
      apply Hpne. apply om_find_In in Hf. unfold have_nonempty in Hne.
      rewrite Forall_forall in Hne. exact (proj2 (Hne _ Hf)). }
    split.
    + rewrite !have_list_all, Hp, (Hpset (stacks_pop k stacks)), Hpp. reflexivity.
    + intros Q HQ. pose proof (have_all_find _ _ _ _ HQ Hf) as Hall.
      split; [|now apply (HpQ (Q d))].
      apply om_set_Forall; [exact HQ|]. simpl. now apply (HpQ (Q d)).
Qed.

(** The dust map after [take_dust] of one of its entries. *)
Lemma dust_pop_spec (dust : DustCoins) (duit : Z * list api.Output) (un : api.Output) :
  om_sorted dust ->
  In duit dust ->
  back (snd duit) = Some un ->
  om_sorted (dust_pop duit dust)
  /\ (stacks_nonempty dust -> stacks_nonempty (dust_pop duit dust))
  /\ Permutation (dust_list dust) (un :: dust_list (dust_pop duit dust))
  /\ (forall Q, stacks_all Q dust -> stacks_all Q (dust_pop duit dust) /\ Q (fst duit) un).
Proof.
  intros Hs Hin Hb. destruct duit as [k st]. simpl in *.
  pose proof (om_In_find _ _ _ _ Hs Hin) as Hf.
  assert (Hat : om_at k dust = st) by now apply om_at_found.
  assert (Heq : dust_pop (k, st) dust = stacks_pop k dust).
  { unfold dust_pop, stacks_pop. simpl. now rewrite Hat. }
  rewrite Heq, !dust_list_all.
  apply stacks_pop_spec; [exact Hs | now rewrite Hat].
Qed.

Lemma take_have_inv (d k : Z) (s s' : Sel) :
  take_have d k s = Ok s' ->
  exists stacks un,
    om_find d (have_coins s) = Some stacks
    /\ back (om_at k stacks) = Some un
    /\ s' = mkSel (use_unspent un (this s))
                  (have_pop d k stacks (have_coins s)) (dust_coins s).
Proof.
  unfold take_have. destruct (om_find d (have_coins s)) as [stacks|] eqn:Ef; [|discriminate].
  destruct (back (om_at k stacks)) as [un|] eqn:Eb; [|discriminate].
  intros [= <-]. now exists stacks, un.
Qed.

Lemma take_stack_inv (d k : Z) (s s' : Sel) :
  take_stack d k s = Ok s' ->
  exists stacks un,
    om_find d (have_coins s) = Some stacks
    /\ back (om_at k stacks) = Some un
    /\ s' = mkSel (use_unspent un (this s))
                  (om_set d (om_set k (pop_back (om_at k stacks)) stacks)
                          (have_coins s))
                  (dust_coins s).
Proof.
  unfold take_stack. destruct (om_find d (have_coins s)) as [stacks|] eqn:Ef; [|discriminate].
  destruct (back (om_at k stacks)) as [un|] eqn:Eb; [|discriminate].
  intros [= <-]. now exists stacks, un.
Qed.

Lemma take_dust_inv (duit : Z * list api.Output) (s s' : Sel) :
  take_dust duit s = Ok s' ->
  exists un,
    back (snd duit) = Some un
    /\ s' = mkSel (use_unspent un (this s)) (have_coins s)
                  (dust_pop duit (dust_coins s)).
Proof.
  unfold take_dust. destruct (back (snd duit)) as [un|] eqn:Eb; [|discriminate].
  intros [= <-]. now exists un.
Qed.

(** [take_have] succeeds on a stack that is in the map and not empty. *)
Lemma take_have_defined (d k : Z) (s : Sel) stacks st :
  om_find d (have_coins s) = Some stacks ->
  om_find k stacks = Some st ->
  st <> [] ->
  exists un, back st = Some un
    /\ take_have d k s
       = Ok (mkSel (use_unspent un (this s))
                   (have_pop d k stacks (have_coins s)) (dust_coins s)).
Proof.
  intros Hf Hk Hne. destruct (back_nonempty _ Hne) as [un Hb].
  exists un. split; [exact Hb|].
  unfold take_have. rewrite Hf, (om_at_found _ _ _ Hk), Hb. reflexivity.
Qed.

Lemma take_dust_defined (duit : Z * list api.Output) (s : Sel) :
  snd duit <> [] ->
  exists un, back (snd duit) = Some un
    /\ take_dust duit s
       = Ok (mkSel (use_unspent un (this s)) (have_coins s)
                   (dust_pop duit (dust_coins s))).
Proof.
  intros Hne. destruct (back_nonempty _ Hne) as [un Hb].
  exists un. split; [exact Hb|]. unfold take_dust. now rewrite Hb.
Qed.

(* ================================================================== *)
(** * Outcomes: lemmas *)

Lemma res_ok_bind {A B : Type} (bad : Prop) (Q1 : A -> Prop) (Q2 : B -> Prop)
    (m : Res A) (k : A -> Res B) :
  res_ok bad Q1 m ->
  (forall a, Q1 a -> res_ok bad Q2 (k a)) ->
  res_ok bad Q2 (bind m k).
Proof.
  intros Hm Hk. destruct m as [a| |f|]; simpl in *; auto.
Qed.

Lemma res_ok_impl {A : Type} (bad : Prop) (Q1 Q2 : A -> Prop) (m : Res A) :
  res_ok bad Q1 m -> (forall a, Q1 a -> Q2 a) -> res_ok bad Q2 m.
Proof.
  intros Hm Hq. destruct m as [a| |f|]; simpl in *; auto.
Qed.

Lemma res_ok_Ok {A : Type} (bad : Prop) (Q : A -> Prop) (m : Res A) (a : A) :
  res_ok bad Q m -> m = Ok a -> Q a.
Proof. intros H ->. exact H. Qed.

(* ================================================================== *)
(** * The shape of the maps is kept *)

Lemma om_set_not_nil {V : Type} (k : Z) (v : V) (m : omap V) : om_set k v m <> [].
Proof.
  destruct m as [|[k' v'] t]; simpl; [discriminate|].
  destruct (k <? k'); [discriminate|]. destruct (k =? k'); discriminate.
Qed.

Lemma have_push_sorted (d k : Z) (un : api.Output) (have : HaveCoins) :
  have_sorted have -> have_sorted (have_push d k un have).
Proof.
  intros [Hs Hin]. unfold have_push.
  split; [now apply om_set_sorted|].
  apply om_set_Forall; [exact Hin|]. simpl.
  apply om_set_sorted.
  destruct (om_find d have) as [inner|] eqn:E; [|exact I].
  apply om_find_In in E. rewrite Forall_forall in Hin. exact (Hin _ E).
Qed.

Lemma push_back_not_nil {A : Type} (l : list A) (x : A) : push_back l x <> [].
Proof. unfold push_back. destruct l; discriminate. Qed.

Lemma have_push_nonempty (d k : Z) (un : api.Output) (have : HaveCoins) :
  have_nonempty have -> have_nonempty (have_push d k un have).
Proof.
  intros Hne. unfold have_push.
  apply om_set_Forall; [exact Hne|]. simpl.
  split; [apply om_set_not_nil|].
  apply om_set_Forall; [|apply push_back_not_nil].
  destruct (om_find d have) as [inner|] eqn:E; [|constructor].
  apply om_find_In in E. unfold have_nonempty in Hne.
  rewrite Forall_forall in Hne. exact (proj2 (Hne _ E)).
Qed.

Lemma dust_push_sorted (un : api.Output) (dust : DustCoins) :
  om_sorted dust -> om_sorted (dust_push un dust).
Proof. intros Hs. now apply om_set_sorted. Qed.

Lemma dust_push_nonempty (un : api.Output) (dust : DustCoins) :
  stacks_nonempty dust -> stacks_nonempty (dust_push un dust).
Proof.
  intros Hne. apply om_set_Forall; [exact Hne | apply push_back_not_nil].
Qed.

Lemma unoptimize_step_shape (s : Sel) (un : api.Output) :
  (sorted_ok s -> sorted_ok (unoptimize_step s un))
  /\ (nonempty_ok s -> nonempty_ok (unoptimize_step s un)).
Proof.
  unfold unoptimize_step, sorted_ok, nonempty_ok.
  destruct (api.dust un); simpl.
  - split; intros [H1 H2]; split; simpl; auto using dust_push_sorted, dust_push_nonempty.
  - destruct (digit_of (api.amount un)) as [digit am].
    split; intros [H1 H2]; split; simpl;
      auto using have_push_sorted, have_push_nonempty.
Qed.

Lemma unoptimize_fold_shape (l : list api.Output) (s : Sel) :
  (sorted_ok s -> sorted_ok (fold_left unoptimize_step l s))
  /\ (nonempty_ok s -> nonempty_ok (fold_left unoptimize_step l s)).
Proof.
  revert s. induction l as [|un l IH]; intros s; simpl; [tauto|].
  destruct (unoptimize_step_shape s un) as [H1 H2].
  destruct (IH (unoptimize_step s un)) as [H3 H4]. tauto.
Qed.

Lemma unoptimize_amounts_shape (s : Sel) :
  (sorted_ok s -> sorted_ok (unoptimize_amounts s))
  /\ (nonempty_ok s -> nonempty_ok (unoptimize_amounts s)).
Proof.
  unfold unoptimize_amounts.
  destruct (unoptimize_fold_shape (optimization_unspents s) s) as [H1 H2].
  split; intros H; [apply H1 in H | apply H2 in H]; exact H.
Qed.

Lemma take_have_shape (d k : Z) (s s' : Sel) :
  sorted_ok s -> take_have d k s = Ok s' ->
  sorted_ok s'
  /\ (nonempty_ok s -> nonempty_ok s')
  /\ coins_count s = S (coins_count s')
  /\ exists stacks,
       om_find d (have_coins s) = Some stacks
       /\ have_coins s' = have_pop d k stacks (have_coins s)
       /\ dust_coins s' = dust_coins s.
Proof.
  intros [Hh Hd] Ht.
  destruct (take_have_inv _ _ _ _ Ht) as (stacks & un & Hf & Hb & ->).
  destruct (have_pop_spec _ _ _ _ _ Hh Hf Hb) as (Hs' & Hne' & Hp & _).
  split; [split; assumption|].
  split; [intros [H1 H2]; split; simpl; auto|].
  split.
  - unfold coins_count. simpl. rewrite !length_app.
    apply Permutation_length in Hp. simpl in Hp. lia.
  - exists stacks. auto.
Qed.

Lemma take_dust_shape (duit : Z * list api.Output) (s s' : Sel) :
  sorted_ok s -> In duit (dust_coins s) -> take_dust duit s = Ok s' ->
  sorted_ok s'
  /\ (nonempty_ok s -> nonempty_ok s')
  /\ coins_count s = S (coins_count s')
  /\ have_coins s' = have_coins s.
Proof.
  intros [Hh Hd] Hin Ht.
  destruct (take_dust_inv _ _ _ Ht) as (un & Hb & ->).
  destruct (dust_pop_spec _ _ _ Hd Hin Hb) as (Hs' & Hne' & Hp & _).
  split; [split; assumption|].
  split; [intros [H1 H2]; split; simpl; auto|].
  split; [|reflexivity].
  unfold coins_count. simpl. rewrite !length_app.
  apply Permutation_length in Hp. simpl in Hp. lia.
Qed.

(** The first pop of a pair leaves the stack of the second coin in the
    map, whether it is another stack or the same. *)
Lemma pair_second_stack (am : Z) (stacks : omap (list api.Output))
    (c0 c1 : Z) (sa sb : list api.Output) :
  om_sorted stacks ->
  In (c0, sa) stacks -> In (c1, sb) stacks ->
  sb <> [] ->
  pair_qualifies am (c0, sa) (c1, sb) = true ->
  om_find c1 (stacks_pop c0 stacks)
  = Some (if c0 =? c1 then pop_back sa else sb)
  /\ (if c0 =? c1 then pop_back sa else sb) <> [].
Proof.
  intros Hs Ha Hb Hsb Hq.
  pose proof (om_In_find _ _ _ _ Hs Ha) as Hfa.
  pose proof (om_In_find _ _ _ _ Hs Hb) as Hfb.
  unfold stacks_pop. rewrite (om_at_found _ _ _ Hfa).
  destruct (Z.eqb_spec c0 c1) as [<-|Hne].
  - assert (sb = sa) by congruence. subst sb.
    apply pair_qualifies_weight in Hq. unfold pair_weight in Hq. simpl in Hq.
    assert (Hlen : (5 <= length sa)%nat) by lia.
    destruct sa as [|x sa] using rev_ind; [simpl in Hlen; lia|].
    rewrite pop_back_app. rewrite length_app in Hlen. simpl in Hlen.
    destruct sa as [|y sa]; [simpl in Hlen; lia|]. simpl is_empty.
    split; [apply om_find_set_eq | discriminate].
  - split; [|exact Hsb].
    destruct (is_empty (pop_back sa)).
    + now rewrite om_find_erase_neq.
    + now rewrite om_find_set_neq.
Qed.

Lemma have_pop_find (d k : Z) stacks (have : HaveCoins) :
  stacks_pop k stacks <> [] ->
  om_find d (have_pop d k stacks have) = Some (stacks_pop k stacks).
Proof.
  intros Hne. unfold have_pop.
  apply is_empty_false in Hne. rewrite Hne. apply om_find_set_eq.
Qed.

(** What the scans return is in the map. *)
Lemma best_single_loop_In (am : Z) (stacks : omap (list api.Output))
    (b0 : Z) (w0 : nat) :
  fst (best_single_loop am stacks b0 w0) = b0
  \/ exists st, In (fst (best_single_loop am stacks b0 w0), st) stacks.
Proof.
  revert b0 w0.
  induction stacks as [|[a sa] t IH]; intros b0 w0; cbn [best_single_loop].
  - now left.
  - destruct (u64 (a + am) mod 10 =? 0).
    + right. exists sa. now left.
    + destruct ((u64 (10 - am) <? a) && (w0 <? length sa)%nat).
      * destruct (IH a (length sa)) as [E|[st Hst]]; right.
        -- rewrite E. exists sa. now left.
        -- exists st. now right.
      * destruct (IH b0 w0) as [E|[st Hst]]; [now left|].
        right. exists st. now right.
Qed.

Lemma large_coin_scan_In (digit_amount need : Z) (stacks : omap (list api.Output))
    (k : Z) :
  large_coin_scan digit_amount need stacks = Some k ->
  exists st, In (k, st) stacks /\ st <> [].
Proof.
  induction stacks as [|[a sa] t IH]; cbn [large_coin_scan]; [discriminate|].
  destruct (negb (is_empty sa) && (need <=? u64 (a * digit_amount))) eqn:E.
  - intros [= <-]. exists sa. split; [now left|].
    apply andb_prop in E as [E _]. destruct sa; [discriminate | discriminate].
  - intros H. destruct (IH H) as [st [Hin Hne]]. exists st. split; [now right | exact Hne].
Qed.

(** What the scan for [best_stack] holds in its accumulator. *)
Lemma best_stack_step_good (have : HaveCoins) (d : Z)
    (stacks : omap (list api.Output)) (ait : Z * list api.Output)
    (acc : nat * option (Z * Z)) :
  In (d, stacks) have -> In ait stacks ->
  best_stack_acc have acc -> best_stack_acc have (best_stack_step d acc ait).
Proof.
  intros Hd Hk [Hw Hacc]. unfold best_stack_step.
  destruct (Nat.ltb_spec (fst acc) (length (snd ait))) as [Hlt|Hge].
  - split; simpl; [lia|]. intros d' k' [= <- <-].
    exists stacks, (snd ait). destruct ait as [k st]. simpl in *.
    split; [exact Hd|]. split; [exact Hk|]. split; [reflexivity | lia].
  - now split.
Qed.

Lemma best_stack_inner_good (have : HaveCoins) (d : Z)
    (stacks l : omap (list api.Output)) (acc : nat * option (Z * Z)) :
  In (d, stacks) have -> (forall ait, In ait l -> In ait stacks) ->
  best_stack_acc have acc ->
  best_stack_acc have (fold_left (best_stack_step d) l acc).
Proof.
  intros Hd. revert acc. induction l as [|ait l IH]; intros acc Hl Hacc; simpl.
  - exact Hacc.
  - apply IH; [intros; apply Hl; now right|].
    eapply best_stack_step_good; eauto. apply Hl. now left.
Qed.

Lemma best_stack_outer_good (have h : HaveCoins) (acc : nat * option (Z * Z)) :
  (forall dit, In dit h -> In dit have) ->
  best_stack_acc have acc ->
  best_stack_acc have
    (fold_left (fun acc hit => fold_left (best_stack_step (fst hit)) (snd hit) acc)
               h acc).
Proof.
  revert acc. induction h as [|[d stacks] h IH]; intros acc Hh Hacc; simpl.
  - exact Hacc.
  - apply IH; [intros; apply Hh; now right|].
    apply (best_stack_inner_good have d stacks stacks acc); auto.
    apply Hh. now left.
Qed.

(** The stack that the scan for [best_stack] finds is a stack of the map,
    and it holds more than [STACK_OPTIMIZATION_THRESHOLD] coins. *)
Lemma find_best_stack_spec (have : HaveCoins) (d k : Z) :
  snd (find_best_stack have) = Some (d, k) ->
  exists stacks st,
    In (d, stacks) have /\ In (k, st) stacks
    /\ (STACK_OPTIMIZATION_THRESHOLD < length st)%nat.
Proof.
  intros Hr.
  assert (Hgood : best_stack_acc have (find_best_stack have)).
  { unfold find_best_stack. apply best_stack_outer_good; [auto|].
    split; [simpl; lia | discriminate]. }
  destruct Hgood as [_ Hacc].
  destruct (Hacc d k Hr) as (stacks & st & H1 & H2 & _ & H3).
  now exists stacks, st.
Qed.

(* ================================================================== *)
(** * The selection keeps its invariant *)

Lemma have_sorted_set (d k : Z) (st : list api.Output)
    (stacks : omap (list api.Output)) (have : HaveCoins) :
  have_sorted have -> om_sorted stacks ->
  have_sorted (om_set d (om_set k st stacks) have).
Proof.
  intros [Hs Hin] Hss. split; [now apply om_set_sorted|].
  apply om_set_Forall; [exact Hin|]. simpl. now apply om_set_sorted.
Qed.

Lemma length_pop_back {A : Type} (l : list A) :
  length (pop_back l) = (length l - 1)%nat.
Proof.
  destruct l as [|x l] using rev_ind; [reflexivity|].
  rewrite pop_back_app, length_app. simpl. lia.
Qed.

Lemma length_iter_pop_back {A : Type} (n : nat) (l : list A) :
  length (Nat.iter n pop_back l) = (length l - n)%nat.
Proof.
  induction n as [|n IH]; simpl; [lia|].
  rewrite length_pop_back, IH. lia.
Qed.

Lemma iter_pop_back_comm {A : Type} (n : nat) (l : list A) :
  Nat.iter n pop_back (pop_back l) = pop_back (Nat.iter n pop_back l).
Proof. induction n as [|n IH]; simpl; [reflexivity | now rewrite IH]. Qed.

Lemma top_have_amount_defined (have : HaveCoins) :
  have_nonempty have -> have <> [] ->
  exists dit ait un,
    om_last have = Some dit /\ om_last (snd dit) = Some ait
    /\ back (snd ait) = Some un
    /\ top_have_amount have = Ok (api.amount un).
Proof.
  intros Hne Hn.
  destruct (back_nonempty _ Hn) as [dit Hdit].
  pose proof (om_last_In _ _ _ Hdit) as Hin.
  unfold have_nonempty in Hne. rewrite Forall_forall in Hne.
  destruct (Hne _ Hin) as [Hn1 Hall].
  destruct (back_nonempty _ Hn1) as [ait Hait].
  pose proof (om_last_In _ _ _ Hait) as Hin2.
  unfold stacks_nonempty in Hall. rewrite Forall_forall in Hall.
  destruct (back_nonempty _ (Hall _ Hin2)) as [un Hun].
  exists dit, ait, un.
  split; [exact Hdit|]. split; [exact Hait|]. split; [exact Hun|].
  unfold top_have_amount.
  replace (om_last have) with (Some dit) by (symmetry; exact Hdit).
  cbv beta iota.
  replace (om_last (snd dit)) with (Some ait) by (symmetry; exact Hait).
  cbv beta iota. now rewrite Hun.
Qed.

Section Invariant.
Variable anonymity : Z.
Variable K : Sel -> Prop.
Variable bad : Prop.

Hypothesis K_take_have : forall d k s s',
  sorted_ok s -> K s -> take_have d k s = Ok s' -> K s'.
Hypothesis K_take_stack : forall d k s s',
  sorted_ok s -> K s -> take_stack d k s = Ok s' -> K s'.
Hypothesis K_take_dust : forall duit s s',
  sorted_ok s -> In duit (dust_coins s) -> anonymity = 0 \/ bad ->
  K s -> take_dust duit s = Ok s' -> K s'.
Hypothesis K_unoptimize : forall s,
  sorted_ok s -> K s -> K (unoptimize_amounts s).
Hypothesis K_top : forall s a,
  inv K s -> have_coins s <> [] ->
  top_have_amount (have_coins s) = Ok a -> a <= 0 -> bad.
Hypothesis K_dust_top : forall s a,
  inv K s -> top_dust_amount anonymity (dust_coins s) = Ok a -> 0 <= a.

Lemma take_have_keeps (d k : Z) (s : Sel) stacks st :
  inv K s ->
  om_find d (have_coins s) = Some stacks ->
  om_find k stacks = Some st ->
  exists s',
    take_have d k s = Ok s' /\ inv K s'
    /\ coins_count s = S (coins_count s')
    /\ have_coins s' = have_pop d k stacks (have_coins s)
    /\ dust_coins s' = dust_coins s.
Proof.
  intros (Hs & Hne & HK) Hf Hk.
  assert (Hst : st <> []).
  { destruct Hne as [Hne _]. unfold have_nonempty in Hne.
    rewrite Forall_forall in Hne.
    destruct (Hne _ (om_find_In _ _ _ _ Hf)) as [_ Hall].
    unfold stacks_nonempty in Hall. rewrite Forall_forall in Hall.
    exact (Hall _ (om_find_In _ _ _ _ Hk)). }
  destruct (take_have_defined d k s stacks st Hf Hk Hst) as (un & Hb & Ht).
  eexists. split; [exact Ht|].
  destruct (take_have_shape _ _ _ _ Hs Ht) as (Hs' & Hne' & Hc & _).
  split; [split; [exact Hs'|split; [now apply Hne'|]]|].
  - exact (K_take_have _ _ _ _ Hs HK Ht).
  - split; [exact Hc|]. split; reflexivity.
Qed.

Lemma take_dust_keeps (duit : Z * list api.Output) (s : Sel) :
  inv K s -> In duit (dust_coins s) -> anonymity = 0 \/ bad ->
  exists s',
    take_dust duit s = Ok s' /\ inv K s'
    /\ coins_count s = S (coins_count s')
    /\ have_coins s' = have_coins s.
Proof.
  intros (Hs & Hne & HK) Hin Han.
  assert (Hst : snd duit <> []).
  { destruct Hne as [_ Hne]. unfold stacks_nonempty in Hne.
    rewrite Forall_forall in Hne. exact (Hne _ Hin). }
  destruct (take_dust_defined duit s Hst) as (un & Hb & Ht).
  eexists. split; [exact Ht|].
  destruct (take_dust_shape _ _ _ Hs Hin Ht) as (Hs' & Hne' & Hc & Hh).
  split; [split; [exact Hs'|split; [now apply Hne'|]]|].
  - exact (K_take_dust _ _ _ Hs Hin Han HK Ht).
  - split; [exact Hc | exact Hh].
Qed.

Lemma dust_fill_loop_keeps (count : nat) (total_amount : Z) (s : Sel) :
  inv K s -> anonymity = 0 ->
  res_ok bad (fun r => inv K (snd r)) (dust_fill_loop count total_amount s).
Proof.
  intros Hinv Han. revert s Hinv.
  induction count as [|count IH]; intros s Hinv; cbn [dust_fill_loop].
  - exact Hinv.
  - destruct (used_total s <? total_amount); [|exact Hinv].
    destruct (om_last (dust_coins s)) as [duit|] eqn:El; [|exact Hinv].
    destruct (take_dust_keeps duit s Hinv (om_last_In _ _ _ El) (or_introl Han))
      as (s' & -> & Hinv' & _).
    cbn [bind]. now apply IH.
Qed.

Lemma take_stack_times_keeps (n : nat) (d k : Z) (H : HaveCoins)
    (stacks : omap (list api.Output)) :
  have_sorted H -> om_sorted stacks ->
  forall (st : list api.Output) (s : Sel),
    (n <= length st)%nat ->
    have_coins s = om_set d (om_set k st stacks) H ->
    om_sorted (dust_coins s) -> K s ->
    exists s',
      take_stack_times n d k s = Ok s'
      /\ have_coins s' = om_set d (om_set k (Nat.iter n pop_back st) stacks) H
      /\ dust_coins s' = dust_coins s
      /\ K s'.
Proof.
  intros HsH Hss.
  induction n as [|n IH]; intros st s Hlen Hh Hd HK; cbn [take_stack_times].
  - exists s. simpl. auto.
  - assert (Hst : st <> []) by (destruct st; [simpl in Hlen; lia | discriminate]).
    destruct (back_nonempty _ Hst) as [un Hb].
    assert (Hsorted : sorted_ok s).
    { split; [|exact Hd]. rewrite Hh. now apply have_sorted_set. }
    assert (Ht : take_stack d k s
                 = Ok (mkSel (use_unspent un (this s))
                             (om_set d (om_set k (pop_back st) stacks) H)
                             (dust_coins s))).
    { unfold take_stack. rewrite Hh, om_find_set_eq.
      unfold om_at. rewrite om_find_set_eq, Hb. now rewrite !om_set_set. }
    rewrite Ht. cbn [bind].
    set (s1 := mkSel (use_unspent un (this s))
                     (om_set d (om_set k (pop_back st) stacks) H)
                     (dust_coins s)) in *.
    assert (Hlen1 : (n <= length (pop_back st))%nat)
      by (rewrite length_pop_back; lia).
    destruct (IH (pop_back st) s1 Hlen1 eq_refl Hd
                 (K_take_stack _ _ _ _ Hsorted HK Ht))
      as (s' & Hs' & Hh' & Hd' & HK').
    exists s'. split; [exact Hs'|]. split; [|split; assumption].
    rewrite Hh'. cbn [Nat.iter]. now rewrite iter_pop_back_comm.
Qed.

Lemma stack_loop_keeps (fuel count : nat) (s : Sel) :
  inv K s -> (count <= fuel)%nat ->
  res_ok bad (fun r => inv K (snd r)) (stack_loop fuel count s).
Proof.
  revert count s. induction fuel as [|fuel IH]; intros count s Hinv Hc;
    cbn [stack_loop].
  - destruct (Nat.ltb_spec count 10); [exact Hinv | lia].
  - destruct (Nat.ltb_spec count 10) as [|Hge]; [exact Hinv|].
    destruct (snd (find_best_stack (have_coins s))) as [[d k]|] eqn:Eb;
      [|exact Hinv].
    destruct (find_best_stack_spec _ _ _ Eb) as (stacks & st & Hd & Hk & Hlen).
    destruct Hinv as ([[Hsh Hsin] Hsd] & [Hnh Hnd] & HK).
    assert (Hss : om_sorted stacks).
    { rewrite Forall_forall in Hsin. exact (Hsin _ Hd). }
    pose proof (om_In_find _ _ _ _ Hsh Hd) as Hfd.
    pose proof (om_In_find _ _ _ _ Hss Hk) as Hfk.
    unfold STACK_OPTIMIZATION_THRESHOLD in Hlen.
    destruct (take_stack_times_keeps 10 d k (have_coins s) stacks
                (conj Hsh Hsin) Hss st s ltac:(lia)
                ltac:(now rewrite (om_set_same _ _ _ Hss Hfk),
                                  (om_set_same _ _ _ Hsh Hfd))
                Hsd HK) as (s' & -> & Hh' & Hd' & HK').
    cbn [bind]. apply IH; [|lia].
    split; [split|split; [split|]].
    + rewrite Hh'. now apply have_sorted_set.
    + now rewrite Hd'.
    + rewrite Hh'. apply om_set_Forall; [exact Hnh|]. simpl.
      split; [apply om_set_not_nil|].
      apply om_set_Forall.
      * unfold have_nonempty in Hnh. rewrite Forall_forall in Hnh.
        exact (proj2 (Hnh _ Hd)).
      * cbn [snd]. intros E. apply (f_equal (@length _)) in E.
        rewrite !length_pop_back in E. cbn [length] in E. lia.
    + now rewrite Hd'.
    + exact HK'.
Qed.

Lemma optimize_digit_keeps (digit digit_amount total_amount : Z) (s : Sel) :
  inv K s ->
  res_ok bad (inv K) (optimize_digit digit digit_amount total_amount s).
Proof.
  intros Hinv. unfold optimize_digit.
  set (am := needed_count total_amount digit_amount (used_total s)).
  destruct (om_find digit (have_coins s)) as [stacks|] eqn:Ef; [|exact Hinv].
  pose proof (best_pair_spec am stacks) as Hbp.
  destruct (best_pair am stacks) as [[w c0] c1].
  destruct Hbp as [_ Hsrc].
  assert (Hss : om_sorted stacks).
  { destruct Hinv as ([[_ Hsin] _] & _ & _).
    rewrite Forall_forall in Hsin. exact (Hsin _ (om_find_In _ _ _ _ Ef)). }
  destruct (Nat.eqb_spec w 0) as [Hw|Hw]; cbn [negb].
  - destruct (am =? 10); [exact Hinv|].
    pose proof (best_single_loop_In am stacks 0 0%nat) as Hbs.
    destruct (best_single_loop am stacks 0 0%nat) as [best_single bw].
    simpl in Hbs.
    destruct (Z.eqb_spec best_single 0) as [Hz|Hz]; cbn [negb]; [exact Hinv|].
    destruct Hbs as [Hbs|[st Hst]]; [contradiction|].
    destruct (take_have_keeps digit best_single s stacks st Hinv Ef
                (om_In_find _ _ _ _ Hss Hst)) as (s' & -> & Hinv' & _).
    exact Hinv'.
  - destruct (Hsrc Hw) as (sa & sb & Ha & Hb & Hq & _).
    destruct (take_have_keeps digit c0 s stacks sa Hinv Ef
                (om_In_find _ _ _ _ Hss Ha)) as (s1 & -> & Hinv1 & _ & Hh1 & _).
    cbn [bind].
    assert (Hsb : sb <> []).
    { destruct Hinv as (_ & [Hnh _] & _). unfold have_nonempty in Hnh.
      rewrite Forall_forall in Hnh.
      destruct (Hnh _ (om_find_In _ _ _ _ Ef)) as [_ Hall].
      unfold stacks_nonempty in Hall. rewrite Forall_forall in Hall.
      exact (Hall _ Hb). }
    destruct (pair_second_stack am stacks c0 c1 sa sb Hss Ha Hb Hsb Hq)
      as (Hf1 & _).
    assert (Hne : stacks_pop c0 stacks <> []).
    { intros E. rewrite E in Hf1. discriminate. }
    destruct (take_have_keeps digit c1 s1 (stacks_pop c0 stacks) _ Hinv1
                ltac:(rewrite Hh1; now apply have_pop_find) Hf1)
      as (s2 & -> & Hinv2 & _).
    exact Hinv2.
Qed.

Lemma optimize_amounts_loop_keeps (n : nat) (digit digit_amount total_amount : Z)
    (s : Sel) :
  inv K s ->
  res_ok bad (inv K) (optimize_amounts_loop n digit digit_amount total_amount s).
Proof.
  revert digit digit_amount s.
  induction n as [|n IH]; intros digit digit_amount s Hinv;
    cbn [optimize_amounts_loop]; [exact Hinv|].
  destruct ((total_amount <=? used_total s) && (used_total s <? digit_amount));
    [exact Hinv|].
  eapply res_ok_bind; [now apply optimize_digit_keeps|].
  intros s' Hinv'. now apply IH.
Qed.

Lemma optimize_amounts_keeps (max_digit : nat) (total_amount : Z) (s : Sel) :
  inv K s -> res_ok bad (inv K) (optimize_amounts max_digit total_amount s).
Proof. apply optimize_amounts_loop_keeps. Qed.

Lemma large_coin_loop_keeps (n : nat) (digit digit_amount total_amount : Z)
    (s : Sel) :
  inv K s ->
  res_ok bad (inv K) (large_coin_loop n digit digit_amount total_amount s).
Proof.
  revert digit digit_amount.
  induction n as [|n IH]; intros digit digit_amount Hinv;
    cbn [large_coin_loop]; [exact Hinv|].
  destruct (om_find digit (have_coins s)) as [stacks|] eqn:Ef; [|now apply IH].
  destruct (large_coin_scan digit_amount (u64 (total_amount - used_total s)) stacks)
    as [k|] eqn:Es; [|now apply IH].
  destruct (large_coin_scan_In _ _ _ _ Es) as (st & Hin & _).
  assert (Hss : om_sorted stacks).
  { destruct Hinv as ([[_ Hsin] _] & _ & _).
    rewrite Forall_forall in Hsin. exact (Hsin _ (om_find_In _ _ _ _ Ef)). }
  destruct (take_have_keeps digit k s stacks st Hinv Ef
              (om_In_find _ _ _ _ Hss Hin)) as (s' & -> & Hinv' & _).
  exact Hinv'.
Qed.

Lemma filler_loop_keeps (fuel : nat) (total_amount : Z) (s : Sel) :
  inv K s -> (coins_count s < fuel)%nat ->
  res_ok bad
    (fun r => inv K (snd r)
              /\ (fst r = true -> total_amount <= used_total (snd r))
              /\ (fst r = false ->
                  have_coins (snd r) = []
                  /\ (anonymity <> 0 \/ dust_coins (snd r) = [])
                  /\ used_total (snd r) < total_amount))
    (filler_loop fuel total_amount anonymity s).
Proof.
  revert s. induction fuel as [|fuel IH]; intros s Hinv Hc; [lia|].
  cbn [filler_loop].
  destruct (Z.leb_spec total_amount (used_total s)) as [Hle|Hlt].
  { simpl. split; [exact Hinv|]. split; [auto | discriminate]. }
  destruct (is_empty (have_coins s)
            && (negb (anonymity =? 0) || is_empty (dust_coins s))) eqn:Ee.
  { simpl. split; [exact Hinv|]. split; [discriminate|]. intros _.
    apply andb_prop in Ee as [E1 E2]. apply is_empty_true in E1.
    split; [exact E1|]. split; [|exact Hlt].
    apply orb_prop in E2 as [E2|E2].
    - left. apply negb_true_iff in E2. now apply Z.eqb_neq in E2.
    - right. now apply is_empty_true in E2. }
  (* the amounts on top of the two maps *)
  assert (Hha : exists ha, top_have_amount (have_coins s) = Ok ha
                           /\ (have_coins s = [] -> ha = 0)).
  { destruct (have_coins s) as [|dit0 h] eqn:Eh.
    - exists 0. split; [reflexivity | auto].
    - destruct Hinv as (_ & [Hnh _] & _). rewrite Eh in Hnh.
      destruct (top_have_amount_defined _ Hnh ltac:(discriminate))
        as (dit & ait & un & _ & _ & _ & Ht).
      exists (api.amount un). split; [exact Ht | discriminate]. }
  destruct Hha as (ha & Hha & Hha0).
  assert (Hdu : exists du, top_dust_amount anonymity (dust_coins s) = Ok du
                           /\ (anonymity <> 0 \/ dust_coins s = [] -> du = 0)).
  { unfold top_dust_amount.
    destruct (Z.eqb_spec anonymity 0) as [Han|Han]; cbn [andb];
      [|exists 0; split; [reflexivity | auto]].
    destruct (dust_coins s) as [|duit0 dl] eqn:Ed; cbn [is_empty negb].
    - exists 0. split; [reflexivity | auto].
    - destruct (back_nonempty (duit0 :: dl) ltac:(discriminate)) as [duit Hduit].
      unfold om_last. rewrite Hduit.
      destruct Hinv as (_ & [_ Hnd] & _). rewrite Ed in Hnd.
      unfold stacks_nonempty in Hnd. rewrite Forall_forall in Hnd.
      destruct (back_nonempty _ (Hnd _ (om_last_In _ _ _ Hduit))) as [un Hun].
      rewrite Hun. exists (api.amount un). split; [reflexivity|].
      intros [H|H]; [contradiction | discriminate]. }
  destruct Hdu as (du & Hdu & Hdu0).
  pose proof (K_dust_top _ _ Hinv Hdu) as Hdu_nonneg.
  rewrite Hha. cbn [bind]. rewrite Hdu. cbn [bind].
  assert (Hbad : ha <= du -> anonymity <> 0 \/ dust_coins s = [] -> bad).
  { intros Hge Hcase. specialize (Hdu0 Hcase).
    apply (K_top s ha Hinv); [|exact Hha | lia].
    intros E. rewrite E in Ee. cbn [is_empty andb] in Ee.
    destruct Hcase as [Han|Hd].
    - apply Z.eqb_neq in Han. rewrite Han in Ee. discriminate.
    - rewrite Hd in Ee. cbn [is_empty] in Ee. rewrite orb_true_r in Ee.
      discriminate. }
  destruct (Z.ltb_spec du ha) as [Hlt2|Hge2].
  - (* a coin of the map of the coins *)
    assert (Hn : have_coins s <> []).
    { intros E. specialize (Hha0 E). lia. }
    destruct Hinv as (Hs & Hne & HK).
    destruct (top_have_amount_defined _ (proj1 Hne) Hn)
      as (dit & ait & un & Hdit & Hait & _ & _).
    rewrite Hdit. cbv beta iota. rewrite Hait. cbv beta iota.
    destruct Hs as [[Hsh Hsin] Hsd].
    pose proof (om_last_In _ _ _ Hdit) as Hin1.
    pose proof (om_last_In _ _ _ Hait) as Hin2.
    assert (Hss : om_sorted (snd dit)).
    { rewrite Forall_forall in Hsin. exact (Hsin _ Hin1). }
    destruct dit as [d stacks]. destruct ait as [k st]. cbn [fst snd] in *.
    destruct (take_have_keeps d k s stacks st
                (conj (conj (conj Hsh Hsin) Hsd) (conj Hne HK))
                (om_In_find _ _ _ _ Hsh Hin1) (om_In_find _ _ _ _ Hss Hin2))
      as (s' & -> & Hinv' & Hc' & _).
    cbn [bind]. apply IH; [exact Hinv' | lia].
  - (* a dust coin *)
    destruct (om_last (dust_coins s)) as [duit|] eqn:El.
    + assert (Han : anonymity = 0 \/ bad).
      { destruct (Z.eq_dec anonymity 0) as [Han|Han]; [now left|].
        right. apply Hbad; [exact Hge2 | now left]. }
      destruct (take_dust_keeps duit s Hinv (om_last_In _ _ _ El) Han)
        as (s' & -> & Hinv' & Hc' & _).
      cbn [bind]. apply IH; [exact Hinv' | lia].
    + cbn [bind res_ok]. apply Hbad; [exact Hge2|].
      right. now apply om_last_None.
Qed.

Lemma unoptimize_amounts_keeps (s : Sel) : inv K s -> inv K (unoptimize_amounts s).
Proof.
  intros (Hs & Hne & HK).
  destruct (unoptimize_amounts_shape s) as [H1 H2].
  split; [auto|]. split; [auto|]. now apply K_unoptimize.
Qed.

(** The private [select_optimal_outputs] keeps the invariant, and its
    result tells whether the amount is covered. *)
Lemma select_optimal_outputs_inner_keeps (max_digit : nat) (total_amount : Z)
    (count : nat) (s : Sel) :
  inv K s ->
  res_ok bad (inner_post K max_digit total_amount anonymity)
    (select_optimal_outputs_inner max_digit total_amount anonymity count s).
Proof.
  intros Hinv. unfold select_optimal_outputs_inner.
  eapply res_ok_bind with (Q1 := fun r => inv K (snd r)).
  { destruct (Z.eqb_spec anonymity 0) as [Han|Han]; [|exact Hinv].
    eapply res_ok_bind with (Q1 := inv K).
    - destruct (used_total s <? total_amount); [|exact Hinv].
      destruct (om_lower_bound (u64 (total_amount - used_total s)) (dust_coins s))
        as [duit|] eqn:El; [|exact Hinv].
      destruct (take_dust_keeps duit s Hinv (om_lower_bound_In _ _ _ _ El)
                  (or_introl Han)) as (s' & -> & Hinv' & _).
      exact Hinv'.
    - intros s1 Hinv1. now apply dust_fill_loop_keeps. }
  intros [count1 s1] Hinv1. cbn [snd] in Hinv1.
  eapply res_ok_bind with (Q1 := fun r => inv K (snd r)).
  { apply stack_loop_keeps; [exact Hinv1 | lia]. }
  intros [count2 s2] Hinv2. cbn [snd] in Hinv2.
  eapply res_ok_bind; [now apply optimize_amounts_keeps|].
  intros s3 Hinv3. cbv beta.
  destruct (Z.leb_spec total_amount (used_total s3)) as [Hle|Hlt].
  { split; [exact Hinv3|]. split; [|discriminate].
    intros _. exists s3. cbn [snd]. auto. }
  eapply res_ok_bind; [now apply large_coin_loop_keeps|].
  intros s4 Hinv4. cbv beta.
  destruct (Z.leb_spec total_amount (used_total s4)) as [Hle4|Hlt4].
  { split; [exact Hinv4|]. split; [|discriminate].
    intros _. exists s4. cbn [snd]. auto. }
  cbv zeta.
  eapply res_ok_bind.
  { apply filler_loop_keeps; [now apply unoptimize_amounts_keeps|].
    unfold coins_count. lia. }
  intros [covered s5] (Hinv5 & Hcov & Hnot). cbn [fst snd] in *.
  destruct covered.
  - pose proof (optimize_amounts_keeps max_digit total_amount s5 Hinv5) as Hopt.
    destruct (optimize_amounts max_digit total_amount s5) as [s6| |f|] eqn:Eo;
      cbn [bind res_ok] in *; try contradiction.
    + split; [exact Hopt|]. cbn [fst snd]. split; [|discriminate].
      intros _. exists s5. auto.
    + exact Hopt.
  - split; [exact Hinv5|]. cbn [fst snd]. split; [discriminate | auto].
Qed.

End Invariant.

(* ================================================================== *)
(** * What the takes and the rollback do to the coins *)

Lemma take_have_effect (d k : Z) (s s' : Sel) :
  sorted_ok s -> take_have d k s = Ok s' ->
  exists un,
    this s' = use_unspent un (this s)
    /\ dust_coins s' = dust_coins s
    /\ Permutation (have_list (have_coins s)) (un :: have_list (have_coins s'))
    /\ (forall Q, have_all Q (have_coins s) ->
                  have_all Q (have_coins s') /\ Q d k un).
Proof.
  intros [Hh Hd] Ht.
  destruct (take_have_inv _ _ _ _ Ht) as (stacks & un & Hf & Hb & ->).
  destruct (have_pop_spec _ _ _ _ _ Hh Hf Hb) as (_ & _ & Hp & HQ).
  exists un. simpl. auto.
Qed.

Lemma take_stack_effect (d k : Z) (s s' : Sel) :
  sorted_ok s -> take_stack d k s = Ok s' ->
  sorted_ok s'
  /\ exists un,
    this s' = use_unspent un (this s)
    /\ dust_coins s' = dust_coins s
    /\ Permutation (have_list (have_coins s)) (un :: have_list (have_coins s'))
    /\ (forall Q, have_all Q (have_coins s) ->
                  have_all Q (have_coins s') /\ Q d k un).
Proof.
  intros [[Hsh Hsin] Hd] Ht.
  destruct (take_stack_inv _ _ _ _ Ht) as (stacks & un & Hf & Hb & ->).
  assert (Hss : om_sorted stacks).
  { rewrite Forall_forall in Hsin. exact (Hsin _ (om_find_In _ _ _ _ Hf)). }
  pose proof (om_at_find _ _ _ Hb) as Hfk.
  pose proof (back_Some _ _ Hb) as Hst.
  destruct (om_all_found _ _ (fun st => st) _ _ _ Hss Hfk) as (r1 & Hp1 & Hset1 & _).
  destruct (om_all_found _ _ stacks_list _ _ _ Hsh Hf) as (r2 & Hp2 & Hset2 & _).
  split.
  { split; [|exact Hd]. cbn [have_coins]. now apply have_sorted_set. }
  exists un. cbn [this have_coins dust_coins].
  split; [reflexivity|]. split; [reflexivity|]. split.
  - assert (Hinner : Permutation (stacks_list stacks)
                (un :: stacks_list (om_set k (pop_back (om_at k stacks)) stacks))).
    { unfold stacks_list. rewrite Hp1, (Hset1 _).
      rewrite Hst at 1. rewrite <- !app_assoc. cbn [app].
      apply Permutation_sym, Permutation_middle. }
    rewrite !have_list_all, Hp2, (Hset2 _), Hinner. reflexivity.
  - intros Q HQ.
    pose proof (have_all_find _ _ _ _ HQ Hf) as Hall.
    pose proof (stacks_all_find _ _ _ _ Hall Hfk) as Hst_all.
    split; [|eapply Forall_back; eassumption].
    apply om_set_Forall; [exact HQ|]. cbn [fst snd].
    apply om_set_Forall; [exact Hall|]. cbn [fst snd].
    now apply Forall_pop_back.
Qed.

Lemma take_dust_effect (duit : Z * list api.Output) (s s' : Sel) :
  sorted_ok s -> In duit (dust_coins s) -> take_dust duit s = Ok s' ->
  exists un,
    this s' = use_unspent un (this s)
    /\ have_coins s' = have_coins s
    /\ Permutation (dust_list (dust_coins s)) (un :: dust_list (dust_coins s'))
    /\ (forall Q, stacks_all Q (dust_coins s) ->
                  stacks_all Q (dust_coins s') /\ Q (fst duit) un).
Proof.
  intros [Hh Hd] Hin Ht.
  destruct (take_dust_inv _ _ _ Ht) as (un & Hb & ->).
  destruct (dust_pop_spec _ _ _ Hd Hin Hb) as (_ & _ & Hp & HQ).
  exists un. simpl. auto.
Qed.

Lemma have_push_effect (d k : Z) (un : api.Output) (have : HaveCoins) :
  have_sorted have ->
  Permutation (have_list (have_push d k un have)) (un :: have_list have)
  /\ (forall Q, have_all Q have -> Q d k un -> have_all Q (have_push d k un have)).
Proof.
  intros [Hsh Hsin]. unfold have_push.
  destruct (om_find d have) as [stacks|] eqn:Ef.
  - assert (Hss : om_sorted stacks).
    { rewrite Forall_forall in Hsin. exact (Hsin _ (om_find_In _ _ _ _ Ef)). }
    destruct (om_all_found _ _ stacks_list _ _ _ Hsh Ef) as (r2 & Hp2 & Hset2 & _).
    assert (Hinner : Permutation
                       (stacks_list (om_set k (push_back (om_at k stacks) un) stacks))
                       (un :: stacks_list stacks)
                     /\ forall Q, stacks_all Q stacks -> Q k un ->
                          stacks_all Q (om_set k (push_back (om_at k stacks) un) stacks)).
    { unfold om_at. destruct (om_find k stacks) as [st|] eqn:Ek.
      - destruct (om_all_found _ _ (fun st => st) _ _ _ Hss Ek)
          as (r1 & Hp1 & Hset1 & _).
        split.
        + unfold stacks_list. rewrite Hp1, (Hset1 _). unfold push_back.
          rewrite <- app_assoc. cbn [app].
          apply Permutation_sym, Permutation_middle.
        + intros Q HQ Hun. apply om_set_Forall; [exact HQ|]. cbn [fst snd].
          unfold push_back. apply Forall_app. split.
          * eapply stacks_all_find; eassumption.
          * now constructor.
      - split.
        + unfold stacks_list.
          rewrite (om_all_absent _ _ (fun st => st) _ _ _ Ek). reflexivity.
        + intros Q HQ Hun. apply om_set_Forall; [exact HQ|]. cbn [fst snd].
          now constructor. }
    destruct Hinner as [Hpi HQi]. split.
    + rewrite !have_list_all, (Hset2 _), Hp2, Hpi. reflexivity.
    + intros Q HQ Hun. apply om_set_Forall; [exact HQ|]. cbn [fst snd].
      apply HQi; [|exact Hun]. eapply have_all_find; eassumption.
  - split.
    + rewrite !have_list_all, (om_all_absent _ _ stacks_list _ _ _ Ef).
      unfold om_at. cbn. reflexivity.
    + intros Q HQ Hun. apply om_set_Forall; [exact HQ|]. cbn [fst snd].
      unfold om_at. cbn. constructor; [|constructor]. cbn. now constructor.
Qed.

Lemma dust_push_effect (un : api.Output) (dust : DustCoins) :
  om_sorted dust ->
  Permutation (dust_list (dust_push un dust)) (un :: dust_list dust)
  /\ (forall Q, stacks_all Q dust -> Q (api.amount un) un ->
                stacks_all Q (dust_push un dust)).
Proof.
  intros Hs. unfold dust_push, om_at. rewrite !dust_list_all.
  destruct (om_find (api.amount un) dust) as [st|] eqn:Ek.
  - destruct (om_all_found _ _ (fun st => st) _ _ _ Hs Ek) as (r1 & Hp1 & Hset1 & _).
    split.
    + unfold stacks_list. rewrite Hp1, (Hset1 _). unfold push_back.
      rewrite <- app_assoc. cbn [app].
      apply Permutation_sym, Permutation_middle.
    + intros Q HQ Hun. apply om_set_Forall; [exact HQ|]. cbn [fst snd].
      unfold push_back. apply Forall_app. split.
      * eapply stacks_all_find; eassumption.
      * now constructor.
  - split.
    + unfold stacks_list.
      rewrite (om_all_absent _ _ (fun st => st) _ _ _ Ek). reflexivity.
    + intros Q HQ Hun. apply om_set_Forall; [exact HQ|]. cbn [fst snd].
      now constructor.
Qed.

Lemma sum_amounts_app (l1 l2 : list api.Output) :
  sum_amounts (l1 ++ l2) = sum_amounts l1 + sum_amounts l2.
Proof. induction l1 as [|x l1 IH]; simpl; [reflexivity | rewrite IH; lia]. Qed.

Lemma sum_amounts_perm (l1 l2 : list api.Output) :
  Permutation l1 l2 -> sum_amounts l1 = sum_amounts l2.
Proof. induction 1; simpl; lia. Qed.

Lemma sum_amounts_nonneg (l : list api.Output) :
  Forall (fun un => 0 <= api.amount un) l -> 0 <= sum_amounts l.
Proof. induction 1; simpl; lia. Qed.

Lemma u64_add_l (a b : Z) : u64 (u64 a + b) = u64 (a + b).
Proof. unfold u64. apply Zplus_mod_idemp_l. Qed.

Lemma u64_sub_l (a b : Z) : u64 (u64 a - b) = u64 (a - b).
Proof. unfold u64. apply Zminus_mod_idemp_l. Qed.

(* ================================================================== *)
(** * The books are kept *)

Lemma optimization_unspents_use (un : api.Output) (u : UnspentSelector) :
  m_optimization_unspents (use_unspent un u) = m_optimization_unspents u ++ [un].
Proof. reflexivity. Qed.

Lemma filter_snoc {A : Type} (f : A -> bool) (l : list A) (x : A) :
  filter f (l ++ [x]) = filter f l ++ (if f x then [x] else []).
Proof. rewrite filter_app. reflexivity. Qed.

(** The effect of a coin that goes from the map of the coins to the picks. *)
Lemma amounts_ok_moved (s s' : Sel) (un : api.Output) :
  this s' = use_unspent un (this s) ->
  Permutation (have_list (have_coins s) ++ dust_list (dust_coins s))
              (un :: have_list (have_coins s') ++ dust_list (dust_coins s')) ->
  amounts_ok s -> amounts_ok s'.
Proof.
  intros Hthis Hp (Hh & Hd & Ho).
  assert (Hall : Forall nonneg
                   (un :: have_list (have_coins s') ++ dust_list (dust_coins s'))).
  { eapply Permutation_Forall; [exact Hp|]. apply Forall_app. now split. }
  inversion Hall as [|? ? Hun Hrest]; subst.
  apply Forall_app in Hrest as [Hh' Hd'].
  split; [exact Hh'|]. split; [exact Hd'|].
  unfold optimization_unspents. rewrite Hthis, optimization_unspents_use.
  apply Forall_app. split; [exact Ho | now constructor].
Qed.

Lemma amounts_ok_take_have (d k : Z) (s s' : Sel) :
  sorted_ok s -> amounts_ok s -> take_have d k s = Ok s' -> amounts_ok s'.
Proof.
  intros Hs Ha Ht.
  destruct (take_have_effect _ _ _ _ Hs Ht) as (un & Hthis & Hd & Hp & _).
  apply (amounts_ok_moved s s' un Hthis); [|exact Ha].
  rewrite Hd, Hp. reflexivity.
Qed.

Lemma amounts_ok_take_stack (d k : Z) (s s' : Sel) :
  sorted_ok s -> amounts_ok s -> take_stack d k s = Ok s' -> amounts_ok s'.
Proof.
  intros Hs Ha Ht.
  destruct (take_stack_effect _ _ _ _ Hs Ht) as (_ & un & Hthis & Hd & Hp & _).
  apply (amounts_ok_moved s s' un Hthis); [|exact Ha].
  rewrite Hd, Hp. reflexivity.
Qed.

Lemma amounts_ok_take_dust (duit : Z * list api.Output) (s s' : Sel) :
  sorted_ok s -> In duit (dust_coins s) -> amounts_ok s ->
  take_dust duit s = Ok s' -> amounts_ok s'.
Proof.
  intros Hs Hin Ha Ht.
  destruct (take_dust_effect _ _ _ Hs Hin Ht) as (un & Hthis & Hh & Hp & _).
  apply (amounts_ok_moved s s' un Hthis); [|exact Ha].
  rewrite Hh, Hp. apply Permutation_sym, Permutation_middle.
Qed.

Lemma unoptimize_step_amounts (s : Sel) (un : api.Output) :
  sorted_ok s -> nonneg un ->
  Forall nonneg (have_list (have_coins s)) ->
  Forall nonneg (dust_list (dust_coins s)) ->
  Forall nonneg (have_list (have_coins (unoptimize_step s un)))
  /\ Forall nonneg (dust_list (dust_coins (unoptimize_step s un))).
Proof.
  intros [Hsh Hsd] Hun Hh Hd. unfold unoptimize_step.
  destruct (api.dust un); cbn [negb].
  - cbn [have_coins dust_coins]. split; [exact Hh|].
    destruct (dust_push_effect un _ Hsd) as [Hp _].
    eapply Permutation_Forall; [apply Permutation_sym, Hp|]. now constructor.
  - destruct (digit_of (api.amount un)) as [digit am].
    cbn [have_coins dust_coins]. split; [|exact Hd].
    destruct (have_push_effect (Z.of_nat digit) am un _ Hsh) as [Hp _].
    eapply Permutation_Forall; [apply Permutation_sym, Hp|]. now constructor.
Qed.

Lemma unoptimize_fold_amounts (l : list api.Output) (s : Sel) :
  sorted_ok s -> Forall nonneg l ->
  Forall nonneg (have_list (have_coins s)) ->
  Forall nonneg (dust_list (dust_coins s)) ->
  Forall nonneg (have_list (have_coins (fold_left unoptimize_step l s)))
  /\ Forall nonneg (dust_list (dust_coins (fold_left unoptimize_step l s))).
Proof.
  revert s. induction l as [|un l IH]; intros s Hs Hl Hh Hd; cbn [fold_left].
  - now split.
  - inversion Hl; subst.
    destruct (unoptimize_step_amounts s un Hs) as [Hh' Hd']; auto.
    apply IH; auto. now apply unoptimize_step_shape.
Qed.

Lemma amounts_ok_unoptimize (s : Sel) :
  sorted_ok s -> amounts_ok s -> amounts_ok (unoptimize_amounts s).
Proof.
  intros Hs (Hh & Hd & Ho). unfold unoptimize_amounts.
  destruct (unoptimize_fold_amounts _ s Hs Ho Hh Hd) as [Hh' Hd'].
  split; [exact Hh'|]. split; [exact Hd' | constructor].
Qed.

(* ------------------------------------------------------------------ *)

Section Accounting.
Variables (H0 D0 : list api.Output) (U0 C0 : Z).

Lemma used_total_use (un : api.Output) (u : UnspentSelector) (l : list api.Output) :
  m_used_total u = u64 (U0 + sum_amounts l) ->
  m_used_total (use_unspent un u) = u64 (U0 + sum_amounts (l ++ [un])).
Proof.
  intros H. cbn [use_unspent m_used_total]. rewrite H, u64_add_l, sum_amounts_app.
  simpl. f_equal. lia.
Qed.

Lemma inputs_count_use (un : api.Output) (u : UnspentSelector) (l : list api.Output) :
  m_inputs_count u = u64 (C0 + Z.of_nat (length l)) ->
  m_inputs_count (use_unspent un u) = u64 (C0 + Z.of_nat (length (l ++ [un]))).
Proof.
  intros H. cbn [use_unspent m_inputs_count]. rewrite H, u64_add_l, length_app.
  simpl. f_equal. lia.
Qed.

(** A coin that is not flagged as dust goes from the map of the coins to
    the picks. *)
Lemma accounted_moved_have (s s' : Sel) (un : api.Output) :
  this s' = use_unspent un (this s) ->
  dust_coins s' = dust_coins s ->
  Permutation (have_list (have_coins s)) (un :: have_list (have_coins s')) ->
  have_all placed_have (have_coins s') ->
  api.dust un = false ->
  accounted H0 D0 U0 C0 s -> accounted H0 D0 U0 C0 s'.
Proof.
  intros Hthis Hd Hp Hpl Hun (_ & Hpd & Hph & Hpdu & Hu & Hc).
  unfold accounted, acct, optimization_unspents, used_total, inputs_count in *.
  rewrite Hthis, optimization_unspents_use, Hd.
  split; [exact Hpl|]. split; [exact Hpd|].
  rewrite !filter_snoc. unfold not_dust at 2. rewrite Hun. cbn [negb].
  split; [|split; [|split]].
  - rewrite <- Hph, Hp, app_assoc.
    rewrite <- Permutation_cons_append. reflexivity.
  - now rewrite app_nil_r.
  - now apply used_total_use.
  - now apply inputs_count_use.
Qed.

Lemma accounted_take_have (d k : Z) (s s' : Sel) :
  sorted_ok s -> accounted H0 D0 U0 C0 s -> take_have d k s = Ok s' ->
  accounted H0 D0 U0 C0 s'.
Proof.
  intros Hs Ha Ht.
  destruct (take_have_effect _ _ _ _ Hs Ht) as (un & Hthis & Hd & Hp & HQ).
  destruct (HQ placed_have (proj1 Ha)) as [Hpl [_ Hun]].
  now apply (accounted_moved_have s s' un).
Qed.

Lemma accounted_take_stack (d k : Z) (s s' : Sel) :
  sorted_ok s -> accounted H0 D0 U0 C0 s -> take_stack d k s = Ok s' ->
  accounted H0 D0 U0 C0 s'.
Proof.
  intros Hs Ha Ht.
  destruct (take_stack_effect _ _ _ _ Hs Ht) as (_ & un & Hthis & Hd & Hp & HQ).
  destruct (HQ placed_have (proj1 Ha)) as [Hpl [_ Hun]].
  now apply (accounted_moved_have s s' un).
Qed.

Lemma accounted_take_dust (duit : Z * list api.Output) (s s' : Sel) :
  sorted_ok s -> In duit (dust_coins s) -> accounted H0 D0 U0 C0 s ->
  take_dust duit s = Ok s' -> accounted H0 D0 U0 C0 s'.
Proof.
  intros Hs Hin (Hplh & Hpd & Hph & Hpdu & Hu & Hc) Ht.
  destruct (take_dust_effect _ _ _ Hs Hin Ht) as (un & Hthis & Hh & Hp & HQ).
  destruct (HQ placed_dust Hpd) as [Hpl [_ Hun]].
  unfold accounted, acct, optimization_unspents, used_total, inputs_count in *.
  rewrite Hthis, optimization_unspents_use, Hh.
  split; [exact Hplh|]. split; [exact Hpl|].
  rewrite !filter_snoc. unfold not_dust at 2. rewrite Hun. cbn [negb].
  split; [|split; [|split]].
  - now rewrite app_nil_r.
  - rewrite <- Hpdu, Hp, app_assoc.
    rewrite <- Permutation_cons_append. reflexivity.
  - now apply used_total_use.
  - now apply inputs_count_use.
Qed.

Lemma acct_unoptimize_step (un : api.Output) (l : list api.Output) (s : Sel) :
  sorted_ok s -> acct H0 D0 U0 C0 (un :: l) s ->
  acct H0 D0 U0 C0 l (unoptimize_step s un).
Proof.
  intros [Hsh Hsd] (Hplh & Hpld & Hph & Hpdu & Hu & Hc).
  unfold used_total, inputs_count in *.
  assert (Hu' : u64 (m_used_total (this s) - api.amount un)
                = u64 (U0 + sum_amounts l)).
  { rewrite Hu, u64_sub_l. simpl. f_equal. lia. }
  assert (Hc' : u64 (m_inputs_count (this s) - 1)
                = u64 (C0 + Z.of_nat (length l))).
  { rewrite Hc, u64_sub_l. f_equal. simpl length. lia. }
  unfold unoptimize_step, acct, used_total, inputs_count.
  cbn [filter] in Hph, Hpdu. unfold not_dust at 1 in Hph.
  destruct (api.dust un) eqn:Edust; cbn [negb] in *.
  - cbn [this have_coins dust_coins m_used_total m_inputs_count].
    destruct (dust_push_effect un _ Hsd) as [Hp HQ].
    split; [exact Hplh|]. split; [apply HQ; [exact Hpld | now split]|].
    split; [exact Hph|]. split; [|now split].
    rewrite Hp, <- Hpdu. cbn [app]. apply Permutation_middle.
  - pose proof (eq_refl (coin_key un)) as Hkey. unfold coin_key at 2 in Hkey.
    destruct (digit_of (api.amount un)) as [digit am].
    cbn [this have_coins dust_coins m_used_total m_inputs_count].
    destruct (have_push_effect (Z.of_nat digit) am un _ Hsh) as [Hp HQ].
    split; [apply HQ; [exact Hplh | now split]|]. split; [exact Hpld|].
    split; [|split; [exact Hpdu | now split]].
    rewrite Hp, <- Hph. cbn [app]. apply Permutation_middle.
Qed.

Lemma acct_unoptimize_fold (l : list api.Output) (s : Sel) :
  sorted_ok s -> acct H0 D0 U0 C0 l s ->
  acct H0 D0 U0 C0 [] (fold_left unoptimize_step l s).
Proof.
  revert s. induction l as [|un l IH]; intros s Hs Ha; cbn [fold_left].
  - exact Ha.
  - apply IH; [now apply unoptimize_step_shape | now apply acct_unoptimize_step].
Qed.

Lemma accounted_unoptimize (s : Sel) :
  sorted_ok s -> accounted H0 D0 U0 C0 s ->
  accounted H0 D0 U0 C0 (unoptimize_amounts s).
Proof.
  intros Hs Ha. unfold accounted, unoptimize_amounts.
  exact (acct_unoptimize_fold _ s Hs Ha).
Qed.

End Accounting.

(* ================================================================== *)
(** * Digit rounding and rollback *)

Lemma pair_qualifies_iff (am : Z) (a b : Z * list api.Output) :
  0 <= fst a <= 9 -> 0 <= fst b <= 9 -> 1 <= am <= 10 ->
  pair_qualifies am a b = true <-> rounding_pair am a b.
Proof.
  intros Ha Hb Ham. unfold pair_qualifies, rounding_pair, TWO_THRESHOLD.
  rewrite (u64_small (fst a + fst b + am)) by (change (2 ^ 64) with 18446744073709551616; lia).
  rewrite andb_true_iff, orb_true_iff, Z.eqb_eq, !Nat.leb_le.
  assert (Hmod : (fst a + fst b + am) mod 10 = 0
                 <-> (fst a + fst b) mod 10 = (10 - am) mod 10).
  { split; intros H; Z.div_mod_to_equations; lia. }
  tauto.
Qed.





(** The pair that [optimize_digit] pops. *)
Lemma optimize_digit_pops_pair (digit digit_amount total_amount : Z) (s : Sel)
    (stacks : omap (list api.Output)) :
  let am := needed_count total_amount digit_amount (used_total s) in
  sorted_ok s -> nonempty_ok s ->
  om_find digit (have_coins s) = Some stacks ->
  (exists a b, In a stacks /\ In b stacks /\ pair_qualifies am a b = true) ->
  exists c0 sa c1 sb un0 un1 s1 s2,
    In (c0, sa) stacks /\ In (c1, sb) stacks
    /\ pair_qualifies am (c0, sa) (c1, sb) = true
    /\ (forall a b, In a stacks -> In b stacks -> pair_qualifies am a b = true ->
                   (pair_weight a b <= pair_weight (c0, sa) (c1, sb))%nat)
    /\ back sa = Some un0
    /\ back (if c0 =? c1 then pop_back sa else sb) = Some un1
    /\ take_have digit c0 s = Ok s1
    /\ take_have digit c1 s1 = Ok s2
    /\ optimize_digit digit digit_amount total_amount s = Ok s2
    /\ optimization_unspents s2 = optimization_unspents s ++ [un0; un1]
    /\ used_total s2 = u64 (used_total s + api.amount un0 + api.amount un1)
    /\ inputs_count s2 = u64 (inputs_count s + 2)
    /\ Permutation (have_list (have_coins s))
                   (un0 :: un1 :: have_list (have_coins s2)).
Proof.
  intros am Hs Hne Hf (a & b & Ha & Hb & Hq).
  pose proof (best_pair_spec am stacks) as Hbp.
  destruct (best_pair am stacks) as [[w c0] c1] eqn:Ebp.
  destruct Hbp as [Hmax Hsrc].
  pose proof (Hmax a b Ha Hb Hq) as Hw.
  pose proof (pair_qualifies_weight _ _ _ Hq) as Hw10.
  destruct (Hsrc ltac:(lia)) as (sa & sb & Hina & Hinb & Hq' & Hweight).
  assert (Hss : om_sorted stacks).
  { destruct Hs as [[_ Hsin] _]. rewrite Forall_forall in Hsin.
    exact (Hsin _ (om_find_In _ _ _ _ Hf)). }
  assert (Hstacks_ne : stacks_nonempty stacks).
  { destruct Hne as [Hnh _]. unfold have_nonempty in Hnh.
    rewrite Forall_forall in Hnh. exact (proj2 (Hnh _ (om_find_In _ _ _ _ Hf))). }
  unfold stacks_nonempty in Hstacks_ne. rewrite Forall_forall in Hstacks_ne.
  destruct (take_have_defined digit c0 s stacks sa Hf
              (om_In_find _ _ _ _ Hss Hina) (Hstacks_ne _ Hina))
    as (un0 & Hb0 & Ht0).
  set (s1 := mkSel (use_unspent un0 (this s))
                   (have_pop digit c0 stacks (have_coins s)) (dust_coins s)) in *.
  destruct (pair_second_stack am stacks c0 c1 sa sb Hss Hina Hinb
              (Hstacks_ne _ Hinb) Hq') as (Hf1 & Hne1).
  assert (Hpop_ne : stacks_pop c0 stacks <> []).
  { intros E. rewrite E in Hf1. discriminate. }
  destruct (take_have_defined digit c1 s1 (stacks_pop c0 stacks) _
              (have_pop_find digit c0 stacks (have_coins s) Hpop_ne) Hf1 Hne1)
    as (un1 & Hb1 & Ht1).
  set (s2 := mkSel (use_unspent un1 (this s1))
                   (have_pop digit c1 (stacks_pop c0 stacks) (have_coins s1))
                   (dust_coins s1)) in *.
  exists c0, sa, c1, sb, un0, un1, s1, s2.
  split; [exact Hina|]. split; [exact Hinb|]. split; [exact Hq'|].
  split. { intros a' b' Ha' Hb' Hq''. rewrite <- Hweight. now apply Hmax. }
  split; [exact Hb0|]. split; [exact Hb1|]. split; [exact Ht0|].
  split; [exact Ht1|].
  split.
  { unfold optimize_digit. fold am. rewrite Hf, Ebp.
    destruct (Nat.eqb_spec w 0) as [Hz|_]; [lia|]. cbn [negb].
    rewrite Ht0. cbn [bind]. exact Ht1. }
  split.
  { unfold optimization_unspents, s2, s1. cbn.
    unfold push_back. now rewrite <- app_assoc. }
  split.
  { unfold used_total, s2, s1. cbn. now rewrite u64_add_l. }
  split.
  { unfold inputs_count, s2, s1. cbn. rewrite u64_add_l. f_equal. lia. }
  destruct (take_have_effect _ _ _ _ Hs Ht0) as (un0' & Hthis0 & _ & Hp0 & _).
  destruct (take_have_shape _ _ _ _ Hs Ht0) as (Hs1 & _).
  destruct (take_have_effect _ _ _ _ Hs1 Ht1) as (un1' & Hthis1 & _ & Hp1 & _).
  assert (un0' = un0).
  { apply (f_equal m_optimization_unspents) in Hthis0. cbn in Hthis0.
    unfold push_back in Hthis0. apply app_inj_tail in Hthis0. now destruct Hthis0. }
  assert (un1' = un1).
  { apply (f_equal m_optimization_unspents) in Hthis1. cbn in Hthis1.
    unfold push_back in Hthis1. apply app_inj_tail in Hthis1. now destruct Hthis1. }
  subst un0' un1'. rewrite Hp0, Hp1. reflexivity.
Qed.

(** The run of [optimize_amounts] is the rest of the loop from the turn it
    has come to. *)
Lemma optimize_comes_to_run (total_amount : Z) (s0 : Sel) (digit : nat)
    (digit_amount : Z) (s : Sel) (max_digit : nat) :
  optimize_comes_to total_amount s0 digit digit_amount s ->
  (digit <= S max_digit)%nat ->
  optimize_amounts max_digit total_amount s0
  = optimize_amounts_loop (S max_digit - digit) (Z.of_nat digit) digit_amount
                          total_amount s.
Proof.
  intros Hc. induction Hc as [|digit digit_amount s s' Hc IH Hb Hd]; intros Hle.
  - reflexivity.
  - rewrite IH by lia.
    replace (S max_digit - digit)%nat with (S (S max_digit - S digit)) by lia.
    cbn [optimize_amounts_loop]. rewrite Hb, Hd. cbn [bind].
    f_equal. lia.
Qed.

Lemma optimize_comes_to_amount (total_amount : Z) (s0 : Sel) (digit : nat)
    (digit_amount : Z) (s : Sel) :
  optimize_comes_to total_amount s0 digit digit_amount s ->
  (digit <= 19)%nat -> digit_amount = 10 ^ Z.of_nat digit.
Proof.
  intros Hc. induction Hc as [|digit digit_amount s s' Hc IH Hb Hd]; intros Hle.
  - reflexivity.
  - rewrite IH by lia.
    replace (10 ^ Z.of_nat digit * 10) with (10 ^ Z.of_nat (S digit))
      by (rewrite Nat2Z.inj_succ, Z.pow_succ_r by lia; lia).
    apply u64_small.
    assert (H19 : 10 ^ Z.of_nat (S digit) <= 10 ^ 19)
      by (apply Z.pow_le_mono_r; lia).
    assert (0 < 10 ^ Z.of_nat (S digit)) by (apply Z.pow_pos_nonneg; lia).
    change (10 ^ 19) with 10000000000000000000 in H19.
    change (2 ^ 64) with 18446744073709551616. lia.
Qed.

(** The [break] at the head of a turn returns the state as it is; a turn
    whose body returns leads to the next. *)
Lemma optimize_comes_to_break (total_amount : Z) (s0 : Sel) (digit : nat)
    (digit_amount : Z) (s : Sel) (max_digit : nat) :
  optimize_comes_to total_amount s0 digit digit_amount s ->
  (digit <= max_digit)%nat ->
  total_amount <= used_total s < digit_amount ->
  optimize_amounts max_digit total_amount s0 = Ok s.
Proof.
  intros Hc Hle [H1 H2].
  rewrite (optimize_comes_to_run _ _ _ _ _ max_digit Hc) by lia.
  replace (S max_digit - digit)%nat with (S (max_digit - digit)) by lia.
  cbn [optimize_amounts_loop].
  apply Z.leb_le in H1. apply Z.ltb_lt in H2. now rewrite H1, H2.
Qed.

Lemma optimize_comes_to_step (total_amount : Z) (s0 : Sel) (digit : nat)
    (digit_amount : Z) (s s' : Sel) (max_digit : nat) :
  optimize_comes_to total_amount s0 digit digit_amount s ->
  (digit <= max_digit)%nat ->
  ~ total_amount <= used_total s < digit_amount ->
  optimize_digit (Z.of_nat digit) digit_amount total_amount s = Ok s' ->
  optimize_comes_to total_amount s0 (S digit) (u64 (digit_amount * 10)) s'
  /\ optimize_amounts max_digit total_amount s0
     = optimize_amounts_loop (max_digit - digit) (Z.of_nat (S digit))
                             (u64 (digit_amount * 10)) total_amount s'.
Proof.
  intros Hc Hle Hnb Hd.
  assert (Hb : (total_amount <=? used_total s) && (used_total s <? digit_amount)
               = false).
  { destruct (Z.leb_spec total_amount (used_total s)) as [H1|H1];
      [|reflexivity].
    destruct (Z.ltb_spec (used_total s) digit_amount) as [H2|H2];
      [|reflexivity].
    exfalso. apply Hnb. split; assumption. }
  pose proof (comes_to_next Hc Hb Hd) as Hnext.
  split; [exact Hnext|].
  rewrite (optimize_comes_to_run _ _ _ _ _ max_digit Hnext) by lia.
  f_equal.
Qed.

(** A run of [optimize_amounts] that returns ends at a turn that the loop
    came to: the one after [max_digit], or one that the [break] stopped. *)
Lemma optimize_amounts_ends (max_digit : nat) (total_amount : Z) (s0 s' : Sel) :
  optimize_amounts max_digit total_amount s0 = Ok s' ->
  exists digit digit_amount,
    optimize_comes_to total_amount s0 digit digit_amount s'
    /\ (digit = S max_digit
        \/ ((digit <= max_digit)%nat
            /\ total_amount <= used_total s' < digit_amount)).
Proof.
  unfold optimize_amounts.
  assert (H : forall n digit digit_amount s,
             optimize_comes_to total_amount s0 digit digit_amount s ->
             (digit + n = S max_digit)%nat ->
             optimize_amounts_loop n (Z.of_nat digit) digit_amount total_amount s
             = Ok s' ->
             exists digit' digit_amount',
               optimize_comes_to total_amount s0 digit' digit_amount' s'
               /\ (digit' = S max_digit
                   \/ ((digit' <= max_digit)%nat
                       /\ total_amount <= used_total s' < digit_amount'))).
  { induction n as [|n IH]; intros digit digit_amount s Hc Hn Hrun;
      cbn [optimize_amounts_loop] in Hrun.
    - injection Hrun as <-. exists digit, digit_amount.
      split; [exact Hc | left; lia].
    - destruct ((total_amount <=? used_total s) && (used_total s <? digit_amount))
        eqn:Hb.
      + injection Hrun as <-. exists digit, digit_amount.
        split; [exact Hc|]. right. split; [lia|].
        apply andb_true_iff in Hb as [H1 H2].
        apply Z.leb_le in H1. apply Z.ltb_lt in H2. lia.
      + destruct (optimize_digit (Z.of_nat digit) digit_amount total_amount s)
          as [s1| | |] eqn:Hd; try discriminate Hrun.
        cbn [bind] in Hrun.
        apply (IH (S digit) (u64 (digit_amount * 10)) s1).
        * exact (comes_to_next Hc Hb Hd).
        * lia.
        * rewrite Nat2Z.inj_succ. exact Hrun. }
  intros Hrun.
  exact (H (S max_digit) 0%nat 1 s0 (comes_to_first total_amount s0) eq_refl Hrun).
Qed.

(** C7, as the code has it.  In [optimize_amounts] the loop over the digits
    from 0 to [max_digit] is left by the [break] at the head of a turn as
    soon as [used_total >= total_amount] and [digit_amount > used_total]:
    the state is then returned as it is and no further digit is rounded.
    In a turn that the loop comes to and the [break] does not stop,
    [digit_amount] is [10 ^ digit]; for a digit up to 17, as long as the
    64-bit arithmetic does not wrap, the needed count [am] is
    [10 - ((target + digit_amount - 1 - used_total) / digit_amount) mod 10],
    the offset [fake_large] leaving the value unchanged; and when a pair of
    stacks qualifies (leading digits that sum to [10 - am] modulo 10, one
    of the two stacks at least [TWO_THRESHOLD = 10] high), the selector
    pops one coin for each stack of such a pair of maximal combined height,
    two coins of the same stack when the pair is twice that stack, and the
    loop goes on to the next digit. *)
Theorem optimize_amounts_digit_rounding (max_digit digit : nat)
    (total_amount digit_amount : Z) (s0 s : Sel)
    (stacks : omap (list api.Output)) :
  let am := needed_count total_amount digit_amount (used_total s) in
  optimize_comes_to total_amount s0 digit digit_amount s ->
  (digit <= max_digit)%nat ->
  ((digit <= 19)%nat -> digit_amount = 10 ^ Z.of_nat digit)
  /\ (total_amount <= used_total s < digit_amount ->
      optimize_amounts max_digit total_amount s0 = Ok s)
  /\ (~ total_amount <= used_total s < digit_amount ->
      ((digit <= 17)%nat ->
       0 <= fake_large + total_amount + digit_amount - 1 - used_total s < 2 ^ 64 ->
       am = 10 - ((total_amount + digit_amount - 1 - used_total s) / digit_amount)
                 mod 10)
      /\ (sorted_ok s -> nonempty_ok s ->
          om_find (Z.of_nat digit) (have_coins s) = Some stacks ->
          Forall (fun ait => 0 <= fst ait <= 9) stacks ->
          (exists a b, In a stacks /\ In b stacks /\ rounding_pair am a b) ->
          exists c0 sa c1 sb un0 un1 s2,
            In (c0, sa) stacks /\ In (c1, sb) stacks
            /\ rounding_pair am (c0, sa) (c1, sb)
            /\ (forall a b, In a stacks -> In b stacks -> rounding_pair am a b ->
                           (pair_weight a b <= pair_weight (c0, sa) (c1, sb))%nat)
            /\ back sa = Some un0
            /\ back (if c0 =? c1 then pop_back sa else sb) = Some un1
            /\ optimize_digit (Z.of_nat digit) digit_amount total_amount s = Ok s2
            /\ optimize_comes_to total_amount s0 (S digit)
                                 (u64 (digit_amount * 10)) s2
            /\ optimize_amounts max_digit total_amount s0
               = optimize_amounts_loop (max_digit - digit) (Z.of_nat (S digit))
                                       (u64 (digit_amount * 10)) total_amount s2
            /\ optimization_unspents s2 = optimization_unspents s ++ [un0; un1]
            /\ used_total s2 = u64 (used_total s + api.amount un0 + api.amount un1)
            /\ inputs_count s2 = u64 (inputs_count s + 2)
            /\ Permutation (have_list (have_coins s))
                           (un0 :: un1 :: have_list (have_coins s2)))).
Proof.
  cbv zeta. intros Hc Hle.
  split; [exact (optimize_comes_to_amount _ _ _ _ _ Hc)|].
  split; [exact (optimize_comes_to_break _ _ _ _ _ _ Hc Hle)|].
  intros Hnb. split.
  - intros Hd Hr.
    rewrite (optimize_comes_to_amount _ _ _ _ _ Hc) in * by lia.
    now apply needed_count_eq.
  - intros Hs Hne Hf Hkeys (a & b & Ha & Hb & Hq).
    set (am := needed_count total_amount digit_amount (used_total s)) in *.
    pose proof (needed_count_range total_amount digit_amount (used_total s))
      as Ham. fold am in Ham.
    rewrite Forall_forall in Hkeys.
    assert (Hiff : forall a b, In a stacks -> In b stacks ->
                     (pair_qualifies am a b = true <-> rounding_pair am a b)).
    { intros a' b' Ha' Hb'. apply pair_qualifies_iff; auto. }
    destruct (optimize_digit_pops_pair (Z.of_nat digit) digit_amount
                total_amount s stacks Hs Hne Hf)
      as (c0 & sa & c1 & sb & un0 & un1 & s1 & s2 & H1 & H2 & H3 & H4 & H5 & H6
          & _ & _ & H9 & H10 & H11 & H12 & H13).
    { exists a, b. split; [exact Ha|]. split; [exact Hb|]. now apply Hiff. }
    fold am in H3, H4.
    destruct (optimize_comes_to_step _ _ _ _ _ _ _ Hc Hle Hnb H9) as [Hnext Hrun].
    exists c0, sa, c1, sb, un0, un1, s2.
    split; [exact H1|]. split; [exact H2|].
    split; [now apply Hiff|].
    split. { intros a' b' Ha' Hb' Hq'. apply H4; auto. now apply Hiff. }
    repeat (split; [assumption|]). assumption.
Qed.

(** Two limits of the rounding of a digit.  A pair can
    be twice the same stack: from a single stack of ten coins of 5, for the
    target 990, both coins are popped from that stack, which is left with
    eight.  And at the digit 18 the offset [fake_large] changes the digit
    that is read: for a target of 10^18 and nothing used yet the source
    computes 8 where the formula gives 9, and with a coin of 10^18 in the
    map [optimize_amounts] takes nothing. *)
Lemma optimize_amounts_pair_of_one_stack :
  (heights fives_example = [(0, [(5, 10%nat)])]
   /\ needed_count 990 (10 ^ Z.of_nat 0) (used_total fives_example) = 10
   /\ exists s2,
        optimize_digit (Z.of_nat 0) (10 ^ Z.of_nat 0) 990 fives_example = Ok s2
        /\ heights s2 = [(0, [(5, 8%nat)])]
        /\ map api.amount (optimization_unspents s2) = [5; 5])
  /\ needed_count (10 ^ 18) (10 ^ Z.of_nat 18) 0 = 8
  /\ 10 - ((10 ^ 18 + 10 ^ Z.of_nat 18 - 1 - 0) / 10 ^ Z.of_nat 18) mod 10 = 9
  /\ (let u := UnspentSelector_new toy_currency [coin (10 ^ 18) 0] in
      let '(have, dust, max_digit) := create_have_coins 0 0 1 u in
      max_digit = 18%nat
      /\ optimize_amounts max_digit (10 ^ 18) (mkSel u have dust)
         = Ok (mkSel u have dust)).
Proof.
  split.
  { split; [vm_compute; reflexivity|].
    split; [vm_compute; reflexivity|].
    eexists. split; [reflexivity|]. split; vm_compute; reflexivity. }
  split; [vm_compute; reflexivity|].
  split; [vm_compute; reflexivity|].
  vm_compute. split; reflexivity.
Qed.

(* ================================================================== *)
(** * Digit rounding and rollback: examples *)

Lemma rounding_example_sorted : sorted_ok rounding_example.
Proof. cbv. repeat first [split | constructor | reflexivity]. Qed.

Lemma rounding_example_nonempty : nonempty_ok rounding_example.
Proof. cbv. repeat first [split | constructor | discriminate]. Qed.

Lemma rounding_example_placed :
  have_all placed_have (have_coins rounding_example)
  /\ stacks_all placed_dust (dust_coins rounding_example).
Proof. cbv. repeat first [split | constructor | reflexivity]. Qed.

(** The pair (3, 7) of the fourth scenario: for the target 990 the loop
    starts at the units, whose needed count is 10, and a coin of 3 and a
    coin of 7 are popped. *)
Lemma optimize_amounts_digit_rounding_witness :
  let s := rounding_example in
  let stacks := om_at 0 (have_coins s) in
  let am := needed_count 990 1 (used_total s) in
  am = 10 - ((990 + 1 - 1 - used_total s) / 1) mod 10
  /\ exists c0 sa c1 sb un0 un1 s2,
       In (c0, sa) stacks /\ In (c1, sb) stacks
       /\ rounding_pair am (c0, sa) (c1, sb)
       /\ (forall a b, In a stacks -> In b stacks -> rounding_pair am a b ->
                      (pair_weight a b <= pair_weight (c0, sa) (c1, sb))%nat)
       /\ back sa = Some un0
       /\ back (if c0 =? c1 then pop_back sa else sb) = Some un1
       /\ optimize_digit (Z.of_nat 0) 1 990 s = Ok s2
       /\ optimize_comes_to 990 s 1 (u64 (1 * 10)) s2
       /\ optimize_amounts 0 990 s
          = optimize_amounts_loop (0 - 0) (Z.of_nat 1) (u64 (1 * 10)) 990 s2
       /\ optimization_unspents s2 = optimization_unspents s ++ [un0; un1]
       /\ used_total s2 = u64 (used_total s + api.amount un0 + api.amount un1)
       /\ inputs_count s2 = u64 (inputs_count s + 2)
       /\ Permutation (have_list (have_coins s))
                      (un0 :: un1 :: have_list (have_coins s2)).
Proof.
  cbv zeta.
  assert (Hused : used_total rounding_example = 0) by reflexivity.
  destruct (optimize_amounts_digit_rounding 0 0 990 1 rounding_example
              rounding_example (om_at 0 (have_coins rounding_example))
              (comes_to_first 990 rounding_example) (le_n 0))
    as (_ & _ & Hturn).
  destruct Hturn as [H1 H2]; [rewrite Hused; lia|].
  split.
  - apply H1; [lia | vm_compute; split; [discriminate | reflexivity]].
  - apply H2.
    + exact rounding_example_sorted.
    + exact rounding_example_nonempty.
    + vm_compute. reflexivity.
    + vm_compute. repeat constructor; discriminate.
    + exists (nth 0 (om_at 0 (have_coins rounding_example)) (0, [])),
             (nth 1 (om_at 0 (have_coins rounding_example)) (0, [])).
      split; [vm_compute; left; reflexivity|].
      split; [vm_compute; right; left; reflexivity|].
      split; [vm_compute; reflexivity|].
      right. vm_compute. lia.
Defined.


(* ================================================================== *)
(** * The books of a well-formed pool *)

Lemma have_all_list (P : api.Output -> Prop) (have : HaveCoins) :
  have_all (fun _ _ un => P un) have <-> Forall P (have_list have).
Proof.
  unfold have_all, stacks_all, have_list.
  induction have as [|[d stacks] have IH]; cbn [map concat].
  - split; constructor.
  - rewrite Forall_cons_iff, Forall_app, IH. cbn [fst snd].
    assert (Hs : Forall (fun ait => Forall P (snd ait)) stacks
                 <-> Forall P (concat (map snd stacks))).
    { clear. induction stacks as [|[k st] stacks IHs]; cbn [map concat].
      - split; constructor.
      - rewrite Forall_cons_iff, Forall_app, IHs. reflexivity. }
    rewrite Hs. reflexivity.
Qed.

Lemma stacks_all_list (P : api.Output -> Prop) (dust : DustCoins) :
  stacks_all (fun _ un => P un) dust <-> Forall P (dust_list dust).
Proof.
  unfold stacks_all, dust_list.
  induction dust as [|[k st] dust IH]; cbn [map concat].
  - split; constructor.
  - rewrite Forall_cons_iff, Forall_app, IH. reflexivity.
Qed.

Lemma have_all_and (Q1 Q2 : Z -> Z -> api.Output -> Prop) (have : HaveCoins) :
  have_all Q1 have -> have_all Q2 have ->
  have_all (fun d k un => Q1 d k un /\ Q2 d k un) have.
Proof.
  unfold have_all, stacks_all. rewrite !Forall_forall.
  intros H1 H2 dit Hd. specialize (H1 _ Hd). specialize (H2 _ Hd).
  rewrite Forall_forall in *. intros ait Ha.
  specialize (H1 _ Ha). specialize (H2 _ Ha).
  rewrite Forall_forall in *. intros un Hu. split; auto.
Qed.

Lemma have_all_impl (Q1 Q2 : Z -> Z -> api.Output -> Prop) (have : HaveCoins) :
  (forall d k un, Q1 d k un -> Q2 d k un) -> have_all Q1 have -> have_all Q2 have.
Proof.
  intros Himp. unfold have_all, stacks_all.
  intros H. eapply Forall_impl; [|exact H]. cbv beta. intros dit H1.
  eapply Forall_impl; [|exact H1]. cbv beta. intros ait H2.
  eapply Forall_impl; [|exact H2]. intros un. apply Himp.
Qed.

Lemma stacks_all_and (Q1 Q2 : Z -> api.Output -> Prop) (dust : DustCoins) :
  stacks_all Q1 dust -> stacks_all Q2 dust ->
  stacks_all (fun a un => Q1 a un /\ Q2 a un) dust.
Proof.
  unfold stacks_all. rewrite !Forall_forall.
  intros H1 H2 ait Ha. specialize (H1 _ Ha). specialize (H2 _ Ha).
  rewrite Forall_forall in *. intros un Hu. split; auto.
Qed.

Lemma filter_perm {A : Type} (f : A -> bool) (l l' : list A) :
  Permutation l l' -> Permutation (filter f l) (filter f l').
Proof.
  induction 1 as [|x l l' _ IH|x y l|l l' l'' _ IH1 _ IH2]; cbn [filter].
  - constructor.
  - destruct (f x); [now constructor | exact IH].
  - destruct (f x), (f y); try reflexivity. apply perm_swap.
  - now transitivity (filter f l').
Qed.

Lemma sum_amounts_filter (l : list api.Output) :
  sum_amounts l = sum_amounts (filter not_dust l) + sum_amounts (filter api.dust l).
Proof.
  induction l as [|un l IH]; cbn [filter sum_amounts fold_right]; [reflexivity|].
  unfold not_dust at 1. fold (sum_amounts l).
  destruct (api.dust un); cbn [negb sum_amounts fold_right];
    fold (sum_amounts (filter not_dust l)); fold (sum_amounts (filter api.dust l));
    lia.
Qed.

(* ------------------------------------------------------------------ *)
(** ** [create_have_coins] *)

Section Create.
Variables (currency : Currency) (block_height block_time confirmed_height : Z).

Let step := create_have_coins_step currency block_height block_time confirmed_height.
Let hp := have_pool currency block_height block_time confirmed_height.
Let dp := dust_pool currency block_height block_time confirmed_height.

Lemma create_have_coins_fold (l done : list api.Output)
    (have : HaveCoins) (dust : DustCoins) (max_digit : nat) :
  have_sorted have -> om_sorted dust ->
  have_nonempty have -> stacks_nonempty dust ->
  have_all (fun d k un => coin_key un = (d, k)) have ->
  stacks_all (fun a un => api.amount un = a) dust ->
  Permutation (have_list have) (hp done) ->
  Permutation (dust_list dust) (dp done) ->
  let '(have', dust', _) := fold_left step l (have, dust, max_digit) in
  have_sorted have' /\ om_sorted dust'
  /\ have_nonempty have' /\ stacks_nonempty dust'
  /\ have_all (fun d k un => coin_key un = (d, k)) have'
  /\ stacks_all (fun a un => api.amount un = a) dust'
  /\ Permutation (have_list have') (hp (done ++ l))
  /\ Permutation (dust_list dust') (dp (done ++ l)).
Proof.
  revert done have dust max_digit.
  induction l as [|un l IH]; intros done have dust max_digit
    Hsh Hsd Hnh Hnd Hkh Hkd Hph Hpd; cbn [fold_left].
  - rewrite app_nil_r. tauto.
  - assert (Happ : done ++ un :: l = (done ++ [un]) ++ l)
      by now rewrite <- app_assoc.
    rewrite Happ.
    assert (Hfh : forall b, spendable currency block_height block_time
                              confirmed_height un
                            && negb (is_dust currency (api.amount un)) = b ->
                   hp (done ++ [un]) = hp done ++ (if b then [un] else [])).
    { intros b <-. unfold hp, have_pool. now rewrite filter_snoc. }
    assert (Hfd : forall b, spendable currency block_height block_time
                              confirmed_height un
                            && is_dust currency (api.amount un) = b ->
                   dp (done ++ [un]) = dp done ++ (if b then [un] else [])).
    { intros b <-. unfold dp, dust_pool. now rewrite filter_snoc. }
    change (step (have, dust, max_digit) un)
      with (create_have_coins_step currency block_height block_time
              confirmed_height (have, dust, max_digit) un).
    unfold create_have_coins_step. unfold spendable in Hfh, Hfd.
    destruct (confirmed_height <=? api.height un); cbn [negb andb] in *.
    { apply IH; auto.
      - now rewrite (Hfh false eq_refl), app_nil_r.
      - now rewrite (Hfd false eq_refl), app_nil_r. }
    destruct (is_transaction_spend_time_unlocked currency (api.unlock_time un)
                block_height block_time); cbn [negb andb] in *.
    2: { apply IH; auto.
         - now rewrite (Hfh false eq_refl), app_nil_r.
         - now rewrite (Hfd false eq_refl), app_nil_r. }
    destruct (is_dust currency (api.amount un)); cbn [negb] in *.
    + destruct (dust_push_effect un dust Hsd) as [Hp HQ].
      apply IH; auto using dust_push_sorted, dust_push_nonempty.
      * now rewrite (Hfh false eq_refl), app_nil_r.
      * rewrite (Hfd true eq_refl), Hp, Hpd. apply Permutation_cons_append.
    + pose proof (eq_refl (coin_key un)) as Hkey. unfold coin_key at 2 in Hkey.
      destruct (digit_of (api.amount un)) as [digit am].
      destruct (have_push_effect (Z.of_nat digit) am un have Hsh) as [Hp HQ].
      apply IH; auto using have_push_sorted, have_push_nonempty.
      * rewrite (Hfh true eq_refl), Hp, Hph. apply Permutation_cons_append.
      * now rewrite (Hfd false eq_refl), app_nil_r.
Qed.

End Create.

Lemma create_have_coins_rev (block_height block_time confirmed_height : Z)
    (u : UnspentSelector) :
  let '(have, dust, _) :=
    create_have_coins block_height block_time confirmed_height u in
  have_sorted have /\ om_sorted dust
  /\ have_nonempty have /\ stacks_nonempty dust
  /\ have_all (fun d k un => coin_key un = (d, k)) have
  /\ stacks_all (fun a un => api.amount un = a) dust
  /\ Permutation (have_list have)
       (have_pool (m_currency u) block_height block_time confirmed_height
                  ([] ++ rev (m_unspents u)))
  /\ Permutation (dust_list dust)
       (dust_pool (m_currency u) block_height block_time confirmed_height
                  ([] ++ rev (m_unspents u))).
Proof.
  apply (create_have_coins_fold (m_currency u) block_height block_time
           confirmed_height (rev (m_unspents u)) [] [] [] 0%nat);
    try constructor.
  - exact I.
  - constructor.
Qed.

(** The two maps that [create_have_coins] builds. *)
Lemma create_have_coins_spec (block_height block_time confirmed_height : Z)
    (u : UnspentSelector) :
  let '(have, dust, _) :=
    create_have_coins block_height block_time confirmed_height u in
  have_sorted have /\ om_sorted dust
  /\ have_nonempty have /\ stacks_nonempty dust
  /\ have_all (fun d k un => coin_key un = (d, k)) have
  /\ stacks_all (fun a un => api.amount un = a) dust
  /\ Permutation (have_list have)
       (have_pool (m_currency u) block_height block_time confirmed_height
                  (m_unspents u))
  /\ Permutation (dust_list dust)
       (dust_pool (m_currency u) block_height block_time confirmed_height
                  (m_unspents u)).
Proof.
  pose proof (create_have_coins_rev block_height block_time confirmed_height u) as H.
  destruct (create_have_coins block_height block_time confirmed_height u)
    as [[have dust] md].
  destruct H as (H1 & H2 & H3 & H4 & H5 & H6 & H7 & H8).
  cbn [app] in H7, H8.
  repeat (split; [assumption|]). split.
  - rewrite H7. unfold have_pool. apply filter_perm, Permutation_sym, Permutation_rev.
  - rewrite H8. unfold dust_pool. apply filter_perm, Permutation_sym, Permutation_rev.
Qed.

(* ================================================================== *)
(** * The books are kept: the rest *)

Lemma frame_use (u0 : UnspentSelector) (s s' : Sel) (un : api.Output) :
  this s' = use_unspent un (this s) -> frame u0 s -> frame u0 s'.
Proof. intros E H. unfold frame in *. rewrite E. exact H. Qed.

Lemma frame_unoptimize_fold (u0 : UnspentSelector) (l : list api.Output) (s : Sel) :
  frame u0 s -> frame u0 (fold_left unoptimize_step l s).
Proof.
  revert s. induction l as [|un l IH]; intros s H; cbn [fold_left]; [exact H|].
  apply IH. unfold unoptimize_step.
  destruct (negb (api.dust un)); [destruct (digit_of (api.amount un))|]; exact H.
Qed.

Lemma frame_unoptimize (u0 : UnspentSelector) (s : Sel) :
  frame u0 s -> frame u0 (unoptimize_amounts s).
Proof.
  intros H. unfold unoptimize_amounts.
  pose proof (frame_unoptimize_fold u0 (optimization_unspents s) s H) as H'.
  exact H'.
Qed.

Section Positive.
Variable anonymity : Z.

Lemma positive_moved_have (s s' : Sel) (un : api.Output) :
  this s' = use_unspent un (this s) ->
  have_all (fun _ _ un => 0 < api.amount un) (have_coins s') ->
  0 < api.amount un -> api.dust un = false ->
  positive_ok anonymity s -> positive_ok anonymity s'.
Proof.
  intros Hthis Hh Hpos Hnd (_ & Ho & Han).
  unfold positive_ok, optimization_unspents in *.
  rewrite Hthis, optimization_unspents_use.
  split; [exact Hh|]. split.
  - apply Forall_app. split; [exact Ho | now constructor].
  - intros Hne. apply Forall_app. split; [now apply Han | now constructor].
Qed.

Lemma positive_take_have (d k : Z) (s s' : Sel) :
  sorted_ok s -> have_all placed_have (have_coins s) ->
  positive_ok anonymity s -> take_have d k s = Ok s' -> positive_ok anonymity s'.
Proof.
  intros Hs Hpl Hp Ht.
  destruct (take_have_effect _ _ _ _ Hs Ht) as (un & Hthis & _ & _ & HQ).
  destruct (HQ _ (proj1 Hp)) as [Hh Hpos].
  destruct (HQ _ Hpl) as [_ [_ Hnd]].
  now apply (positive_moved_have s s' un).
Qed.

Lemma positive_take_stack (d k : Z) (s s' : Sel) :
  sorted_ok s -> have_all placed_have (have_coins s) ->
  positive_ok anonymity s -> take_stack d k s = Ok s' -> positive_ok anonymity s'.
Proof.
  intros Hs Hpl Hp Ht.
  destruct (take_stack_effect _ _ _ _ Hs Ht) as (_ & un & Hthis & _ & _ & HQ).
  destruct (HQ _ (proj1 Hp)) as [Hh Hpos].
  destruct (HQ _ Hpl) as [_ [_ Hnd]].
  now apply (positive_moved_have s s' un).
Qed.

Lemma positive_take_dust (duit : Z * list api.Output) (s s' : Sel) :
  sorted_ok s -> In duit (dust_coins s) -> anonymity = 0 ->
  stacks_all placed_dust (dust_coins s) ->
  positive_ok anonymity s -> take_dust duit s = Ok s' -> positive_ok anonymity s'.
Proof.
  intros Hs Hin Han Hpl (Hh & Ho & _) Ht.
  destruct (take_dust_effect _ _ _ Hs Hin Ht) as (un & Hthis & Hhave & _ & HQ).
  destruct (HQ _ Hpl) as [_ [_ Hd]].
  unfold positive_ok, optimization_unspents in *.
  rewrite Hthis, optimization_unspents_use, Hhave.
  split; [exact Hh|]. split.
  - apply Forall_app. split; [exact Ho|]. constructor; [|constructor].
    intros E. congruence.
  - intros Hne. contradiction.
Qed.

Lemma positive_unoptimize_fold (l : list api.Output) (s : Sel) :
  sorted_ok s ->
  Forall (fun un => api.dust un = false -> 0 < api.amount un) l ->
  have_all (fun _ _ un => 0 < api.amount un) (have_coins s) ->
  have_all (fun _ _ un => 0 < api.amount un)
           (have_coins (fold_left unoptimize_step l s)).
Proof.
  revert s. induction l as [|un l IH]; intros s Hs Hl Hh; cbn [fold_left];
    [exact Hh|].
  inversion Hl as [|? ? Hun Hl']; subst.
  apply IH; [now apply unoptimize_step_shape | exact Hl'|].
  unfold unoptimize_step.
  destruct (api.dust un) eqn:Ed; cbn [negb]; [exact Hh|].
  destruct (digit_of (api.amount un)) as [digit am]. cbn [have_coins].
  destruct (have_push_effect (Z.of_nat digit) am un _ (proj1 Hs)) as [_ HQ].
  apply HQ; [exact Hh | now apply Hun].
Qed.

Lemma positive_unoptimize (s : Sel) :
  sorted_ok s -> positive_ok anonymity s ->
  positive_ok anonymity (unoptimize_amounts s).
Proof.
  intros Hs (Hh & Ho & _). unfold positive_ok, unoptimize_amounts.
  split; [exact (positive_unoptimize_fold _ s Hs Ho Hh)|].
  split; [constructor | intros _; constructor].
Qed.

Variables (u0 : UnspentSelector) (H0 D0 : list api.Output).

Lemma books_take_have (d k : Z) (s s' : Sel) :
  sorted_ok s -> books anonymity u0 H0 D0 s -> take_have d k s = Ok s' ->
  books anonymity u0 H0 D0 s'.
Proof.
  intros Hs (Ha & Hacc & Hp & Hf) Ht.
  split; [eapply amounts_ok_take_have; eassumption|].
  split; [eapply accounted_take_have; eassumption|].
  split; [eapply positive_take_have; try eassumption; exact (proj1 Hacc)|].
  destruct (take_have_effect _ _ _ _ Hs Ht) as (un & Hthis & _).
  eapply frame_use; eassumption.
Qed.

Lemma books_take_stack (d k : Z) (s s' : Sel) :
  sorted_ok s -> books anonymity u0 H0 D0 s -> take_stack d k s = Ok s' ->
  books anonymity u0 H0 D0 s'.
Proof.
  intros Hs (Ha & Hacc & Hp & Hf) Ht.
  split; [eapply amounts_ok_take_stack; eassumption|].
  split; [eapply accounted_take_stack; eassumption|].
  split; [eapply positive_take_stack; try eassumption; exact (proj1 Hacc)|].
  destruct (take_stack_effect _ _ _ _ Hs Ht) as (_ & un & Hthis & _).
  eapply frame_use; eassumption.
Qed.

Lemma books_take_dust (duit : Z * list api.Output) (s s' : Sel) :
  sorted_ok s -> In duit (dust_coins s) -> anonymity = 0 \/ False ->
  books anonymity u0 H0 D0 s -> take_dust duit s = Ok s' ->
  books anonymity u0 H0 D0 s'.
Proof.
  intros Hs Hin [Han|[]] (Ha & Hacc & Hp & Hf) Ht.
  split; [eapply amounts_ok_take_dust; eassumption|].
  split; [eapply accounted_take_dust; eassumption|].
  split; [eapply positive_take_dust; try eassumption;
          exact (proj1 (proj2 Hacc))|].
  destruct (take_dust_effect _ _ _ Hs Hin Ht) as (un & Hthis & _).
  eapply frame_use; eassumption.
Qed.

Lemma books_unoptimize (s : Sel) :
  sorted_ok s -> books anonymity u0 H0 D0 s ->
  books anonymity u0 H0 D0 (unoptimize_amounts s).
Proof.
  intros Hs (Ha & Hacc & Hp & Hf).
  split; [now apply amounts_ok_unoptimize|].
  split; [now apply accounted_unoptimize|].
  split; [now apply positive_unoptimize | now apply frame_unoptimize].
Qed.

Lemma books_top (s : Sel) (a : Z) :
  inv (books anonymity u0 H0 D0) s -> have_coins s <> [] ->
  top_have_amount (have_coins s) = Ok a -> a <= 0 -> False.
Proof.
  intros (_ & [Hne _] & (_ & _ & (Hpos & _) & _)) Hn Ht Ha.
  destruct (top_have_amount_defined _ Hne Hn)
    as (dit & ait & un & Hdit & Hait & Hun & Ht').
  rewrite Ht' in Ht. injection Ht as <-.
  unfold have_all, stacks_all in Hpos. rewrite Forall_forall in Hpos.
  pose proof (Hpos _ (om_last_In _ _ _ Hdit)) as H1.
  rewrite Forall_forall in H1.
  pose proof (H1 _ (om_last_In _ _ _ Hait)) as H2.
  pose proof (Forall_back _ _ _ H2 Hun) as H3. cbv beta in H3. lia.
Qed.

End Positive.

Lemma amounts_dust_top (anonymity : Z) (s : Sel) (a : Z) :
  amounts_ok s -> top_dust_amount anonymity (dust_coins s) = Ok a -> 0 <= a.
Proof.
  intros (_ & Hd & _). unfold top_dust_amount.
  destruct ((anonymity =? 0) && negb (is_empty (dust_coins s)));
    [|intros [= <-]; lia].
  destruct (om_last (dust_coins s)) as [duit|] eqn:El; [|discriminate].
  destruct (back (snd duit)) as [un|] eqn:Eb; [|discriminate].
  intros [= <-].
  apply stacks_all_list in Hd. unfold stacks_all in Hd.
  rewrite Forall_forall in Hd.
  exact (Forall_back _ _ _ (Hd _ (om_last_In _ _ _ El)) Eb).
Qed.

(* ================================================================== *)
(** * The loop of [select_optimal_outputs] *)

Section Outer.
Context {tools : VarNoteTools}.
Variables (effective_median_size anonymity total_amount total_outputs : Z).
Variables (fee_per_byte : Z) (optimization_level : string).
Variable K : Sel -> Prop.
Variable bad : Prop.

Hypothesis inner_keeps : forall max_digit total count s,
  inv K s ->
  res_ok bad (inner_post K max_digit total anonymity)
    (select_optimal_outputs_inner max_digit total anonymity count s).
Hypothesis unoptimize_keeps : forall s, inv K s -> inv K (unoptimize_amounts s).
Hypothesis dust_keeps : forall s,
  inv K s -> bad \/ default_dust_threshold (m_currency (this s)) <> 0.

Lemma select_turn_keeps (max_digits : nat) (fee : Z) (optimizations : nat)
    (s : Sel) :
  inv K s ->
  res_ok bad (turn_post K)
    (select_turn effective_median_size anonymity total_amount total_outputs
                 fee_per_byte optimization_level max_digits fee optimizations s).
Proof.
  intros Hinv. unfold select_turn.
  eapply res_ok_bind; [now apply inner_keeps|].
  intros [ok s1] (Hinv1 & _ & _). cbn [fst snd] in Hinv1.
  destruct ok; cbn [negb]; [|exact I].
  destruct (Z.eqb_spec (default_dust_threshold (m_currency (this s))) 0)
    as [Hz|Hz].
  { cbn [res_ok]. destruct (dust_keeps s Hinv) as [Hb|Hd];
      [exact Hb | contradiction]. }
  destruct ((optimization_median effective_median_size optimization_level
             <? get_maximum_tx_size (inputs_count s1) (u64 (total_outputs + 8))
                                    anonymity)
            && (0 <? optimizations)%nat).
  { split; [now apply unoptimize_keeps | reflexivity]. }
  destruct (effective_median_size
            <? get_maximum_tx_size (inputs_count s1) (u64 (total_outputs + 8))
                                   anonymity); [exact I|].
  match goal with |- context [if ?c then _ else _] => destruct c end.
  - exact I.
  - split; [now apply unoptimize_keeps | reflexivity].
Qed.

Lemma select_loop_keeps (fuel max_digits : nat) (fee : Z) (optimizations : nat)
    (s : Sel) :
  inv K s ->
  res_ok_fuel bad (fun _ => True)
    (select_loop effective_median_size anonymity total_amount total_outputs
                 fee_per_byte optimization_level fuel max_digits fee
                 optimizations s).
Proof.
  revert fee optimizations s.
  induction fuel as [|fuel IH]; intros fee optimizations s Hinv;
    cbn [select_loop]; [exact I|].
  pose proof (select_turn_keeps max_digits fee optimizations s Hinv) as Ht.
  destruct (select_turn effective_median_size anonymity total_amount
              total_outputs fee_per_byte optimization_level max_digits fee
              optimizations s) as [[turn s']| |f|]; cbn [bind res_ok] in *;
    try contradiction.
  - destruct turn as [status change|fee' optimizations']; [exact I|].
    apply IH. exact (proj1 Ht).
  - destruct f; try contradiction; exact Ht.
Qed.

(** A turn that returns or goes on was not stopped by the remainder. *)
Lemma select_turn_Ok_keeps (max_digits : nat) (fee : Z) (optimizations : nat)
    (s : Sel) (r : Turn * Sel) :
  inv K s ->
  select_turn effective_median_size anonymity total_amount total_outputs
              fee_per_byte optimization_level max_digits fee optimizations s
  = Ok r ->
  turn_post K r.
Proof.
  intros Hinv. unfold select_turn.
  pose proof (inner_keeps max_digits (u64 (total_amount + fee)) optimizations s
                Hinv) as Hin.
  destruct (select_optimal_outputs_inner max_digits (u64 (total_amount + fee))
              anonymity optimizations s) as [[ok s1]| |f|]; cbn [bind];
    try discriminate.
  destruct Hin as (Hinv1 & _ & _). cbn [fst snd] in Hinv1.
  destruct ok; cbn [negb]; [|intros [= <-]; exact I].
  destruct (default_dust_threshold (m_currency (this s)) =? 0);
    [discriminate|].
  destruct ((optimization_median effective_median_size optimization_level
             <? get_maximum_tx_size (inputs_count s1) (u64 (total_outputs + 8))
                                    anonymity)
            && (0 <? optimizations)%nat).
  { intros [= <-]. split; [now apply unoptimize_keeps | reflexivity]. }
  destruct (effective_median_size
            <? get_maximum_tx_size (inputs_count s1) (u64 (total_outputs + 8))
                                   anonymity); [intros [= <-]; exact I|].
  match goal with |- context [if ?c then _ else _] => destruct c end.
  - intros [= <-]. exact I.
  - intros [= <-]. split; [now apply unoptimize_keeps | reflexivity].
Qed.

Lemma turns_keep (max_digits : nat) (x y : Z * nat * Sel) :
  turns effective_median_size anonymity total_amount total_outputs
        fee_per_byte optimization_level max_digits x y ->
  inv K (snd x) /\ optimization_unspents (snd x) = [] ->
  inv K (snd y) /\ optimization_unspents (snd y) = [].
Proof.
  induction 1 as [x|fee o s fee' o' s' y Hturn _ IH]; [auto|].
  cbn [snd]. intros [Hinv _]. apply IH. cbn [snd].
  exact (select_turn_Ok_keeps max_digits fee o s _ Hinv Hturn).
Qed.

(** A run of the loop that returns has reached, by turns that went on, a
    turn that returned. *)
Lemma select_loop_returns (fuel max_digits : nat) (fee : Z) (optimizations : nat)
    (s : Sel) (status : string) (change : option Z) (s' : Sel) :
  select_loop effective_median_size anonymity total_amount total_outputs
              fee_per_byte optimization_level fuel max_digits fee
              optimizations s = Ok (status, change, s') ->
  exists fee_k optimizations_k s_k,
    turns effective_median_size anonymity total_amount total_outputs
          fee_per_byte optimization_level max_digits
          (fee, optimizations, s) (fee_k, optimizations_k, s_k)
    /\ select_turn effective_median_size anonymity total_amount total_outputs
                   fee_per_byte optimization_level max_digits fee_k
                   optimizations_k s_k
       = Ok (Return status change, s').
Proof.
  revert fee optimizations s.
  induction fuel as [|fuel IH]; intros fee optimizations s; cbn [select_loop];
    [discriminate|].
  destruct (select_turn effective_median_size anonymity total_amount
              total_outputs fee_per_byte optimization_level max_digits fee
              optimizations s) as [[turn s1]| |f|] eqn:Et; cbn [bind];
    try discriminate.
  destruct turn as [st ch|fee' optimizations'].
  - intros [= <- <- <-]. exists fee, optimizations, s.
    split; [constructor | exact Et].
  - intros Hl. destruct (IH _ _ _ Hl) as (fk & ok & sk & Ht & Hr).
    exists fk, ok, sk. split; [|exact Hr].
    eapply turns_more; eassumption.
Qed.

End Outer.

(* ================================================================== *)
(** * The two instances of the invariant *)

(** With amounts that are amounts, the only ways out of the defined
    behaviour are [--end()] on an empty dust map and the remainder by a
    dust threshold that is zero. *)
Lemma inner_keeps_amounts (anonymity : Z) (max_digit : nat) (total : Z)
    (count : nat) (s : Sel) :
  inv amounts_ok s ->
  res_ok True (inner_post amounts_ok max_digit total anonymity)
    (select_optimal_outputs_inner max_digit total anonymity count s).
Proof.
  apply select_optimal_outputs_inner_keeps.
  - intros d k s0 s' Hs Ha Ht. eapply amounts_ok_take_have; eassumption.
  - intros d k s0 s' Hs Ha Ht. eapply amounts_ok_take_stack; eassumption.
  - intros duit s0 s' Hs Hin _ Ha Ht. eapply amounts_ok_take_dust; eassumption.
  - intros s0 Hs Ha. now apply amounts_ok_unoptimize.
  - intros. exact I.
  - intros s0 a (_ & _ & Ha) Ht. eapply amounts_dust_top; eassumption.
Qed.

Lemma unoptimize_keeps_amounts (s : Sel) :
  inv amounts_ok s -> inv amounts_ok (unoptimize_amounts s).
Proof.
  apply unoptimize_amounts_keeps. intros s0 Hs Ha. now apply amounts_ok_unoptimize.
Qed.

(** With a pool as [pool_ok] says, there is no way out. *)
Lemma inner_keeps_books (anonymity : Z) (u0 : UnspentSelector)
    (H0 D0 : list api.Output) (max_digit : nat) (total : Z) (count : nat)
    (s : Sel) :
  inv (books anonymity u0 H0 D0) s ->
  res_ok False (inner_post (books anonymity u0 H0 D0) max_digit total anonymity)
    (select_optimal_outputs_inner max_digit total anonymity count s).
Proof.
  apply select_optimal_outputs_inner_keeps.
  - intros d k s0 s' Hs Hb Ht. eapply books_take_have; eassumption.
  - intros d k s0 s' Hs Hb Ht. eapply books_take_stack; eassumption.
  - intros duit s0 s' Hs Hin Han Hb Ht. eapply books_take_dust; eassumption.
  - intros s0 Hs Hb. now apply books_unoptimize.
  - intros s0 a Hinv Hn Ht Ha. eapply books_top; eassumption.
  - intros s0 a (_ & _ & (Ha & _)) Ht. eapply amounts_dust_top; eassumption.
Qed.

Lemma unoptimize_keeps_books (anonymity : Z) (u0 : UnspentSelector)
    (H0 D0 : list api.Output) (s : Sel) :
  inv (books anonymity u0 H0 D0) s ->
  inv (books anonymity u0 H0 D0) (unoptimize_amounts s).
Proof.
  apply unoptimize_amounts_keeps. intros s0 Hs Hb. now apply books_unoptimize.
Qed.

Lemma dust_keeps_amounts (s : Sel) :
  inv amounts_ok s -> True \/ default_dust_threshold (m_currency (this s)) <> 0.
Proof. intros _. now left. Qed.

Lemma dust_keeps_books (anonymity : Z) (u0 : UnspentSelector)
    (H0 D0 : list api.Output) (s : Sel) :
  default_dust_threshold (m_currency u0) <> 0 ->
  inv (books anonymity u0 H0 D0) s ->
  False \/ default_dust_threshold (m_currency (this s)) <> 0.
Proof.
  intros Hd (_ & _ & (_ & _ & _ & (Hc & _))). right. now rewrite Hc.
Qed.

(* ================================================================== *)
(** * The state at the start of the loop *)

Lemma Forall_filter_in {A : Type} (P : A -> Prop) (f : A -> bool) (l : list A) :
  Forall P l -> Forall (fun x => P x /\ f x = true) (filter f l).
Proof.
  rewrite !Forall_forall. intros H x Hx. apply filter_In in Hx as [Hin Hf].
  split; [now apply H | exact Hf].
Qed.

Lemma initial_amounts (block_height block_time confirmed_height : Z)
    (u : UnspentSelector) :
  Forall nonneg (m_unspents u) ->
  Forall nonneg (m_optimization_unspents u) ->
  let '(have, dust, _) :=
    create_have_coins block_height block_time confirmed_height u in
  inv amounts_ok (mkSel u have dust).
Proof.
  intros Hpool Hopt.
  pose proof (create_have_coins_spec block_height block_time confirmed_height u) as H.
  destruct (create_have_coins block_height block_time confirmed_height u)
    as [[have dust] md].
  destruct H as (H1 & H2 & H3 & H4 & _ & _ & H7 & H8).
  split; [now split|]. split; [now split|].
  split; [|split; [|exact Hopt]]; cbn [have_coins dust_coins].
  - eapply Permutation_Forall; [apply Permutation_sym, H7|].
    unfold have_pool. eapply Forall_impl; [|apply Forall_filter_in, Hpool].
    cbv beta. tauto.
  - eapply Permutation_Forall; [apply Permutation_sym, H8|].
    unfold dust_pool. eapply Forall_impl; [|apply Forall_filter_in, Hpool].
    cbv beta. tauto.
Qed.

Lemma initial_books (block_height block_time confirmed_height anonymity : Z)
    (u : UnspentSelector) :
  Forall (pool_ok (m_currency u)) (m_unspents u) ->
  fresh u ->
  let '(have, dust, _) :=
    create_have_coins block_height block_time confirmed_height u in
  inv (books anonymity u
         (have_pool (m_currency u) block_height block_time confirmed_height
                    (m_unspents u))
         (dust_pool (m_currency u) block_height block_time confirmed_height
                    (m_unspents u)))
      (mkSel u have dust)
  /\ optimization_unspents (mkSel u have dust) = [].
Proof.
  intros Hpool (Hused & Hopt & Hut & Hic).
  pose proof (create_have_coins_spec block_height block_time confirmed_height u) as H.
  destruct (create_have_coins block_height block_time confirmed_height u)
    as [[have dust] md].
  destruct H as (H1 & H2 & H3 & H4 & H5 & H6 & H7 & H8).
  assert (Hh : Forall (fun un => pool_ok (m_currency u) un
                                 /\ is_dust (m_currency u) (api.amount un) = false)
                      (have_list have)).
  { eapply Permutation_Forall; [apply Permutation_sym, H7|].
    unfold have_pool. eapply Forall_impl; [|apply Forall_filter_in, Hpool].
    cbv beta. intros un [Hok Hf]. split; [exact Hok|].
    apply andb_prop in Hf as [_ Hf]. now apply negb_true_iff in Hf. }
  assert (Hd : Forall (fun un => pool_ok (m_currency u) un
                                 /\ is_dust (m_currency u) (api.amount un) = true)
                      (dust_list dust)).
  { eapply Permutation_Forall; [apply Permutation_sym, H8|].
    unfold dust_pool. eapply Forall_impl; [|apply Forall_filter_in, Hpool].
    cbv beta. intros un [Hok Hf]. split; [exact Hok|].
    now apply andb_prop in Hf as [_ Hf]. }
  split; [|exact Hopt].
  split; [now split|]. split; [now split|].
  unfold books, amounts_ok, accounted, acct, positive_ok, frame,
    optimization_unspents, used_total, inputs_count.
  cbn [this have_coins dust_coins]. rewrite Hopt, Hut, Hic.
  cbn [filter sum_amounts fold_right length]. rewrite !app_nil_r.
  split; [|split; [|split]].
  - split; [|split; [|constructor]].
    + eapply Forall_impl; [|exact Hh]. cbv beta. unfold nonneg, pool_ok.
      intros un [[[Hr _] _] _]. exact Hr.
    + eapply Forall_impl; [|exact Hd]. cbv beta. unfold nonneg, pool_ok.
      intros un [[[Hr _] _] _]. exact Hr.
  - split; [|split; [|split; [exact H7|split; [exact H8|split; reflexivity]]]].
    + apply have_all_and; [exact H5|]. apply have_all_list.
      eapply Forall_impl; [|exact Hh]. cbv beta. unfold pool_ok.
      intros un [(_ & Hfl & _) Hnd]. congruence.
    + apply stacks_all_and; [exact H6|]. apply stacks_all_list.
      eapply Forall_impl; [|exact Hd]. cbv beta. unfold pool_ok.
      intros un [(_ & Hfl & _) Hnd]. congruence.
  - split; [|split; [constructor | intros _; constructor]].
    apply have_all_list.
    eapply Forall_impl; [|exact Hh]. cbv beta. unfold pool_ok.
    intros un [(_ & Hfl & Hpos) Hnd]. apply Hpos. congruence.
  - repeat split; reflexivity.
Qed.

(* ================================================================== *)
(** * No pop on an empty stack *)

Section Safety.
Context {tools : VarNoteTools}.
Variables (block_height block_time confirmed_height : Z).
Variables (effective_median_size anonymity total_amount total_outputs : Z).
Variables (fee_per_byte : Z) (optimization_level : string).

Lemma select_optimal_outputs_amounts (fuel : nat) (u : UnspentSelector) :
  Forall nonneg (m_unspents u) ->
  Forall nonneg (m_optimization_unspents u) ->
  res_ok_fuel True (fun _ => True)
    (select_optimal_outputs block_height block_time confirmed_height
       effective_median_size anonymity total_amount total_outputs fee_per_byte
       optimization_level fuel u).
Proof.
  intros Hpool Hopt. unfold select_optimal_outputs.
  pose proof (initial_amounts block_height block_time confirmed_height u
                Hpool Hopt) as Hinit.
  destruct (create_have_coins block_height block_time confirmed_height u)
    as [[have dust] md].
  pose proof (select_loop_keeps effective_median_size anonymity total_amount
                total_outputs fee_per_byte optimization_level amounts_ok True
                (inner_keeps_amounts anonymity) unoptimize_keeps_amounts
                dust_keeps_amounts fuel md (minimum_fee (m_currency u))
                (initial_optimizations optimization_level)
                (mkSel u have dust) Hinit) as Hloop.
  destruct (select_loop _ _ _ _ _ _ _ _ _ _ _) as [[[st ch] s']| |f|];
    cbn [bind res_ok_fuel] in *; auto.
Qed.

Lemma select_optimal_outputs_books (fuel : nat) (u : UnspentSelector) :
  Forall (pool_ok (m_currency u)) (m_unspents u) ->
  fresh u ->
  default_dust_threshold (m_currency u) <> 0 ->
  res_ok_fuel False (fun _ => True)
    (select_optimal_outputs block_height block_time confirmed_height
       effective_median_size anonymity total_amount total_outputs fee_per_byte
       optimization_level fuel u).
Proof.
  intros Hpool Hfresh Hdust. unfold select_optimal_outputs.
  pose proof (initial_books block_height block_time confirmed_height anonymity u
                Hpool Hfresh) as Hinit.
  destruct (create_have_coins block_height block_time confirmed_height u)
    as [[have dust] md].
  pose proof (select_loop_keeps effective_median_size anonymity total_amount
                total_outputs fee_per_byte optimization_level _ False
                (inner_keeps_books anonymity u _ _)
                (unoptimize_keeps_books anonymity u _ _)
                (fun s => dust_keeps_books anonymity u _ _ s Hdust)
                fuel md (minimum_fee (m_currency u))
                (initial_optimizations optimization_level)
                (mkSel u have dust) (proj1 Hinit)) as Hloop.
  destruct (select_loop _ _ _ _ _ _ _ _ _ _ _) as [[[st ch] s']| |f|];
    cbn [bind res_ok_fuel] in *; auto.
Qed.

(** C10.  During a selection no [back()] or [pop_back()] acts on an empty
    stack and no iterator is used after its entry was erased: the loop that
    compacts the stacks only takes from a stack of more than
    [STACK_OPTIMIZATION_THRESHOLD] coins, and the two pops of a pair, also
    of a pair that is twice the same stack, find their stacks in the map.
    The only steps outside the defined behaviour that a selection can reach
    are [--end()] on the empty dust map, which it cannot reach from a pool
    whose flags [dust] agree with [Currency::is_dust] and whose coins that
    are not dust have an amount that is not zero, and the remainder by a
    dust threshold that is zero. *)
Theorem selection_never_pops_empty_stack (fuel : nat) (u : UnspentSelector) :
  Forall nonneg (m_unspents u) ->
  Forall nonneg (m_optimization_unspents u) ->
  let run :=
    select_optimal_outputs block_height block_time confirmed_height
      effective_median_size anonymity total_amount total_outputs fee_per_byte
      optimization_level fuel u in
  run <> Undefined BackOfEmptyVector
  /\ run <> Undefined ErasedIterator
  /\ run <> Undefined IndexOutOfRange
  /\ (forall msg, run <> Throw msg)
  /\ (Forall (pool_ok (m_currency u)) (m_unspents u) -> fresh u ->
      default_dust_threshold (m_currency u) <> 0 ->
      forall f, run <> Undefined f).
Proof.
  intros Hpool Hopt run.
  pose proof (select_optimal_outputs_amounts fuel u Hpool Hopt) as H.
  fold run in H.
  split; [intros E; rewrite E in H; exact H|].
  split; [intros E; rewrite E in H; exact H|].
  split; [intros E; rewrite E in H; exact H|].
  split; [intros msg E; rewrite E in H; exact H|].
  intros Hok Hfresh Hdust f E.
  pose proof (select_optimal_outputs_books fuel u Hok Hfresh Hdust) as H'.
  fold run in H'. rewrite E in H'. destruct f; exact H'.
Qed.

End Safety.

(* ================================================================== *)
(** * The sums of the books *)

Lemma filter_not_dust_all (l : list api.Output) :
  Forall (fun un => api.dust un = false) l ->
  filter not_dust l = l /\ filter api.dust l = [].
Proof.
  induction 1 as [|un l Hun _ [IH1 IH2]]; cbn [filter]; [now split|].
  unfold not_dust at 1. rewrite Hun. cbn [negb]. now rewrite IH1, IH2.
Qed.

Lemma sum_amounts_cons (un : api.Output) (l : list api.Output) :
  sum_amounts (un :: l) = api.amount un + sum_amounts l.
Proof. reflexivity. Qed.

Lemma sum_amounts_pools (currency : Currency)
    (block_height block_time confirmed_height : Z) (pool : list api.Output) :
  Forall nonneg pool ->
  0 <= sum_amounts (have_pool currency block_height block_time confirmed_height pool)
  /\ 0 <= sum_amounts (dust_pool currency block_height block_time confirmed_height pool)
  /\ sum_amounts (have_pool currency block_height block_time confirmed_height pool)
     + sum_amounts (dust_pool currency block_height block_time confirmed_height pool)
     <= sum_amounts pool.
Proof.
  unfold have_pool, dust_pool.
  induction 1 as [|un l Hun _ IH]; cbn [filter]; [cbn; lia|].
  unfold nonneg in Hun.
  destruct (spendable currency block_height block_time confirmed_height un);
    cbn [andb]; [|rewrite sum_amounts_cons; lia].
  destruct (is_dust currency (api.amount un)); cbn [negb];
    rewrite !sum_amounts_cons; lia.
Qed.

Section Sums.
Variables (anonymity : Z) (u0 : UnspentSelector) (H0 D0 : list api.Output).

Hypothesis U0_zero : m_used_total u0 = 0.
Hypothesis H0_nonneg : 0 <= sum_amounts H0.
Hypothesis D0_nonneg : 0 <= sum_amounts D0.
Hypothesis no_overflow : sum_amounts H0 + sum_amounts D0 < 2 ^ 64.

(** The amount that a selection may use. *)
Let usable : Z := sum_amounts H0 + (if anonymity =? 0 then sum_amounts D0 else 0).

Lemma books_sums (s : Sel) :
  books anonymity u0 H0 D0 s ->
  used_total s = sum_amounts (optimization_unspents s)
  /\ 0 <= used_total s <= usable
  /\ (have_coins s = [] -> (anonymity <> 0 \/ dust_coins s = []) ->
      usable <= used_total s).
Proof.
  intros ((Hah & Had & Hao) & (_ & _ & Hph & Hpd & Hu & _) & (_ & _ & Hnd) & _).
  apply sum_amounts_perm in Hph, Hpd. rewrite sum_amounts_app in Hph, Hpd.
  apply sum_amounts_nonneg in Hah, Had.
  pose proof (sum_amounts_filter (optimization_unspents s)) as Hsplit.
  assert (Hf1 : 0 <= sum_amounts (filter not_dust (optimization_unspents s))).
  { apply sum_amounts_nonneg. rewrite Forall_forall in *.
    intros un Hin. apply filter_In in Hin. now apply Hao. }
  assert (Hf2 : 0 <= sum_amounts (filter api.dust (optimization_unspents s))).
  { apply sum_amounts_nonneg. rewrite Forall_forall in *.
    intros un Hin. apply filter_In in Hin. now apply Hao. }
  rewrite U0_zero, Z.add_0_l in Hu.
  rewrite u64_small in Hu by lia.
  split; [exact Hu|]. unfold usable.
  destruct (Z.eqb_spec anonymity 0) as [Han|Han].
  - split; [lia|]. intros Hhave [Hc|Hdust]; [contradiction|].
    rewrite Hhave in Hph. rewrite Hdust in Hpd. cbn in Hph, Hpd. lia.
  - destruct (filter_not_dust_all _ (Hnd Han)) as [E1 E2].
    rewrite E2 in *. cbn [sum_amounts fold_right] in *.
    split; [lia|]. intros Hhave _. rewrite Hhave in Hph. cbn in Hph. lia.
Qed.

(** The picks of [optimize_amounts] come after those that were made. *)
Lemma optimize_amounts_grows (max_digit : nat) (total : Z) (s s' : Sel) :
  sorted_ok s -> nonempty_ok s ->
  optimize_amounts max_digit total s = Ok s' ->
  exists extra, optimization_unspents s' = optimization_unspents s ++ extra.
Proof.
  intros Hs Hne Ho.
  pose proof (optimize_amounts_keeps
                (fun t => exists extra,
                     optimization_unspents t = optimization_unspents s ++ extra)
                True) as Hk.
  specialize (Hk ltac:(
    intros d k t t' Ht [extra He] Htake;
    destruct (take_have_effect _ _ _ _ Ht Htake) as (un & Hthis & _);
    exists (extra ++ [un]); unfold optimization_unspents in *;
    rewrite Hthis, optimization_unspents_use, He; now rewrite app_assoc)).
  specialize (Hk max_digit total s).
  assert (Hinv : inv (fun t => exists extra,
                   optimization_unspents t = optimization_unspents s ++ extra) s).
  { split; [exact Hs|]. split; [exact Hne|]. exists []. now rewrite app_nil_r. }
  specialize (Hk Hinv). rewrite Ho in Hk. exact (proj2 (proj2 Hk)).
Qed.

(** The private [select_optimal_outputs] returns [true] exactly when the
    usable coins cover the amount, and then the coins it has picked cover
    it. *)
Lemma inner_covers (max_digit : nat) (total : Z) (count : nat) (s : Sel) :
  inv (books anonymity u0 H0 D0) s ->
  exists ok s_in,
    select_optimal_outputs_inner max_digit total anonymity count s = Ok (ok, s_in)
    /\ inv (books anonymity u0 H0 D0) s_in
    /\ (ok = true <-> total <= usable)
    /\ (ok = true -> total <= used_total s_in).
Proof.
  intros Hinv.
  pose proof (inner_keeps_books anonymity u0 H0 D0 max_digit total count s Hinv)
    as Hk.
  destruct (select_optimal_outputs_inner max_digit total anonymity count s)
    as [[ok s_in]| |f|]; cbn [res_ok] in Hk; try contradiction;
    [|destruct f; contradiction].
  destruct Hk as (Hinv' & Htrue & Hfalse). cbn [fst snd] in *.
  exists ok, s_in. split; [reflexivity|]. split; [exact Hinv'|].
  destruct (books_sums s_in (proj2 (proj2 Hinv'))) as (Hu & Hrange & Hall).
  destruct ok.
  - destruct (Htrue eq_refl) as (s_mid & Hmid & Hle & Hcase).
    destruct (books_sums s_mid (proj2 (proj2 Hmid))) as (Hu' & Hrange' & _).
    split; [split; [intros _; lia | reflexivity]|]. intros _.
    destruct Hcase as [->|Ho]; [exact Hle|].
    destruct (optimize_amounts_grows _ _ _ _ (proj1 Hmid) (proj1 (proj2 Hmid)) Ho)
      as [extra He].
    rewrite Hu, He, sum_amounts_app, <- Hu'.
    assert (0 <= sum_amounts extra); [|lia].
    apply sum_amounts_nonneg.
    destruct Hinv' as (_ & _ & ((_ & _ & Hao) & _)).
    rewrite He in Hao. now apply Forall_app in Hao.
  - destruct (Hfalse eq_refl) as (Hhave & Hcase & Hlt).
    specialize (Hall Hhave Hcase).
    split; [split; [discriminate | intros; lia] | discriminate].
Qed.

End Sums.

(* ------------------------------------------------------------------ *)
(** ** The number of inputs *)

Lemma length_filter_dust (l : list api.Output) :
  length l = (length (filter not_dust l) + length (filter api.dust l))%nat.
Proof.
  induction l as [|un l IH]; cbn [filter length]; [reflexivity|].
  unfold not_dust at 1.
  destruct (api.dust un); cbn [negb length]; lia.
Qed.


(** The selection counts at most the coins that it may use. *)
Lemma books_inputs_count (anonymity : Z) (u0 : UnspentSelector)
    (H0 D0 : list api.Output) (s : Sel) :
  m_inputs_count u0 = 0 ->
  books anonymity u0 H0 D0 s ->
  0 <= inputs_count s <= Z.of_nat (length H0 + length D0).
Proof.
  intros Hc (_ & (_ & _ & Hph & Hpd & _ & Hi) & _ & _).
  apply Permutation_length in Hph, Hpd. rewrite length_app in Hph, Hpd.
  pose proof (length_filter_dust (optimization_unspents s)) as Hl.
  rewrite Hi, Hc, Z.add_0_l.
  pose proof (u64_range (Z.of_nat (length (optimization_unspents s)))) as Hr.
  assert (Hle : u64 (Z.of_nat (length (optimization_unspents s)))
                <= Z.of_nat (length (optimization_unspents s))).
  { unfold u64. apply Z.mod_le; lia. }
  lia.
Qed.

(* ================================================================== *)
(** * The turns of the loop *)

Section Selection.
Context {tools : VarNoteTools}.
Variables (block_height block_time confirmed_height : Z).
Variables (effective_median_size anonymity total_amount total_outputs : Z).
Variables (fee_per_byte : Z) (optimization_level : string).

Local Abbreviation run :=
  (select_optimal_outputs block_height block_time confirmed_height
     effective_median_size anonymity total_amount total_outputs fee_per_byte
     optimization_level).
Local Abbreviation turn :=
  (select_turn effective_median_size anonymity total_amount total_outputs
     fee_per_byte optimization_level).
Local Abbreviation loop :=
  (select_loop effective_median_size anonymity total_amount total_outputs
     fee_per_byte optimization_level).
Local Abbreviation reaches :=
  (turns effective_median_size anonymity total_amount total_outputs
     fee_per_byte optimization_level).

(** The five ways of a turn. *)
Lemma select_turn_inv (max_digits : nat) (fee : Z) (optimizations : nat)
    (s : Sel) (t : Turn) (s' : Sel) :
  turn max_digits fee optimizations s = Ok (t, s') ->
  exists ok s_in,
    select_optimal_outputs_inner max_digits (u64 (total_amount + fee)) anonymity
                                 optimizations s = Ok (ok, s_in)
    /\ let cdf := change_dust_fee_of (m_currency (this s)) total_amount fee s_in in
       let tx := tx_size_of anonymity total_outputs s_in in
       let median := optimization_median effective_median_size optimization_level in
       let size_fee := u64 (fee_per_byte * tx) in
       (ok = false /\ t = Return "NOT_ENOUGH_FUNDS" None /\ s' = s_in)
       \/ (ok = true /\ median < tx /\ (0 < optimizations)%nat
           /\ t = Continue fee (halve_optimizations optimizations)
           /\ s' = unoptimize_amounts s_in)
       \/ (ok = true /\ ~ (median < tx /\ (0 < optimizations)%nat)
           /\ effective_median_size < tx
           /\ t = Return "TRANSACTION_DOES_NOT_FIT_IN_BLOCK" None /\ s' = s_in)
       \/ (ok = true /\ ~ (median < tx /\ (0 < optimizations)%nat)
           /\ tx <= effective_median_size
           /\ size_fee <= u64 (fee + cdf)
           /\ t = Return "" (Some (u64 (used_total s_in - total_amount - fee - cdf)))
           /\ s' = mkSel (combine_optimized_unspents (this s_in))
                         (have_coins s_in) (dust_coins s_in))
       \/ (ok = true /\ ~ (median < tx /\ (0 < optimizations)%nat)
           /\ tx <= effective_median_size
           /\ u64 (fee + cdf) < size_fee
           /\ t = Continue
                    (next_fee size_fee cdf
                       (default_dust_threshold (m_currency (this s))))
                    optimizations
           /\ s' = unoptimize_amounts s_in).
Proof.
  unfold select_turn.
  destruct (select_optimal_outputs_inner max_digits (u64 (total_amount + fee))
              anonymity optimizations s) as [[ok s_in]| |f|]; cbn [bind];
    try discriminate.
  intros H. exists ok, s_in. split; [reflexivity|]. cbv zeta.
  unfold change_dust_fee_of, tx_size_of, next_fee.
  destruct ok; cbn [negb] in H.
  2: { injection H as <- <-. left. auto. }
  right.
  destruct (default_dust_threshold (m_currency (this s)) =? 0);
    [discriminate|].
  set (tx := get_maximum_tx_size (inputs_count s_in) (u64 (total_outputs + 8))
                                 anonymity) in *.
  set (median := optimization_median effective_median_size optimization_level)
    in *.
  destruct ((median <? tx) && (0 <? optimizations)%nat) eqn:Ec.
  - injection H as <- <-. left.
    apply andb_prop in Ec as [E1 E2].
    apply Z.ltb_lt in E1. apply Nat.ltb_lt in E2. auto.
  - right.
    assert (Hnot : ~ (median < tx /\ (0 < optimizations)%nat)).
    { intros [A B]. apply Z.ltb_lt in A. apply Nat.ltb_lt in B.
      rewrite A, B in Ec. discriminate. }
    destruct (Z.ltb_spec effective_median_size tx) as [He|He].
    + left. injection H as <- <-. auto.
    + right.
      match type of H with
      | (if ?a <=? ?b then _ else _) = _ =>
          destruct (Z.leb_spec a b) as [Hf|Hf]
      end; injection H as <- <-; [left | right]; auto 10.
Qed.



(** What holds at the start of every turn of a run on a well-formed
    pool. *)
Lemma run_reaches (u : UnspentSelector) (fee : Z) (optimizations : nat)
    (s_k : Sel) (status : string) (change : option Z) (s_fin : Sel) :
  Forall (pool_ok (m_currency u)) (m_unspents u) -> fresh u ->
  returns_at block_height block_time confirmed_height effective_median_size
    anonymity total_amount total_outputs fee_per_byte optimization_level
    u fee optimizations s_k status change s_fin ->
  inv (books anonymity u
         (have_pool (m_currency u) block_height block_time confirmed_height
                    (m_unspents u))
         (dust_pool (m_currency u) block_height block_time confirmed_height
                    (m_unspents u))) s_k.
Proof.
  intros Hpool Hfresh. unfold returns_at.
  pose proof (initial_books block_height block_time confirmed_height anonymity u
                Hpool Hfresh) as Hinit.
  destruct (create_have_coins block_height block_time confirmed_height u)
    as [[have dust] md].
  intros [Hturns _].
  pose proof (turns_keep effective_median_size anonymity total_amount
                total_outputs fee_per_byte optimization_level _ False
                (inner_keeps_books anonymity u _ _)
                (unoptimize_keeps_books anonymity u _ _) md _ _ Hturns Hinit)
    as [H _].
  exact H.
Qed.

Lemma run_returns_at (fuel : nat) (u u' : UnspentSelector) (status : string)
    (change : option Z) :
  run fuel u = Ok (status, change, u') ->
  exists fee optimizations s_k s_fin,
    returns_at block_height block_time confirmed_height effective_median_size
      anonymity total_amount total_outputs fee_per_byte optimization_level
      u fee optimizations s_k status change s_fin
    /\ u' = this s_fin.
Proof.
  unfold select_optimal_outputs, returns_at.
  destruct (create_have_coins block_height block_time confirmed_height u)
    as [[have dust] md].
  destruct (loop fuel md (minimum_fee (m_currency u))
              (initial_optimizations optimization_level) (mkSel u have dust))
    as [[[st ch] s']| |f|] eqn:El; cbn [bind]; try discriminate.
  intros [= <- <- <-].
  destruct (select_loop_returns _ _ _ _ _ _ _ _ _ _ _ _ _ _ El)
    as (fee & o & s_k & Ht & Hr).
  exists fee, o, s_k, s'. auto.
Qed.

Lemma turns_fee_range (max_digits : nat) (x y : Z * nat * Sel) :
  reaches max_digits x y ->
  0 <= fst (fst x) < 2 ^ 64 -> 0 <= fst (fst y) < 2 ^ 64.
Proof.
  induction 1 as [x|fee o s fee' o' s' y Hturn _ IH]; [auto|].
  cbn [fst]. intros Hfee. apply IH. cbn [fst].
  destruct (select_turn_inv _ _ _ _ _ _ Hturn) as (ok & s_in & _ & Hcases).
  cbv zeta in Hcases.
  destruct Hcases as [(_ & E & _)|[(_ & _ & _ & E & _)|[(_ & _ & _ & E & _)
    |[(_ & _ & _ & _ & E & _)|(_ & _ & _ & _ & E & _)]]]];
    try discriminate; injection E as -> ->; [exact Hfee|].
  unfold next_fee. apply u64_range.
Qed.

Lemma returns_at_turn (u : UnspentSelector) (fee : Z) (optimizations : nat)
    (s_k : Sel) (status : string) (change : option Z) (s_fin : Sel) :
  returns_at block_height block_time confirmed_height effective_median_size
    anonymity total_amount total_outputs fee_per_byte optimization_level
    u fee optimizations s_k status change s_fin ->
  exists have dust max_digits,
    create_have_coins block_height block_time confirmed_height u
    = (have, dust, max_digits)
    /\ reaches max_digits
         (minimum_fee (m_currency u), initial_optimizations optimization_level,
          mkSel u have dust)
         (fee, optimizations, s_k)
    /\ turn max_digits fee optimizations s_k = Ok (Return status change, s_fin).
Proof.
  unfold returns_at.
  destruct (create_have_coins block_height block_time confirmed_height u)
    as [[have dust] md].
  intros [H1 H2]. now exists have, dust, md.
Qed.

Lemma pool_sums (u : UnspentSelector) :
  Forall (pool_ok (m_currency u)) (m_unspents u) ->
  sum_amounts (m_unspents u) < 2 ^ 64 ->
  0 <= sum_amounts (have_pool (m_currency u) block_height block_time
                              confirmed_height (m_unspents u))
  /\ 0 <= sum_amounts (dust_pool (m_currency u) block_height block_time
                                 confirmed_height (m_unspents u))
  /\ sum_amounts (have_pool (m_currency u) block_height block_time
                            confirmed_height (m_unspents u))
     + sum_amounts (dust_pool (m_currency u) block_height block_time
                              confirmed_height (m_unspents u)) < 2 ^ 64.
Proof.
  intros Hpool Hsum.
  assert (Hnn : Forall nonneg (m_unspents u)).
  { eapply Forall_impl; [|exact Hpool]. unfold pool_ok, nonneg. tauto. }
  destruct (sum_amounts_pools (m_currency u) block_height block_time
              confirmed_height _ Hnn) as (H1 & H2 & H3).
  split; [exact H1|]. split; [exact H2 | lia].
Qed.






(** C1, as the code has it.  For every call of [select_optimal_outputs] on
    a selector that the constructor or [reset] left, with a well-formed
    pool whose amounts sum to less than 2^64, that returns the OK status
    (the empty string): [used_total] is the sum of the amounts of the
    selected unspents.  When [total_amount + fee], with the fee of the turn
    that returned, is below 2^64, [used_total] is at least
    [total_amount + fee] and the value written through [change] is
    [used_total - total_amount - fee - change_dust_fee], where
    [change_dust_fee] is [(used_total - total_amount - fee) mod
    default_dust_threshold].  The source does not check that sum: in
    general [used_total] is at least [(total_amount + fee) mod 2^64] and
    the change is the same expression in 64-bit arithmetic.  The fee is a
    64-bit value. *)
Theorem select_optimal_outputs_change (fuel : nat) (u u' : UnspentSelector)
    (change : option Z) :
  Forall (pool_ok (m_currency u)) (m_unspents u) ->
  fresh u ->
  sum_amounts (m_unspents u) < 2 ^ 64 ->
  0 < default_dust_threshold (m_currency u) ->
  0 <= minimum_fee (m_currency u) < 2 ^ 64 ->
  0 <= total_amount ->
  run fuel u = Ok ("", change, u') ->
  exists fee optimizations s_k s_fin,
    returns_at block_height block_time confirmed_height effective_median_size
      anonymity total_amount total_outputs fee_per_byte optimization_level
      u fee optimizations s_k "" change s_fin
    /\ u' = this s_fin
    /\ 0 <= fee < 2 ^ 64
    /\ let used := m_used_total u' in
       let dust := default_dust_threshold (m_currency u) in
       used = sum_amounts (m_used_unspents u')
       /\ u64 (total_amount + fee) <= used
       /\ change
          = Some (u64 (used - total_amount - fee
                       - u64 (used - total_amount - fee) mod dust))
       /\ (total_amount + fee < 2 ^ 64 ->
           total_amount + fee <= used
           /\ change
              = Some (used - total_amount - fee
                      - (used - total_amount - fee) mod dust)).
Proof.
  intros Hpool Hfresh Hsum Hdust Hminfee Htotal Hrun.
  destruct (run_returns_at _ _ _ _ _ Hrun) as (fee & o & s_k & s_fin & Hret & ->).
  exists fee, o, s_k, s_fin. split; [exact Hret|]. split; [reflexivity|].
  pose proof (run_reaches _ _ _ _ _ _ _ Hpool Hfresh Hret) as Hinv.
  destruct (returns_at_turn _ _ _ _ _ _ _ Hret)
    as (have & dust & md & _ & Hreach & Hturn).
  pose proof (turns_fee_range _ _ _ Hreach Hminfee) as Hfee. cbn [fst] in Hfee.
  split; [exact Hfee|].
  destruct (pool_sums u Hpool Hsum) as (Hh0 & Hd0 & Hno).
  destruct Hfresh as (Hused & Hopt & Hut & Hic).
  destruct (select_turn_inv _ _ _ _ _ _ Hturn) as (ok & s_in & Hinner & Hcases).
  destruct (inner_covers anonymity u _ _ Hut Hno md
              (u64 (total_amount + fee)) o s_k Hinv)
    as (ok' & s_in' & Hinner' & Hinv_in & _ & Hcov).
  rewrite Hinner in Hinner'. injection Hinner' as <- <-.
  destruct (books_sums anonymity u _ _ Hut Hno s_in
              (proj2 (proj2 Hinv_in))) as (Hsum_in & Hrange & _).
  assert (Hcur : m_currency (this s_k) = m_currency u).
  { destruct Hinv as (_ & _ & (_ & _ & _ & (Hc & _))). exact Hc. }
  assert (Hused_in : m_used_unspents (this s_in) = []).
  { destruct Hinv_in as (_ & _ & (_ & _ & _ & (_ & _ & Hu & _))).
    now rewrite Hu. }
  cbv zeta in Hcases. rewrite Hcur in Hcases.
  destruct Hcases as [(_ & E & _)|[(_ & _ & _ & E & _)|[(_ & _ & _ & E & _)
    |[(Hok & _ & _ & _ & E & Hfin)|(_ & _ & _ & _ & E & _)]]]];
    try discriminate.
  injection E as ->. subst s_fin. cbv zeta.
  cbn [this combine_optimized_unspents m_used_total m_used_unspents].
  fold (used_total s_in). rewrite Hused_in. cbn [app].
  specialize (Hcov Hok).
  split; [exact Hsum_in|]. split; [exact Hcov|].
  split; [reflexivity|].
  intros Hwrap.
  rewrite u64_small in Hcov by lia.
  split; [exact Hcov|].
  unfold change_dust_fee_of.
  assert (Husable : sum_amounts (have_pool (m_currency u) block_height block_time
                                   confirmed_height (m_unspents u))
                    + (if anonymity =? 0
                       then sum_amounts (dust_pool (m_currency u) block_height
                                           block_time confirmed_height (m_unspents u))
                       else 0) < 2 ^ 64)
    by (destruct (anonymity =? 0); lia).
  rewrite (u64_small (used_total s_in - total_amount - fee)) by lia.
  pose proof (Z.mod_pos_bound (used_total s_in - total_amount - fee)
                (default_dust_threshold (m_currency u)) Hdust) as Hmod.
  pose proof (Z.mod_le (used_total s_in - total_amount - fee)
                (default_dust_threshold (m_currency u)) ltac:(lia) Hdust) as Hle.
  rewrite u64_small by lia. reflexivity.
Qed.

End Selection.
(* ================================================================== *)
(** * The selection: examples *)

Lemma selection_pool_ok :
  Forall (pool_ok (m_currency selection_example)) (m_unspents selection_example).
Proof.
  repeat constructor; try (vm_compute; reflexivity);
    try (vm_compute; discriminate); intros; vm_compute; reflexivity.
Qed.

Lemma selection_example_fresh : fresh selection_example.
Proof. repeat split. Qed.

(** The payment of 700 from the wallet of the example: the third turn
    returns with the two coins 1000 and 500, the fee 640 and the change
    160. *)
Lemma select_optimal_outputs_change_witness :
  let u := selection_example in
  let u' := selection_example_result in
  let change := Some 160 in
  selection_example_run 100000 5 = Ok ("", change, u')
  /\ exists fee optimizations s_k s_fin,
       @returns_at toy_tools 0 0 100 100000 0 700 1 1 ""
         u fee optimizations s_k "" change s_fin
       /\ u' = this s_fin
       /\ 0 <= fee < 2 ^ 64
       /\ let used := m_used_total u' in
          let dust := default_dust_threshold (m_currency u) in
          used = sum_amounts (m_used_unspents u')
          /\ u64 (700 + fee) <= used
          /\ change
             = Some (u64 (used - 700 - fee - u64 (used - 700 - fee) mod dust))
          /\ (700 + fee < 2 ^ 64 ->
              700 + fee <= used
              /\ change
                 = Some (used - 700 - fee - (used - 700 - fee) mod dust)).
Proof.
  cbv zeta.
  assert (Hrun : selection_example_run 100000 5
                 = Ok ("", Some 160, selection_example_result))
    by (vm_compute; reflexivity).
  split; [exact Hrun|].
  apply (@select_optimal_outputs_change toy_tools 0 0 100 100000 0 700 1 1 ""
           5 selection_example selection_example_result (Some 160)).
  - exact selection_pool_ok.
  - exact selection_example_fresh.
  - vm_compute. reflexivity.
  - vm_compute. reflexivity.
  - vm_compute. split; [discriminate | reflexivity].
  - lia.
  - exact Hrun.
Defined.

(** The sum [total_amount + fee] of the test [m_used_total >= total_amount
    + fee] is not checked for a wrap.  For the payment of 2^64 - 5 the
    wallet of the example, which holds 1507 in well-formed coins, gets the
    OK status with the coins 7 and 1000 selected and the change 370: what
    it selected is less than the amount, whatever the fee. *)
Lemma select_optimal_outputs_sum_wraps :
  let total_amount := 2 ^ 64 - 5 in
  let u := selection_example in
  Forall (pool_ok (m_currency u)) (m_unspents u)
  /\ fresh u
  /\ sum_amounts (m_unspents u) = 1507
  /\ 0 < default_dust_threshold (m_currency u)
  /\ exists u',
       @select_optimal_outputs toy_tools 0 0 100 100000 0 total_amount 1 1 ""
                               5 u
       = Ok ("", Some 370, u')
       /\ m_used_total u' = 1007
       /\ map api.amount (m_used_unspents u') = [7; 1000]
       /\ forall fee, 0 <= fee -> ~ total_amount + fee <= m_used_total u'.
Proof.
  cbv zeta.
  split; [exact selection_pool_ok|].
  split; [exact selection_example_fresh|].
  split; [vm_compute; reflexivity|].
  split; [vm_compute; reflexivity|].
  eexists. split; [vm_compute; reflexivity|].
  split; [reflexivity|]. split; [reflexivity|].
  intros fee Hfee. cbn [m_used_total]. lia.
Qed.

(** A selector that is not reset keeps what it selected, and the next call
    draws on the whole pool again: after the payment of 700, a payment of
    2000 from the same wallet of 1507 gets the OK status, with the coins of
    1000 and of 500 selected twice. *)
Lemma select_optimal_outputs_without_reset :
  let u1 := selection_example_result in
  map api.amount (m_used_unspents u1) = [500; 1000]
  /\ sum_amounts (m_unspents u1) = 1507
  /\ exists u2,
       @select_optimal_outputs toy_tools 0 0 100 100000 0 2000 1 1 "" 5 u1
       = Ok ("", Some 180, u2)
       /\ m_used_total u2 = 3000
       /\ map api.amount (m_used_unspents u2) = [500; 1000; 500; 1000].
Proof.
  cbv zeta.
  split; [vm_compute; reflexivity|].
  split; [vm_compute; reflexivity|].
  eexists. split; [vm_compute; reflexivity|].
  split; reflexivity.
Qed.



(** The selection of the fourth scenario, a coin of 3 and twenty coins of
    7 for the amount 100, stays within the defined behaviour. *)
Lemma selection_never_pops_empty_stack_witness :
  let run :=
    @select_optimal_outputs toy_tools 0 0 100 100000 0 100 1 1 "" 5
      (UnspentSelector_new toy_currency rounding_pool) in
  run <> Undefined BackOfEmptyVector
  /\ run <> Undefined ErasedIterator
  /\ run <> Undefined IndexOutOfRange
  /\ (forall msg, run <> Throw msg)
  /\ forall f, run <> Undefined f.
Proof.
  cbv zeta.
  destruct (@selection_never_pops_empty_stack toy_tools 0 0 100 100000 0 100 1 1
              "" 5 (UnspentSelector_new toy_currency rounding_pool))
    as (H1 & H2 & H3 & H4 & H5).
  - apply Forall_forall. intros un Hin. unfold nonneg.
    cbn [m_unspents UnspentSelector_new] in Hin. unfold rounding_pool in Hin.
    cbn [In] in Hin. destruct Hin as [<-|Hin]; [cbn; lia|].
    apply in_map_iff in Hin. destruct Hin as (i & <- & _). cbn. lia.
  - constructor.
  - repeat split; try assumption.
    apply H5; [| repeat split | vm_compute; discriminate].
    apply Forall_forall. intros un Hin.
    cbn [m_unspents m_currency UnspentSelector_new] in *.
    unfold rounding_pool in Hin. cbn [In] in Hin.
    destruct Hin as [<-|Hin].
    + split; [cbn; lia|]. split; [reflexivity|]. intros _. cbn. lia.
    + apply in_map_iff in Hin. destruct Hin as (i & <- & _).
      split; [cbn; lia|]. split; [reflexivity|]. intros _. cbn. lia.
Defined.

(* ================================================================== *)
(** * The builder: outputs, rings and the shuffle *)

Lemma add_outputs_from (outs : list (Z * AccountPublicAddress))
    (b : TransactionBuilder) (idxs : list nat) :
  0 <= m_outputs_amount b < 2 ^ 64 ->
  let r := fold_left (fun acc out =>
                        let '(b', i) := add_output (fst out) (snd out) (fst acc) in
                        (b', snd acc ++ [i]))
                     outs (b, idxs) in
  snd r = idxs ++ seq (length (m_output_descs b)) (length outs)
  /\ m_output_descs (fst r)
     = m_output_descs b
       ++ map (fun out => OutputDesc.make (fst out) (snd out)) outs
  /\ m_outputs_amount (fst r)
     = u64 (m_outputs_amount b + sum_Z (map fst outs))
  /\ m_input_descs (fst r) = m_input_descs b
  /\ m_inputs_amount (fst r) = m_inputs_amount b
  /\ m_transaction (fst r) = m_transaction b
  /\ m_extra (fst r) = m_extra b.
Proof.
  revert b idxs.
  induction outs as [|[a to] outs IH]; intros b idxs Hb; cbn [fold_left].
  - cbn [fst snd length seq map sum_Z fold_right].
    rewrite !app_nil_r, Z.add_0_r, u64_small by exact Hb.
    repeat split.
  - cbn [fst snd]. destruct (add_output a to b) as [b1 i1] eqn:E.
    unfold add_output in E. cbv zeta in E. injection E as Eb Ei.
    assert (Hb1 : 0 <= m_outputs_amount b1 < 2 ^ 64)
      by (subst b1; apply u64_range).
    destruct (IH b1 (idxs ++ [i1]) Hb1) as (H1 & H2 & H3 & H4 & H5 & H6 & H7).
    cbv zeta. rewrite H1, H2, H3, H4, H5, H6, H7. subst b1 i1.
    cbn [m_output_descs m_outputs_amount m_input_descs m_inputs_amount
         m_transaction m_extra set_m_output_descs set_m_outputs_amount
         length map seq fst snd sum_Z fold_right].
    unfold push_back. rewrite length_app. cbn [length].
    replace (length (m_output_descs b) + 1 - 1)%nat
      with (length (m_output_descs b)) by lia.
    replace (length (m_output_descs b) + 1)%nat
      with (S (length (m_output_descs b))) by lia.
    rewrite <- !app_assoc. cbn [app].
    repeat split.
    fold (sum_Z (map fst outs)).
    unfold u64. rewrite Zplus_mod_idemp_l. f_equal. lia.
Qed.

(** X1.  A sequence of [add_output] calls returns the consecutive indexes
    that follow the outputs already pending, appends the outputs in the
    order of the calls, adds their amounts to the 64-bit [m_outputs_amount]
    in 64-bit arithmetic, and leaves the inputs, the transaction and the extra
    field as they were. *)
Theorem add_output_sequence (outs : list (Z * AccountPublicAddress))
    (b : TransactionBuilder) :
  0 <= m_outputs_amount b < 2 ^ 64 ->
  let r := add_outputs outs b in
  snd r = seq (length (m_output_descs b)) (length outs)
  /\ m_output_descs (fst r)
     = m_output_descs b
       ++ map (fun out => OutputDesc.make (fst out) (snd out)) outs
  /\ m_outputs_amount (fst r)
     = u64 (m_outputs_amount b + sum_Z (map fst outs))
  /\ m_input_descs (fst r) = m_input_descs b
  /\ m_inputs_amount (fst r) = m_inputs_amount b
  /\ m_transaction (fst r) = m_transaction b
  /\ m_extra (fst r) = m_extra b.
Proof.
  intros Hb r. unfold add_outputs in r.
  destruct (add_outputs_from outs b [] Hb) as (H1 & H2 & H3 & H4 & H5 & H6 & H7).
  fold r in H1, H2, H3, H4, H5, H6, H7.
  split; [exact H1|]. split; [exact H2|]. split; [exact H3|].
  split; [exact H4|]. split; [exact H5|]. split; [exact H6 | exact H7].
Qed.

Lemma nth_error_insert_at {A : Type} (i : nat) (x : A) (l : list A) :
  (i <= length l)%nat -> nth_error (insert_at i x l) i = Some x.
Proof.
  intros Hi. unfold insert_at.
  rewrite nth_error_app2 by (rewrite length_firstn; lia).
  rewrite length_firstn, Nat.min_l, Nat.sub_diag by exact Hi. reflexivity.
Qed.

Lemma lower_bound_le (l : list api.Output) (x : api.Output) :
  (lower_bound l x <= length l)%nat.
Proof.
  induction l as [|y l IH]; cbn [lower_bound length]; [lia|].
  destruct (APIOutputLessGlobalIndex y x); lia.
Qed.

(** The input that a returning [add_input] appended, and the builder
    around it. *)
Lemma add_input_appended `{Crypto} (sender_keys : AccountKeys)
    (real_output : api.Output) (mix_outputs : list api.Output)
    (b b' : TransactionBuilder) (idx : nat) :
  add_input sender_keys real_output mix_outputs b = (b', Ok idx) ->
  exists desc,
    m_input_descs b' = m_input_descs b ++ [desc]
    /\ idx = length (m_input_descs b)
    /\ nth_error (desc_outputs desc) (real_output_index desc) = Some real_output
    /\ length (desc_outputs desc) = S (length mix_outputs)
    /\ length (output_indexes (input desc)) = S (length mix_outputs)
    /\ Forall (fun o => api.amount o = api.amount real_output) (desc_outputs desc)
    /\ amount (input desc) = api.amount real_output
    /\ key_image (input desc) = api.key_image real_output
    /\ generate_key_image_helper sender_keys
         (api.transaction_public_key real_output)
         (api.index_in_transaction real_output)
       = Some (eph_keys desc, api.key_image real_output)
    /\ m_inputs_amount b' = u64 (m_inputs_amount b + api.amount real_output)
    /\ m_output_descs b' = m_output_descs b
    /\ m_outputs_amount b' = m_outputs_amount b
    /\ m_transaction b' = m_transaction b
    /\ m_extra b' = m_extra b.
Proof.
  unfold add_input.
  destruct (generate_key_image_helper sender_keys
              (api.transaction_public_key real_output)
              (api.index_in_transaction real_output)) as [[eph ki]|] eqn:Eh;
    [|discriminate].
  destruct (bytes_eqb ki (api.key_image real_output)) eqn:Eki; cbn [negb];
    [|discriminate].
  apply bytes_eqb_eq in Eki. subst ki.
  destruct (fill_output_indexes (api.amount real_output) _ []) as [absolute|]
    eqn:Ef; [|discriminate].
  apply fill_output_indexes_Some in Ef as [-> Hall]. cbn [app] in *.
  rewrite absolute_output_offsets_to_relative_eq.
  intros [= <- <-].
  eexists. split; [reflexivity|].
  cbn [m_input_descs set_m_input_descs set_m_inputs_amount desc_outputs input
       real_output_index eph_keys amount key_image output_indexes
       m_inputs_amount m_output_descs m_outputs_amount m_transaction m_extra].
  assert (Hlen : length (insert_at (lower_bound (sort_outputs mix_outputs) real_output)
                           real_output (sort_outputs mix_outputs))
                 = S (length mix_outputs)).
  { rewrite (Permutation_length (insert_at_perm _ _ _)). cbn [length].
    now rewrite (Permutation_length (sort_outputs_perm mix_outputs)). }
  split. { unfold push_back. rewrite length_app. cbn [length]. lia. }
  split. { apply nth_error_insert_at, lower_bound_le. }
  split; [exact Hlen|].
  split. { now rewrite length_map, length_seq, length_map. }
  split; [exact Hall|].
  repeat split.
Qed.

(** X2.  An [add_input] that returns has appended one input whose ring is
    made of the real output and all the mix outputs, each as often as it
    was given, in ascending order of [global_index], with the real output
    at [real_output_index] (ring size = mix size + 1) and every member of
    the amount of the real output; the input carries that amount, the key
    image recorded in the real output, which is the one derived with the
    ephemeral keys that are kept for the ring signature, and one offset per
    ring member, the relative form of the [global_index] values of the
    ring; the pending outputs and the transaction are untouched and
    [m_inputs_amount] has grown by the amount. *)
Theorem add_input_ring_members `{Crypto} (sender_keys : AccountKeys)
    (real_output : api.Output) (mix_outputs : list api.Output)
    (b b' : TransactionBuilder) (idx : nat) :
  add_input sender_keys real_output mix_outputs b = (b', Ok idx) ->
  exists desc,
    m_input_descs b' = m_input_descs b ++ [desc]
    /\ idx = length (m_input_descs b)
    /\ Permutation (desc_outputs desc) (real_output :: mix_outputs)
    /\ gi_sorted (desc_outputs desc)
    /\ nth_error (desc_outputs desc) (real_output_index desc) = Some real_output
    /\ length (desc_outputs desc) = S (length mix_outputs)
    /\ output_indexes (input desc)
       = map (rel_at (map api.global_index (desc_outputs desc)))
             (seq 0 (length (desc_outputs desc)))
    /\ length (output_indexes (input desc)) = S (length mix_outputs)
    /\ Forall (fun o => api.amount o = api.amount real_output) (desc_outputs desc)
    /\ amount (input desc) = api.amount real_output
    /\ key_image (input desc) = api.key_image real_output
    /\ generate_key_image_helper sender_keys
         (api.transaction_public_key real_output)
         (api.index_in_transaction real_output)
       = Some (eph_keys desc, api.key_image real_output)
    /\ m_inputs_amount b' = u64 (m_inputs_amount b + api.amount real_output)
    /\ m_output_descs b' = m_output_descs b
    /\ m_outputs_amount b' = m_outputs_amount b
    /\ m_transaction b' = m_transaction b
    /\ m_extra b' = m_extra b.
Proof.
  intros Hadd.
  destruct (add_input_appended sender_keys real_output mix_outputs b b' idx Hadd)
    as (desc & Hd1 & Hd2 & Hd3 & Hd4 & Hd5 & Hd6 & Hd7 & Hd8 & Hd9 & Hd10
        & Hd11 & Hd12 & Hd13 & Hd14).
  destruct (add_input_ring sender_keys real_output mix_outputs b b' idx Hadd)
    as (desc' & Hd1' & _ & Hperm & Hsorted & Hrel & _).
  rewrite Hd1 in Hd1'. apply app_inv_head in Hd1'. injection Hd1' as <-.
  exists desc.
  split; [exact Hd1|]. split; [exact Hd2|]. split; [exact Hperm|].
  split; [exact Hsorted|]. split; [exact Hd3|]. split; [exact Hd4|].
  split; [exact Hrel|]. split; [exact Hd5|]. split; [exact Hd6|].
  split; [exact Hd7|]. split; [exact Hd8|]. split; [exact Hd9|].
  split; [exact Hd10|]. split; [exact Hd11|]. split; [exact Hd12|].
  split; [exact Hd13 | exact Hd14].
Qed.

Lemma nth_error_set_nth {A : Type} (i : nat) (x : A) (l l' : list A) (n : nat) :
  set_nth i x l = Some l' ->
  nth_error l' n = if (n =? i)%nat then Some x else nth_error l n.
Proof.
  unfold set_nth. destruct (Nat.ltb_spec i (length l)) as [Hi|Hi]; [|discriminate].
  intros [= <-].
  destruct (Nat.eqb_spec n i) as [->|Hn].
  - rewrite nth_error_app2 by (rewrite length_firstn; lia).
    rewrite length_firstn, Nat.min_l, Nat.sub_diag by lia. reflexivity.
  - destruct (Nat.lt_ge_cases n i) as [Hlt|Hge].
    + rewrite nth_error_app1 by (rewrite length_firstn; lia).
      now rewrite nth_error_firstn, (proj2 (Nat.ltb_lt n i) Hlt).
    + rewrite nth_error_app2 by (rewrite length_firstn; lia).
      rewrite length_firstn, Nat.min_l by lia.
      destruct (n - i)%nat as [|k] eqn:Ek; [lia|].
      change (nth_error (skipn (S i) l) k = nth_error l n).
      rewrite nth_error_skipn. f_equal. lia.
Qed.

Lemma swap_nth_perm {A : Type} (i j : nat) (l : list A) :
  Permutation (swap_nth i j l) l.
Proof.
  unfold swap_nth.
  destruct (nth_error l i) as [a|] eqn:Ea; [|reflexivity].
  destruct (nth_error l j) as [b|] eqn:Eb; [|reflexivity].
  destruct (set_nth i b l) as [l1|] eqn:E1; [|reflexivity].
  destruct (set_nth j a l1) as [l2|] eqn:E2; [|reflexivity].
  apply Permutation_sym, Permutation_nth_error. split.
  - apply set_nth_length in E1, E2. congruence.
  - exists (fun n => if (n =? j)%nat then i
                     else if (n =? i)%nat then j else n).
    split.
    + intros x y.
      destruct (Nat.eqb_spec x j), (Nat.eqb_spec x i), (Nat.eqb_spec y j),
        (Nat.eqb_spec y i); lia.
    + intros n.
      rewrite (nth_error_set_nth _ _ _ _ n E2), (nth_error_set_nth _ _ _ _ n E1).
      destruct (Nat.eqb_spec n j); [congruence|].
      destruct (Nat.eqb_spec n i); congruence.
Qed.

Lemma swaps_perm {A : Type} (rnd : nat -> nat) (idxs : list nat) (l : list A) :
  Permutation (fold_left (fun l i => swap_nth i (rnd i mod S i) l) idxs l) l.
Proof.
  revert l. induction idxs as [|i idxs IH]; intros l; cbn [fold_left];
    [reflexivity|].
  rewrite IH. apply swap_nth_perm.
Qed.

(** X3.  Whatever the random engine draws, [std::shuffle] as [sign] uses it
    only rearranges the vector: the result holds the same elements, each as
    many times. *)
Theorem shuffle_permutation {A : Type} (rnd : nat -> nat) (l : list A) :
  Permutation (shuffle rnd l) l.
Proof.
  unfold shuffle. generalize (seq 1 (length l - 1)) as idxs.
  intros idxs. revert l.
  induction idxs as [|i idxs IH]; intros l; cbn [fold_left]; [reflexivity|].
  rewrite IH. apply swap_nth_perm.
Qed.

(* ================================================================== *)
(** * The builder: [sign] *)

Section Sign.
Context {crypto : Crypto} {tools : VarNoteTools}.

Lemma sign_outputs_cases (tx_secret : SecretKey) (descs : list OutputDesc.t)
    (i : Z) :
  (exists outs,
      sign_outputs tx_secret i descs = Ok outs
      /\ length outs = length descs
      /\ forall n d, nth_error descs n = Some d ->
           exists k,
             TransactionBuilder_derive_public_key (OutputDesc.addr d) tx_secret
               (i + Z.of_nat n) = Some k
             /\ nth_error outs n
                = Some (TransactionOutput.make (OutputDesc.amount d)
                                               (mkKeyOutput k)))
  \/ (sign_outputs tx_secret i descs
      = Throw "output keys detected as corrupted during output key derivation"
      /\ exists n d,
           nth_error descs n = Some d
           /\ TransactionBuilder_derive_public_key (OutputDesc.addr d) tx_secret
                (i + Z.of_nat n) = None).
Proof.
  revert i. induction descs as [|d descs IH]; intros i; cbn [sign_outputs].
  - left. exists []. split; [reflexivity|]. split; [reflexivity|].
    intros [|n] d' Hn; discriminate.
  - destruct (TransactionBuilder_derive_public_key (OutputDesc.addr d) tx_secret i)
      as [k|] eqn:Ek.
    + destruct (IH (i + 1)) as [(outs & -> & Hlen & Hnth)|(-> & n & d' & Hn & Hd)];
        cbn [bind].
      * left. eexists. split; [reflexivity|].
        split; [cbn [length]; now rewrite Hlen|].
        intros [|n] d' Hn; cbn [nth_error] in *.
        -- injection Hn as <-. exists k. rewrite Z.add_0_r. now split.
        -- destruct (Hnth n d' Hn) as (k' & Hk' & Ho). exists k'.
           split; [|exact Ho].
           replace (i + Z.of_nat (S n)) with (i + 1 + Z.of_nat n) by lia.
           exact Hk'.
      * right. split; [reflexivity|]. exists (S n), d'. split; [exact Hn|].
        replace (i + Z.of_nat (S n)) with (i + 1 + Z.of_nat n) by lia.
        exact Hd.
    + right. split; [reflexivity|]. exists 0%nat, d.
      split; [reflexivity|]. now rewrite Z.add_0_r.
Qed.

Lemma sign_inputs_cases (hash : Hash) (descs : list InputDesc) :
  (exists sigs,
      sign_inputs hash (map InputKey (map input descs)) descs = Ok sigs
      /\ length sigs = length descs
      /\ forall n desc, nth_error descs n = Some desc ->
           exists s,
             generate_ring_signature hash (key_image (input desc))
               (map api.public_key (desc_outputs desc))
               (secret_key (eph_keys desc)) (real_output_index desc) = Some s
             /\ nth_error sigs n = Some s)
  \/ (sign_inputs hash (map InputKey (map input descs)) descs
      = Throw "output keys detected as corrupted during ring signing"
      /\ exists n desc,
           nth_error descs n = Some desc
           /\ generate_ring_signature hash (key_image (input desc))
                (map api.public_key (desc_outputs desc))
                (secret_key (eph_keys desc)) (real_output_index desc) = None).
Proof.
  induction descs as [|desc descs IH]; cbn [map sign_inputs].
  - left. exists []. split; [reflexivity|]. split; [reflexivity|].
    intros [|n] d' Hn; discriminate.
  - destruct (generate_ring_signature hash (key_image (input desc))
                (map api.public_key (desc_outputs desc))
                (secret_key (eph_keys desc)) (real_output_index desc))
      as [s|] eqn:Es.
    + destruct IH as [(sigs & -> & Hlen & Hnth)|(-> & n & d' & Hn & Hd)];
        cbn [bind].
      * left. eexists. split; [reflexivity|].
        split; [cbn [length]; now rewrite Hlen|].
        intros [|n] d' Hn; cbn [nth_error] in *.
        -- injection Hn as <-. exists s. now split.
        -- exact (Hnth n d' Hn).
      * right. split; [reflexivity|]. exists (S n), d'. now split.
    + right. split; [reflexivity|]. exists 0%nat, desc. now split.
Qed.

(** The transaction as [sign] has it when it computes the prefix hash. *)
Lemma sign_unfold (rnd_out rnd_in : nat -> nat) (seed : Hash)
    (b : TransactionBuilder) :
  let ins := shuffle rnd_in (m_input_descs b) in
  let outs := shuffle rnd_out (m_output_descs b) in
  let r := hash_to_scalar (inputs_hash (map InputKey (map input ins)) ++ seed) in
  let e := mkExtra (Some (secret_key_to_public_key r)) (extra_nonce (m_extra b)) in
  let tx0 := set_tx_extra (serialize_extra e)
               (set_tx_inputs (map InputKey (map input ins)) (m_transaction b)) in
  sign rnd_out rnd_in seed b
  = (o <- sign_outputs r 0 outs ;;
     s <- sign_inputs (get_transaction_prefix_hash (set_tx_outputs o tx0))
                      (map InputKey (map input ins)) ins ;;
     Ok (set_tx_signatures s (set_tx_outputs o tx0))).
Proof.
  cbv zeta. unfold sign, sign_prepare, deterministic_keys_from_seed_tx,
    deterministic_keys_from_seed, get_transaction_inputs_hash.
  cbn [m_transaction m_input_descs m_output_descs m_extra set_m_transaction
       set_m_input_descs set_m_output_descs inputs set_tx_inputs secret_key
       public_key].
  rewrite <- map_map. reflexivity.
Qed.

End Sign.

Section SignResults.
Context {crypto : Crypto} {tools : VarNoteTools}.

(** X4.  The transaction that [sign] returns keeps the version and the
    unlock time of the builder, holds the pending inputs and outputs in the
    order the two shuffles left them (so the same inputs and the same
    output amounts as were added), the key of output [n] derived from the
    transaction secret and the index [n], the extra field with the public
    key of the transaction secret beside the nonce that was set, and one
    ring signature per input, made over the hash of that prefix with the
    ephemeral secret and the position of the real output of the input. *)
Theorem sign_transaction_shape (rnd_out rnd_in : nat -> nat) (seed : Hash)
    (b : TransactionBuilder) (tx : Transaction) :
  sign rnd_out rnd_in seed b = Ok tx ->
  let ins := shuffle rnd_in (m_input_descs b) in
  let outs := shuffle rnd_out (m_output_descs b) in
  let r := hash_to_scalar (inputs_hash (inputs tx) ++ seed) in
  let prefix := set_tx_signatures (signatures (m_transaction b)) tx in
  version tx = version (m_transaction b)
  /\ tx_unlock_time tx = tx_unlock_time (m_transaction b)
  /\ inputs tx = map InputKey (map input ins)
  /\ Permutation ins (m_input_descs b)
  /\ Permutation outs (m_output_descs b)
  /\ map TransactionOutput.amount (outputs tx) = map OutputDesc.amount outs
  /\ (forall n d, nth_error outs n = Some d ->
        exists k,
          TransactionBuilder_derive_public_key (OutputDesc.addr d) r (Z.of_nat n)
          = Some k
          /\ nth_error (outputs tx) n
             = Some (TransactionOutput.make (OutputDesc.amount d) (mkKeyOutput k)))
  /\ extra tx
     = serialize_extra (mkExtra (Some (secret_key_to_public_key r))
                                (extra_nonce (m_extra b)))
  /\ length (signatures tx) = length (inputs tx)
  /\ (forall n desc, nth_error ins n = Some desc ->
        exists s,
          generate_ring_signature (get_transaction_prefix_hash prefix)
            (key_image (input desc)) (map api.public_key (desc_outputs desc))
            (secret_key (eph_keys desc)) (real_output_index desc) = Some s
          /\ nth_error (signatures tx) n = Some s).
Proof.
  rewrite sign_unfold. cbv zeta.
  set (ins := shuffle rnd_in (m_input_descs b)).
  set (outs := shuffle rnd_out (m_output_descs b)).
  set (r := hash_to_scalar (inputs_hash (map InputKey (map input ins)) ++ seed)).
  destruct (sign_outputs_cases r outs 0)
    as [(o & -> & Hlen & Hnth)|(-> & _)]; cbn [bind]; [|discriminate].
  match goal with
  | |- context [sign_inputs ?h _ _] =>
      destruct (sign_inputs_cases h ins)
        as [(s & -> & Hslen & Hsnth)|(-> & _)]; cbn [bind]; [|discriminate]
  end.
  intros [= <-].
  cbn [version tx_unlock_time inputs outputs extra signatures
       set_tx_signatures set_tx_outputs set_tx_extra set_tx_inputs].
  fold r.
  split; [reflexivity|]. split; [reflexivity|]. split; [reflexivity|].
  split; [unfold outs, shuffle; apply swaps_perm|].
  split; [unfold ins, shuffle; apply swaps_perm|].
  split.
  { apply nth_error_ext. intros n. rewrite !nth_error_map.
    destruct (nth_error outs n) as [d|] eqn:Ed.
    - destruct (Hnth n d Ed) as (k & _ & ->). reflexivity.
    - apply nth_error_None in Ed.
      rewrite (proj2 (nth_error_None o n)) by lia. reflexivity. }
  split.
  { intros n d Hd. destruct (Hnth n d Hd) as (k & Hk & Ho).
    exists k. split; [exact Hk | exact Ho]. }
  split; [reflexivity|].
  split; [now rewrite Hslen, !length_map|].
  intros n desc Hn.
  destruct (Hsnth n desc Hn) as (sg & Hsg & Hs). exists sg.
  split; [|exact Hs].
  exact Hsg.
Qed.

(** X5.  [sign] raises no other failure than its two exceptions: it never
    reads a vector out of range and never finds an input that is not a key
    input; and it throws the first exception exactly when the key of some
    output, at its position after the shuffle, cannot be derived from the
    transaction secret. *)
Theorem sign_failures (rnd_out rnd_in : nat -> nat) (seed : Hash)
    (b : TransactionBuilder) :
  let ins := shuffle rnd_in (m_input_descs b) in
  let outs := shuffle rnd_out (m_output_descs b) in
  let r := hash_to_scalar (inputs_hash (map InputKey (map input ins)) ++ seed) in
  let run := sign rnd_out rnd_in seed b in
  (forall f, run <> Undefined f)
  /\ run <> OutOfFuel
  /\ (forall msg, run = Throw msg ->
        msg = "output keys detected as corrupted during output key derivation"
        \/ msg = "output keys detected as corrupted during ring signing")
  /\ (run = Throw "output keys detected as corrupted during output key derivation"
      <-> exists n d,
            nth_error outs n = Some d
            /\ TransactionBuilder_derive_public_key (OutputDesc.addr d) r
                 (Z.of_nat n) = None).
Proof.
  cbv zeta. rewrite sign_unfold. cbv zeta.
  set (ins := shuffle rnd_in (m_input_descs b)).
  set (outs := shuffle rnd_out (m_output_descs b)).
  set (r := hash_to_scalar (inputs_hash (map InputKey (map input ins)) ++ seed)).
  destruct (sign_outputs_cases r outs 0)
    as [(o & -> & Hlen & Hnth)|(-> & n & d & Hn & Hd)]; cbn [bind].
  - match goal with
    | |- context [sign_inputs ?h _ _] =>
        destruct (sign_inputs_cases h ins)
          as [(s & -> & _)|(-> & _)]; cbn [bind]
    end.
    + split; [discriminate|]. split; [discriminate|].
      split; [discriminate|]. split; [discriminate|].
      intros (n & d & Hn & Hd). destruct (Hnth n d Hn) as (k & Hk & _).
      cbn [Z.add] in Hk. congruence.
    + split; [discriminate|]. split; [discriminate|].
      split; [intros msg [= <-]; now right|]. split; [discriminate|].
      intros (n & d & Hn & Hd). destruct (Hnth n d Hn) as (k & Hk & _).
      cbn [Z.add] in Hk. congruence.
  - split; [discriminate|]. split; [discriminate|].
    split; [intros msg [= <-]; now left|].
    split; [intros _|reflexivity]. exists n, d. now split.
Qed.

End SignResults.

(* ================================================================== *)
(** * [add_mixed_inputs] *)

(** The loop that draws the mix outputs takes the random outputs from the
    back of the vector, keeps those of another [global_index] than the real
    output, and stops as soon as it holds [anonymity] of them. *)
Lemma collect_mix_outputs_spec `{StringTools} (anonymity : nat)
    (uu : api.Output) (ra_rev mix : list api.Output) :
  let other := fun o => negb (api.global_index o =? api.global_index uu) in
  match collect_mix_outputs anonymity uu ra_rev mix with
  | Ok (mix', remaining) =>
      exists taken,
        ra_rev = taken ++ remaining
        /\ mix' = mix ++ filter other taken
        /\ ((length mix <= anonymity)%nat -> length mix' = anonymity)
  | Throw e =>
      e = runtime_error ("Not enough anonymity for amount "
                         ++ to_string (api.amount uu))%string
      /\ (length mix + length (filter other ra_rev) < anonymity)%nat
  | _ => False
  end.
Proof.
  cbv zeta. revert mix.
  induction ra_rev as [|out rest IH]; intros mix; cbn [collect_mix_outputs].
  - destruct (Nat.ltb_spec (length mix) anonymity) as [Hlt|Hge].
    + split; [reflexivity|]. cbn [filter length]. lia.
    + exists []. cbn [app filter]. rewrite app_nil_r.
      split; [reflexivity|]. split; [reflexivity|]. lia.
  - destruct (Nat.ltb_spec (length mix) anonymity) as [Hlt|Hge].
    + specialize (IH (if negb (api.global_index out =? api.global_index uu)
                      then push_back mix out else mix)).
      destruct (collect_mix_outputs anonymity uu rest _)
        as [[mix' remaining]|msg|f|]; try contradiction.
      * destruct IH as (taken & -> & -> & Hlen).
        exists (out :: taken). split; [reflexivity|]. cbn [filter].
        destruct (negb (api.global_index out =? api.global_index uu)).
        -- unfold push_back in *. rewrite <- app_assoc in *. cbn [app] in *.
           split; [reflexivity|]. intros _. apply Hlen.
           rewrite length_app. cbn [length]. lia.
        -- split; [reflexivity|]. intros _. apply Hlen. lia.
      * destruct IH as (-> & Hlen). split; [reflexivity|]. cbn [filter].
        destruct (negb (api.global_index out =? api.global_index uu)).
        -- unfold push_back in Hlen. rewrite length_app in Hlen.
           cbn [length] in *. lia.
        -- lia.
    + exists []. cbn [app filter]. rewrite app_nil_r.
      split; [reflexivity|]. split; [reflexivity|]. lia.
Qed.

Lemma filter_real_output (uu : api.Output) (ring mix : list api.Output) :
  Permutation ring (uu :: mix) ->
  Forall (fun o => negb (api.global_index o =? api.global_index uu) = true) mix ->
  filter (fun o => api.global_index o =? api.global_index uu) ring = [uu].
Proof.
  intros Hperm Hmix.
  apply (filter_perm (fun o => api.global_index o =? api.global_index uu))
    in Hperm.
  cbn [filter] in Hperm. rewrite Z.eqb_refl in Hperm.
  assert (E : filter (fun o => api.global_index o =? api.global_index uu) mix = []).
  { clear Hperm. induction Hmix as [|o mix Ho _ IH]; cbn [filter]; [reflexivity|].
    apply negb_true_iff in Ho. now rewrite Ho. }
  rewrite E in Hperm.
  apply Permutation_sym, Permutation_length_1_inv in Hperm. exact Hperm.
Qed.

Section MixedInputs.
Context {crypto : Crypto} {tools : VarNoteTools} {strings : StringTools}.

Lemma add_mixed_inputs_loop_spec (currency : Currency) (view_secret : SecretKey)
    (wallet_records : list (PublicKey * WalletRecord)) (anonymity : nat)
    (used : list api.Output) :
  forall (ra_outputs : omap (list api.Output)) (b : TransactionBuilder),
  0 <= m_inputs_amount b < 2 ^ 64 ->
  let r := add_mixed_inputs_loop currency view_secret wallet_records anonymity
             used ra_outputs b in
  exists descs,
    m_input_descs (fst r) = m_input_descs b ++ descs
    /\ Forall2 (ring_of anonymity) (firstn (length descs) used) descs
    /\ m_output_descs (fst r) = m_output_descs b
    /\ m_outputs_amount (fst r) = m_outputs_amount b
    /\ m_transaction (fst r) = m_transaction b
    /\ m_extra (fst r) = m_extra b
    /\ match snd r with
       | Ok _ =>
           length descs = length used
           /\ m_inputs_amount (fst r)
              = u64 (m_inputs_amount b + sum_amounts used)
       | Throw e =>
           exists uu,
             nth_error used (length descs) = Some uu
             /\ add_mixed_inputs_error uu e
       | _ => False
       end.
Proof.
  induction used as [|uu rest IH]; intros ra b Hb; cbn [add_mixed_inputs_loop].
  - exists []. cbn [fst snd length firstn]. rewrite app_nil_r.
    split; [reflexivity|]. split; [constructor|].
    split; [reflexivity|]. split; [reflexivity|]. split; [reflexivity|].
    split; [reflexivity|]. split; [reflexivity|].
    unfold sum_amounts. cbn [map fold_right]. now rewrite Z.add_0_r, u64_small.
  - pose proof (collect_mix_outputs_spec anonymity uu
                  (rev (om_at (api.amount uu) ra)) []) as Hc.
    cbv zeta in Hc.
    assert (Hfail : forall e,
               add_mixed_inputs_error uu e ->
               exists descs : list InputDesc,
                 m_input_descs b = m_input_descs b ++ descs
                 /\ Forall2 (ring_of anonymity)
                            (firstn (length descs) (uu :: rest)) descs
                 /\ m_output_descs b = m_output_descs b
                 /\ m_outputs_amount b = m_outputs_amount b
                 /\ m_transaction b = m_transaction b
                 /\ m_extra b = m_extra b
                 /\ exists uu',
                      nth_error (uu :: rest) (length descs) = Some uu'
                      /\ add_mixed_inputs_error uu' e).
    { intros e He. exists []. rewrite app_nil_r. cbn [length firstn].
      split; [reflexivity|]. split; [constructor|].
      split; [reflexivity|]. split; [reflexivity|]. split; [reflexivity|].
      split; [reflexivity|]. exists uu. split; [reflexivity | exact He]. }
    destruct (collect_mix_outputs anonymity uu
                (rev (om_at (api.amount uu) ra)) [])
      as [[mix remaining]|msg|f|]; try contradiction.
    2: { destruct Hc as [-> _]. cbn [fst snd]. apply Hfail. now left. }
    destruct Hc as (taken & _ & Hmix & Hlen). cbn [app] in Hmix.
    specialize (Hlen ltac:(cbn; lia)).
    destruct (parse_account_address_string currency (api.address uu))
      as [addr|]; [|cbn [fst snd]; apply Hfail; right; now left].
    destruct (find_wallet_record (spend_public_key addr) wallet_records)
      as [rec|]; [|cbn [fst snd]; apply Hfail; right; right; now left].
    destruct (bytes_eqb (wr_spend_public_key rec) (spend_public_key addr));
      cbn [negb]; [|cbn [fst snd]; apply Hfail; right; right; now left].
    set (keys := mkAccountKeys addr (wr_spend_secret_key rec) view_secret).
    pose proof (add_input_cases keys uu mix b) as Hcases. cbv zeta in Hcases.
    destruct (add_input keys uu mix b) as [b1 res] eqn:Ea.
    destruct Hcases as [[_ E]|[[_ E]|[(_ & _ & _ & E)|(_ & _ & _ & eph & _ & E)]]].
    1-3: injection E as -> ->; cbn [fst snd]; apply Hfail;
         unfold add_mixed_inputs_error; tauto.
    assert (Hres : res = Ok (length (m_input_descs b))) by congruence.
    subst res.
    destruct (add_input_appended keys uu mix b b1 _ Ea)
      as (desc & Hd1 & _ & Hd3 & Hd4 & Hd5 & Hd6 & Hd7 & Hd8 & _ & Hd10 & Hd11
          & Hd12 & Hd13 & Hd14).
    destruct (add_input_ring keys uu mix b b1 _ Ea)
      as (desc' & Hd1' & _ & Hperm & _).
    rewrite Hd1 in Hd1'. apply app_inv_head in Hd1'. injection Hd1' as <-.
    assert (Hring : ring_of anonymity uu desc).
    { unfold ring_of. rewrite Hd4, Hd5, Hlen.
      split; [reflexivity|]. split; [exact Hd3|]. split.
      - apply (filter_real_output uu _ mix Hperm).
        rewrite Hmix. apply Forall_forall. intros o Ho.
        now apply filter_In in Ho.
      - split; [exact Hd6|]. split; [exact Hd7|]. split; [exact Hd8|reflexivity]. }
    assert (Hb1 : 0 <= m_inputs_amount b1 < 2 ^ 64)
      by (rewrite Hd10; apply u64_range).
    specialize (IH (om_set (api.amount uu) (rev remaining) ra) b1 Hb1).
    cbv zeta in IH.
    destruct IH as (descs & H1 & H2 & H3 & H4 & H5 & H6 & H7).
    exists (desc :: descs).
    split. { rewrite H1, Hd1, <- app_assoc. reflexivity. }
    split. { cbn [length firstn]. constructor; assumption. }
    split; [congruence|]. split; [congruence|]. split; [congruence|].
    split; [congruence|].
    destruct (snd (add_mixed_inputs_loop currency view_secret wallet_records
                     anonymity rest
                     (om_set (api.amount uu) (rev remaining) ra) b1))
      as [[]|msg|f|]; try contradiction.
    + destruct H7 as [H7 H8]. split; [cbn [length]; now rewrite H7|].
      rewrite H8, Hd10, sum_amounts_cons.
      unfold u64. rewrite Zplus_mod_idemp_l. f_equal. lia.
    + destruct H7 as (uu' & H7 & H8). exists uu'.
      split; [exact H7 | exact H8].
Qed.

End MixedInputs.

Section MixedInputsResults.
Context {crypto : Crypto} {tools : VarNoteTools} {strings : StringTools}.

(** X6.  An [add_mixed_inputs] that returns has appended to the builder
    one input per used unspent, in their order: each ring has
    [anonymity + 1] members of the amount of the unspent, holds the unspent
    at [real_output_index] and no other output of its [global_index], and
    carries its key image; [m_inputs_amount] has grown by the sum of the
    used amounts and the outputs of the builder are untouched. *)
Theorem add_mixed_inputs_rings (view_secret_key : SecretKey)
    (wallet_records : list (PublicKey * WalletRecord))
    (b b' : TransactionBuilder) (anonymity : nat)
    (ra_response : omap (list api.Output)) (u : UnspentSelector) :
  0 <= m_inputs_amount b < 2 ^ 64 ->
  add_mixed_inputs view_secret_key wallet_records b anonymity ra_response u
  = (b', Ok tt) ->
  exists descs,
    m_input_descs b' = m_input_descs b ++ descs
    /\ Forall2 (ring_of anonymity) (m_used_unspents u) descs
    /\ m_inputs_amount b'
       = u64 (m_inputs_amount b + sum_amounts (m_used_unspents u))
    /\ m_output_descs b' = m_output_descs b
    /\ m_outputs_amount b' = m_outputs_amount b
    /\ m_transaction b' = m_transaction b
    /\ m_extra b' = m_extra b.
Proof.
  intros Hb Hrun. unfold add_mixed_inputs in Hrun.
  destruct (add_mixed_inputs_loop_spec (m_currency u) view_secret_key
              wallet_records anonymity (m_used_unspents u) ra_response b Hb)
    as (descs & H1 & H2 & H3 & H4 & H5 & H6 & H7).
  rewrite Hrun in *. cbn [fst snd] in *. destruct H7 as [H7 H8].
  exists descs. rewrite H7, firstn_all in H2.
  repeat (split; [assumption|]). assumption.
Qed.

(** X7.  [add_mixed_inputs] fails only by throwing, while it handles one of
    the used unspents, one of its three exceptions, which name the amount
    or the address of that unspent ([std::runtime_error] "Not enough
    anonymity for amount " with the amount, [json_rpc::Error] with the code
    [INVALID_PARAMS] and "Could not parse address " or "No keys in wallet
    for address " with the address), or one of the three of [add_input];
    the inputs of the unspents before the failing one stay in the builder,
    which is not rolled back. *)
Theorem add_mixed_inputs_failure (view_secret_key : SecretKey)
    (wallet_records : list (PublicKey * WalletRecord))
    (b : TransactionBuilder) (anonymity : nat)
    (ra_response : omap (list api.Output)) (u : UnspentSelector) :
  0 <= m_inputs_amount b < 2 ^ 64 ->
  let r := add_mixed_inputs view_secret_key wallet_records b anonymity
             ra_response u in
  (forall f, snd r <> Undefined f)
  /\ snd r <> OutOfFuel
  /\ forall e, snd r = Throw e ->
       exists descs uu,
         nth_error (m_used_unspents u) (length descs) = Some uu
         /\ add_mixed_inputs_error uu e
         /\ m_input_descs (fst r) = m_input_descs b ++ descs
         /\ (length descs < length (m_used_unspents u))%nat
         /\ Forall2 (ring_of anonymity)
                    (firstn (length descs) (m_used_unspents u)) descs
         /\ m_output_descs (fst r) = m_output_descs b
         /\ m_outputs_amount (fst r) = m_outputs_amount b.
Proof.
  intros Hb r. unfold add_mixed_inputs in r.
  destruct (add_mixed_inputs_loop_spec (m_currency u) view_secret_key
              wallet_records anonymity (m_used_unspents u) ra_response b Hb)
    as (descs & H1 & H2 & H3 & H4 & H5 & H6 & H7).
  fold r in H1, H2, H3, H4, H5, H6, H7.
  destruct (snd r) as [[]|e|f|]; try contradiction.
  - split; [discriminate|]. split; [discriminate|]. discriminate.
  - split; [discriminate|]. split; [discriminate|].
    intros e' [= <-]. destruct H7 as (uu & H7 & H8).
    exists descs, uu. split; [exact H7|]. split; [exact H8|].
    split; [exact H1|].
    split. { apply nth_error_Some. congruence. }
    repeat (split; [assumption|]). assumption.
Qed.

(** X8.  When the node returned fewer than [anonymity] outputs of another
    [global_index] for the amount of the first used unspent (none at all
    when the response has no entry for the amount), [add_mixed_inputs]
    throws [std::runtime_error] with the text "Not enough anonymity for
    amount " followed by that amount, before it touches the builder. *)
Theorem add_mixed_inputs_not_enough (view_secret_key : SecretKey)
    (wallet_records : list (PublicKey * WalletRecord))
    (b : TransactionBuilder) (anonymity : nat)
    (ra_response : omap (list api.Output)) (u : UnspentSelector)
    (uu : api.Output) (rest : list api.Output) :
  m_used_unspents u = uu :: rest ->
  (length (filter (fun o => negb (api.global_index o =? api.global_index uu)%Z)
                  (om_at (api.amount uu) ra_response)) < anonymity)%nat ->
  add_mixed_inputs view_secret_key wallet_records b anonymity ra_response u
  = (b, Throw (runtime_error ("Not enough anonymity for amount "
                              ++ to_string (api.amount uu))%string)).
Proof.
  intros Hu Hfew. unfold add_mixed_inputs. rewrite Hu.
  cbn [add_mixed_inputs_loop].
  pose proof (collect_mix_outputs_spec anonymity uu
                (rev (om_at (api.amount uu) ra_response)) []) as Hc.
  cbv zeta in Hc.
  destruct (collect_mix_outputs anonymity uu
              (rev (om_at (api.amount uu) ra_response)) [])
    as [[mix remaining]|msg|f|]; try contradiction.
  - exfalso. destruct Hc as (taken & Hrev & Hmix & Hlen).
    specialize (Hlen ltac:(cbn; lia)). cbn [app] in Hmix.
    assert (Hle : (length (filter (fun o => negb (api.global_index o
                                                  =? api.global_index uu)%Z) taken)
                   <= length (filter (fun o => negb (api.global_index o
                                                     =? api.global_index uu)%Z)
                                (rev (om_at (api.amount uu) ra_response))))%nat).
    { rewrite Hrev, filter_app, length_app. lia. }
    rewrite <- Hmix, Hlen in Hle.
    rewrite filter_rev, length_rev in Hle. lia.
  - destruct Hc as [-> _]. reflexivity.
Qed.

End MixedInputsResults.

(* ================================================================== *)
(** * The digits of an amount *)

Lemma split_digit_spec (fuel : nat) :
  forall (d : nat) (am : Z),
  0 <= am < 2 ^ Z.of_nat fuel ->
  let '(d', k) := split_digit fuel d am in
  (d <= d')%nat
  /\ 0 <= k <= 9
  /\ k * 10 ^ Z.of_nat (d' - d) <= am < (k + 1) * 10 ^ Z.of_nat (d' - d)
  /\ (1 <= am -> 1 <= k).
Proof.
  induction fuel as [|fuel IH]; intros d am Ham; cbn [split_digit].
  - change (2 ^ Z.of_nat 0) with 1 in Ham.
    rewrite Nat.sub_diag. change (10 ^ Z.of_nat 0) with 1. lia.
  - destruct (Z.ltb_spec 9 am) as [Hbig|Hsmall].
    + assert (Hq : 0 <= am / 10 < 2 ^ Z.of_nat fuel).
      { rewrite Nat2Z.inj_succ, Z.pow_succ_r in Ham by lia.
        split; [apply Z.div_pos; lia|].
        apply Z.div_lt_upper_bound; lia. }
      specialize (IH (S d) (am / 10) Hq).
      destruct (split_digit fuel (S d) (am / 10)) as [d' k].
      destruct IH as (Hd & Hk & Hbounds & Hone).
      split; [lia|]. split; [exact Hk|].
      replace (d' - d)%nat with (S (d' - S d)) by lia.
      rewrite Nat2Z.inj_succ, Z.pow_succ_r by lia.
      set (P := 10 ^ Z.of_nat (d' - S d)) in *.
      assert (HP : 0 < P) by (apply Z.pow_pos_nonneg; lia).
      pose proof (Z.div_mod am 10 ltac:(lia)) as Hdm.
      pose proof (Z.mod_pos_bound am 10 ltac:(lia)) as Hm.
      split; [nia|]. intros _. apply Hone.
      apply Z.div_le_lower_bound; lia.
    + rewrite Nat.sub_diag. change (10 ^ Z.of_nat 0) with 1. lia.
Qed.

Lemma digit_of_lower (a : Z) :
  0 <= a ->
  0 <= snd (digit_of a) <= 9
  /\ snd (digit_of a) * 10 ^ Z.of_nat (fst (digit_of a)) <= a.
Proof.
  intros Ha.
  destruct (Z.eq_dec a 0) as [->|Hne].
  { change (digit_of 0) with (0%nat, 0). cbn [fst snd]. lia. }
  unfold digit_of.
  assert (Hfuel : 0 <= a < 2 ^ Z.of_nat (S (Z.to_nat (Z.log2 a)))).
  { split; [exact Ha|].
    rewrite Nat2Z.inj_succ, Z2Nat.id by apply Z.log2_nonneg.
    apply Z.log2_spec. lia. }
  pose proof (split_digit_spec _ 0%nat a Hfuel) as H.
  destruct (split_digit (S (Z.to_nat (Z.log2 a))) 0 a) as [digit am].
  rewrite Nat.sub_0_r in H. cbn [fst snd]. lia.
Qed.

(** X9.  The loop [while (am > 9) { digit += 1; am /= 10; }] that files a
    coin computes the number of decimal digits of its amount, less one, and
    its leading digit: an amount [a] is filed under [(digit, am)] with
    [am * 10^digit <= a < (am + 1) * 10^digit] and [am] at most 9, at least
    1 when the amount is not zero, and a 64-bit amount has a digit of at
    most 19. *)
Theorem digit_of_leading_digit (a : Z) :
  0 <= a ->
  let '(digit, am) := digit_of a in
  0 <= am <= 9
  /\ am * 10 ^ Z.of_nat digit <= a < (am + 1) * 10 ^ Z.of_nat digit
  /\ (1 <= a -> 1 <= am)
  /\ (a < 2 ^ 64 -> (digit <= 19)%nat).
Proof.
  intros Ha.
  destruct (Z.eq_dec a 0) as [->|Hne].
  { change (digit_of 0) with (0%nat, 0). cbv beta iota.
    change (10 ^ Z.of_nat 0) with 1. lia. }
  unfold digit_of.
  assert (Hfuel : 0 <= a < 2 ^ Z.of_nat (S (Z.to_nat (Z.log2 a)))).
  { split; [exact Ha|].
    rewrite Nat2Z.inj_succ, Z2Nat.id by apply Z.log2_nonneg.
    apply Z.log2_spec. lia. }
  pose proof (split_digit_spec _ 0%nat a Hfuel) as H.
  destruct (split_digit (S (Z.to_nat (Z.log2 a))) 0 a) as [digit am].
  rewrite Nat.sub_0_r in H. destruct H as (_ & Hk & Hbounds & Hone).
  split; [exact Hk|]. split; [exact Hbounds|]. split; [exact Hone|].
  intros H64. specialize (Hone ltac:(lia)).
  destruct (Nat.le_gt_cases digit 19) as [Hle|Hgt]; [exact Hle|].
  exfalso.
  assert (10 ^ 20 <= 10 ^ Z.of_nat digit)
    by (apply Z.pow_le_mono_r; lia).
  change (2 ^ 64) with 18446744073709551616 in H64.
  change (10 ^ 20) with 100000000000000000000 in *. nia.
Qed.

(* ================================================================== *)
(** * [create_have_coins] *)

Lemma create_have_coins_digits_fold (currency : Currency)
    (block_height block_time confirmed_height : Z) (l : list api.Output) :
  forall (have : HaveCoins) (dust : DustCoins) (max_digit : nat),
  Forall (fun e => 0 <= fst e <= Z.of_nat max_digit) have ->
  let '(have', _, max_digit') :=
    fold_left (create_have_coins_step currency block_height block_time
                 confirmed_height) l (have, dust, max_digit) in
  Forall (fun e => 0 <= fst e <= Z.of_nat max_digit') have'.
Proof.
  induction l as [|un l IH]; intros have dust md Hk; cbn [fold_left];
    [exact Hk|].
  unfold create_have_coins_step at 2.
  destruct (confirmed_height <=? api.height un); [now apply IH|].
  destruct (negb (is_transaction_spend_time_unlocked currency
                    (api.unlock_time un) block_height block_time));
    [now apply IH|].
  destruct (negb (is_dust currency (api.amount un))); [|now apply IH].
  destruct (digit_of (api.amount un)) as [digit am].
  apply IH. unfold have_push. apply om_set_Forall.
  - eapply Forall_impl; [|exact Hk]. cbv beta. intros e He. lia.
  - cbn [fst]. lia.
Qed.

Lemma create_have_coins_digits (block_height block_time confirmed_height : Z)
    (u : UnspentSelector) :
  let '(have, _, max_digit) :=
    create_have_coins block_height block_time confirmed_height u in
  Forall (fun e => 0 <= fst e <= Z.of_nat max_digit) have.
Proof.
  unfold create_have_coins. apply create_have_coins_digits_fold. constructor.
Qed.

(** X10.  [create_have_coins] files exactly the outputs that are confirmed
    below [confirmed_height] and unlocked, each once: those that are not
    dust in [have_coins] under the digit and the leading digit of their
    amount, the dust in [dust_coins] under their amount; no stack is left
    empty, and every digit that has a stack is at most [max_digit], so the
    loops over the digits up to [max_digit] see every stack. *)
Theorem create_have_coins_partition
    (block_height block_time confirmed_height : Z) (u : UnspentSelector) :
  let '(have, dust, max_digit) :=
    create_have_coins block_height block_time confirmed_height u in
  Permutation (have_list have)
    (have_pool (m_currency u) block_height block_time confirmed_height
               (m_unspents u))
  /\ Permutation (dust_list dust)
       (dust_pool (m_currency u) block_height block_time confirmed_height
                  (m_unspents u))
  /\ have_all (fun d k un => coin_key un = (d, k)) have
  /\ stacks_all (fun a un => api.amount un = a) dust
  /\ have_sorted have /\ om_sorted dust
  /\ have_nonempty have /\ stacks_nonempty dust
  /\ Forall (fun e => 0 <= fst e <= Z.of_nat max_digit) have.
Proof.
  pose proof (create_have_coins_spec block_height block_time confirmed_height u)
    as H.
  pose proof (create_have_coins_digits block_height block_time confirmed_height u)
    as Hd.
  destruct (create_have_coins block_height block_time confirmed_height u)
    as [[have dust] md].
  destruct H as (H1 & H2 & H3 & H4 & H5 & H6 & H7 & H8).
  repeat (split; [assumption|]). exact Hd.
Qed.

(* ================================================================== *)
(** * The state that a selection leaves *)

Lemma pool_partition (currency : Currency)
    (block_height block_time confirmed_height : Z) (pool : list api.Output) :
  Permutation pool
    (have_pool currency block_height block_time confirmed_height pool
     ++ dust_pool currency block_height block_time confirmed_height pool
     ++ filter (fun un => negb (spendable currency block_height block_time
                                          confirmed_height un)) pool).
Proof.
  unfold have_pool, dust_pool.
  induction pool as [|un pool IH]; cbn [filter]; [constructor|].
  destruct (spendable currency block_height block_time confirmed_height un),
           (is_dust currency (api.amount un)); cbn [andb negb app].
  - apply Permutation_cons_app. exact IH.
  - now constructor.
  - rewrite app_assoc in *. apply Permutation_cons_app. exact IH.
  - rewrite app_assoc in *. apply Permutation_cons_app. exact IH.
Qed.

Lemma filter_dust_perm (l : list api.Output) :
  Permutation l (filter not_dust l ++ filter api.dust l).
Proof.
  induction l as [|un l IH]; cbn [filter]; [constructor|].
  unfold not_dust at 1. destruct (api.dust un); cbn [negb app].
  - apply Permutation_cons_app. exact IH.
  - now constructor.
Qed.

Section FinalTurn.
Context {tools : VarNoteTools}.
Variables (block_height block_time confirmed_height : Z).
Variables (effective_median_size anonymity total_amount total_outputs : Z).
Variables (fee_per_byte : Z) (optimization_level : string).

Local Abbreviation run :=
  (select_optimal_outputs block_height block_time confirmed_height
     effective_median_size anonymity total_amount total_outputs fee_per_byte
     optimization_level).
Local Abbreviation reaches :=
  (turns effective_median_size anonymity total_amount total_outputs
     fee_per_byte optimization_level).
Local Abbreviation pool_books u :=
  (books anonymity u
     (have_pool (m_currency u) block_height block_time confirmed_height
                (m_unspents u))
     (dust_pool (m_currency u) block_height block_time confirmed_height
                (m_unspents u))).

(** The turn that returns: the state [s_k] it starts from, the state [s_in]
    that the inner selection leaves, and the three ways it returns. *)
Lemma run_final_turn (fuel : nat) (u u' : UnspentSelector) (status : string)
    (change : option Z) :
  Forall (pool_ok (m_currency u)) (m_unspents u) ->
  fresh u ->
  run fuel u = Ok (status, change, u') ->
  exists have dust max_digits fee optimizations s_k ok s_in,
    create_have_coins block_height block_time confirmed_height u
    = (have, dust, max_digits)
    /\ reaches max_digits
         (minimum_fee (m_currency u), initial_optimizations optimization_level,
          mkSel u have dust)
         (fee, optimizations, s_k)
    /\ inv (pool_books u) s_k
    /\ select_optimal_outputs_inner max_digits (u64 (total_amount + fee))
         anonymity optimizations s_k = Ok (ok, s_in)
    /\ inner_post (pool_books u) max_digits (u64 (total_amount + fee))
                  anonymity (ok, s_in)
    /\ let cdf := change_dust_fee_of (m_currency u) total_amount fee s_in in
       let tx := tx_size_of anonymity total_outputs s_in in
       (ok = false /\ status = "NOT_ENOUGH_FUNDS" /\ change = None
        /\ u' = this s_in)
       \/ (ok = true /\ effective_median_size < tx
           /\ status = "TRANSACTION_DOES_NOT_FIT_IN_BLOCK" /\ change = None
           /\ u' = this s_in)
       \/ (ok = true /\ tx <= effective_median_size
           /\ u64 (fee_per_byte * tx) <= u64 (fee + cdf)
           /\ status = ""
           /\ change = Some (u64 (used_total s_in - total_amount - fee - cdf))
           /\ u' = combine_optimized_unspents (this s_in)).
Proof.
  intros Hpool Hfresh Hrun.
  destruct (run_returns_at _ _ _ _ _ _ _ _ _ _ _ _ _ _ Hrun)
    as (fee & o & s_k & s_fin & Hret & ->).
  pose proof (run_reaches _ _ _ _ _ _ _ _ _ _ _ _ _ _ _ _ Hpool Hfresh Hret)
    as Hinv.
  destruct (returns_at_turn _ _ _ _ _ _ _ _ _ _ _ _ _ _ _ _ Hret)
    as (have & dust & md & Hcreate & Hreach & Hturn).
  destruct (select_turn_inv _ _ _ _ _ _ _ _ _ _ _ _ Hturn)
    as (ok & s_in & Hinner & Hcases).
  pose proof (inner_keeps_books anonymity u _ _ md (u64 (total_amount + fee))
                o s_k Hinv) as Hpost.
  rewrite Hinner in Hpost. cbn [res_ok] in Hpost.
  assert (Hcur : m_currency (this s_k) = m_currency u).
  { destruct Hinv as (_ & _ & (_ & _ & _ & (Hc & _))). exact Hc. }
  exists have, dust, md, fee, o, s_k, ok, s_in.
  split; [exact Hcreate|]. split; [exact Hreach|]. split; [exact Hinv|].
  split; [exact Hinner|]. split; [exact Hpost|].
  cbv zeta in Hcases |- *. rewrite Hcur in Hcases.
  destruct Hcases as [(Hok & E & Hs)|[(_ & _ & _ & E & _)|[(Hok & _ & Hbig & E & Hs)
    |[(Hok & _ & Hfit & Hfee & E & Hs)|(_ & _ & _ & _ & E & _)]]]];
    try discriminate; injection E as -> ->; subst s_fin.
  - left. auto.
  - right. left. auto.
  - right. right. cbn [this]. auto 10.
Qed.

End FinalTurn.

Lemma perm_four {A : Type} (a b c d n : list A) :
  Permutation ((a ++ b) ++ c ++ d ++ n) ((c ++ a) ++ (d ++ b) ++ n).
Proof.
  rewrite <- !app_assoc.
  transitivity (a ++ c ++ b ++ d ++ n).
  { apply Permutation_app_head, Permutation_app_swap_app. }
  transitivity (c ++ a ++ b ++ d ++ n).
  { apply Permutation_app_swap_app. }
  apply Permutation_app_head, Permutation_app_head, Permutation_app_swap_app.
Qed.

(** The picks are coins of the pool that may be spent. *)
Lemma books_picks (anonymity : Z) (u : UnspentSelector)
    (block_height block_time confirmed_height : Z) (s : Sel) :
  books anonymity u
    (have_pool (m_currency u) block_height block_time confirmed_height
               (m_unspents u))
    (dust_pool (m_currency u) block_height block_time confirmed_height
               (m_unspents u)) s ->
  let l := optimization_unspents s in
  (exists rest, Permutation (l ++ rest) (m_unspents u))
  /\ Forall (fun un => spendable (m_currency u) block_height block_time
                         confirmed_height un = true) l
  /\ (anonymity <> 0 ->
      Forall (fun un => is_dust (m_currency u) (api.amount un) = false) l).
Proof.
  intros (_ & (_ & _ & Hph & Hpd & _) & (_ & _ & Hnd) & _) l. fold l in Hph, Hpd.
  split.
  { exists (have_list (have_coins s) ++ dust_list (dust_coins s)
            ++ filter (fun un => negb (spendable (m_currency u) block_height
                                         block_time confirmed_height un))
                      (m_unspents u)).
    rewrite (pool_partition (m_currency u) block_height block_time
               confirmed_height (m_unspents u)) at 2.
    rewrite <- Hph, <- Hpd.
    rewrite (filter_dust_perm l) at 1. apply perm_four. }
  assert (Hin : forall un, In un l ->
            In un (have_pool (m_currency u) block_height block_time
                     confirmed_height (m_unspents u))
            \/ In un (dust_pool (m_currency u) block_height block_time
                        confirmed_height (m_unspents u))).
  { intros un Hun.
    apply (Permutation_in _ (filter_dust_perm l)) in Hun.
    apply in_app_or in Hun as [Hun|Hun].
    - left. eapply Permutation_in; [exact Hph|]. apply in_or_app. now right.
    - right. eapply Permutation_in; [exact Hpd|]. apply in_or_app. now right. }
  split.
  - apply Forall_forall. intros un Hun.
    destruct (Hin un Hun) as [H|H]; apply filter_In in H as [_ H];
      now apply andb_prop in H as [H _].
  - intros Han. specialize (Hnd Han). fold l in Hnd.
    apply Forall_forall. intros un Hun.
    assert (Hun' : In un (filter not_dust l)).
    { apply filter_In. split; [exact Hun|].
      rewrite Forall_forall in Hnd. unfold not_dust. now rewrite (Hnd un Hun). }
    assert (H : In un (have_pool (m_currency u) block_height block_time
                         confirmed_height (m_unspents u))).
    { eapply Permutation_in; [exact Hph|]. apply in_or_app. now right. }
    apply filter_In in H as [_ H]. apply andb_prop in H as [_ H].
    now apply negb_true_iff in H.
Qed.

Section SelectionResults.
Context {tools : VarNoteTools}.
Variables (block_height block_time confirmed_height : Z).
Variables (effective_median_size anonymity total_amount total_outputs : Z).
Variables (fee_per_byte : Z) (optimization_level : string).

Local Abbreviation run :=
  (select_optimal_outputs block_height block_time confirmed_height
     effective_median_size anonymity total_amount total_outputs fee_per_byte
     optimization_level).

(** X11.  The outputs that a successful selection commits are outputs of
    the pool, each taken at most as often as the pool holds it, all of them
    confirmed below [confirmed_height] and unlocked, and none of them dust
    when a ring is asked for; [m_inputs_count] is their number, their
    amounts are appended to [m_ra_amounts], and no provisional pick is
    left. *)
Theorem selected_outputs_are_spendable (fuel : nat) (u u' : UnspentSelector)
    (change : option Z) :
  Forall (pool_ok (m_currency u)) (m_unspents u) ->
  fresh u ->
  Z.of_nat (length (m_unspents u)) < 2 ^ 64 ->
  run fuel u = Ok ("", change, u') ->
  (exists rest, Permutation (m_used_unspents u' ++ rest) (m_unspents u))
  /\ Forall (fun un => spendable (m_currency u) block_height block_time
                         confirmed_height un = true) (m_used_unspents u')
  /\ (anonymity <> 0 ->
      Forall (fun un => is_dust (m_currency u) (api.amount un) = false)
             (m_used_unspents u'))
  /\ m_inputs_count u' = Z.of_nat (length (m_used_unspents u'))
  /\ m_ra_amounts u' = m_ra_amounts u ++ map api.amount (m_used_unspents u')
  /\ m_optimization_unspents u' = []
  /\ m_unspents u' = m_unspents u.
Proof.
  intros Hpool Hfresh Hlen Hrun.
  destruct (run_final_turn _ _ _ _ _ _ _ _ _ _ _ _ _ _ Hpool Hfresh Hrun)
    as (have & dust & md & fee & o & s_k & ok & s_in & _ & _ & _ & _ & Hpost
        & Hcases).
  cbv zeta in Hcases.
  destruct Hcases as [(_ & E & _)|[(_ & _ & E & _)|(_ & _ & _ & _ & _ & ->)]];
    try discriminate.
  destruct Hpost as ((_ & _ & Hbooks) & _). cbn [snd] in Hbooks.
  destruct (books_picks _ _ _ _ _ _ Hbooks) as (Hperm & Hsp & Hnd).
  pose proof (books_inputs_count _ _ _ _ _ (proj2 (proj2 (proj2 Hfresh))) Hbooks)
    as Hcount.
  destruct Hbooks as (_ & (_ & _ & _ & _ & _ & Hi) & _ & (_ & Hun & Hused & Hra)).
  destruct Hfresh as (Hu0 & _ & _ & Hc0).
  cbn [combine_optimized_unspents m_used_unspents m_inputs_count m_ra_amounts
       m_optimization_unspents m_unspents].
  rewrite Hused, Hu0, Hra. cbn [app].
  fold (optimization_unspents s_in).
  split; [exact Hperm|]. split; [exact Hsp|]. split; [exact Hnd|].
  split.
  { fold (inputs_count s_in). rewrite Hi, Hc0, Z.add_0_l.
    apply u64_small. destruct Hperm as [rest Hperm].
    apply Permutation_length in Hperm. rewrite length_app in Hperm. lia. }
  split; [reflexivity|]. split; [reflexivity | exact Hun].
Qed.



End SelectionResults.

(* ================================================================== *)
(** * Digit rounding with one coin *)

Lemma best_single_exact (am : Z) (stacks : omap (list api.Output)) :
  1 <= am <= 9 ->
  Forall (fun ait => 0 <= fst ait <= 9) stacks ->
  forall (st : list api.Output) (b0 : Z) (w0 : nat),
  In (10 - am, st) stacks ->
  fst (best_single_loop am stacks b0 w0) = 10 - am.
Proof.
  intros Ham Hkeys st.
  induction Hkeys as [|[a sa] t Ha _ IH]; intros b0 w0 Hin;
    [contradiction|].
  cbn [best_single_loop]. cbn [fst] in Ha.
  rewrite (u64_small (a + am))
    by (change (2 ^ 64) with 18446744073709551616; lia).
  destruct (Z.eqb_spec ((a + am) mod 10) 0) as [Hz|Hz].
  - cbn [fst]. Z.div_mod_to_equations. lia.
  - destruct Hin as [E|Hin].
    + exfalso. apply Hz. apply (f_equal fst) in E. cbn [fst] in E.
      rewrite E. replace (10 - am + am) with 10 by lia. reflexivity.
    + destruct (_ && _); now apply IH.
Qed.

Lemma best_single_larger (am : Z) (stacks : omap (list api.Output)) :
  1 <= am <= 9 ->
  Forall (fun ait => 0 <= fst ait <= 9) stacks ->
  (forall a sa, In (a, sa) stacks -> a <> 10 - am) ->
  forall (b0 : Z) (w0 : nat),
  let r := best_single_loop am stacks b0 w0 in
  (r = (b0, w0)
   /\ forall a sa, In (a, sa) stacks -> 10 - am < a -> (length sa <= w0)%nat)
  \/ (exists sb,
        In (fst r, sb) stacks /\ 10 - am < fst r /\ (w0 < length sb)%nat
        /\ forall a sa, In (a, sa) stacks -> 10 - am < a ->
                        (length sa <= length sb)%nat).
Proof.
  intros Ham Hkeys.
  induction Hkeys as [|[a sa] t Ha _ IH]; intros Hno b0 w0;
    cbn [best_single_loop].
  - left. split; [reflexivity|]. intros a sa [].
  - cbn [fst] in Ha.
    rewrite (u64_small (a + am))
      by (change (2 ^ 64) with 18446744073709551616; lia).
    rewrite (u64_small (10 - am))
      by (change (2 ^ 64) with 18446744073709551616; lia).
    assert (Hne : a <> 10 - am) by (apply (Hno a sa); now left).
    destruct (Z.eqb_spec ((a + am) mod 10) 0) as [Hz|_].
    { exfalso. Z.div_mod_to_equations. lia. }
    assert (Hno' : forall a' sa', In (a', sa') t -> a' <> 10 - am)
      by (intros a' sa' H'; apply (Hno a' sa'); now right).
    destruct (Z.ltb_spec (10 - am) a) as [Hlt|Hge]; cbn [andb].
    + destruct (Nat.ltb_spec w0 (length sa)) as [Hw|Hw].
      * destruct (IH Hno' a (length sa)) as [[E Hall]|(sb & Hin & Hk & Hw' & Hall)].
        -- right. rewrite E. cbn [fst]. exists sa.
           split; [now left|]. split; [exact Hlt|]. split; [exact Hw|].
           intros a' sa' [[= <- <-]|H'] Ha'; [lia | now apply (Hall a' sa')].
        -- right. exists sb. split; [now right|]. split; [exact Hk|].
           split; [lia|].
           intros a' sa' [[= <- <-]|H'] Ha'; [lia | now apply (Hall a' sa')].
      * destruct (IH Hno' b0 w0) as [[E Hall]|(sb & Hin & Hk & Hw' & Hall)].
        -- left. split; [exact E|].
           intros a' sa' [[= <- <-]|H'] Ha'; [lia | now apply (Hall a' sa')].
        -- right. exists sb. split; [now right|]. split; [exact Hk|].
           split; [exact Hw'|].
           intros a' sa' [[= <- <-]|H'] Ha'; [lia | now apply (Hall a' sa')].
    + destruct (IH Hno' b0 w0) as [[E Hall]|(sb & Hin & Hk & Hw' & Hall)].
      * left. split; [exact E|].
        intros a' sa' [[= <- <-]|H'] Ha'; [lia | now apply (Hall a' sa')].
      * right. exists sb. split; [now right|]. split; [exact Hk|].
        split; [exact Hw'|].
        intros a' sa' [[= <- <-]|H'] Ha'; [lia | now apply (Hall a' sa')].
Qed.

(** Taking the last coin of a stack that the map holds. *)
Lemma take_have_picked (digit k : Z) (s : Sel)
    (stacks : omap (list api.Output)) (sb : list api.Output) :
  sorted_ok s -> nonempty_ok s ->
  om_find digit (have_coins s) = Some stacks ->
  In (k, sb) stacks ->
  exists un s',
    back sb = Some un /\ take_have digit k s = Ok s'
    /\ picked_from_have un s s'.
Proof.
  intros Hs Hne Hf Hin.
  assert (Hss : om_sorted stacks).
  { destruct Hs as [[_ Hsin] _]. rewrite Forall_forall in Hsin.
    exact (Hsin _ (om_find_In _ _ _ _ Hf)). }
  assert (Hsb : sb <> []).
  { destruct Hne as [Hnh _]. unfold have_nonempty in Hnh.
    rewrite Forall_forall in Hnh.
    pose proof (proj2 (Hnh _ (om_find_In _ _ _ _ Hf))) as Hst.
    unfold stacks_nonempty in Hst. rewrite Forall_forall in Hst.
    exact (Hst _ Hin). }
  destruct (take_have_defined digit k s stacks sb Hf
              (om_In_find _ _ _ _ Hss Hin) Hsb) as (un & Hb & Ht).
  destruct (take_have_effect _ _ _ _ Hs Ht) as (un' & Hthis & Hdust & Hp & _).
  assert (un' = un).
  { apply (f_equal m_optimization_unspents) in Hthis. cbn in Hthis.
    unfold push_back in Hthis. apply app_inj_tail in Hthis. now destruct Hthis. }
  subst un'.
  eexists un, _. split; [exact Hb|]. split; [exact Ht|].
  unfold picked_from_have.
  split; [reflexivity|]. split; [reflexivity|]. split; [reflexivity|].
  split; [exact Hp | exact Hdust].
Qed.

(** X14.  In a turn of the loop of [optimize_amounts] that the [break] at
    the head of the loop does not stop, when no pair of stacks rounds the
    digit and the needed count [am] is not 10, the digit is rounded with
    one coin: the last coin of the stack whose leading digit is [10 - am]
    when the digit has such a stack; otherwise the last coin of a stack
    with a larger leading digit, one that no other such stack exceeds in
    height; and nothing, the state left as it is, when every leading digit
    is smaller.  The loop then goes on to the next digit. *)
Theorem optimize_amounts_single_coin (max_digit digit : nat)
    (total_amount digit_amount : Z) (s0 s : Sel)
    (stacks : omap (list api.Output)) :
  let am := needed_count total_amount digit_amount (used_total s) in
  let run := optimize_digit (Z.of_nat digit) digit_amount total_amount s in
  optimize_comes_to total_amount s0 digit digit_amount s ->
  (digit <= max_digit)%nat ->
  ~ total_amount <= used_total s < digit_amount ->
  sorted_ok s -> nonempty_ok s ->
  om_find (Z.of_nat digit) (have_coins s) = Some stacks ->
  Forall (fun ait => 0 <= fst ait <= 9) stacks ->
  (forall a b, In a stacks -> In b stacks -> ~ rounding_pair am a b) ->
  am <> 10 ->
  (forall s', run = Ok s' ->
     optimize_comes_to total_amount s0 (S digit) (u64 (digit_amount * 10)) s'
     /\ optimize_amounts max_digit total_amount s0
        = optimize_amounts_loop (max_digit - digit) (Z.of_nat (S digit))
                                (u64 (digit_amount * 10)) total_amount s')
  /\ (forall st, In (10 - am, st) stacks ->
       exists un s', back st = Some un /\ run = Ok s' /\ picked_from_have un s s')
  /\ ((forall a sa, In (a, sa) stacks -> a <> 10 - am) ->
      (exists k sb un s',
          In (k, sb) stacks /\ 10 - am < k
          /\ (forall a sa, In (a, sa) stacks -> 10 - am < a ->
                           (length sa <= length sb)%nat)
          /\ back sb = Some un /\ run = Ok s' /\ picked_from_have un s s')
      \/ ((forall a sa, In (a, sa) stacks -> a < 10 - am) /\ run = Ok s)).
Proof.
  intros am run Hc Hle Hnb Hs Hne Hf Hkeys Hnopair Ham10.
  split.
  { intros s' Hrun.
    exact (optimize_comes_to_step _ _ _ _ _ _ _ Hc Hle Hnb Hrun). }
  pose proof (needed_count_range total_amount digit_amount (used_total s)) as Ham.
  fold am in Ham.
  assert (Hrun : run = let '(best_single, _) := best_single_loop am stacks 0 0%nat in
                       if negb (best_single =? 0)
                       then take_have (Z.of_nat digit) best_single s
                       else Ok s).
  { unfold run, optimize_digit. fold am. rewrite Hf.
    pose proof (best_pair_spec am stacks) as Hbp.
    destruct (best_pair am stacks) as [[w c0] c1].
    destruct Hbp as [_ Hsrc].
    destruct (Nat.eqb_spec w 0) as [_|Hw]; cbn [negb].
    - destruct (Z.eqb_spec am 10) as [E|_]; [contradiction | reflexivity].
    - exfalso. destruct (Hsrc Hw) as (sa & sb & Ha & Hb & Hq & _).
      rewrite Forall_forall in Hkeys.
      apply (Hnopair _ _ Ha Hb).
      apply pair_qualifies_iff; [exact (Hkeys _ Ha) | exact (Hkeys _ Hb) | lia
                                | exact Hq]. }
  rewrite Hrun. clear Hrun. split.
  - intros st Hin.
    pose proof (best_single_exact am stacks ltac:(lia) Hkeys st 0 0%nat Hin) as E.
    destruct (best_single_loop am stacks 0 0%nat) as [bs w]. cbn [fst] in E.
    subst bs.
    destruct (Z.eqb_spec (10 - am) 0) as [Hz|_]; [lia|]. cbn [negb].
    destruct (take_have_picked _ _ _ _ _ Hs Hne Hf Hin) as (un & s' & Hb & Ht & Hp).
    exists un, s'. auto.
  - intros Hno.
    pose proof (best_single_larger am stacks ltac:(lia) Hkeys Hno 0 0%nat) as H.
    cbv zeta in H.
    destruct (best_single_loop am stacks 0 0%nat) as [bs w]. cbn [fst] in H.
    destruct H as [[[= -> ->] Hall]|(sb & Hin & Hk & _ & Hall)].
    + right. cbn [Z.eqb negb]. split; [|reflexivity].
      intros a sa Hin.
      destruct (Z.lt_trichotomy a (10 - am)) as [Hlt|[Heq|Hgt]];
        [exact Hlt | now apply Hno in Hin |].
      exfalso. specialize (Hall a sa Hin Hgt).
      destruct Hne as [Hnh _]. unfold have_nonempty in Hnh.
      rewrite Forall_forall in Hnh.
      pose proof (proj2 (Hnh _ (om_find_In _ _ _ _ Hf))) as Hst.
      unfold stacks_nonempty in Hst. rewrite Forall_forall in Hst.
      specialize (Hst _ Hin). cbn [snd] in Hst.
      destruct sa; [contradiction | cbn [length] in Hall; lia].
    + left. destruct (Z.eqb_spec bs 0) as [Hz|_]; [lia|]. cbn [negb].
      destruct (take_have_picked _ _ _ _ _ Hs Hne Hf Hin)
        as (un & s' & Hb & Ht & Hp).
      exists bs, sb, un, s'. auto 10.
Qed.

(* ================================================================== *)
(** * The single coin that covers the rest *)

Lemma large_coin_scan_first (da need : Z) (stacks : omap (list api.Output)) :
  match large_coin_scan da need stacks with
  | Some k =>
      exists pre st post,
        stacks = pre ++ (k, st) :: post /\ st <> []
        /\ need <= u64 (k * da)
        /\ Forall (fun e => snd e = [] \/ u64 (fst e * da) < need) pre
  | None => Forall (fun e => snd e = [] \/ u64 (fst e * da) < need) stacks
  end.
Proof.
  induction stacks as [|[a sa] t IH]; cbn [large_coin_scan]; [constructor|].
  destruct (negb (is_empty sa) && (need <=? u64 (a * da))) eqn:E.
  - apply andb_prop in E as [E1 E2]. apply Z.leb_le in E2.
    exists [], sa, t. split; [reflexivity|]. split.
    + destruct sa; [discriminate | discriminate].
    + split; [exact E2 | constructor].
  - assert (Hhead : sa = [] \/ u64 (a * da) < need).
    { apply andb_false_iff in E as [E|E].
      - left. destruct sa; [reflexivity | discriminate].
      - right. apply Z.leb_gt in E. exact E. }
    destruct (large_coin_scan da need t) as [k|].
    + destruct IH as (pre & st & post & -> & Hne & Hle & Hpre).
      exists ((a, sa) :: pre), st, post. split; [reflexivity|].
      split; [exact Hne|]. split; [exact Hle|]. now constructor.
    + now constructor.
Qed.

Lemma om_sorted_before {V : Type} (pre post : omap V) (k k' : Z) (v v' : V) :
  om_sorted (pre ++ (k, v) :: post) ->
  In (k', v') (pre ++ (k, v) :: post) -> k' < k -> In (k', v') pre.
Proof.
  intros Hs Hin Hlt. apply in_app_or in Hin as [Hin|[Hin|Hin]].
  - exact Hin.
  - injection Hin as <- _. lia.
  - apply om_sorted_app_inv in Hs as [_ [Hall _]].
    rewrite Forall_forall in Hall. specialize (Hall _ Hin). cbn [fst] in Hall. lia.
Qed.

(** The round amount of a stack is a 64-bit value that every coin of the
    stack reaches. *)
Lemma stack_round_amount (s : Sel) (d : nat) (stacks : omap (list api.Output))
    (k : Z) (st : list api.Output) :
  nonempty_ok s ->
  have_all filed_have (have_coins s) ->
  om_find (Z.of_nat d) (have_coins s) = Some stacks ->
  In (k, st) stacks ->
  st <> []
  /\ 0 <= k * 10 ^ Z.of_nat d < 2 ^ 64
  /\ forall un, In un st -> k * 10 ^ Z.of_nat d <= api.amount un.
Proof.
  intros [Hnh _] Hall Hf Hin.
  assert (Hst : st <> []).
  { unfold have_nonempty in Hnh. rewrite Forall_forall in Hnh.
    pose proof (proj2 (Hnh _ (om_find_In _ _ _ _ Hf))) as H.
    unfold stacks_nonempty in H. rewrite Forall_forall in H. exact (H _ Hin). }
  assert (Hcoins : forall un, In un st ->
            0 <= k /\ k * 10 ^ Z.of_nat d <= api.amount un < 2 ^ 64).
  { intros un Hun.
    pose proof (have_all_find _ _ _ _ Hall Hf) as Hs.
    unfold stacks_all in Hs. rewrite Forall_forall in Hs.
    specialize (Hs _ Hin). cbn [fst snd] in Hs.
    rewrite Forall_forall in Hs. destruct (Hs un Hun) as [Hkey Hrange].
    unfold coin_key in Hkey.
    pose proof (digit_of_lower (api.amount un) ltac:(lia)) as Hd.
    destruct (digit_of (api.amount un)) as [dg am]. cbn [fst snd] in Hd.
    injection Hkey as Hdg ->. apply Nat2Z.inj in Hdg. subst dg. lia. }
  split; [exact Hst|].
  destruct st as [|un st]; [contradiction|].
  destruct (Hcoins un ltac:(now left)) as [Hk Hb].
  split.
  - split; [|lia]. apply Z.mul_nonneg_nonneg; [exact Hk|].
    apply Z.pow_nonneg. lia.
  - intros un' Hun'. exact (proj1 (proj2 (Hcoins un' Hun'))).
Qed.

Lemma large_coin_loop_first (n : nat) :
  forall (i : nat) (da total : Z) (s s' : Sel),
  sorted_ok s -> nonempty_ok s ->
  have_all filed_have (have_coins s) ->
  0 <= total - used_total s < 2 ^ 64 ->
  (i + n <= 20)%nat ->
  n = 0%nat \/ da = 10 ^ Z.of_nat i ->
  large_coin_loop n (Z.of_nat i) da total s = Ok s' ->
  let need := total - used_total s in
  (s' = s
   /\ none_covers_before (have_coins s) i need (fun d' _ => (d' < i + n)%nat))
  \/ (exists (d : nat) (k : Z) (stacks : omap (list api.Output))
             (st : list api.Output) (un : api.Output),
        (i <= d < i + n)%nat
        /\ om_find (Z.of_nat d) (have_coins s) = Some stacks
        /\ In (k, st) stacks
        /\ back st = Some un
        /\ need <= k * 10 ^ Z.of_nat d <= api.amount un
        /\ picked_from_have un s s'
        /\ none_covers_before (have_coins s) i need
             (fun d' k' => (d' < d)%nat \/ (d' = d /\ k' < k))).
Proof.
  induction n as [|n IH]; intros i da total s s' Hs Hne Hall Hneed Hin Hda;
    cbn [large_coin_loop].
  - intros [= <-]. left. split; [reflexivity|].
    intros d' stacks' k' st' Hd' Hb. lia.
  - destruct Hda as [Hda|Hda]; [discriminate|]. subst da.
    assert (Hnext : n = 0%nat
                    \/ u64 (10 ^ Z.of_nat i * 10) = 10 ^ Z.of_nat (S i)).
    { destruct n as [|n]; [now left|right].
      rewrite Nat2Z.inj_succ, Z.pow_succ_r, (Z.mul_comm 10) by lia.
      apply u64_small. split.
      - apply Z.mul_nonneg_nonneg; [apply Z.pow_nonneg|]; lia.
      - assert (10 ^ Z.of_nat i <= 10 ^ 18) by (apply Z.pow_le_mono_r; lia).
        change (2 ^ 64) with 18446744073709551616.
        change (10 ^ 18) with 1000000000000000000 in *. lia. }
    replace (Z.of_nat i + 1) with (Z.of_nat (S i)) by lia.
    (* what the turns after this one give *)
    assert (Hrest : forall stacks_i,
              (om_find (Z.of_nat i) (have_coins s) = None
               \/ (om_find (Z.of_nat i) (have_coins s) = Some stacks_i
                   /\ Forall (fun e => snd e = []
                                       \/ u64 (fst e * 10 ^ Z.of_nat i)
                                          < u64 (total - used_total s))
                             stacks_i)) ->
              large_coin_loop n (Z.of_nat (S i)) (u64 (10 ^ Z.of_nat i * 10))
                              total s = Ok s' ->
              (s' = s
               /\ none_covers_before (have_coins s) i (total - used_total s)
                    (fun d' _ => (d' < i + S n)%nat))
              \/ (exists d k stacks st un,
                     (i <= d < i + S n)%nat
                     /\ om_find (Z.of_nat d) (have_coins s) = Some stacks
                     /\ In (k, st) stacks
                     /\ back st = Some un
                     /\ total - used_total s <= k * 10 ^ Z.of_nat d
                        <= api.amount un
                     /\ picked_from_have un s s'
                     /\ none_covers_before (have_coins s) i
                          (total - used_total s)
                          (fun d' k' => (d' < d)%nat \/ (d' = d /\ k' < k)))).
    { intros stacks_i Hhere Hloop.
      assert (Hi : forall stacks' k' st',
                 om_find (Z.of_nat i) (have_coins s) = Some stacks' ->
                 In (k', st') stacks' ->
                 k' * 10 ^ Z.of_nat i < total - used_total s).
      { intros stacks' k' st' Hf' Hin'.
        destruct Hhere as [Hnone|[Hsome Hfail]]; [congruence|].
        rewrite Hsome in Hf'. injection Hf' as <-.
        rewrite Forall_forall in Hfail. specialize (Hfail _ Hin').
        cbn [fst snd] in Hfail.
        destruct (stack_round_amount s i stacks_i k' st' Hne Hall Hsome Hin')
          as (Hst & Hround & _).
        destruct Hfail as [Hfail|Hfail]; [contradiction|].
        rewrite !u64_small in Hfail by lia. exact Hfail. }
      destruct (IH (S i) _ total s s' Hs Hne Hall Hneed ltac:(lia) Hnext Hloop)
        as [[-> Hnc]|(d & k & stacks & st & un & Hd & Hf & Hk & Hb & Hle & Hp & Hnc)].
      - left. split; [reflexivity|].
        intros d' stacks' k' st' Hd' Hbefore Hf' Hin'.
        destruct (Nat.eq_dec d' i) as [->|Hne'];
          [exact (Hi _ _ _ Hf' Hin')|].
        apply (Hnc d' stacks' k' st'); [lia | lia | exact Hf' | exact Hin'].
      - right. exists d, k, stacks, st, un.
        split; [lia|]. split; [exact Hf|]. split; [exact Hk|].
        split; [exact Hb|]. split; [exact Hle|]. split; [exact Hp|].
        intros d' stacks' k' st' Hd' Hbefore Hf' Hin'.
        destruct (Nat.eq_dec d' i) as [->|Hne'];
          [exact (Hi _ _ _ Hf' Hin')|].
        apply (Hnc d' stacks' k' st'); [lia | exact Hbefore | exact Hf' | exact Hin']. }
    destruct (om_find (Z.of_nat i) (have_coins s)) as [stacks|] eqn:Hf.
    2: { intros Hloop. apply (Hrest []); [now left | exact Hloop]. }
    pose proof (large_coin_scan_first (10 ^ Z.of_nat i)
                  (u64 (total - used_total s)) stacks) as Hscan.
    destruct (large_coin_scan (10 ^ Z.of_nat i) (u64 (total - used_total s))
                stacks) as [k|].
    2: { intros Hloop. apply (Hrest stacks); [right; now split | exact Hloop]. }
    intros Htake. right.
    destruct Hscan as (pre & st & post & Hstacks & Hst & Hle & Hpre).
    assert (Hk : In (k, st) stacks)
      by (rewrite Hstacks; apply in_or_app; right; now left).
    destruct (stack_round_amount s i stacks k st Hne Hall Hf Hk)
      as (_ & Hround & Hcoins).
    rewrite !u64_small in Hle by lia.
    destruct (take_have_picked _ _ _ _ _ Hs Hne Hf Hk)
      as (un & s2 & Hb & Ht & Hp).
    rewrite Htake in Ht. injection Ht as <-.
    exists i, k, stacks, st, un.
    split; [lia|]. split; [exact Hf|]. split; [exact Hk|].
    split; [exact Hb|]. split.
    { split; [exact Hle|]. apply Hcoins.
      apply back_Some in Hb. rewrite Hb. apply in_or_app. right. now left. }
    split; [exact Hp|].
    intros d' stacks' k' st' Hd' [Hlt|[-> Hlt]] Hf' Hin'; [lia|].
    rewrite Hf in Hf'. injection Hf' as <-.
    assert (Hss : om_sorted stacks).
    { destruct Hs as [[_ Hsin] _]. rewrite Forall_forall in Hsin.
      exact (Hsin _ (om_find_In _ _ _ _ Hf)). }
    pose proof Hin' as Hin''. rewrite Hstacks in Hin'', Hss.
    pose proof (om_sorted_before _ _ _ _ _ _ Hss Hin'' Hlt) as Hinpre.
    rewrite Forall_forall in Hpre. specialize (Hpre _ Hinpre).
    cbn [fst snd] in Hpre.
    destruct (stack_round_amount s i stacks k' st' Hne Hall Hf Hin')
      as (Hst' & Hround' & _).
    destruct Hpre as [Hpre|Hpre]; [contradiction|].
    rewrite !u64_small in Hpre by lia. exact Hpre.
Qed.

(** X15.  The search for one coin that covers the rest, when the picks so
    far do not reach the amount: it goes through the digits upwards and
    through the leading digits of a digit upwards, and takes the last coin
    of the first stack whose round amount (leading digit times the power of
    ten) is at least the rest; that coin is then at least the rest, so it
    covers the amount when the sum does not wrap.  When no stack has such a
    round amount it takes nothing. *)
Theorem large_coin_covers (max_digit : nat) (total : Z) (s s' : Sel) :
  sorted_ok s -> nonempty_ok s ->
  have_all filed_have (have_coins s) ->
  0 <= total ->
  0 <= total - used_total s < 2 ^ 64 ->
  (max_digit <= 19)%nat ->
  large_coin_loop (S max_digit) 0 1 total s = Ok s' ->
  let need := total - used_total s in
  (s' = s
   /\ none_covers_before (have_coins s) 0 need
        (fun d' _ => (d' <= max_digit)%nat))
  \/ (exists (d : nat) (k : Z) (stacks : omap (list api.Output))
             (st : list api.Output) (un : api.Output),
        (d <= max_digit)%nat
        /\ om_find (Z.of_nat d) (have_coins s) = Some stacks
        /\ In (k, st) stacks
        /\ back st = Some un
        /\ need <= k * 10 ^ Z.of_nat d <= api.amount un
        /\ picked_from_have un s s'
        /\ (used_total s + api.amount un < 2 ^ 64 -> total <= used_total s')
        /\ none_covers_before (have_coins s) 0 need
             (fun d' k' => (d' < d)%nat \/ (d' = d /\ k' < k))).
Proof.
  intros Hs Hne Hall Htotal Hneed Hmd Hloop need.
  destruct (large_coin_loop_first (S max_digit) 0 1 total s s' Hs Hne Hall Hneed
              ltac:(lia) ltac:(right; reflexivity) Hloop)
    as [[-> Hnc]|(d & k & stacks & st & un & Hd & Hf & Hk & Hb & Hle & Hp & Hnc)].
  - left. split; [reflexivity|].
    intros d' stacks' k' st' Hd' Hbefore Hf' Hin'.
    apply (Hnc d' stacks' k' st'); [lia | lia | exact Hf' | exact Hin'].
  - right. exists d, k, stacks, st, un.
    split; [lia|]. split; [exact Hf|]. split; [exact Hk|]. split; [exact Hb|].
    split; [exact Hle|]. split; [exact Hp|]. split; [|exact Hnc].
    intros Hsum. destruct Hp as (_ & Hu & _). rewrite Hu.
    fold need in Hle. unfold need in *.
    assert (0 <= used_total s + api.amount un) by lia.
    rewrite u64_small by lia. lia.
Qed.

(* ================================================================== *)
(** * The compaction of tall stacks *)

(** A scan that finds no stack leaves its accumulator as it was, and has
    seen no stack above the weight it started with. *)
Lemma best_stack_inner_none (d : Z) (l : omap (list api.Output))
    (acc : nat * option (Z * Z)) :
  snd (fold_left (best_stack_step d) l acc) = None ->
  fold_left (best_stack_step d) l acc = acc
  /\ Forall (fun ait => (length (snd ait) <= fst acc)%nat) l.
Proof.
  revert acc. induction l as [|ait l IH]; intros acc Hn; cbn [fold_left] in *.
  - split; [reflexivity | constructor].
  - destruct (IH _ Hn) as [E Hall]. rewrite E in *.
    unfold best_stack_step in *.
    destruct (fst acc <? length (snd ait))%nat eqn:El; [discriminate Hn|].
    apply Nat.ltb_ge in El.
    split; [reflexivity | constructor; assumption].
Qed.

Lemma best_stack_outer_start (have : HaveCoins) (acc : nat * option (Z * Z)) :
  snd (fold_left (fun acc hit => fold_left (best_stack_step (fst hit)) (snd hit) acc)
                 have acc) = None ->
  snd acc = None.
Proof.
  revert acc. induction have as [|hit have IH]; intros acc Hn; cbn [fold_left] in *.
  - exact Hn.
  - apply IH in Hn.
    destruct (best_stack_inner_none _ _ _ Hn) as [E _].
    now rewrite E in Hn.
Qed.

Lemma best_stack_outer_none (have : HaveCoins) (acc : nat * option (Z * Z)) :
  snd (fold_left (fun acc hit => fold_left (best_stack_step (fst hit)) (snd hit) acc)
                 have acc) = None ->
  stacks_at_most (fst acc) have.
Proof.
  revert acc. induction have as [|hit have IH]; intros acc Hn; cbn [fold_left] in *.
  - constructor.
  - pose proof (IH _ Hn) as Hrest.
    pose proof (best_stack_outer_start _ _ Hn) as Hs.
    destruct (best_stack_inner_none _ _ _ Hs) as [E Hall].
    rewrite E in Hrest.
    constructor; assumption.
Qed.

(** When the scan for [best_stack] leaves the pointer null, no stack is
    taller than [STACK_OPTIMIZATION_THRESHOLD]. *)
Lemma find_best_stack_none (have : HaveCoins) :
  snd (find_best_stack have) = None ->
  stacks_at_most STACK_OPTIMIZATION_THRESHOLD have.
Proof.
  unfold find_best_stack. intros Hn.
  exact (best_stack_outer_none _ _ Hn).
Qed.

(** What [n] turns of the loop that empties [best_stack] do to the state. *)
Lemma take_stack_times_effect (n : nat) (d k : Z) (s s' : Sel) :
  sorted_ok s ->
  0 <= used_total s < 2 ^ 64 -> 0 <= inputs_count s < 2 ^ 64 ->
  take_stack_times n d k s = Ok s' ->
  sorted_ok s'
  /\ 0 <= used_total s' < 2 ^ 64 /\ 0 <= inputs_count s' < 2 ^ 64
  /\ exists picks,
      length picks = n
      /\ optimization_unspents s' = optimization_unspents s ++ picks
      /\ used_total s' = u64 (used_total s + sum_amounts picks)
      /\ inputs_count s' = u64 (inputs_count s + Z.of_nat n)
      /\ m_used_unspents (this s') = m_used_unspents (this s)
      /\ dust_coins s' = dust_coins s
      /\ Permutation (have_list (have_coins s)) (picks ++ have_list (have_coins s')).
Proof.
  revert s. induction n as [|n IH]; intros s Hs Hu Hi Ht; cbn [take_stack_times] in Ht.
  - injection Ht as <-. repeat (split; [assumption|]).
    exists []. cbn [length app sum_amounts fold_right Z.of_nat].
    rewrite app_nil_r, !Z.add_0_r, !u64_small by assumption.
    repeat split; reflexivity.
  - destruct (take_stack d k s) as [s1| | |] eqn:E1; try discriminate Ht.
    cbn in Ht.
    destruct (take_stack_effect _ _ _ _ Hs E1) as (Hs1 & un & Hthis & Hd1 & Hp1 & _).
    assert (Hu1 : 0 <= used_total s1 < 2 ^ 64).
    { unfold used_total. rewrite Hthis. cbn [m_used_total use_unspent]. apply u64_range. }
    assert (Hi1 : 0 <= inputs_count s1 < 2 ^ 64).
    { unfold inputs_count. rewrite Hthis. cbn [m_inputs_count use_unspent]. apply u64_range. }
    destruct (IH s1 Hs1 Hu1 Hi1 Ht)
      as (Hs' & Hu' & Hi' & picks & Hlen & Hopt & Hused & Hcnt & Huu & Hd & Hp).
    repeat (split; [assumption|]).
    exists (un :: picks). unfold optimization_unspents, used_total, inputs_count in *.
    rewrite Hthis in Hopt, Hused, Hcnt, Huu.
    cbn [m_optimization_unspents m_used_total m_inputs_count m_used_unspents
         use_unspent push_back] in Hopt, Hused, Hcnt, Huu.
    split; [cbn [length]; now rewrite Hlen|].
    split; [rewrite Hopt; unfold push_back; rewrite <- app_assoc; reflexivity|].
    split.
    { rewrite Hused, u64_add_l. f_equal. cbn [sum_amounts fold_right].
      fold (sum_amounts picks). lia. }
    split; [rewrite Hcnt, u64_add_l; f_equal; lia|].
    split; [exact Huu|].
    split; [now rewrite Hd|].
    rewrite Hp1. cbn [app]. now apply perm_skip.
Qed.

(** The loop that compacts tall stacks, from any state in which it returns. *)
Lemma stack_loop_effect (fuel count : nat) (s : Sel) (count' : nat) (s' : Sel) :
  sorted_ok s ->
  0 <= used_total s < 2 ^ 64 -> 0 <= inputs_count s < 2 ^ 64 ->
  stack_loop fuel count s = Ok (count', s') ->
  exists picks,
    optimization_unspents s' = optimization_unspents s ++ picks
    /\ (count' + length picks = count)%nat
    /\ Nat.divide 10 (length picks)
    /\ used_total s' = u64 (used_total s + sum_amounts picks)
    /\ inputs_count s' = u64 (inputs_count s + Z.of_nat (length picks))
    /\ m_used_unspents (this s') = m_used_unspents (this s)
    /\ dust_coins s' = dust_coins s
    /\ Permutation (have_list (have_coins s)) (picks ++ have_list (have_coins s'))
    /\ ((count' < 10)%nat
        \/ stacks_at_most STACK_OPTIMIZATION_THRESHOLD (have_coins s')).
Proof.
  assert (Hstop : forall c (t : Sel),
    0 <= used_total t < 2 ^ 64 -> 0 <= inputs_count t < 2 ^ 64 ->
    (c < 10)%nat \/ stacks_at_most STACK_OPTIMIZATION_THRESHOLD (have_coins t) ->
    exists picks,
      optimization_unspents t = optimization_unspents t ++ picks
      /\ (c + length picks = c)%nat
      /\ Nat.divide 10 (length picks)
      /\ used_total t = u64 (used_total t + sum_amounts picks)
      /\ inputs_count t = u64 (inputs_count t + Z.of_nat (length picks))
      /\ m_used_unspents (this t) = m_used_unspents (this t)
      /\ dust_coins t = dust_coins t
      /\ Permutation (have_list (have_coins t)) (picks ++ have_list (have_coins t))
      /\ ((c < 10)%nat
          \/ stacks_at_most STACK_OPTIMIZATION_THRESHOLD (have_coins t))).
  { intros c t Hu Hi Hend. exists [].
    cbn [length app sum_amounts fold_right Z.of_nat].
    rewrite app_nil_r, !Z.add_0_r, !u64_small by assumption.
    repeat (split; [first [reflexivity | lia | apply Nat.divide_0_r]|]).
    exact Hend. }
  revert count s. induction fuel as [|fuel IH]; intros count s Hs Hu Hi Hr;
    cbn [stack_loop] in Hr;
    destruct (count <? 10)%nat eqn:Ec.
  - injection Hr as <- <-. apply Nat.ltb_lt in Ec. apply Hstop; auto.
  - discriminate Hr.
  - injection Hr as <- <-. apply Nat.ltb_lt in Ec. apply Hstop; auto.
  - apply Nat.ltb_ge in Ec.
    destruct (snd (find_best_stack (have_coins s))) as [[d k]|] eqn:Eb.
    + destruct (take_stack_times 10 d k s) as [s1| | |] eqn:E1; try discriminate Hr.
      cbn in Hr.
      destruct (take_stack_times_effect _ _ _ _ _ Hs Hu Hi E1)
        as (Hs1 & Hu1 & Hi1 & p1 & Hl1 & Ho1 & Hus1 & Hc1 & Huu1 & Hd1 & Hp1).
      destruct (IH _ _ Hs1 Hu1 Hi1 Hr)
        as (p2 & Ho2 & Hn2 & Hdiv & Hus2 & Hc2 & Huu2 & Hd2 & Hp2 & Hend).
      exists (p1 ++ p2). rewrite length_app, Hl1.
      split; [rewrite Ho2, Ho1, app_assoc; reflexivity|].
      split; [lia|].
      split.
      { destruct Hdiv as [q Hq]. exists (S q). lia. }
      split.
      { rewrite Hus2, Hus1, u64_add_l, sum_amounts_app. f_equal. lia. }
      split.
      { rewrite Hc2, Hc1, u64_add_l. f_equal. lia. }
      split; [congruence|].
      split; [congruence|].
      split; [|exact Hend].
      rewrite Hp1, <- app_assoc. apply Permutation_app_head. exact Hp2.
    + injection Hr as <- <-. apply Hstop; auto.
      right. now apply find_best_stack_none.
Qed.

(** X16.  The compaction of tall stacks (the [while (optimization_count >=
    10)] loop of the private [select_optimal_outputs]) always returns: from
    maps in key order without empty stacks it never takes the [back] of an
    empty stack.  It spends coins by tens, each ten charged to the
    optimization count; the coins go to the end of
    [m_optimization_unspents], [m_used_total] and [m_inputs_count] grow by
    their amounts and their number, the dust map and [m_used_unspents] are
    untouched, and the coins taken and the coins left are the coins that
    were there.  No stack is emptied.  The loop ends with a count below 10
    or with no stack above [STACK_OPTIMIZATION_THRESHOLD] coins. *)
Theorem stack_compaction (count : nat) (s : Sel) :
  sorted_ok s -> nonempty_ok s ->
  0 <= used_total s < 2 ^ 64 -> 0 <= inputs_count s < 2 ^ 64 ->
  exists (count' : nat) (s' : Sel) (picks : list api.Output),
    stack_loop count count s = Ok (count', s')
    /\ optimization_unspents s' = optimization_unspents s ++ picks
    /\ (count' + length picks = count)%nat
    /\ Nat.divide 10 (length picks)
    /\ used_total s' = u64 (used_total s + sum_amounts picks)
    /\ inputs_count s' = u64 (inputs_count s + Z.of_nat (length picks))
    /\ m_used_unspents (this s') = m_used_unspents (this s)
    /\ dust_coins s' = dust_coins s
    /\ Permutation (have_list (have_coins s)) (picks ++ have_list (have_coins s'))
    /\ sorted_ok s' /\ nonempty_ok s'
    /\ ((count' < 10)%nat
        \/ stacks_at_most STACK_OPTIMIZATION_THRESHOLD (have_coins s')).
Proof.
  intros Hs Hn Hu Hi.
  pose proof (stack_loop_keeps (fun _ => True) False
                (fun _ _ _ _ _ _ _ => I) count count s
                (conj Hs (conj Hn I)) (le_n _)) as Hk.
  destruct (stack_loop count count s) as [[count' s']| | |] eqn:Hr;
    try contradiction; [|destruct f; contradiction].
  cbn [res_ok snd] in Hk. destruct Hk as (Hs' & Hn' & _).
  destruct (stack_loop_effect _ _ _ _ _ Hs Hu Hi Hr)
    as (picks & Ho & Hc & Hdiv & Hus & Hcn & Huu & Hd & Hp & Hend).
  exists count', s', picks.
  repeat (split; [first [reflexivity | assumption]|]).
  exact Hend.
Qed.

(* ================================================================== *)
(** * The fill with dust coins *)

(** The last entry of a map in key order has the largest key. *)
Lemma om_last_max {V : Type} (m : omap V) (e : Z * V) :
  om_sorted m -> om_last m = Some e -> Forall (fun e' => fst e' <= fst e) m.
Proof.
  unfold om_last. induction m as [|a m IH]; intros Hs Hl; [constructor|].
  destruct Hs as [Ha Hs]. destruct m as [|b m].
  - injection Hl as <-. constructor; [lia | constructor].
  - assert (Hl' : back (b :: m) = Some e) by exact Hl.
    pose proof (IH Hs Hl') as Hall.
    constructor; [|exact Hall].
    pose proof (om_last_In _ _ _ Hl') as Hin.
    rewrite Forall_forall in Ha. specialize (Ha _ Hin). lia.
Qed.

(** In a dust map keyed by the amounts, no coin is above the largest key. *)
Lemma dust_amounts_le (dust : DustCoins) (k : Z) :
  stacks_all (fun a un => api.amount un = a) dust ->
  Forall (fun e' => fst e' <= k) dust ->
  Forall (fun r => api.amount r <= k) (dust_list dust).
Proof.
  unfold stacks_all, dust_list.
  induction dust as [|[a st] dust IH]; intros Hq Hk; cbn [map concat].
  - constructor.
  - inversion Hq as [|? ? Hq1 Hq2]; subst. inversion Hk as [|? ? Hk1 Hk2]; subst.
    apply Forall_app. split; [|now apply IH].
    cbn [fst snd] in *. eapply Forall_impl; [|exact Hq1].
    intros un ->. exact Hk1.
Qed.

(** X17.  The fill with dust coins (the [while (m_used_total < total_amount
    && !dust_coins->empty() && optimization_count >= 1)] loop) always
    returns from a dust map in key order, without empty stacks, keyed by the
    amounts of its coins.  It spends one unit of the optimization count per
    coin and takes the largest dust coins first: the coins taken come in
    descending order of amount, none of them is smaller than a dust coin
    that is left, and the coins of the other map are not touched.  It takes
    no coin once the total is reached, and it ends with the total reached,
    the dust map empty or the count used up. *)
Theorem dust_fill_largest_first (count : nat) (total_amount : Z) (s : Sel) :
  sorted_ok s -> nonempty_ok s ->
  stacks_all (fun a un => api.amount un = a) (dust_coins s) ->
  0 <= used_total s < 2 ^ 64 ->
  exists (count' : nat) (s' : Sel) (picks : list api.Output),
    dust_fill_loop count total_amount s = Ok (count', s')
    /\ optimization_unspents s' = optimization_unspents s ++ picks
    /\ (count' + length picks = count)%nat
    /\ used_total s' = u64 (used_total s + sum_amounts picks)
    /\ have_coins s' = have_coins s
    /\ Permutation (dust_list (dust_coins s)) (picks ++ dust_list (dust_coins s'))
    /\ StronglySorted (fun a b => api.amount b <= api.amount a) picks
    /\ Forall (fun p => Forall (fun r => api.amount r <= api.amount p)
                               (dust_list (dust_coins s'))) picks
    /\ (forall l1 l2, picks = l1 ++ l2 -> l2 <> [] ->
          u64 (used_total s + sum_amounts l1) < total_amount)
    /\ (total_amount <= used_total s' \/ dust_coins s' = [] \/ count' = 0%nat).
Proof.
  assert (Hstop : forall c (t : Sel),
    0 <= used_total t < 2 ^ 64 ->
    total_amount <= used_total t \/ dust_coins t = [] \/ c = 0%nat ->
    exists (count' : nat) (s' : Sel) (picks : list api.Output),
      Ok (c, t) = Ok (count', s')
      /\ optimization_unspents s' = optimization_unspents t ++ picks
      /\ (count' + length picks = c)%nat
      /\ used_total s' = u64 (used_total t + sum_amounts picks)
      /\ have_coins s' = have_coins t
      /\ Permutation (dust_list (dust_coins t)) (picks ++ dust_list (dust_coins s'))
      /\ StronglySorted (fun a b => api.amount b <= api.amount a) picks
      /\ Forall (fun p => Forall (fun r => api.amount r <= api.amount p)
                                 (dust_list (dust_coins s'))) picks
      /\ (forall l1 l2, picks = l1 ++ l2 -> l2 <> [] ->
            u64 (used_total t + sum_amounts l1) < total_amount)
      /\ (total_amount <= used_total s' \/ dust_coins s' = [] \/ count' = 0%nat)).
  { intros c t Hu Hend. exists c, t, [].
    cbn [length app sum_amounts fold_right].
    rewrite app_nil_r, Z.add_0_r, u64_small by assumption.
    split; [reflexivity|]. split; [reflexivity|]. split; [lia|].
    split; [reflexivity|]. split; [reflexivity|]. split; [reflexivity|].
    split; [constructor|]. split; [constructor|].
    split; [|exact Hend].
    intros l1 l2 E Hne. symmetry in E. apply app_eq_nil in E as [_ ->].
    now elim Hne. }
  revert s. induction count as [|count IH]; intros s Hs Hn Hq Hu;
    cbn [dust_fill_loop].
  - apply Hstop; auto.
  - destruct (used_total s <? total_amount) eqn:Elt.
    2:{ apply Z.ltb_ge in Elt. apply Hstop; auto. }
    apply Z.ltb_lt in Elt.
    destruct (om_last (dust_coins s)) as [duit|] eqn:El.
    2:{ apply (om_last_None _ _) in El. apply Hstop; auto. }
    pose proof (om_last_In _ _ _ El) as Hin.
    assert (Hne : snd duit <> []).
    { destruct Hn as [_ Hd]. unfold stacks_nonempty in Hd.
      rewrite Forall_forall in Hd. exact (Hd _ Hin). }
    destruct (take_dust_defined duit s Hne) as (un0 & _ & Ht).
    rewrite Ht. cbn.
    destruct (take_dust_effect _ _ _ Hs Hin Ht) as (un & Hthis & Hh & Hp & HQ).
    destruct (take_dust_shape _ _ _ Hs Hin Ht) as (Hs1 & Hn1 & _ & _).
    destruct (HQ _ Hq) as [Hq1 Hun]. cbn beta in Hun.
    set (s1 := mkSel (use_unspent un0 (this s)) (have_coins s)
                     (dust_pop duit (dust_coins s))) in *.
    assert (Hused1 : used_total s1 = u64 (used_total s + api.amount un)).
    { unfold used_total. rewrite Hthis. reflexivity. }
    assert (Hu1 : 0 <= used_total s1 < 2 ^ 64).
    { rewrite Hused1. apply u64_range. }
    destruct (IH s1 Hs1 (Hn1 Hn) Hq1 Hu1)
      as (count' & s' & picks & Hr & Ho & Hc & Hus & Hh' & Hp' & Hsorted & Hrest
          & Hneed & Hend).
    assert (Hle : Forall (fun r => api.amount r <= api.amount un)
                         (picks ++ dust_list (dust_coins s'))).
    { eapply Permutation_Forall; [exact Hp'|].
      assert (Hall : Forall (fun r => api.amount r <= api.amount un)
                            (un :: dust_list (dust_coins s1))).
      { eapply Permutation_Forall; [exact Hp|].
        rewrite Hun. apply dust_amounts_le; [exact Hq|].
        apply om_last_max; [exact (proj2 Hs) | exact El]. }
      now inversion Hall. }
    apply Forall_app in Hle as [Hle1 Hle2].
    exists count', s', (un :: picks).
    split; [exact Hr|].
    split.
    { rewrite Ho. unfold optimization_unspents. rewrite Hthis.
      cbn [m_optimization_unspents use_unspent]. unfold push_back.
      now rewrite <- app_assoc. }
    split; [cbn [length]; lia|].
    split.
    { rewrite Hus, Hused1, u64_add_l. f_equal.
      cbn [sum_amounts fold_right]. fold (sum_amounts picks). lia. }
    split; [now rewrite Hh'|].
    split; [rewrite Hp; cbn [app]; now apply perm_skip|].
    split; [constructor; assumption|].
    split; [constructor; assumption|].
    split; [|exact Hend].
    intros l1 l2 E Hne2. destruct l1 as [|x l1].
    + cbn [sum_amounts fold_right]. rewrite Z.add_0_r, u64_small by assumption.
      exact Elt.
    + cbn [app] in E. injection E as <- E.
      pose proof (Hneed l1 l2 E Hne2) as Hlt.
      rewrite Hused1, u64_add_l in Hlt.
      cbn [sum_amounts fold_right]. fold (sum_amounts l1).
      now rewrite Z.add_assoc.
Qed.

(* ================================================================== *)
(** * The fill with the largest coins *)

Lemma have_list_In (have : HaveCoins) (r : api.Output) :
  In r (have_list have) ->
  exists d stacks k st, In (d, stacks) have /\ In (k, st) stacks /\ In r st.
Proof.
  unfold have_list. intros H. apply in_concat in H as (l & Hl & Hr).
  apply in_map_iff in Hl as ([d stacks] & <- & Hd). cbn [snd] in Hr.
  apply in_concat in Hr as (st & Hst & Hr).
  apply in_map_iff in Hst as ([k st'] & <- & Hk). cbn [snd] in Hr.
  now exists d, stacks, k, st'.
Qed.

Lemma back_In {A : Type} (l : list A) (x : A) : back l = Some x -> In x l.
Proof.
  intros H. apply back_Some in H. rewrite H. apply in_or_app. right. now left.
Qed.

(** The round amounts grow with the keys of the stacks. *)
Lemma round_amount_le (d k d' k' : Z) :
  0 <= d' -> 1 <= k' <= 9 -> 0 <= d -> 1 <= k <= 9 ->
  d' < d \/ (d' = d /\ k' <= k) -> k' * 10 ^ d' <= k * 10 ^ d.
Proof.
  intros Hd' Hk' Hd Hk [Hlt | [-> Hle]].
  - assert (E : 10 ^ d = 10 ^ d' * 10 ^ (d - d')).
    { rewrite <- Z.pow_add_r by lia. f_equal. lia. }
    assert (H10 : 10 ^ 1 <= 10 ^ (d - d')) by (apply Z.pow_le_mono_r; lia).
    change (10 ^ 1) with 10 in H10.
    assert (Hp : 0 < 10 ^ d') by (apply Z.pow_pos_nonneg; lia).
    rewrite E. nia.
  - assert (Hp : 0 < 10 ^ d) by (apply Z.pow_pos_nonneg; lia). nia.
Qed.

(** The coin whose amount is [ha_amount] is a largest coin of the map. *)
Lemma top_have_largest (have : HaveCoins) (dit : Z * omap (list api.Output))
    (ait : Z * list api.Output) (un : api.Output) :
  have_sorted have -> have_all round_have have ->
  om_last have = Some dit -> om_last (snd dit) = Some ait ->
  back (snd ait) = Some un ->
  Forall (fun r => api.amount r <= api.amount un) (have_list have).
Proof.
  intros [Hs Hsin] Hr Hdit Hait Hun.
  pose proof (om_last_In _ _ _ Hdit) as Hin1.
  pose proof (om_last_In _ _ _ Hait) as Hin2.
  pose proof (back_In _ _ Hun) as Hin3.
  unfold have_all, stacks_all in Hr. rewrite Forall_forall in Hr, Hsin.
  assert (Hround : forall d stacks k st r,
            In (d, stacks) have -> In (k, st) stacks -> In r st ->
            round_have d k r).
  { intros d stacks k st r H1 H2 H3. specialize (Hr _ H1). cbn [fst snd] in Hr.
    rewrite Forall_forall in Hr. specialize (Hr _ H2). cbn [fst snd] in Hr.
    rewrite Forall_forall in Hr. exact (Hr _ H3). }
  destruct dit as [d stacks]. destruct ait as [k st]. cbn [fst snd] in *.
  destruct (Hround _ _ _ _ _ Hin1 Hin2 Hin3) as (Hd & Hk & Ea).
  apply Forall_forall. intros r Hin.
  destruct (have_list_In _ _ Hin) as (d' & stacks' & k' & st' & H1 & H2 & H3).
  destruct (Hround _ _ _ _ _ H1 H2 H3) as (Hd' & Hk' & Ea').
  rewrite Ea, Ea'. apply round_amount_le; try assumption.
  pose proof (om_last_max _ _ Hs Hdit) as Hmax.
  rewrite Forall_forall in Hmax. specialize (Hmax _ H1). cbn [fst] in Hmax.
  destruct (Z.eq_dec d' d) as [->|Hne]; [right | left; lia].
  split; [reflexivity|].
  assert (stacks' = stacks).
  { pose proof (om_In_find _ _ _ _ Hs H1) as F1.
    pose proof (om_In_find _ _ _ _ Hs Hin1) as F2. congruence. }
  subst stacks'.
  pose proof (om_last_max _ _ (Hsin _ Hin1) Hait) as Hmax2.
  rewrite Forall_forall in Hmax2. exact (Hmax2 _ H2).
Qed.

Lemma keyed_dust_le (dust : DustCoins) (k : Z) :
  stacks_all keyed_dust dust ->
  Forall (fun e' => fst e' <= k) dust ->
  Forall (fun r => api.amount r <= k) (dust_list dust).
Proof.
  intros Hq. apply dust_amounts_le.
  unfold stacks_all in *. eapply Forall_impl; [|exact Hq]. cbv beta.
  intros ait H. eapply Forall_impl; [|exact H]. now intros un [E _].
Qed.

(** One turn of the last loop below the total: it leaves with [false] when
    there is no coin to take, and otherwise takes a largest coin. *)
Lemma filler_loop_turn (total_amount anonymity : Z) (s : Sel) :
  filler_ready s -> used_total s < total_amount ->
  (have_coins s = [] /\ (anonymity <> 0 \/ dust_coins s = [])
   /\ forall fuel, filler_loop (S fuel) total_amount anonymity s = Ok (false, s))
  \/ exists un s1,
       (forall fuel, filler_loop (S fuel) total_amount anonymity s
                     = filler_loop fuel total_amount anonymity s1)
       /\ this s1 = use_unspent un (this s)
       /\ filler_ready s1
       /\ coins_count s = S (coins_count s1)
       /\ Permutation (eligible anonymity s) (un :: eligible anonymity s1)
       /\ Forall (fun r => api.amount r <= api.amount un) (eligible anonymity s)
       /\ (anonymity <> 0 -> dust_coins s1 = dust_coins s).
Proof.
  intros (Hs & Hn & Hr & Hq & Hu) Hlt.
  assert (Hcond : (total_amount <=? used_total s) = false) by (apply Z.leb_gt; lia).
  (* the top of the dust map, when it is looked at *)
  assert (Hdust : anonymity = 0 -> dust_coins s <> [] ->
            exists duit und s1,
              om_last (dust_coins s) = Some duit
              /\ top_dust_amount anonymity (dust_coins s) = Ok (api.amount und)
              /\ 0 <= api.amount und
              /\ take_dust duit s = Ok s1
              /\ this s1 = use_unspent und (this s)
              /\ filler_ready s1
              /\ coins_count s = S (coins_count s1)
              /\ Permutation (eligible anonymity s) (und :: eligible anonymity s1)
              /\ Forall (fun r => api.amount r <= api.amount und)
                        (dust_list (dust_coins s))).
  { intros Han Hne.
    destruct (back_nonempty _ Hne) as [duit Hduit].
    pose proof (om_last_In _ _ _ Hduit) as Hin.
    assert (Hst : snd duit <> []).
    { destruct Hn as [_ Hd]. unfold stacks_nonempty in Hd.
      rewrite Forall_forall in Hd. exact (Hd _ Hin). }
    destruct (take_dust_defined duit s Hst) as (und & Hb & Ht).
    destruct (dust_pop_spec _ _ _ (proj2 Hs) Hin Hb) as (Hs' & Hn' & Hp & HQ).
    destruct (HQ _ Hq) as [Hq' [Ea Ea0]].
    exists duit, und, (mkSel (use_unspent und (this s)) (have_coins s)
                             (dust_pop duit (dust_coins s))).
    split; [exact Hduit|].
    split.
    { unfold top_dust_amount. subst anonymity. cbn [Z.eqb andb].
      apply is_empty_false in Hne. rewrite Hne. cbn [negb].
      unfold om_last in *. rewrite Hduit, Hb. reflexivity. }
    split; [lia|].
    split; [exact Ht|].
    split; [reflexivity|].
    split.
    { split; [split; [exact (proj1 Hs) | exact Hs']|].
      split; [split; [exact (proj1 Hn) | exact (Hn' (proj2 Hn))]|].
      split; [exact Hr|]. split; [exact Hq'|].
      unfold used_total. cbn [this m_used_total use_unspent]. apply u64_range. }
    split.
    { unfold coins_count. cbn [have_coins dust_coins]. rewrite !length_app.
      apply Permutation_length in Hp. cbn [length] in Hp. lia. }
    split.
    { unfold eligible. subst anonymity. cbn [Z.eqb have_coins dust_coins].
      rewrite Hp. apply Permutation_sym, Permutation_middle. }
    rewrite Ea. apply keyed_dust_le; [exact Hq|].
    apply om_last_max; [exact (proj2 Hs) | exact Hduit]. }
  (* the top of the map of the coins *)
  assert (Hhave : have_coins s <> [] ->
            exists dit ait unh s1,
              om_last (have_coins s) = Some dit
              /\ om_last (snd dit) = Some ait
              /\ top_have_amount (have_coins s) = Ok (api.amount unh)
              /\ 0 < api.amount unh
              /\ take_have (fst dit) (fst ait) s = Ok s1
              /\ this s1 = use_unspent unh (this s)
              /\ filler_ready s1
              /\ coins_count s = S (coins_count s1)
              /\ Permutation (eligible anonymity s) (unh :: eligible anonymity s1)
              /\ dust_coins s1 = dust_coins s
              /\ Forall (fun r => api.amount r <= api.amount unh)
                        (have_list (have_coins s))).
  { intros Hne.
    destruct (top_have_amount_defined _ (proj1 Hn) Hne)
      as (dit & ait & unh & Hdit & Hait & Hb & Htop).
    pose proof (om_last_In _ _ _ Hdit) as Hin1.
    pose proof (om_last_In _ _ _ Hait) as Hin2.
    pose proof (top_have_largest _ _ _ _ (proj1 Hs) Hr Hdit Hait Hb) as Hmax.
    destruct Hs as [[Hsh Hsin] Hsd].
    assert (Hss : om_sorted (snd dit)).
    { rewrite Forall_forall in Hsin. exact (Hsin _ Hin1). }
    destruct dit as [d stacks]. destruct ait as [k st]. cbn [fst snd] in *.
    pose proof (om_In_find _ _ _ _ Hsh Hin1) as Hf1.
    pose proof (om_In_find _ _ _ _ Hss Hin2) as Hf2.
    assert (Hbk : back (om_at k stacks) = Some unh).
    { now rewrite (om_at_found _ _ _ Hf2). }
    destruct (have_pop_spec _ _ _ _ _ (conj Hsh Hsin) Hf1 Hbk)
      as (Hs' & Hn' & Hp & HQ).
    destruct (HQ _ Hr) as [Hr' (Hd0 & Hk0 & Ea)].
    exists (d, stacks), (k, st), unh,
           (mkSel (use_unspent unh (this s))
                  (have_pop d k stacks (have_coins s)) (dust_coins s)).
    cbn [fst snd].
    split; [exact Hdit|]. split; [exact Hait|]. split; [exact Htop|].
    split.
    { rewrite Ea. assert (0 < 10 ^ d) by (apply Z.pow_pos_nonneg; lia). nia. }
    split.
    { unfold take_have. rewrite Hf1, Hbk. reflexivity. }
    split; [reflexivity|].
    split.
    { split; [split; [exact Hs' | exact Hsd]|].
      split; [split; [exact (Hn' (proj1 Hn)) | exact (proj2 Hn)]|].
      split; [exact Hr'|]. split; [exact Hq|].
      unfold used_total. cbn [this m_used_total use_unspent]. apply u64_range. }
    split.
    { unfold coins_count. cbn [have_coins dust_coins]. rewrite !length_app.
      apply Permutation_length in Hp. cbn [length] in Hp. lia. }
    split.
    { unfold eligible. cbn [have_coins dust_coins]. rewrite Hp. reflexivity. }
    split; [reflexivity | exact Hmax]. }
  destruct (is_empty (have_coins s)) eqn:Eh;
    [apply is_empty_true in Eh | apply is_empty_false in Eh];
    (destruct (is_empty (dust_coins s)) eqn:Ed;
     [apply is_empty_true in Ed | apply is_empty_false in Ed]);
    pose proof Eh as Eh'; pose proof Ed as Ed';
    first [apply is_empty_true in Eh' | apply is_empty_false in Eh'];
    first [apply is_empty_true in Ed' | apply is_empty_false in Ed'];
    destruct (Z.eq_dec anonymity 0) as [Han|Han];
    pose proof Han as Han'; first [apply Z.eqb_eq in Han' | apply Z.eqb_neq in Han'].
  - (* no coin at all *)
    left. split; [exact Eh|]. split; [now right|].
    intros fuel. cbn [filler_loop]. rewrite Hcond, Eh', Ed'.
    cbn [andb]. now rewrite orb_true_r.
  - left. split; [exact Eh|]. split; [now right|].
    intros fuel. cbn [filler_loop]. rewrite Hcond, Eh', Ed'.
    cbn [andb]. now rewrite orb_true_r.
  - (* dust coins only *)
    right.
    destruct (Hdust Han Ed)
      as (duit & und & s1 & Hduit & Htop & Hpos & Ht & Hthis & Hready & Hc
          & Hp & Hmax).
    exists und, s1.
    split.
    { intros fuel. cbn [filler_loop]. rewrite Hcond, Eh', Ed', Han'.
      cbn [andb negb orb]. rewrite Eh at 1.
      cbn [top_have_amount om_last back bind].
      rewrite Htop. cbn [bind].
      destruct (Z.ltb_spec (api.amount und) 0) as [Hneg|_]; [lia|].
      rewrite Hduit, Ht. reflexivity. }
    split; [exact Hthis|]. split; [exact Hready|]. split; [exact Hc|].
    split; [exact Hp|].
    split; [|intros H; contradiction].
    unfold eligible. rewrite Eh, Han'. cbn [have_list map concat app].
    exact Hmax.
  - left. split; [exact Eh|]. split; [now left|].
    intros fuel. cbn [filler_loop]. rewrite Hcond, Eh', Han'. reflexivity.
  - (* round coins only *)
    right.
    destruct (Hhave Eh)
      as (dit & ait & unh & s1 & Hdit & Hait & Htop & Hpos & Ht & Hthis & Hready
          & Hc & Hp & Hd1 & Hmax).
    exists unh, s1.
    split.
    { intros fuel. cbn [filler_loop]. rewrite Hcond, Eh'.
      cbn [andb]. rewrite Htop. cbn [bind].
      unfold top_dust_amount. rewrite Ed'. cbn [negb].
      rewrite andb_false_r. cbn [bind].
      destruct (Z.ltb_spec 0 (api.amount unh)) as [_|Hneg]; [|lia].
      rewrite Hdit, Hait, Ht. reflexivity. }
    split; [exact Hthis|]. split; [exact Hready|]. split; [exact Hc|].
    split; [exact Hp|].
    split; [|intros H; contradiction].
    unfold eligible. rewrite Ed. cbn [dust_list map concat].
    destruct (anonymity =? 0); rewrite app_nil_r; exact Hmax.
  - right.
    destruct (Hhave Eh)
      as (dit & ait & unh & s1 & Hdit & Hait & Htop & Hpos & Ht & Hthis & Hready
          & Hc & Hp & Hd1 & Hmax).
    exists unh, s1.
    split.
    { intros fuel. cbn [filler_loop]. rewrite Hcond, Eh'.
      cbn [andb]. rewrite Htop. cbn [bind].
      unfold top_dust_amount. rewrite Han'. cbn [andb bind].
      destruct (Z.ltb_spec 0 (api.amount unh)) as [_|Hneg]; [|lia].
      rewrite Hdit, Hait, Ht. reflexivity. }
    split; [exact Hthis|]. split; [exact Hready|]. split; [exact Hc|].
    split; [exact Hp|].
    split; [|intros _; exact Hd1].
    unfold eligible. rewrite Han', app_nil_r. exact Hmax.
  - (* coins of both kinds *)
    right.
    destruct (Hhave Eh)
      as (dit & ait & unh & s1 & Hdit & Hait & Htop & Hpos & Ht & Hthis & Hready
          & Hc & Hp & Hd1 & Hmax).
    destruct (Hdust Han Ed)
      as (duit & und & s2 & Hduit & Htopd & Hposd & Htd & Hthisd & Hreadyd
          & Hcd & Hpd & Hmaxd).
    destruct (Z.ltb_spec (api.amount und) (api.amount unh)) as [Hcmp|Hcmp].
    + exists unh, s1.
      split.
      { intros fuel. cbn [filler_loop]. rewrite Hcond, Eh'.
        cbn [andb]. rewrite Htop. cbn [bind].
        rewrite Htopd. cbn [bind].
        apply Z.ltb_lt in Hcmp. rewrite Hcmp.
        rewrite Hdit, Hait, Ht. reflexivity. }
      split; [exact Hthis|]. split; [exact Hready|]. split; [exact Hc|].
      split; [exact Hp|].
      split; [|intros H; contradiction].
      unfold eligible. rewrite Han'.
      apply Forall_app. split; [exact Hmax|].
      eapply Forall_impl; [|exact Hmaxd]. cbv beta. intros r Hle. lia.
    + exists und, s2.
      split.
      { intros fuel. cbn [filler_loop]. rewrite Hcond, Eh'.
        cbn [andb]. rewrite Htop. cbn [bind].
        rewrite Htopd. cbn [bind].
        apply Z.ltb_ge in Hcmp. rewrite Hcmp.
        rewrite Hduit, Htd. reflexivity. }
      split; [exact Hthisd|]. split; [exact Hreadyd|]. split; [exact Hcd|].
      split; [exact Hpd|].
      split; [|intros H; contradiction].
      unfold eligible. rewrite Han'.
      apply Forall_app. split; [|exact Hmaxd].
      eapply Forall_impl; [|exact Hmax]. cbv beta. intros r Hle. lia.
  - right.
    destruct (Hhave Eh)
      as (dit & ait & unh & s1 & Hdit & Hait & Htop & Hpos & Ht & Hthis & Hready
          & Hc & Hp & Hd1 & Hmax).
    exists unh, s1.
    split.
    { intros fuel. cbn [filler_loop]. rewrite Hcond, Eh'.
      cbn [andb]. rewrite Htop. cbn [bind].
      unfold top_dust_amount. rewrite Han'. cbn [andb bind].
      destruct (Z.ltb_spec 0 (api.amount unh)) as [_|Hneg]; [|lia].
      rewrite Hdit, Hait, Ht. reflexivity. }
    split; [exact Hthis|]. split; [exact Hready|]. split; [exact Hc|].
    split; [exact Hp|].
    split; [|intros _; exact Hd1].
    unfold eligible. rewrite Han', app_nil_r. exact Hmax.
Qed.

(** X18.  The last loop of the private [select_optimal_outputs] ([while
    (m_used_total < total_amount)]), entered with round coins in
    [have_coins] and the dust coins under their amounts, always returns and
    takes the largest coins first: every coin it takes is at least as large
    as every coin it could still take, the coins of [have_coins] and, when
    no ring is asked for, the dust coins; with a ring the dust map is left
    alone.  It takes no coin once the total is reached.  It leaves with
    [true] when the total is reached and with [false] when the total is not
    reached and no coin that it could take is left. *)
Theorem filler_takes_largest (fuel : nat) (total_amount anonymity : Z) (s : Sel) :
  sorted_ok s -> nonempty_ok s ->
  have_all round_have (have_coins s) ->
  stacks_all keyed_dust (dust_coins s) ->
  0 <= used_total s < 2 ^ 64 ->
  (coins_count s < fuel)%nat ->
  exists (covered : bool) (s' : Sel) (picks : list api.Output),
    filler_loop fuel total_amount anonymity s = Ok (covered, s')
    /\ optimization_unspents s' = optimization_unspents s ++ picks
    /\ used_total s' = u64 (used_total s + sum_amounts picks)
    /\ Permutation (eligible anonymity s) (picks ++ eligible anonymity s')
    /\ (anonymity <> 0 -> dust_coins s' = dust_coins s)
    /\ StronglySorted (fun a b => api.amount b <= api.amount a) picks
    /\ Forall (fun p => Forall (fun r => api.amount r <= api.amount p)
                               (eligible anonymity s')) picks
    /\ (forall l1 l2, picks = l1 ++ l2 -> l2 <> [] ->
          u64 (used_total s + sum_amounts l1) < total_amount)
    /\ (if covered then total_amount <= used_total s'
        else used_total s' < total_amount
             /\ have_coins s' = []
             /\ (anonymity <> 0 \/ dust_coins s' = [])).
Proof.
  intros Hs Hn Hr Hq Hu Hfuel.
  assert (Hready : filler_ready s).
  { split; [exact Hs|]. split; [exact Hn|]. split; [exact Hr|].
    split; [exact Hq | exact Hu]. }
  clear Hs Hn Hr Hq Hu.
  revert s Hready Hfuel. induction fuel as [|fuel IH]; intros s Hready Hfuel; [lia|].
  assert (Hu : 0 <= used_total s < 2 ^ 64) by apply Hready.
  assert (Hstop : forall covered,
    filler_loop (S fuel) total_amount anonymity s = Ok (covered, s) ->
    (if covered then total_amount <= used_total s
     else used_total s < total_amount /\ have_coins s = []
          /\ (anonymity <> 0 \/ dust_coins s = [])) ->
    exists (covered : bool) (s' : Sel) (picks : list api.Output),
      filler_loop (S fuel) total_amount anonymity s = Ok (covered, s')
      /\ optimization_unspents s' = optimization_unspents s ++ picks
      /\ used_total s' = u64 (used_total s + sum_amounts picks)
      /\ Permutation (eligible anonymity s) (picks ++ eligible anonymity s')
      /\ (anonymity <> 0 -> dust_coins s' = dust_coins s)
      /\ StronglySorted (fun a b => api.amount b <= api.amount a) picks
      /\ Forall (fun p => Forall (fun r => api.amount r <= api.amount p)
                                 (eligible anonymity s')) picks
      /\ (forall l1 l2, picks = l1 ++ l2 -> l2 <> [] ->
            u64 (used_total s + sum_amounts l1) < total_amount)
      /\ (if covered then total_amount <= used_total s'
          else used_total s' < total_amount
               /\ have_coins s' = []
               /\ (anonymity <> 0 \/ dust_coins s' = []))).
  { intros covered Hrun Hend. exists covered, s, [].
    cbn [length app sum_amounts fold_right].
    rewrite app_nil_r, Z.add_0_r, u64_small by assumption.
    split; [exact Hrun|]. split; [reflexivity|]. split; [reflexivity|].
    split; [reflexivity|]. split; [reflexivity|].
    split; [constructor|]. split; [constructor|].
    split; [|exact Hend].
    intros l1 l2 E Hne. symmetry in E. apply app_eq_nil in E as [_ ->].
    now elim Hne. }
  destruct (Z.leb_spec total_amount (used_total s)) as [Hcov|Hlt].
  { apply (Hstop true); [|exact Hcov].
    cbn [filler_loop]. apply Z.leb_le in Hcov. now rewrite Hcov. }
  destruct (filler_loop_turn total_amount anonymity s Hready Hlt)
    as [(Eh & Ed & Hrun) | (un & s1 & Hrun & Hthis & Hready1 & Hc & Hp & Hmax & Hd)].
  { apply (Hstop false); [apply Hrun | auto]. }
  clear Hstop.
  assert (Hused1 : used_total s1 = u64 (used_total s + api.amount un)).
  { unfold used_total. rewrite Hthis. reflexivity. }
  destruct (IH s1 Hready1 ltac:(lia))
    as (covered & s' & picks & Hr & Ho & Hus & Hp' & Hd' & Hsorted & Hrest
        & Hneed & Hend).
  assert (Hle : Forall (fun r => api.amount r <= api.amount un)
                       (picks ++ eligible anonymity s')).
  { eapply Permutation_Forall; [exact Hp'|].
    assert (Hall : Forall (fun r => api.amount r <= api.amount un)
                          (un :: eligible anonymity s1)).
    { eapply Permutation_Forall; [exact Hp | exact Hmax]. }
    now inversion Hall. }
  apply Forall_app in Hle as [Hle1 Hle2].
  exists covered, s', (un :: picks).
  split; [rewrite Hrun; exact Hr|].
  split.
  { rewrite Ho. unfold optimization_unspents. rewrite Hthis.
    cbn [m_optimization_unspents use_unspent]. unfold push_back.
    now rewrite <- app_assoc. }
  split.
  { rewrite Hus, Hused1, u64_add_l. f_equal.
    cbn [sum_amounts fold_right]. fold (sum_amounts picks). lia. }
  split; [rewrite Hp; cbn [app]; now apply perm_skip|].
  split; [intros Han; rewrite (Hd' Han); exact (Hd Han)|].
  split; [constructor; assumption|].
  split; [constructor; assumption|].
  split; [|exact Hend].
  intros l1 l2 E Hne2. destruct l1 as [|x l1].
  - cbn [sum_amounts fold_right]. rewrite Z.add_0_r, u64_small by assumption.
    exact Hlt.
  - cbn [app] in E. injection E as <- E.
    pose proof (Hneed l1 l2 E Hne2) as Hlt2.
    rewrite Hused1, u64_add_l in Hlt2.
    cbn [sum_amounts fold_right]. fold (sum_amounts l1).
    now rewrite Z.add_assoc.
Qed.

(* ================================================================== *)
(** * The single large dust coin *)

(** Without a ring the private [select_optimal_outputs] starts with
    [large_dust_step] and goes on with the fill with dust coins. *)
Lemma select_optimal_outputs_inner_dust (max_digit : nat) (total_amount : Z)
    (optimization_count : nat) (s : Sel) :
  select_optimal_outputs_inner max_digit total_amount 0 optimization_count s
  = (s1 <- large_dust_step total_amount s ;;
     '(optimization_count, s) <-
       dust_fill_loop optimization_count total_amount s1 ;;
     '(_, s) <- stack_loop optimization_count optimization_count s ;;
     s <- optimize_amounts max_digit total_amount s ;;
     if total_amount <=? used_total s then Ok (true, s)
     else
       s <- large_coin_loop (S max_digit) 0 1 total_amount s ;;
       if total_amount <=? used_total s then Ok (true, s)
       else
         let s := unoptimize_amounts s in
         let fuel :=
           S (length (have_list (have_coins s) ++ dust_list (dust_coins s))) in
         '(covered, s) <- filler_loop fuel total_amount 0 s ;;
         if covered then
           s <- optimize_amounts max_digit total_amount s ;;
           Ok (true, s)
         else Ok (false, s)).
Proof.
  unfold select_optimal_outputs_inner, large_dust_step. cbn [Z.eqb].
  destruct (used_total s <? total_amount); [|reflexivity].
  destruct (om_lower_bound _ _) as [duit|]; [|reflexivity].
  destruct (take_dust duit s) as [s1| | |]; reflexivity.
Qed.

Lemma om_lower_bound_spec {V : Type} (k : Z) (m : omap V) :
  om_sorted m ->
  match om_lower_bound k m with
  | Some e => In e m /\ k <= fst e
              /\ Forall (fun e' => k <= fst e' -> fst e <= fst e') m
  | None => Forall (fun e' => fst e' < k) m
  end.
Proof.
  induction m as [|[k' v] m IH]; intros Hs; cbn [om_lower_bound].
  - constructor.
  - destruct Hs as [Ha Hs]. cbn [fst] in Ha.
    destruct (Z.leb_spec k k') as [Hle|Hgt].
    + split; [now left|]. split; [exact Hle|].
      constructor; [cbn [fst]; lia|].
      eapply Forall_impl; [|exact Ha]. cbv beta. cbn [fst]. intros e' H _. lia.
    + specialize (IH Hs). destruct (om_lower_bound k m) as [e|].
      * destruct IH as (Hin & Hk & Hall).
        split; [now right|]. split; [exact Hk|].
        constructor; [cbn [fst]; lia | exact Hall].
      * constructor; [exact Hgt | exact IH].
Qed.

(** What holds of the keys of a dust map holds of the amounts of its coins. *)
Lemma keyed_dust_Forall (P : Z -> Prop) (dust : DustCoins) :
  stacks_all keyed_dust dust ->
  Forall (fun e => P (fst e)) dust ->
  Forall (fun r => P (api.amount r)) (dust_list dust).
Proof.
  unfold stacks_all, dust_list.
  induction dust as [|[a st] dust IH]; intros Hq Hk; cbn [map concat].
  - constructor.
  - inversion Hq as [|? ? Hq1 Hq2]; subst. inversion Hk as [|? ? Hk1 Hk2]; subst.
    apply Forall_app. split; [|now apply IH].
    cbn [fst snd] in *. eapply Forall_impl; [|exact Hq1].
    intros un [-> _]. exact Hk1.
Qed.

(** X19.  Without a ring and below the total, the private
    [select_optimal_outputs] first looks for one dust coin that covers the
    rest: it takes the last coin of the dust stack with the smallest amount
    that is at least [total_amount - m_used_total], so that no dust coin
    that covers the rest is smaller; the total is then reached (when the
    sum does not wrap) and the fill with dust coins that follows takes
    nothing.  When every dust coin is below the rest, nothing is taken. *)
Theorem large_dust_coin_covers (total_amount : Z) (s : Sel) :
  sorted_ok s -> nonempty_ok s ->
  stacks_all keyed_dust (dust_coins s) ->
  0 <= used_total s < total_amount -> total_amount < 2 ^ 64 ->
  (large_dust_step total_amount s = Ok s
   /\ Forall (fun r => api.amount r < total_amount - used_total s)
             (dust_list (dust_coins s)))
  \/ exists (un : api.Output) (s' : Sel),
       large_dust_step total_amount s = Ok s'
       /\ this s' = use_unspent un (this s)
       /\ have_coins s' = have_coins s
       /\ Permutation (dust_list (dust_coins s)) (un :: dust_list (dust_coins s'))
       /\ total_amount - used_total s <= api.amount un
       /\ Forall (fun r => total_amount - used_total s <= api.amount r ->
                           api.amount un <= api.amount r)
                 (dust_list (dust_coins s))
       /\ (used_total s + api.amount un < 2 ^ 64 ->
           total_amount <= used_total s'
           /\ forall count,
                dust_fill_loop count total_amount s' = Ok (count, s')).
Proof.
  intros Hs Hn Hq Hu Ht.
  unfold large_dust_step.
  destruct (Z.ltb_spec (used_total s) total_amount) as [_|Hge]; [|lia].
  rewrite u64_small by lia.
  pose proof (om_lower_bound_spec (total_amount - used_total s) (dust_coins s)
                (proj2 Hs)) as Hlb.
  destruct (om_lower_bound (total_amount - used_total s) (dust_coins s))
    as [duit|].
  - right. destruct Hlb as (Hin & Hk & Hmin).
    assert (Hst : snd duit <> []).
    { destruct Hn as [_ Hd]. unfold stacks_nonempty in Hd.
      rewrite Forall_forall in Hd. exact (Hd _ Hin). }
    destruct (take_dust_defined duit s Hst) as (un & Hb & Htake).
    destruct (dust_pop_spec _ _ _ (proj2 Hs) Hin Hb) as (_ & _ & Hp & HQ).
    destruct (HQ _ Hq) as [_ [Ea _]].
    exists un, (mkSel (use_unspent un (this s)) (have_coins s)
                      (dust_pop duit (dust_coins s))).
    split; [exact Htake|]. split; [reflexivity|]. split; [reflexivity|].
    split; [exact Hp|].
    split; [lia|].
    split.
    { rewrite Ea.
      exact (keyed_dust_Forall
               (fun k => total_amount - used_total s <= k -> fst duit <= k)
               _ Hq Hmin). }
    intros Hfit.
    assert (Hcov : total_amount
                   <= used_total (mkSel (use_unspent un (this s)) (have_coins s)
                                        (dust_pop duit (dust_coins s)))).
    { unfold used_total in *. cbn [this m_used_total use_unspent].
      rewrite u64_small by lia. lia. }
    split; [exact Hcov|].
    intros count. destruct count as [|count]; cbn [dust_fill_loop]; [reflexivity|].
    apply Z.ltb_ge in Hcov. now rewrite Hcov.
  - left. split; [reflexivity|].
    exact (keyed_dust_Forall (fun k => k < total_amount - used_total s) _ Hq Hlb).
Qed.

(* ================================================================== *)
(** * The builder: more examples *)

Lemma add_output_sequence_witness :
  let outs := [(250, mkAddress ["001"%byte] ["002"%byte]);
               (40, mkAddress ["007"%byte] ["008"%byte])] in
  let r := add_outputs outs toy_builder2 in
  snd r = [0; 1]%nat
  /\ m_output_descs (fst r)
     = m_output_descs toy_builder2
       ++ map (fun out => OutputDesc.make (fst out) (snd out)) outs
  /\ m_outputs_amount (fst r) = 290
  /\ m_input_descs (fst r) = m_input_descs toy_builder2
  /\ m_inputs_amount (fst r) = m_inputs_amount toy_builder2
  /\ m_transaction (fst r) = m_transaction toy_builder2
  /\ m_extra (fst r) = m_extra toy_builder2.
Proof.
  cbv zeta.
  apply (add_output_sequence
           [(250, mkAddress ["001"%byte] ["002"%byte]);
            (40, mkAddress ["007"%byte] ["008"%byte])] toy_builder2).
  vm_compute. split; [discriminate | reflexivity].
Defined.

Lemma add_input_ring_members_witness :
  let real := owned 100 7 "005" in
  let mix := [decoy 100 9; decoy 100 5] in
  let b' := fst (add_input toy_keys real mix toy_builder) in
  exists desc,
    m_input_descs b' = m_input_descs toy_builder ++ [desc]
    /\ 0%nat = length (m_input_descs toy_builder)
    /\ Permutation (desc_outputs desc) (real :: mix)
    /\ gi_sorted (desc_outputs desc)
    /\ nth_error (desc_outputs desc) (real_output_index desc) = Some real
    /\ length (desc_outputs desc) = 3%nat
    /\ output_indexes (input desc)
       = map (rel_at (map api.global_index (desc_outputs desc)))
             (seq 0 (length (desc_outputs desc)))
    /\ length (output_indexes (input desc)) = 3%nat
    /\ Forall (fun o => api.amount o = api.amount real) (desc_outputs desc)
    /\ amount (input desc) = api.amount real
    /\ key_image (input desc) = api.key_image real
    /\ generate_key_image_helper toy_keys (api.transaction_public_key real)
         (api.index_in_transaction real)
       = Some (eph_keys desc, api.key_image real)
    /\ m_inputs_amount b' = u64 (m_inputs_amount toy_builder + api.amount real)
    /\ m_output_descs b' = m_output_descs toy_builder
    /\ m_outputs_amount b' = m_outputs_amount toy_builder
    /\ m_transaction b' = m_transaction toy_builder
    /\ m_extra b' = m_extra toy_builder.
Proof.
  cbv zeta.
  apply (@add_input_ring_members toy_crypto toy_keys (owned 100 7 "005")
           [decoy 100 9; decoy 100 5] toy_builder
           (fst (add_input toy_keys (owned 100 7 "005")
                   [decoy 100 9; decoy 100 5] toy_builder)) 0%nat).
  vm_compute. reflexivity.
Defined.

Lemma toy_signed_run :
  @sign toy_crypto toy_tools (fun _ => 0%nat) (fun _ => 0%nat) ["009"%byte]
        toy_builder3 = Ok toy_signed.
Proof. vm_compute. reflexivity. Qed.

Lemma sign_transaction_shape_witness :
  let b := toy_builder3 in
  let tx := toy_signed in
  let ins := shuffle (fun _ => 0%nat) (m_input_descs b) in
  let outs := shuffle (fun _ => 0%nat) (m_output_descs b) in
  let r := @hash_to_scalar toy_crypto
             (@inputs_hash toy_tools (inputs tx) ++ ["009"%byte]) in
  let prefix := set_tx_signatures (signatures (m_transaction b)) tx in
  version tx = version (m_transaction b)
  /\ tx_unlock_time tx = tx_unlock_time (m_transaction b)
  /\ inputs tx = map InputKey (map input ins)
  /\ Permutation ins (m_input_descs b)
  /\ Permutation outs (m_output_descs b)
  /\ map TransactionOutput.amount (outputs tx) = map OutputDesc.amount outs
  /\ (forall n d, nth_error outs n = Some d ->
        exists k,
          @TransactionBuilder_derive_public_key toy_crypto (OutputDesc.addr d) r
            (Z.of_nat n) = Some k
          /\ nth_error (outputs tx) n
             = Some (TransactionOutput.make (OutputDesc.amount d) (mkKeyOutput k)))
  /\ extra tx
     = @serialize_extra toy_tools
         (mkExtra (Some (@secret_key_to_public_key toy_crypto r))
                  (extra_nonce (m_extra b)))
  /\ length (signatures tx) = length (inputs tx)
  /\ (forall n desc, nth_error ins n = Some desc ->
        exists s,
          @generate_ring_signature toy_crypto
            (@get_transaction_prefix_hash toy_tools prefix)
            (key_image (input desc)) (map api.public_key (desc_outputs desc))
            (secret_key (eph_keys desc)) (real_output_index desc) = Some s
          /\ nth_error (signatures tx) n = Some s).
Proof.
  cbv zeta.
  apply (@sign_transaction_shape toy_crypto toy_tools (fun _ => 0%nat)
           (fun _ => 0%nat) ["009"%byte] toy_builder3 toy_signed).
  exact toy_signed_run.
Defined.

(** An output to an address without a view key stops [sign]. *)
Lemma sign_failures_witness :
  @sign toy_crypto toy_tools (fun _ => 0%nat) (fun _ => 0%nat) ["009"%byte]
        toy_builder_bad
  = Throw "output keys detected as corrupted during output key derivation".
Proof.
  apply (proj2 (proj2 (proj2 (proj2
           (@sign_failures toy_crypto toy_tools (fun _ => 0%nat)
              (fun _ => 0%nat) ["009"%byte] toy_builder_bad))))).
  exists 0%nat, (OutputDesc.make 250 (mkAddress ["001"%byte] [])).
  split; vm_compute; reflexivity.
Defined.

(** The ring of the output 7 of the amount 100: the node's output 7 is the
    real one and is left out, the outputs 3 and 5 join it. *)
Lemma add_mixed_inputs_rings_witness :
  let b := toy_builder in
  let u := toy_selected1 in
  let b' := fst (add_mixed_inputs toy_view_secret toy_records b 2
                   toy_ra_outputs u) in
  exists descs,
    m_input_descs b' = m_input_descs b ++ descs
    /\ Forall2 (ring_of 2) (m_used_unspents u) descs
    /\ m_inputs_amount b'
       = u64 (m_inputs_amount b + sum_amounts (m_used_unspents u))
    /\ m_output_descs b' = m_output_descs b
    /\ m_outputs_amount b' = m_outputs_amount b
    /\ m_transaction b' = m_transaction b
    /\ m_extra b' = m_extra b.
Proof.
  cbv zeta.
  apply (@add_mixed_inputs_rings toy_crypto toy_strings toy_view_secret toy_records
           toy_builder
           (fst (add_mixed_inputs toy_view_secret toy_records toy_builder 2
                   toy_ra_outputs toy_selected1))
           2%nat toy_ra_outputs toy_selected1).
  - vm_compute. split; [discriminate | reflexivity].
  - vm_compute. reflexivity.
Defined.

(** The node knows no output of the amount 200: the call fails at the
    second unspent, with the amount in the text of the exception, and the
    input of the first stays in the builder. *)
Lemma add_mixed_inputs_failure_witness :
  let r := add_mixed_inputs toy_view_secret toy_records toy_builder 2
             toy_ra_outputs toy_selected in
  let e := runtime_error "Not enough anonymity for amount 200" in
  snd r = Throw e
  /\ exists descs uu,
       nth_error (m_used_unspents toy_selected) (length descs) = Some uu
       /\ add_mixed_inputs_error uu e
       /\ m_input_descs (fst r) = m_input_descs toy_builder ++ descs
       /\ (length descs < length (m_used_unspents toy_selected))%nat
       /\ Forall2 (ring_of 2)
                  (firstn (length descs) (m_used_unspents toy_selected)) descs
       /\ m_output_descs (fst r) = m_output_descs toy_builder
       /\ m_outputs_amount (fst r) = m_outputs_amount toy_builder.
Proof.
  cbv zeta.
  assert (Hrun : snd (add_mixed_inputs toy_view_secret toy_records toy_builder 2
                        toy_ra_outputs toy_selected)
                 = Throw (runtime_error "Not enough anonymity for amount 200"))
    by (vm_compute; reflexivity).
  split; [exact Hrun|].
  apply (proj2 (proj2
           (@add_mixed_inputs_failure toy_crypto toy_strings toy_view_secret
              toy_records toy_builder 2%nat toy_ra_outputs toy_selected
              ltac:(vm_compute; split; [discriminate | reflexivity])))).
  exact Hrun.
Defined.

(** Without a response of the node the call fails at the first unspent, of
    the amount 100. *)
Lemma add_mixed_inputs_not_enough_witness :
  add_mixed_inputs toy_view_secret toy_records toy_builder 1 [] toy_selected
  = (toy_builder,
     Throw (runtime_error ("Not enough anonymity for amount "
                           ++ to_string (api.amount (owned 100 7 "005")))%string))
  /\ to_string (api.amount (owned 100 7 "005")) = "100".
Proof.
  split; [|vm_compute; reflexivity].
  apply (@add_mixed_inputs_not_enough toy_crypto toy_strings toy_view_secret
           toy_records toy_builder 1%nat [] toy_selected
           (owned 100 7 "005") [owned 200 9 "006"]).
  - reflexivity.
  - vm_compute. lia.
Defined.

(* ================================================================== *)
(** * The selector: more examples *)

Lemma digit_of_leading_digit_witness :
  let '(digit, am) := digit_of 1234 in
  0 <= am <= 9
  /\ am * 10 ^ Z.of_nat digit <= 1234 < (am + 1) * 10 ^ Z.of_nat digit
  /\ (1 <= 1234 -> 1 <= am)
  /\ (1234 < 2 ^ 64 -> (digit <= 19)%nat).
Proof.
  apply (digit_of_leading_digit 1234). lia.
Defined.

Lemma selection_example_run_ok :
  @select_optimal_outputs toy_tools 0 0 100 100000 0 700 1 1 "" 5
                          selection_example
  = Ok ("", Some 160, selection_example_result).
Proof. vm_compute. reflexivity. Qed.

Lemma selected_outputs_are_spendable_witness :
  let u := selection_example in
  let u' := selection_example_result in
  (exists rest, Permutation (m_used_unspents u' ++ rest) (m_unspents u))
  /\ Forall (fun un => spendable (m_currency u) 0 0 100 un = true)
            (m_used_unspents u')
  /\ (0 <> 0 ->
      Forall (fun un => is_dust (m_currency u) (api.amount un) = false)
             (m_used_unspents u'))
  /\ m_inputs_count u' = Z.of_nat (length (m_used_unspents u'))
  /\ m_ra_amounts u' = m_ra_amounts u ++ map api.amount (m_used_unspents u')
  /\ m_optimization_unspents u' = []
  /\ m_unspents u' = m_unspents u.
Proof.
  cbv zeta.
  apply (@selected_outputs_are_spendable toy_tools 0 0 100 100000 0 700 1 1 ""
           5 selection_example selection_example_result (Some 160)).
  - exact selection_pool_ok.
  - exact selection_example_fresh.
  - vm_compute. reflexivity.
  - exact selection_example_run_ok.
Defined.



(** For the target 997 the loop starts at the units, which need a 7: no
    two of the stacks of 3 and of 7 give it, and the last coin of the stack
    of 7 is taken. *)
Lemma optimize_amounts_single_coin_witness :
  let s := rounding_example in
  let st := snd (nth 1 (om_at 0 (have_coins s)) (0, [])) in
  exists un s',
    back st = Some un
    /\ optimize_digit (Z.of_nat 0) 1 997 s = Ok s'
    /\ picked_from_have un s s'.
Proof.
  cbv zeta.
  assert (Hused : used_total rounding_example = 0) by reflexivity.
  destruct (optimize_amounts_single_coin 0 0 997 1 rounding_example
              rounding_example (om_at 0 (have_coins rounding_example)))
    as (_ & Hexact & _).
  - exact (comes_to_first 997 rounding_example).
  - exact (le_n 0).
  - rewrite Hused. lia.
  - exact rounding_example_sorted.
  - exact rounding_example_nonempty.
  - vm_compute. reflexivity.
  - vm_compute. repeat constructor; discriminate.
  - intros a b Ha Hb [Hsum _].
    vm_compute in Ha, Hb.
    destruct Ha as [<-|[<-|[]]]; destruct Hb as [<-|[<-|[]]];
      vm_compute in Hsum; discriminate.
  - vm_compute. discriminate.
  - apply Hexact. vm_compute. right. left. reflexivity.
Defined.

Lemma rounding_pool_amounts :
  Forall (fun un => 0 <= api.amount un < 2 ^ 64) rounding_pool.
Proof.
  unfold rounding_pool. constructor.
  - cbn [api.amount coin]. lia.
  - apply Forall_forall. intros un Hun. apply in_map_iff in Hun.
    destruct Hun as (i & <- & _). cbn [api.amount coin]. lia.
Qed.

Lemma rounding_example_filed :
  have_all filed_have (have_coins rounding_example).
Proof.
  apply have_all_and.
  - exact (have_all_impl _ _ _ (fun d k un H => proj1 H)
             (proj1 rounding_example_placed)).
  - apply have_all_list.
    pose proof (create_have_coins_spec 0 0 1
                  (UnspentSelector_new toy_currency rounding_pool)) as H.
    unfold rounding_example.
    destruct (create_have_coins 0 0 1
                (UnspentSelector_new toy_currency rounding_pool))
      as [[have dust] md].
    destruct H as (_ & _ & _ & _ & _ & _ & Hperm & _).
    cbn [have_coins].
    eapply Permutation_Forall; [apply Permutation_sym, Hperm|].
    unfold have_pool. apply Forall_forall. intros un Hun.
    apply filter_In in Hun as [Hun _].
    pose proof rounding_pool_amounts as Hall.
    rewrite Forall_forall in Hall. exact (Hall un Hun).
Qed.

(** To cover 5 the search passes the stack of 3 and takes a coin of 7. *)
Lemma large_coin_covers_witness :
  let s := rounding_example in
  let s' := match large_coin_loop 1 0 1 5 s with Ok s' => s' | _ => s end in
  (s' = s
   /\ none_covers_before (have_coins s) 0 (5 - used_total s)
        (fun d' _ => (d' <= 0)%nat))
  \/ (exists (d : nat) (k : Z) (stacks : omap (list api.Output))
             (st : list api.Output) (un : api.Output),
        (d <= 0)%nat
        /\ om_find (Z.of_nat d) (have_coins s) = Some stacks
        /\ In (k, st) stacks
        /\ back st = Some un
        /\ 5 - used_total s <= k * 10 ^ Z.of_nat d <= api.amount un
        /\ picked_from_have un s s'
        /\ (used_total s + api.amount un < 2 ^ 64 -> 5 <= used_total s')
        /\ none_covers_before (have_coins s) 0 (5 - used_total s)
             (fun d' k' => (d' < d)%nat \/ (d' = d /\ k' < k))).
Proof.
  cbv zeta.
  apply (large_coin_covers 0 5 rounding_example).
  - exact rounding_example_sorted.
  - exact rounding_example_nonempty.
  - exact rounding_example_filed.
  - lia.
  - vm_compute. split; [discriminate | reflexivity].
  - lia.
  - vm_compute. reflexivity.
Defined.

Lemma tall_example_sorted : sorted_ok tall_example.
Proof. cbv. repeat first [split | constructor | reflexivity]. Qed.

Lemma tall_example_nonempty : nonempty_ok tall_example.
Proof. cbv. repeat first [split | constructor | discriminate]. Qed.

(** With a count of 25 the loop takes ten of the twenty-five coins of 5
    and stops at the stack of fifteen. *)
Lemma stack_compaction_witness :
  let s := tall_example in
  exists (count' : nat) (s' : Sel) (picks : list api.Output),
    stack_loop 25 25 s = Ok (count', s')
    /\ optimization_unspents s' = optimization_unspents s ++ picks
    /\ (count' + length picks = 25)%nat
    /\ Nat.divide 10 (length picks)
    /\ used_total s' = u64 (used_total s + sum_amounts picks)
    /\ inputs_count s' = u64 (inputs_count s + Z.of_nat (length picks))
    /\ m_used_unspents (this s') = m_used_unspents (this s)
    /\ dust_coins s' = dust_coins s
    /\ Permutation (have_list (have_coins s)) (picks ++ have_list (have_coins s'))
    /\ sorted_ok s' /\ nonempty_ok s'
    /\ ((count' < 10)%nat
        \/ stacks_at_most STACK_OPTIMIZATION_THRESHOLD (have_coins s')).
Proof.
  cbv zeta.
  apply (stack_compaction 25 tall_example).
  - exact tall_example_sorted.
  - exact tall_example_nonempty.
  - vm_compute. split; [discriminate | reflexivity].
  - vm_compute. split; [discriminate | reflexivity].
Defined.

Lemma dusty_example_sorted : sorted_ok dusty_example.
Proof. cbv. repeat first [split | constructor | reflexivity]. Qed.

Lemma dusty_example_nonempty : nonempty_ok dusty_example.
Proof. cbv. repeat first [split | constructor | discriminate]. Qed.

(** To reach 20 the fill takes the dust coins of 13 and 12 and leaves the
    coin of 11. *)
Lemma dust_fill_largest_first_witness :
  let s := dusty_example in
  exists (count' : nat) (s' : Sel) (picks : list api.Output),
    dust_fill_loop 5 20 s = Ok (count', s')
    /\ optimization_unspents s' = optimization_unspents s ++ picks
    /\ (count' + length picks = 5)%nat
    /\ used_total s' = u64 (used_total s + sum_amounts picks)
    /\ have_coins s' = have_coins s
    /\ Permutation (dust_list (dust_coins s)) (picks ++ dust_list (dust_coins s'))
    /\ StronglySorted (fun a b => api.amount b <= api.amount a) picks
    /\ Forall (fun p => Forall (fun r => api.amount r <= api.amount p)
                               (dust_list (dust_coins s'))) picks
    /\ (forall l1 l2, picks = l1 ++ l2 -> l2 <> [] ->
          u64 (used_total s + sum_amounts l1) < 20)
    /\ (20 <= used_total s' \/ dust_coins s' = [] \/ count' = 0%nat).
Proof.
  cbv zeta.
  apply (dust_fill_largest_first 5 20 dusty_example).
  - exact dusty_example_sorted.
  - exact dusty_example_nonempty.
  - vm_compute. repeat constructor.
  - vm_compute. split; [discriminate | reflexivity].
Defined.

Lemma filler_example_sorted : sorted_ok filler_example.
Proof. cbv. repeat first [split | constructor | reflexivity]. Qed.

Lemma filler_example_nonempty : nonempty_ok filler_example.
Proof. cbv. repeat first [split | constructor | discriminate]. Qed.

Lemma filler_example_round : have_all round_have (have_coins filler_example).
Proof.
  vm_compute have_coins.
  repeat constructor; cbn [fst api.amount]; lia.
Qed.

Lemma filler_example_keyed : stacks_all keyed_dust (dust_coins filler_example).
Proof.
  vm_compute dust_coins.
  repeat constructor; cbn [fst api.amount]; lia.
Qed.

(** To reach 560 the loop takes the coin of 500 and then the coin of 300,
    and leaves the coin of 70 and the dust coin of 11. *)
Lemma filler_takes_largest_witness :
  let s := filler_example in
  exists (covered : bool) (s' : Sel) (picks : list api.Output),
    filler_loop 5 560 0 s = Ok (covered, s')
    /\ optimization_unspents s' = optimization_unspents s ++ picks
    /\ used_total s' = u64 (used_total s + sum_amounts picks)
    /\ Permutation (eligible 0 s) (picks ++ eligible 0 s')
    /\ (0 <> 0 -> dust_coins s' = dust_coins s)
    /\ StronglySorted (fun a b => api.amount b <= api.amount a) picks
    /\ Forall (fun p => Forall (fun r => api.amount r <= api.amount p)
                               (eligible 0 s')) picks
    /\ (forall l1 l2, picks = l1 ++ l2 -> l2 <> [] ->
          u64 (used_total s + sum_amounts l1) < 560)
    /\ (if covered then 560 <= used_total s'
        else used_total s' < 560
             /\ have_coins s' = []
             /\ (0 <> 0 \/ dust_coins s' = [])).
Proof.
  cbv zeta.
  apply (filler_takes_largest 5 560 0 filler_example).
  - exact filler_example_sorted.
  - exact filler_example_nonempty.
  - exact filler_example_round.
  - exact filler_example_keyed.
  - vm_compute. split; [discriminate | reflexivity].
  - vm_compute. lia.
Defined.

Lemma dusty_example_keyed : stacks_all keyed_dust (dust_coins dusty_example).
Proof.
  vm_compute dust_coins.
  repeat constructor; cbn [fst api.amount]; lia.
Qed.

(** Of the dust coins of 11, 12 and 13 the coin of 12 is taken to cover 12. *)
Lemma large_dust_coin_covers_witness :
  let s := dusty_example in
  (large_dust_step 12 s = Ok s
   /\ Forall (fun r => api.amount r < 12 - used_total s)
             (dust_list (dust_coins s)))
  \/ exists (un : api.Output) (s' : Sel),
       large_dust_step 12 s = Ok s'
       /\ this s' = use_unspent un (this s)
       /\ have_coins s' = have_coins s
       /\ Permutation (dust_list (dust_coins s)) (un :: dust_list (dust_coins s'))
       /\ 12 - used_total s <= api.amount un
       /\ Forall (fun r => 12 - used_total s <= api.amount r ->
                           api.amount un <= api.amount r)
                 (dust_list (dust_coins s))
       /\ (used_total s + api.amount un < 2 ^ 64 ->
           12 <= used_total s'
           /\ forall count, dust_fill_loop count 12 s' = Ok (count, s')).
Proof.
  cbv zeta.
  apply (large_dust_coin_covers 12 dusty_example).
  - exact dusty_example_sorted.
  - exact dusty_example_nonempty.
  - exact dusty_example_keyed.
  - vm_compute. split; [discriminate | reflexivity].
  - lia.
Defined.
